(* ===== verification/_CoqProject ===== *)
-Q . S2P
Prelude.v
RecvBuffer.v
PacketSession.v
Session.v
SessionSend.v
SendBuffer.v
PacketHandler.v
Lock.v
Critical.v
LockQueue.v
JobQueue.v
RespondJobs.v
Wire.v
Protocol.v
Packets.v
ProtocolOps.v
Database.v
GuardedOps.v
PoolUse.v
ChatDb.v
ChatServer.v
ChatAuth.v
ChatRooms.v
ChatFlow.v
ChatSpec.v
Dispatch.v
ChatRefine.v
Client.v
ClientProps.v
ChatMisuse.v
ClientDispatch.v
System.v
SystemLogin.v
SystemJoin.v
Network.v
Service.v
ServiceProps.v
Threads.v
Shutdown.v
Startup.v
ChatService.v
ClientStartup.v
DBModel.v
RoomRace.v
LoginRace.v
CreateRace.v
CallbackRace.v
