(* ===== verification/Prelude.v ===== *)
(** * ChattingProgram: a verification library for the chat server and its client

    ** The program

    [src/ServerCore] is a networking and job library on Windows completion
    ports: sessions with receive and send buffers, packet framing, a
    read/write spin lock, lock-protected queues, job queues, and a thin ODBC
    layer with a connection pool.  [src/Server] is the chat server on top of it:
    a worker thread takes a completion, the session cuts packets out of the byte
    stream, the packet handler finds the respondent of a packet by its id, and
    the respondent's job runs SQL statements, updates the rooms and sends
    packets.  [src/Client] is the MFC client.  Messages are protobuf classes
    generated into [Protocol.pb.h] and [Protocol.pb.cc] (the same files in both
    directories).

    ** The files of this library

    - [Prelude]: machine integers ([u8] .. [u64], [i32]) as [Z] with their
      wrap-around; [result] and the state and error monad [M], in which
      [ASSERT_CRASH], null dereferences, out-of-bounds accesses, calls of empty
      functions and endless loops are values ([fault]); bytes, little-endian
      16-bit values, slices of byte lists; the invariant rule for step relations.
    - [RecvBuffer] (RecvBuffer.h, RecvBuffer.cpp): the positions and the bytes of
      the receive buffer and its compaction.
    - [PacketSession] (Session.cpp, [PacketSession::OnRecv]): framing, with the
      callback inside the loop.  The loop has one unit of fuel per byte and one for the final test, which is enough
      whenever every header has a nonzero size; running out of it is a value, so
      divergence can be stated.
    - [Session] (Session.h, Session.cpp): every [Register] and [Process]
      operation of a session over Winsock calls whose results are arguments.
    - [SessionSend] (Session.cpp, [Send], [RegisterSend], [ProcessSend]): the send
      path as a step relation, one step per access to shared state.
    - [SendBuffer] (SendBuffer.h, SendBuffer.cpp): chunks, thread-local chunks, the
      global pool, and buffers that share a chunk, as an explicit store.
    - [PacketHandler] (ClientPacketHandler.h, ServerPacketHandler.h,
      [MakeSendBuffer]): a message as a framed packet in a send buffer.
    - [Lock] (Lock.h, Lock.cpp): the four operations of the spin lock as step
      relations, one step per atomic access.
    - [Critical] (Lock.h, [WriteLockGuard]): any code under a write guard, statement by
      statement over the atomics of [Lock], and its refinement to atomic operations.
    - [LockQueue] (LockQueue.h): both queue templates over a class of items;
      [GuardedOps] has their methods, and those of the connection pool, as bodies
      under their locks.
    - [JobQueue] (Job.h, JobQueue.h, JobQueue.cpp): a job queue under any number
      of threads as a step relation; [RespondJobs] (PacketRespondent.h, Server.cpp): all
      queues and all worker threads.
    - [Wire], [Protocol] (Protocol.pb.h, Protocol.pb.cc): the wire format and
      one module per generated message class; [Packets]: these classes as the
      messages of [PacketHandler]; [ProtocolOps]: the rest of their interface.
    - [Database] (StringUtil.cpp, DBConnection.cpp, DBBind.h,
      DBConnectionPool.cpp): statements, bindings and the pool over an ODBC driver
      that is a parameter ([Odbc]) and may refuse any call; Windows' text conversions are [WinText].
      [PoolUse] (PacketRespondent.h, RoomHandler.cpp, ClientSession.cpp): what the
      worker threads take from the pool.
    - [ChatDb] (the SQL texts of Server/): the statements the server executes
      and, as the class [ChatDb], what the MySQL manual says of them, with an
      instance [mem_chatdb] that shows the laws can hold.
    - [ChatServer] (RoomHandler.cpp, ClientSession.cpp, the respondents): rooms,
      sessions and the job of every respondent on one store.
    - [ChatAuth], [ChatRooms], [ChatFlow]: the theorems about login and
      registration, the invariant of rooms, and the runs of the room operations;
      [ChatMisuse]: requests of users who are in a room already.
    - [ChatSpec]: the abstract chat service, with users, rooms by name and connections
      and nothing else; [ChatRefine]: the relation between its states and the
      server's store, and that every handler implements it; [ChatService]: runs of
      the server from [main] on.
    - [Dispatch] (ClientPacketHandler.h, ClientPacketHandler.cpp): the handler table and the way from a
      packet to its respondent, for framed bytes of any kind.
    - [Client] (Client/: Model.h, ContentsService.h, ServerPacketHandler.cpp, CommandMapper.cpp,
      the handlers, the pages, CMainDialog.cpp): the client's queues of answers, its packet
      handlers, the event map and the event handlers of the three pages, on one
      state that also holds what the user sees; [ClientProps] and [ClientDispatch]
      hold the theorems and the way from a packet to the screen.
    - [System]: one server and any number of clients with the packets between them,
      composed of [Dispatch] and [ClientDispatch]; [SystemLogin] and [SystemJoin]: a login
      and the joining of a room in it.
    - [CallbackRace] (ContentsService.h): the requests of the client under its threads.
    - [Network] (NetAddress.cpp, SocketUtils.cpp): addresses and socket calls, which
      are recorded with their arguments and whose outcomes are a parameter.
    - [Service] (Service.cpp, Listener.cpp, IocpCore.cpp,
      ClientSessionManager.cpp): the service's set of sessions, the accept cycle and
      the dispatch of completions over the sessions of [Session]; the recursion of
      [RegisterAccept] has fuel, and [register_accept_ends] says how much is enough.
      [ServiceProps] holds the invariant and its theorems.
    - [Threads] (ThreadManager.cpp): launching and joining as a step relation;
      [Shutdown] (Client.cpp, Server.cpp): the worker loops and the clean-up.
    - [Startup] (Server.cpp, CoreGlobal.cpp): [main] on the states of the
      components, and the worker loop; [ClientStartup] (Client.cpp): [InitInstance].
    - [RoomRace] (LobbyRespondent.h, RoomRepondent.h, ClientSession.cpp,
      RoomHandler.cpp): one room under concurrent joins, requests to leave and lost
      connections as a step relation, one step per access to shared state; a user has
      two threads, that of its requests and that of its disconnection.  [LoginRace]
      (AuthRespondent.h, ClientSession.cpp) and [CreateRace] (LobbyRespondent.h,
      RoomHandler.cpp, ClientSession.cpp): logins and creations of rooms, with their
      own disconnections, in the same way.
    - [DBModel] (DBModel.h, DBModel.cpp): tables, indexes, procedures and their texts.

    ** What the theorems show

    - The server as a whole: from [main] on it implements the abstract chat service.
      Every sequence of events the service allows is handled and answered as the
      service says, and memory and tables represent the state of the service; so no
      room is ever empty, nobody is in two rooms, and who gets what is decided by
      the service alone.  The events are those of clients that log in first and
      keep to packets that fit; what happens otherwise is under errors below.
    - End to end: a login takes the client from its login page to the lobby exactly
      when the database allows it; when a user joins a room, that client and all in
      the room show the same list of users, that of the database; what a user types reaches the chat of every client in the room and
      no other; in every run the chat lines a client has received are those the
      server sent to it, in order, but for those still on their way.
    - Transport: from its connection on a session posts a receive after every
      completion, and the receive path delivers the packets of the byte stream in
      order and without loss however the kernel splits it into completions of at most
      the posted length; in every interleaving
      the send path hands the accepted buffers to the kernel in order and loses no
      wake-up unless a send is refused; send buffers never change while they are
      live, although they share recycled chunks; however a message was built, its
      presence bits are right, and it survives serialisation, framing and parsing
      (but for the presence of empty fields, which are not written).
    - Concurrency primitives: a write guard excludes every other guard; code under a
      write guard is atomic, so that the lock queues and the connection pool are
      linearizable; at most one thread executes a job queue, jobs run once and in
      order, and no wake-up is lost; the job of a respondent runs in the thread that
      received the packet; thirty connections are enough for eleven threads.
    - Chat: an invariant ties [RoomHandler::_rooms] and the room objects to
      the tables ([server_inv]); creating, joining, leaving, losing the
      connection and chatting return, keep it, and send their packets to exactly
      the sessions concerned; a chat line is also stored in [chat.log]; an account is used by one session at a time.  In
      every interleaving of joins, departures and lost connections a room is
      destroyed only when nobody has a seat in it; no two rooms of one name are
      created, and no two sessions use one account with a nonempty id, however the
      requests interleave.
    - Client: whatever bytes are received and whatever the user does, a connected
      client stops exactly on a request that does not fit a packet, a packet of an id
      without a handler, or a list of rooms with fewer counts than names; chat lines are shown once and in order, from the wire to the screen.
    - Service: whatever the operating system answers and whatever the callbacks of
      the sessions do, the set of sessions and its counter stay right, and a
      completion fails an assertion only inside a callback; thread ids
      are distinct; the server's start brings every component into a state that
      satisfies the invariants the other theorems assume, and so does the client's;
      after the service has been closed the threads end and the clean-up is reached.
    - Errors: the crashes, hangs and losses that the code can run into are
      stated as theorems as well: zero-size headers of known packets, oversized messages, unknown
      packet ids, requests from outside a room, failed statements, a second login
      of a session, a second room and a second join of a user, cut room names, refused sends, delayed jobs, a join that
      overtakes the last departure, a login or a departure that is overtaken by its own
      disconnection, a clean-up that is never reached.

    ** What is not modelled

    The debug build's checks in the lock; the parts of the generated code that the
    program does not use (reflection, arenas, unknown fields); the layout of
    the client's windows and the set-up of MFC; DBSynchronizer, which is commented
    out.  Sessions of the service run their operations one at a time (the
    interleavings inside the send path are in [SessionSend]); the interleavings of
    respondents are modelled by resource: one room, the accounts, the room table, the
    pool, the job queues.  The threads of [Shutdown] take the dispatch of a completion
    and a job to return ([clean_up_waits] says what happens otherwise), and the counter of
    [Lock] does not wrap: fewer than 2^31 read guards are held.  [System] and [ChatService] handle one event at a time. *)

From Stdlib Require Export ZArith Lia.
From Stdlib Require Export Strings.Byte.
From stdpp Require Export base tactics option list gmap strings numbers relations.
From stdpp Require Import functions.

Declare Scope chat_scope.
Delimit Scope chat_scope with chat.
Create HintDb chat.
#[global] Open Scope Z_scope.
#[global] Set Default Goal Selector "!".

(** ** Machine integers

    A value of a C integer type is a [Z]; the conversions below are the
    wrap-around of the unsigned types and the two's complement
    reinterpretation of the signed ones. *)

Definition u8 (z : Z) : Z := z mod 2 ^ 8.
Definition u16 (z : Z) : Z := z mod 2 ^ 16.
Definition u32 (z : Z) : Z := z mod 2 ^ 32.
Definition u64 (z : Z) : Z := z mod 2 ^ 64.
Definition i32 (z : Z) : Z := (z + 2 ^ 31) mod 2 ^ 32 - 2 ^ 31.

Definition UINT16_MAX : Z := 65535.

(** ** Outcomes

    What a piece of C++ can do besides returning: [CRASH]/[ASSERT_CRASH]
    write through a null pointer, a null pointer is dereferenced, an empty
    [std::function] is called, an array is accessed out of bounds, [memcpy]
    is given overlapping regions, a function of the run-time library refuses its
    arguments, or a loop never ends. *)

Inductive fault : Type :=
| AssertCrash
| NullDeref
| BadFunctionCall
| OutOfBounds
| MemcpyOverlap
| InvalidParameter
| Hang.

Inductive result (A : Type) : Type :=
| Ret (a : A)
| Crash (f : fault).
Arguments Ret {A} a.
Arguments Crash {A} f.

#[global] Instance fault_eq_dec : EqDecision fault.
Proof. solve_decision. Defined.
#[global] Instance result_eq_dec `{EqDecision A} : EqDecision (result A).
Proof. solve_decision. Defined.

#[global] Instance result_ret : MRet result := fun A a => Ret a.
#[global] Instance result_bind : MBind result := fun A B k m =>
  match m with Ret a => k a | Crash f => Crash f end.
#[global] Instance result_fmap : FMap result := fun A B g m =>
  match m with Ret a => Ret (g a) | Crash f => Crash f end.

(** [ASSERT_CRASH(expr)] of CoreMacro.h. *)
Definition ASSERT_CRASH (b : bool) : result unit :=
  if b then Ret tt else Crash AssertCrash.

(** [*p] of a pointer that may be null. *)
Definition deref {A} (p : option A) : result A :=
  match p with Some a => Ret a | None => Crash NullDeref end.

Lemma result_bind_ret {A B} (a : A) (k : A → result B) :
  (Ret a ≫= k) = k a.
Proof. done. Qed.

Lemma result_bind_inv {A B} (m : result A) (k : A → result B) b :
  (m ≫= k) = Ret b ↔ ∃ a, m = Ret a ∧ k a = Ret b.
Proof. destruct m; naive_solver. Qed.

Lemma ASSERT_CRASH_Ret b u : ASSERT_CRASH b = Ret u ↔ b = true.
Proof. destruct b, u; naive_solver. Qed.

Lemma deref_Ret {A} (p : option A) a : deref p = Ret a ↔ p = Some a.
Proof. destruct p; naive_solver. Qed.

(** ** A state monad with crashes

    Code that mutates shared objects is a function of the state it mutates;
    [a] is what it returns. *)

Definition M (S A : Type) : Type := S → result (A * S).

#[global] Instance M_ret S : MRet (M S) := fun A a s => Ret (a, s).
#[global] Instance M_bind S : MBind (M S) := fun A B k m s =>
  match m s with Ret (a, s') => k a s' | Crash f => Crash f end.

Definition get {S} : M S S := fun s => Ret (s, s).
Definition gets {S A} (f : S → A) : M S A := fun s => Ret (f s, s).
Definition modify {S} (f : S → S) : M S unit := fun s => Ret (tt, f s).
Definition crash {S A} (f : fault) : M S A := fun _ => Crash f.
Definition lift {S A} (m : result A) : M S A := fun s =>
  match m with Ret a => Ret (a, s) | Crash f => Crash f end.
Definition assert_crash {S} (b : bool) : M S unit := lift (ASSERT_CRASH b).
Definition when {S} (b : bool) (m : M S unit) : M S unit :=
  if b then m else mret tt.

Lemma M_bind_inv {S A B} (m : M S A) (k : A → M S B) s r :
  (m ≫= k) s = Ret r ↔ ∃ a s', m s = Ret (a, s') ∧ k a s' = Ret r.
Proof.
  unfold mbind, M_bind. destruct (m s) as [[a s']|f]; naive_solver.
Qed.

Lemma M_bind_step {S A B} (m : M S A) (k : A → M S B) s a s' :
  m s = Ret (a, s') → (m ≫= k) s = k a s'.
Proof. unfold mbind, M_bind. by intros ->. Qed.

Lemma bind_ok {S A B} (m : M S A) (k : A → M S B) s a s' r : m s = Ret (a, s') → k a s' = r → (m ≫= k) s = r.
Proof. intros E <-. exact (M_bind_step _ _ _ _ _ E). Qed.

(** Equations that run a computation one operation at a time. *)
Section run.
Context {S A B : Type}.
Implicit Types s : S.

Lemma bind_get (k : S → M S B) s : (get ≫= k) s = k s s.
Proof. done. Qed.
Lemma bind_gets (f : S → A) (k : A → M S B) s : (gets f ≫= k) s = k (f s) s.
Proof. done. Qed.
Lemma bind_modify (f : S → S) (k : unit → M S B) s : (modify f ≫= k) s = k tt (f s).
Proof. done. Qed.
Lemma bind_mret (a : A) (k : A → M S B) s : (mret a ≫= k) s = k a s.
Proof. done. Qed.
Lemma bind_lift (a : A) (k : A → M S B) s : (lift (Ret a) ≫= k) s = k a s.
Proof. done. Qed.
Lemma bind_crash f (k : A → M S B) s : (crash f ≫= k) s = Crash f.
Proof. done. Qed.
Lemma bind_lift_crash f (k : A → M S B) s : (lift (Crash f) ≫= k) s = Crash f.
Proof. done. Qed.
Lemma bind_assoc {C} (m : M S A) (k : A → M S B) (k' : B → M S C) s :
  ((m ≫= k) ≫= k') s = (m ≫= λ a, k a ≫= k') s.
Proof. unfold mbind, M_bind. by destruct (m s) as [[? ?]|]. Qed.
Lemma when_true (m : M S unit) : when true m = m.
Proof. done. Qed.
Lemma when_false (m : M S unit) : when false m = mret tt.
Proof. done. Qed.
Lemma lift_deref_Some (a : A) : lift (S := S) (deref (Some a)) = lift (Ret a).
Proof. done. Qed.
Lemma assert_crash_true : assert_crash (S := S) true = lift (Ret tt).
Proof. done. Qed.
Lemma assert_crash_false : assert_crash (S := S) false = lift (Crash AssertCrash).
Proof. done. Qed.
End run.

Create Rewrite HintDb run.
#[export] Hint Rewrite @bind_get @bind_gets @bind_modify @bind_mret @bind_lift @bind_crash
  @bind_lift_crash @bind_assoc @when_true @when_false @lift_deref_Some
  @assert_crash_true @assert_crash_false : run.

(** ** Postconditions

    [wp E m s Q]: run from [s], [m] returns with a result and a state in [Q],
    or crashes with a fault in [E]. *)

Definition wp {S A} (E : fault → Prop) (m : M S A) (s : S) (Q : A → S → Prop) : Prop :=
  match m s with Ret (a, s') => Q a s' | Crash f => E f end.

Section wp.
Context {S : Type} (E : fault → Prop).
Implicit Types s : S.

Lemma wp_bind {A B} (m : M S A) (k : A → M S B) s Q :
  wp E m s (λ a s', wp E (k a) s' Q) → wp E (m ≫= k) s Q.
Proof. unfold wp, mbind, M_bind. by destruct (m s) as [[a s']|f]. Qed.

Lemma wp_mono {A} (m : M S A) s (P Q : A → S → Prop) :
  wp E m s P → (∀ a s', P a s' → Q a s') → wp E m s Q.
Proof. unfold wp. destruct (m s) as [[a s']|f]; eauto. Qed.

Lemma wp_ret {A} (a : A) s (Q : A → S → Prop) : Q a s → wp E (mret a) s Q.
Proof. done. Qed.

Lemma wp_get s Q : Q s s → wp E get s Q.
Proof. done. Qed.

Lemma wp_gets {A} (f : S → A) s Q : Q (f s) s → wp E (gets f) s Q.
Proof. done. Qed.

Lemma wp_modify (f : S → S) s Q : Q tt (f s) → wp E (modify f) s Q.
Proof. done. Qed.

Lemma wp_crash {A} f s (Q : A → S → Prop) : E f → wp E (crash f) s Q.
Proof. done. Qed.

Lemma wp_lift {A} (r : result A) a s (Q : A → S → Prop) : r = Ret a → Q a s → wp E (lift r) s Q.
Proof. by intros ->. Qed.

Lemma wp_assert b s (Q : unit → S → Prop) : b = true → Q tt s → wp E (assert_crash b) s Q.
Proof. by intros ->. Qed.

Lemma wp_assert_or b s (Q : unit → S → Prop) :
  (b = true → Q tt s) → (b = false → E AssertCrash) → wp E (assert_crash b) s Q.
Proof. destruct b; intros Ht Hf; [by apply Ht|by apply Hf]. Qed.

Lemma wp_when b (m : M S unit) s (Q : unit → S → Prop) :
  (b = true → wp E m s Q) → (b = false → Q tt s) → wp E (when b m) s Q.
Proof. destruct b; intros Ht Hf; [by apply Ht|by apply Hf]. Qed.

Lemma wp_if {A} (b : bool) (m k : M S A) s Q :
  (b = true → wp E m s Q) → (b = false → wp E k s Q) → wp E (if b then m else k) s Q.
Proof. destruct b; eauto. Qed.

(** What a [wp] says of a run without permitted faults. *)
Lemma wp_total {A} (m : M S A) s Q :
  wp (λ _, False) m s Q → ∃ a s', m s = Ret (a, s') ∧ Q a s'.
Proof. unfold wp. destruct (m s) as [[a s']|f]; naive_solver. Qed.
End wp.

(** ** What a computation does to the state, whatever it returns

    [moves R m]: when [m] returns, its final state is [R]-after the first one. *)

Definition moves {S A} (R : relation S) (m : M S A) : Prop := ∀ s a s', m s = Ret (a, s') → R s s'.

Section moves.
Context {S : Type} (R : relation S) `{!PreOrder R}.

Lemma moves_ret {A} (a : A) : moves R (mret a).
Proof. intros s b s' [= _ <-]. reflexivity. Qed.

Lemma moves_bind {A B} (m : M S A) (k : A → M S B) : moves R m → (∀ a, moves R (k a)) → moves R (m ≫= k).
Proof. intros Hm Hk s b s' (a & s1 & E1 & E2)%M_bind_inv. etrans; [by eapply Hm|by eapply Hk]. Qed.

Lemma moves_get : moves R get.
Proof. intros s b s' [= _ <-]. reflexivity. Qed.

Lemma moves_gets {A} (f : S → A) : moves R (gets f).
Proof. intros s b s' [= _ <-]. reflexivity. Qed.

Lemma moves_modify (f : S → S) : (∀ s, R s (f s)) → moves R (modify f).
Proof. intros Hf s b s' [= _ <-]. apply Hf. Qed.

Lemma moves_crash {A} f : moves R (crash (A := A) f).
Proof. done. Qed.

Lemma moves_lift {A} (r : result A) : moves R (lift r).
Proof. intros s b s'. unfold lift. destruct r; [intros [= _ <-]; reflexivity|done]. Qed.

Lemma moves_when b (m : M S unit) : moves R m → moves R (when b m).
Proof. intros Hm. destruct b; [done|apply moves_ret]. Qed.

Lemma moves_assert b : moves R (assert_crash b).
Proof. apply moves_lift. Qed.
End moves.

Create HintDb moves.

(** Descends into a computation; what is left are its own operations. *)
Ltac moves_step :=
  lazymatch goal with
  | |- moves _ (let _ := _ in _) => cbv zeta
  | |- moves _ (_ ≫= _) => apply moves_bind; [apply _| |intros ?]
  | |- moves _ (when _ _) => apply moves_when; [apply _|]
  | |- moves _ (mret _) => apply moves_ret; apply _
  | |- moves _ get => apply moves_get; apply _
  | |- moves _ (gets _) => apply moves_gets; apply _
  | |- moves _ (lift _) => apply moves_lift; apply _
  | |- moves _ (assert_crash _) => apply moves_assert; apply _
  | |- moves _ (crash _) => apply moves_crash
  | |- moves _ (if ?b then _ else _) => destruct b
  | |- moves _ (match ?x with _ => _ end) => destruct x
  end.
Ltac moves_run := repeat first [solve [eauto with moves] | moves_step].

(** One rule per operation; [wp_run] applies them until a branch, an
    assertion or the postcondition is left. *)
Ltac wp_step :=
  lazymatch goal with
  | |- wp _ (_ ≫= _) _ _ => apply wp_bind
  | |- wp _ (mret _) _ _ => apply wp_ret
  | |- wp _ get _ _ => apply wp_get
  | |- wp _ (gets _) _ _ => apply wp_gets
  | |- wp _ (modify _) _ _ => apply wp_modify
  | |- wp _ (crash _) _ _ => apply wp_crash
  | |- wp _ (assert_crash _) _ _ => apply wp_assert
  | |- wp _ (when _ _) _ _ => apply wp_when; intros
  | |- wp _ (if _ then _ else _) _ _ => apply wp_if; intros
  end.
Ltac wp_run := repeat (wp_step; cbv beta).

(** ** Bytes and little-endian 16-bit words

    [BYTE] buffers are lists of bytes; [PacketHeader] holds two
    [uint16_t]s, which x86/x64 stores low byte first. *)

#[global] Instance byte_eq_dec : EqDecision byte := byte_eq_dec.

Definition byte_val (b : byte) : Z := Z.of_N (Byte.to_N b).
Definition byte_of_Z (z : Z) : byte :=
  default x00 (Byte.of_N (Z.to_N (u8 z))).

Definition le16_bytes (z : Z) : list byte := [byte_of_Z z; byte_of_Z (z / 256)].
Definition le16_val (b0 b1 : byte) : Z := byte_val b0 + 256 * byte_val b1.

Lemma byte_val_bounds b : 0 ≤ byte_val b < 256.
Proof. unfold byte_val. pose proof (Byte.to_N_bounded b). lia. Qed.

Lemma byte_val_of_Z z : byte_val (byte_of_Z z) = u8 z.
Proof.
  unfold byte_val, byte_of_Z, u8.
  assert (0 ≤ z mod 2 ^ 8 < 256) by (apply Z.mod_pos_bound; lia).
  destruct (Byte.of_N (Z.to_N (z mod 2 ^ 8))) as [b|] eqn:E.
  - apply Byte.to_of_N in E. simpl. rewrite E. lia.
  - apply Byte.of_N_None_iff in E. lia.
Qed.

Lemma le16_val_bounds b0 b1 : 0 ≤ le16_val b0 b1 < 2 ^ 16.
Proof.
  unfold le16_val. pose proof (byte_val_bounds b0).
  pose proof (byte_val_bounds b1). lia.
Qed.

Lemma le16_roundtrip z :
  0 ≤ z < 2 ^ 16 → le16_val (byte_of_Z z) (byte_of_Z (z / 256)) = z.
Proof.
  intros Hz. unfold le16_val. rewrite !byte_val_of_Z. unfold u8.
  change (2 ^ 8) with 256. Z.to_euclidean_division_equations. lia.
Qed.

Lemma length_le16_bytes z : length (le16_bytes z) = 2%nat.
Proof. done. Qed.

(** ** Regions of a buffer

    [slice off len l] is the [len] elements at index [off]; [splice off xs l]
    overwrites the elements at [off] with [xs] (the effect of [memcpy] or of
    the kernel writing into a receive buffer). *)

Definition slice {A} (off len : Z) (l : list A) : list A :=
  take (Z.to_nat len) (drop (Z.to_nat off) l).

Definition splice {A} (off : Z) (xs l : list A) : list A :=
  take (Z.to_nat off) l ++ xs ++ drop (Z.to_nat off + length xs) l.

Definition zlen {A} (l : list A) : Z := Z.of_nat (length l).

Lemma zlen_app {A} (l k : list A) : zlen (l ++ k) = zlen l + zlen k.
Proof. unfold zlen. rewrite length_app. lia. Qed.

Lemma zlen_cons {A} (x : A) l : zlen (x :: l) = 1 + zlen l.
Proof. unfold zlen. simpl. lia. Qed.

Lemma zlen_nil {A} : zlen (@nil A) = 0.
Proof. done. Qed.

Lemma zlen_nonneg {A} (l : list A) : 0 ≤ zlen l.
Proof. unfold zlen. lia. Qed.

Lemma zlen_slice {A} (l : list A) off len :
  0 ≤ off → 0 ≤ len → off + len ≤ zlen l → zlen (slice off len l) = len.
Proof. unfold zlen, slice. intros. rewrite length_take, length_drop. lia. Qed.

Lemma zlen_splice {A} (l xs : list A) off :
  0 ≤ off → off + zlen xs ≤ zlen l → zlen (splice off xs l) = zlen l.
Proof.
  unfold zlen, splice. intros.
  rewrite !length_app, length_take, length_drop. lia.
Qed.

Lemma slice_splice_same {A} (l xs : list A) off :
  0 ≤ off → off + zlen xs ≤ zlen l → slice off (zlen xs) (splice off xs l) = xs.
Proof.
  unfold zlen, slice, splice. intros.
  rewrite drop_app_length' by (rewrite length_take; lia).
  rewrite take_app_length'; [done|lia].
Qed.

Lemma slice_splice_before {A} (l xs : list A) off o n :
  0 ≤ o → 0 ≤ n → o + n ≤ off → off + zlen xs ≤ zlen l →
  slice o n (splice off xs l) = slice o n l.
Proof.
  unfold zlen, slice, splice. intros.
  rewrite drop_app_le by (rewrite length_take; lia).
  rewrite take_app_le by (rewrite length_drop, length_take; lia).
  rewrite skipn_firstn_comm, take_take. f_equal. lia.
Qed.

Lemma slice_splice_after {A} (l xs : list A) off o n :
  0 ≤ off → 0 ≤ n → off + zlen xs ≤ o → off + zlen xs ≤ zlen l →
  slice o n (splice off xs l) = slice o n l.
Proof.
  unfold zlen, slice, splice. intros. f_equal.
  rewrite app_assoc, drop_app_ge by (rewrite length_app, length_take; lia).
  rewrite drop_drop, length_app, length_take. f_equal. lia.
Qed.

Lemma slice_zero {A} (l : list A) off : slice off 0 l = [].
Proof. done. Qed.

Lemma slice_app_split {A} (l : list A) off n m :
  0 ≤ off → 0 ≤ n → 0 ≤ m →
  slice off (n + m) l = slice off n l ++ slice (off + n) m l.
Proof.
  unfold slice. intros.
  rewrite !Z2Nat.inj_add by lia.
  rewrite <-drop_drop, <-take_take_drop. done.
Qed.

Lemma drop_slice {A} (l : list A) off n m :
  0 ≤ off → 0 ≤ m ≤ n →
  drop (Z.to_nat m) (slice off n l) = slice (off + m) (n - m) l.
Proof.
  unfold slice. intros.
  rewrite skipn_firstn_comm, drop_drop. f_equal; [lia|f_equal; lia].
Qed.

Lemma slice_all {A} (l : list A) : slice 0 (zlen l) l = l.
Proof. unfold slice, zlen. rewrite drop_0. apply take_ge. lia. Qed.

Lemma slice_slice {A} (l : list A) off n o m :
  0 ≤ off → 0 ≤ o → 0 ≤ m → o + m ≤ n →
  slice o m (slice off n l) = slice (off + o) m l.
Proof.
  unfold slice. intros.
  rewrite skipn_firstn_comm, drop_drop, take_take.
  f_equal; [lia|f_equal; lia].
Qed.

(** ** Step relations *)

(** An inductive invariant holds in every state reachable from one in which
    it holds. *)
Lemma rtc_invariant {S} (step : relation S) (Inv : S → Prop) s s' :
  (∀ x y, step x y → Inv x → Inv y) → rtc step s s' → Inv s → Inv s'.
Proof. intros Hstep. induction 1; eauto. Qed.

(** ** Automation *)

(** Case analysis on the boolean tests of the code, with the arithmetic
    fact each branch gives. *)
Ltac case_test :=
  repeat match goal with
  | H : context [if ?a <? ?b then _ else _] |- _ => destruct (Z.ltb_spec a b)
  | H : context [if ?a <=? ?b then _ else _] |- _ => destruct (Z.leb_spec a b)
  | H : context [if ?a =? ?b then _ else _] |- _ => destruct (Z.eqb_spec a b)
  | |- context [if ?a <? ?b then _ else _] => destruct (Z.ltb_spec a b)
  | |- context [if ?a <=? ?b then _ else _] => destruct (Z.leb_spec a b)
  | |- context [if ?a =? ?b then _ else _] => destruct (Z.eqb_spec a b)
  end.

(** Inversion of a computation that returned. *)
Ltac inv_ret :=
  repeat match goal with
  | H : (_ ≫= _) = Ret _ |- _ => apply result_bind_inv in H as (? & ? & ?)
  | H : (_ ≫= _) _ = Ret _ |- _ => apply M_bind_inv in H as (? & ? & ? & ?)
  | H : ASSERT_CRASH _ = Ret _ |- _ => apply ASSERT_CRASH_Ret in H
  | H : deref _ = Ret _ |- _ => apply deref_Ret in H
  | H : mret _ _ = Ret _ |- _ => unfold mret, M_ret in H
  | H : Ret _ = Ret _ |- _ => injection H as H
  | H : Crash _ = Ret _ |- _ => discriminate H
  | _ => progress simplify_eq/=
  end.

#[export] Hint Resolve byte_val_bounds le16_val_bounds zlen_nonneg : chat.
#[export] Hint Rewrite @zlen_app @zlen_cons @zlen_nil @app_nil_r : chat.

(** ** Threads that take turns

    [O] names the thread that is in a locked part of its program, if one is;
    thread [s] moves from [p] to [p'] and stays, enters or leaves. *)

Definition hand_over {P} (in_lock : P → bool) (s : nat) (p p' : P) (O O' : option nat) : Prop :=
  in_lock p' = in_lock p ∧ O' = O ∨ in_lock p' = true ∧ O = None ∧ O' = Some s ∨
  in_lock p' = false ∧ in_lock p = true ∧ O' = None.

Lemma owner_move {P} (in_lock : P → bool) (O O' : option nat) (f : nat → P) s p :
  (∀ u, O = Some u ↔ in_lock (f u) = true) → hand_over in_lock s (f s) p O O' →
  ∀ u, O' = Some u ↔ in_lock ((<[s := p]> f) u) = true.
Proof.
  intros HO Hp u. destruct (decide (u = s)) as [->|Hne].
  - rewrite fn_lookup_insert. destruct Hp as [[-> ->]|[(-> & _ & ->)|(-> & _ & ->)]]; [apply HO|done|done].
  - rewrite fn_lookup_insert_ne by done. rewrite <-HO.
    destruct Hp as [[_ ->]|[(_ & -> & ->)|(_ & Hs & ->)]]; [done|naive_solver|]. apply HO in Hs. naive_solver.
Qed.
