(* ===== verification/RecvBuffer.v ===== *)
(** * RecvBuffer: the receive buffer of a session (ServerCore/RecvBuffer.h, .cpp)

    A flat byte array of ten partitions with a read and a write cursor.  The
    kernel writes received bytes at the write cursor, [OnWrite] commits them,
    [OnRead] consumes them and [Clean] moves the cursors back.  The abstract
    view is a byte FIFO, [contents]. *)

From S2P Require Import Prelude.

Module RecvBuffer.

Definition BUFFER_COUNT : Z := 10.

Record t : Type := mk {
  _capacity : Z;
  _bufferSize : Z;
  _readPos : Z;
  _writePos : Z;
  _buffer : list byte
}.

#[global] Instance t_eq_dec : EqDecision t.
Proof. solve_decision. Defined.

Definition with_pos (rb : t) (r w : Z) : t :=
  mk (_capacity rb) (_bufferSize rb) r w (_buffer rb).
Definition with_buffer (rb : t) (b : list byte) : t :=
  mk (_capacity rb) (_bufferSize rb) (_readPos rb) (_writePos rb) b.

(** The constructor. *)
Definition new (bufferSize : Z) : t :=
  let capacity := i32 (bufferSize * BUFFER_COUNT) in
  mk capacity bufferSize 0 0 (replicate (Z.to_nat capacity) x00).

Definition DataSize (rb : t) : Z := _writePos rb - _readPos rb.
Definition FreeSize (rb : t) : Z := _capacity rb - _writePos rb.

(** The bytes a reader sees at [ReadPos()] for a length [n]. *)
Definition ReadPos (rb : t) (n : Z) : list byte := slice (_readPos rb) n (_buffer rb).

(** The kernel stores [bs] at [WritePos()]. *)
Definition WritePos_store (bs : list byte) (rb : t) : t :=
  with_buffer rb (splice (_writePos rb) bs (_buffer rb)).

(** [memcpy] of overlapping regions is undefined. *)
Definition Clean (rb : t) : result t :=
  let dataSize := DataSize rb in
  if dataSize =? 0 then Ret (with_pos rb 0 0)
  else if FreeSize rb <? _bufferSize rb then
    if _readPos rb <? dataSize then Crash MemcpyOverlap
    else Ret (with_pos
                (with_buffer rb (splice 0 (slice (_readPos rb) dataSize (_buffer rb)) (_buffer rb)))
                0 dataSize)
  else Ret rb.

Definition OnRead (numOfBytes : Z) (rb : t) : bool * t :=
  if DataSize rb <? numOfBytes then (false, rb)
  else (true, with_pos rb (_readPos rb + numOfBytes) (_writePos rb)).

Definition OnWrite (numOfBytes : Z) (rb : t) : bool * t :=
  if FreeSize rb <? numOfBytes then (false, rb)
  else (true, with_pos rb (_readPos rb) (_writePos rb + numOfBytes)).

(** ** Invariant *)

Record wf (rb : t) : Prop := {
  wf_size : 0 < _bufferSize rb;
  wf_cap : _capacity rb = _bufferSize rb * BUFFER_COUNT;
  wf_buf : zlen (_buffer rb) = _capacity rb;
  wf_read : 0 ≤ _readPos rb ≤ _writePos rb;
  wf_write : _writePos rb ≤ _capacity rb
}.

(** The byte FIFO a buffer stands for. *)
Definition contents (rb : t) : list byte := ReadPos rb (DataSize rb).

Lemma new_wf n : 0 < n → n * BUFFER_COUNT < 2 ^ 31 → wf (new n).
Proof.
  intros Hn Hb.
  assert (i32 (n * BUFFER_COUNT) = n * BUFFER_COUNT) as E.
  { unfold i32, BUFFER_COUNT in *. rewrite Z.mod_small; lia. }
  split; simpl; rewrite ?E; unfold BUFFER_COUNT in *; try lia.
  unfold zlen. rewrite length_replicate. lia.
Qed.

Lemma contents_new n : contents (new n) = [].
Proof. done. Qed.

Lemma zlen_contents rb : wf rb → zlen (contents rb) = DataSize rb.
Proof.
  intros [? ? ? ? ?]. unfold contents, ReadPos, DataSize. apply zlen_slice; lia.
Qed.

(** ** Refinement: every operation is the FIFO operation *)

(** Receiving [bs] when it fits: [OnWrite] succeeds and appends. *)
Lemma OnWrite_spec bs rb :
  wf rb → zlen bs ≤ FreeSize rb →
  ∃ rb', OnWrite (zlen bs) (WritePos_store bs rb) = (true, rb') ∧ wf rb' ∧
         contents rb' = contents rb ++ bs ∧
         _writePos rb' = _writePos rb + zlen bs ∧
         _readPos rb' = _readPos rb ∧ _bufferSize rb' = _bufferSize rb.
Proof.
  intros [? ? Hbuf ? ?] Hfit. unfold OnWrite, WritePos_store, FreeSize in *. simpl in *.
  pose proof (zlen_nonneg bs). case_test; [lia|].
  eexists. split; [done|].
  assert (zlen (splice (_writePos rb) bs (_buffer rb)) = zlen (_buffer rb)) as Hlen
    by (apply zlen_splice; lia).
  split_and!; simpl; try done.
  - split; simpl; lia.
  - unfold contents, ReadPos, DataSize. simpl.
    replace (_writePos rb + zlen bs - _readPos rb)
      with (_writePos rb - _readPos rb + zlen bs) by lia.
    rewrite slice_app_split by lia. f_equal.
    + apply slice_splice_before; lia.
    + replace (_readPos rb + (_writePos rb - _readPos rb)) with (_writePos rb) by lia.
      apply slice_splice_same; lia.
Qed.

(** Bytes that do not fit are refused and the cursors stay. *)
Lemma OnWrite_overflow n rb : FreeSize rb < n → OnWrite n rb = (false, rb).
Proof. unfold OnWrite. intros. case_test; [done|lia]. Qed.

(** Consuming [n] available bytes drops them from the FIFO. *)
Lemma OnRead_spec n rb :
  wf rb → 0 ≤ n ≤ DataSize rb →
  ∃ rb', OnRead n rb = (true, rb') ∧ wf rb' ∧
         contents rb' = drop (Z.to_nat n) (contents rb) ∧
         _writePos rb' = _writePos rb ∧
         _readPos rb' = _readPos rb + n ∧ _bufferSize rb' = _bufferSize rb.
Proof.
  intros [? ? ? ? ?] Hn. unfold OnRead, DataSize in *. case_test; [lia|].
  eexists. split; [done|]. split_and!; simpl; try done.
  - split; simpl; lia.
  - unfold contents, ReadPos, DataSize; simpl. rewrite drop_slice by lia. f_equal. lia.
Qed.

Lemma OnRead_overflow n rb : DataSize rb < n → OnRead n rb = (false, rb).
Proof. unfold OnRead. intros. case_test; [done|lia]. Qed.

(** [Clean] keeps the FIFO and, when what is left fits in one partition and
    that is less than nine partitions behind the write cursor, the copied
    regions do not overlap and at least one partition is free afterwards. *)
Lemma Clean_spec rb :
  wf rb → DataSize rb ≤ _bufferSize rb →
  ∃ rb', Clean rb = Ret rb' ∧ wf rb' ∧ contents rb' = contents rb ∧
         _bufferSize rb' ≤ FreeSize rb' ∧ _bufferSize rb' = _bufferSize rb.
Proof.
  intros Hwf Hd. pose proof Hwf as [? Hcap Hbuf ? ?].
  unfold Clean, BUFFER_COUNT in *.
  destruct (Z.eqb_spec (DataSize rb) 0) as [E|E].
  { eexists. split; [done|]. split_and!; simpl; try done.
    - split; simpl; unfold BUFFER_COUNT; lia.
    - unfold contents. simpl. by rewrite E.
    - unfold FreeSize. simpl. lia. }
  case_test; [unfold FreeSize, DataSize in *; lia| |exists rb; by split_and!].
  set (d := slice (_readPos rb) _ _).
  assert (zlen d = DataSize rb) as Hdl by (by apply zlen_contents).
  unfold FreeSize, DataSize in *.
  assert (zlen (splice 0 d (_buffer rb)) = zlen (_buffer rb)) as Hlen
    by (apply zlen_splice; lia).
  eexists. split; [done|]. split_and!; simpl; try done.
  - split; simpl; unfold BUFFER_COUNT; lia.
  - change (slice 0 (_writePos rb - _readPos rb - 0) (splice 0 d (_buffer rb)) = d).
    rewrite Z.sub_0_r, <-Hdl. apply slice_splice_same; lia.
  - lia.
Qed.

End RecvBuffer.
