(* ===== verification/PacketSession.v ===== *)
(** * PacketSession: splitting the byte stream into packets
      (ServerCore/Session.h, Session.cpp: PacketHeader, PacketSession::OnRecv)

    [OnRecv] walks over the received bytes and calls the virtual [OnRecvPacket] for
    each complete packet, on a state [S] of its own; the calls cannot change the
    buffer or the lengths the loop works on, and a call that stops the program stops
    the loop.  The callback gets an address and the length [header.size]: here the
    bytes from that address on, of that length but not less than the header, which the
    callbacks read in any case.  The loop has no bound of its own: it runs on fuel,
    and [None] is a run that needs more. *)

From S2P Require Import Prelude.

Module PacketSession.

Record PacketHeader : Type := mkHeader { size : Z; id : Z }.

Definition sizeof_PacketHeader : Z := 4.

(** [reinterpret_cast<PacketHeader*>(&buffer[off])]: two little-endian
    [uint16_t]s. *)
Definition header_at (buffer : list byte) (off : Z) : result PacketHeader :=
  match drop (Z.to_nat off) buffer with
  | b0 :: b1 :: b2 :: b3 :: _ => Ret (mkHeader (le16_val b0 b1) (le16_val b2 b3))
  | _ => Crash OutOfBounds
  end.

Section OnRecv.
Context {S : Type} (OnRecvPacket : list byte → M S unit).

(** One pass of the loop, [dataSize < sizeof(PacketHeader)] comparing
    unsigned. *)
Fixpoint OnRecv_loop (fuel : nat) (buffer : list byte) (len processLen : Z) (s : S) : option (result (Z * S)) :=
  match fuel with
  | O => None
  | Datatypes.S fuel =>
    let dataSize := len - processLen in
    if u64 dataSize <? sizeof_PacketHeader then Some (Ret (processLen, s))
    else match header_at buffer processLen with
         | Crash f => Some (Crash f)
         | Ret header =>
           if dataSize <? size header then Some (Ret (processLen, s))
           else match OnRecvPacket (slice processLen (Z.max (size header) sizeof_PacketHeader) buffer) s with
                | Crash f => Some (Crash f)
                | Ret (_, s') => OnRecv_loop fuel buffer len (processLen + size header) s'
                end
         end
  end.

(** The fuel allows one pass per byte and the final one: enough for every
    run in which each packet has a nonzero size. *)
Definition OnRecv (buffer : list byte) (len : Z) (s : S) : option (result (Z * S)) :=
  OnRecv_loop (Datatypes.S (Z.to_nat len)) buffer len 0 s.

(** The callback on one packet after another. *)
Definition handle_packets (ps : list (list byte)) : M S unit := foldr (λ p k, OnRecvPacket p;; k) (mret tt) ps.
End OnRecv.

(** ** Frames *)

(** The [size] field of the header a byte sequence starts with. *)
Definition packet_size (p : list byte) : Z :=
  match p with b0 :: b1 :: _ => le16_val b0 b1 | _ => 0 end.

Definition packet_id (p : list byte) : Z :=
  match p with _ :: _ :: b2 :: b3 :: _ => le16_val b2 b3 | _ => 0 end.

(** A packet whose header states its length. *)
Definition wf_packet (p : list byte) : Prop :=
  sizeof_PacketHeader ≤ zlen p ∧ packet_size p = zlen p.

(** Bytes from which no packet can be taken yet. *)
Definition partial (l : list byte) : Prop :=
  zlen l < sizeof_PacketHeader ∨ zlen l < packet_size l.

#[global] Instance wf_packet_dec p : Decision (wf_packet p).
Proof. unfold wf_packet. apply _. Defined.
#[global] Instance partial_dec l : Decision (partial l).
Proof. unfold partial. apply _. Defined.

Lemma packet_size_bounds p : 0 ≤ packet_size p < 2 ^ 16.
Proof.
  destruct p as [|b0 [|b1 p]]; simpl; try lia. apply le16_val_bounds.
Qed.

Lemma wf_packet_bounds p : wf_packet p → 4 ≤ zlen p < 2 ^ 16.
Proof.
  intros [? E]. pose proof (packet_size_bounds p). unfold sizeof_PacketHeader in *. lia.
Qed.

Lemma partial_bound l : partial l → zlen l < 2 ^ 16 - 1.
Proof.
  pose proof (packet_size_bounds l). unfold partial, sizeof_PacketHeader. lia.
Qed.

Lemma packet_size_app p k : 2 ≤ zlen p → packet_size (p ++ k) = packet_size p.
Proof. unfold zlen. destruct p as [|b0 [|b1 p]]; simpl; intros; [lia|lia|done]. Qed.

Lemma header_at_app l k :
  4 ≤ zlen k → ∃ i, header_at (l ++ k) (zlen l) = Ret (mkHeader (packet_size k) i).
Proof.
  unfold header_at, zlen. intros Hk. rewrite drop_app_length' by lia.
  destruct k as [|b0 [|b1 [|b2 [|b3 k]]]]; simpl in *; try lia. eauto.
Qed.

Lemma u64_small z : 0 ≤ z < 2 ^ 64 → u64 z = z.
Proof. intros. unfold u64. by apply Z.mod_small. Qed.

(** ** One pass of the loop on a framed buffer *)

Section loop.
Context {St : Type} (OnRecvPacket : list byte → M St unit) (buffer : list byte) (len : Z).
Hypothesis Hlen : zlen buffer = len.
Hypothesis Hbound : len < 2 ^ 31.

Notation OnRecv_loop := (OnRecv_loop OnRecvPacket).

(** Nothing complete is left: the loop stops. *)
Lemma OnRecv_loop_stop fuel pre rest s :
  buffer = pre ++ rest → partial rest →
  OnRecv_loop (S fuel) buffer len (zlen pre) s = Some (Ret (zlen pre, s)).
Proof.
  intros -> Hp. simpl. rewrite zlen_app in *.
  replace (len - zlen pre) with (zlen rest) by lia.
  pose proof (zlen_nonneg rest). pose proof (zlen_nonneg pre).
  rewrite u64_small by lia. unfold sizeof_PacketHeader.
  destruct (Z.ltb_spec (zlen rest) 4); [done|].
  destruct (header_at_app pre rest) as [i ->]; [lia|]. simpl.
  unfold partial, sizeof_PacketHeader in Hp. case_test; [done|lia].
Qed.

(** What the callback is called with. *)
Definition seen (rest : list byte) : list byte := take (Z.to_nat (Z.max (packet_size rest) sizeof_PacketHeader)) rest.

(** A complete packet is handed over and the loop goes on behind it. *)
Lemma OnRecv_loop_pass fuel pre rest s :
  buffer = pre ++ rest → ¬ partial rest →
  OnRecv_loop (S fuel) buffer len (zlen pre) s =
  match OnRecvPacket (seen rest) s with
  | Crash f => Some (Crash f)
  | Ret (_, s') => OnRecv_loop fuel buffer len (zlen pre + packet_size rest) s'
  end.
Proof.
  intros -> Hp. unfold partial, sizeof_PacketHeader in Hp. simpl. rewrite zlen_app in *.
  replace (len - zlen pre) with (zlen rest) by lia.
  pose proof (zlen_nonneg rest). pose proof (zlen_nonneg pre).
  rewrite u64_small by lia. unfold sizeof_PacketHeader.
  destruct (Z.ltb_spec (zlen rest) 4); [lia|].
  destruct (header_at_app pre rest) as [i ->]; [lia|]. simpl. case_test; [lia|].
  unfold seen, sizeof_PacketHeader, slice, zlen. by rewrite drop_app_length' by lia.
Qed.

Lemma OnRecv_loop_packet fuel pre p rest s :
  buffer = pre ++ p ++ rest → wf_packet p →
  OnRecv_loop (S fuel) buffer len (zlen pre) s =
  match OnRecvPacket p s with
  | Crash f => Some (Crash f)
  | Ret (_, s') => OnRecv_loop fuel buffer len (zlen (pre ++ p)) s'
  end.
Proof.
  intros Hb Hp. pose proof (wf_packet_bounds p Hp). destruct Hp as [_ Hp].
  assert (packet_size (p ++ rest) = zlen p) as Hs by (rewrite packet_size_app, Hp; lia).
  rewrite (OnRecv_loop_pass fuel pre (p ++ rest) s Hb).
  - assert (seen (p ++ rest) = p) as ->.
    { unfold seen, sizeof_PacketHeader. rewrite Hs, Z.max_l by lia. unfold zlen. by rewrite take_app_length' by lia. }
    by rewrite Hs, zlen_app.
  - unfold partial, sizeof_PacketHeader. rewrite Hs, zlen_app. pose proof (zlen_nonneg rest). lia.
Qed.

(** Whole packets: what the loop does is what the callback does on each of them. *)
Lemma OnRecv_loop_frames ps fuel pre rest s :
  buffer = pre ++ concat ps ++ rest → Forall wf_packet ps → partial rest →
  (length ps < fuel)%nat →
  OnRecv_loop fuel buffer len (zlen pre) s =
  Some (match handle_packets OnRecvPacket ps s with
        | Ret (_, s') => Ret (zlen (pre ++ concat ps), s')
        | Crash f => Crash f
        end).
Proof.
  revert fuel pre s. induction ps as [|p ps IH]; intros fuel pre s Hb Hps Hr Hf;
    (destruct fuel as [|fuel]; [simpl in Hf; lia|]); simpl in Hb.
  - rewrite OnRecv_loop_stop with (rest := rest) by done. simpl. by rewrite !app_nil_r.
  - inversion_clear Hps as [|? ? Hp Hps'].
    rewrite OnRecv_loop_packet with (p := p) (rest := concat ps ++ rest)
      by (rewrite ?Hb, <-?app_assoc; done).
    unfold handle_packets. simpl. unfold mbind, M_bind. destruct (OnRecvPacket p s) as [[[] s1]|f]; [|done].
    rewrite IH; [|rewrite Hb, <-!app_assoc; done|done|done|simpl in Hf; lia].
    by rewrite <-!app_assoc.
Qed.

(** A header of size zero whose callback returns is consumed forever. *)
Lemma OnRecv_loop_diverges fuel pre rest s :
  buffer = pre ++ rest → 4 ≤ zlen rest → packet_size rest = 0 →
  (∀ s, ∃ s', OnRecvPacket (take 4 rest) s = Ret (tt, s')) →
  OnRecv_loop fuel buffer len (zlen pre) s = None.
Proof.
  intros Hb Hr Hz Hcb. revert s. induction fuel as [|fuel IH]; intros s; [done|].
  rewrite (OnRecv_loop_pass fuel pre rest s Hb) by (unfold partial, sizeof_PacketHeader; lia).
  unfold seen. rewrite Hz. change (Z.to_nat (Z.max 0 sizeof_PacketHeader)) with 4%nat.
  destruct (Hcb s) as [s' ->]. rewrite Z.add_0_r. apply IH.
Qed.

(** A loop that is given whole packets first. *)
Lemma OnRecv_loop_diverges_after ps fuel pre rest s s' :
  buffer = pre ++ concat ps ++ rest → Forall wf_packet ps → 4 ≤ zlen rest → packet_size rest = 0 →
  (∀ s, ∃ s', OnRecvPacket (take 4 rest) s = Ret (tt, s')) → handle_packets OnRecvPacket ps s = Ret (tt, s') →
  OnRecv_loop fuel buffer len (zlen pre) s = None.
Proof.
  revert fuel pre s. induction ps as [|p ps IH]; intros fuel pre s Hb Hps Hr Hz Hcb E.
  - by eapply OnRecv_loop_diverges.
  - destruct fuel as [|fuel]; [done|]. inversion_clear Hps as [|? ? Hp Hps']. simpl in Hb.
    rewrite OnRecv_loop_packet with (p := p) (rest := concat ps ++ rest) by (rewrite ?Hb, <-?app_assoc; done).
    unfold handle_packets in E. simpl in E. apply M_bind_inv in E as ([] & s1 & E1 & E2). rewrite E1.
    apply IH; [rewrite Hb, <-!app_assoc; done|done..].
Qed.

(** On any bytes, with a callback that returns, the loop either stops before bytes
    from which no packet can be taken, or reaches a header of size zero, and then never
    stops. *)
Lemma OnRecv_loop_total fuel pre rest s :
  (∀ p s, ∃ s', OnRecvPacket p s = Ret (tt, s')) → buffer = pre ++ rest → (length rest < fuel)%nat →
  (∃ n s', partial (drop n rest) ∧ (n ≤ length rest)%nat ∧
     OnRecv_loop fuel buffer len (zlen pre) s = Some (Ret (zlen pre + Z.of_nat n, s'))) ∨
  (∃ n, 4 ≤ zlen (drop n rest) ∧ packet_size (drop n rest) = 0 ∧
     ∀ fuel', OnRecv_loop fuel' buffer len (zlen pre) s = None).
Proof.
  intros Hcb. revert pre rest s. induction fuel as [|fuel IH]; intros pre rest s Hb Hf; [lia|].
  destruct (decide (partial rest)) as [Hp|Hp].
  { left. exists 0%nat, s. split_and!; [done|lia|]. rewrite OnRecv_loop_stop with (rest := rest) by done. by rewrite Z.add_0_r. }
  pose proof Hp as Hp'. unfold partial, sizeof_PacketHeader in Hp'. pose proof (packet_size_bounds rest) as Hs.
  destruct (decide (packet_size rest = 0)) as [Hz|Hz].
  { right. exists 0%nat. split_and!; [rewrite drop_0; lia|by rewrite drop_0|]. intros fuel'.
    apply (OnRecv_loop_diverges fuel' pre rest s Hb); [lia|done|by intros]. }
  set (n := Z.to_nat (packet_size rest)).
  assert (pre ++ take n rest ++ drop n rest = buffer) as Hcut by (by rewrite take_drop).
  assert (zlen (pre ++ take n rest) = zlen pre + packet_size rest) as Hn.
  { unfold zlen in *. rewrite length_app, length_take. lia. }
  destruct (Hcb (seen rest) s) as [s1 Es].
  destruct (IH (pre ++ take n rest) (drop n rest) s1) as [(k & s2 & Hk & Hkl & E)|(k & H4 & Hz' & E)].
  - by rewrite <-app_assoc.
  - rewrite length_drop. unfold zlen in *. lia.
  - left. exists (n + k)%nat, s2. rewrite drop_drop in Hk. rewrite length_drop in Hkl. split_and!; [done|unfold zlen in *; lia|].
    rewrite (OnRecv_loop_pass fuel pre rest s Hb Hp), Es, <-Hn, E. do 3 f_equal. lia.
  - right. exists (n + k)%nat. rewrite drop_drop in H4, Hz'. split_and!; [done|done|].
    intros [|fuel']; [done|]. rewrite (OnRecv_loop_pass fuel' pre rest s Hb Hp), Es, <-Hn. apply E.
Qed.

End loop.

Lemma concat_length_ge ps :
  Forall wf_packet ps → (length ps ≤ length (concat ps))%nat.
Proof.
  induction 1 as [|p ps Hp _ IH]; simpl; [lia|].
  apply wf_packet_bounds in Hp. unfold zlen in Hp. rewrite length_app. lia.
Qed.

(** What is received of a sequence of packets is whole packets and a part
    of the next. *)
Lemma frames_of_prefix ps l k :
  Forall wf_packet ps → l ++ k = concat ps →
  ∃ ps1 ps2 rest, ps = ps1 ++ ps2 ∧ l = concat ps1 ++ rest ∧ rest ++ k = concat ps2 ∧
                  partial rest.
Proof.
  intros Hps. revert l k. induction Hps as [|p ps Hp Hps IH]; intros l k E; simpl in *.
  - apply app_nil in E as [-> ->]. exists [], [], []. split_and!; try done.
    left. done.
  - destruct (decide (zlen l < zlen p)) as [Hlt|Hge].
    + exists [], (p :: ps), l. split_and!; try done. unfold partial.
      destruct (decide (zlen l < 4)) as [|H4]; [by left|right].
      destruct (app_eq_inv _ _ _ _ E) as [(d & Hl & _)|(d & Hl & _)].
      * exfalso. apply (f_equal zlen) in Hl. rewrite zlen_app in Hl.
        pose proof (zlen_nonneg d). lia.
      * destruct Hp as [_ Hp]. rewrite <-Hp in Hlt. rewrite Hl in Hlt.
        rewrite packet_size_app in Hlt by lia. done.
    + destruct (app_eq_inv _ _ _ _ E) as [(d & Hl & Hd)|(d & Hl & Hd)].
      * destruct (IH d k (eq_sym Hd)) as (ps1 & ps2 & rest & -> & -> & Hk & Hpar).
        exists (p :: ps1), ps2, rest. split_and!; try done.
        simpl. by rewrite Hl, app_assoc.
      * assert (d = []) as ->.
        { apply (f_equal zlen) in Hl. rewrite zlen_app in Hl.
          destruct d; [done|]. rewrite zlen_cons in Hl. pose proof (zlen_nonneg d). lia. }
        destruct (IH [] k Hd) as (ps1 & ps2 & rest & -> & E2 & Hk & Hpar).
        exists (p :: ps1), ps2, rest. split_and!; try done. simpl.
        rewrite app_nil_r in Hl. subst l. rewrite <-app_assoc, <-E2. by rewrite app_nil_r.
Qed.

Section properties.
Context {S : Type} (OnRecvPacket : list byte → M S unit).

Lemma OnRecv_frames ps rest s :
  Forall wf_packet ps → partial rest → zlen (concat ps ++ rest) < 2 ^ 31 →
  OnRecv OnRecvPacket (concat ps ++ rest) (zlen (concat ps ++ rest)) s =
  Some (match handle_packets OnRecvPacket ps s with
        | Ret (_, s') => Ret (zlen (concat ps), s')
        | Crash f => Crash f
        end).
Proof.
  intros Hps Hr Hb. unfold OnRecv.
  apply (OnRecv_loop_frames OnRecvPacket _ _ eq_refl Hb ps _ [] rest s); try done.
  pose proof (concat_length_ge ps Hps). unfold zlen. rewrite length_app. lia.
Qed.

(** ** Properties *)

(** On a buffer that holds whole packets and part of a next one, [OnRecv]
    hands exactly those packets to [OnRecvPacket] in order, stops when one of the
    calls stops, and otherwise returns and consumes exactly their bytes. *)
Theorem OnRecv_delivers_frames ps rest s :
  Forall wf_packet ps → partial rest → zlen (concat ps ++ rest) < 2 ^ 31 →
  OnRecv OnRecvPacket (concat ps ++ rest) (zlen (concat ps ++ rest)) s =
  Some (match handle_packets OnRecvPacket ps s with
        | Ret (_, s') => Ret (zlen (concat ps), s')
        | Crash f => Crash f
        end).
Proof. apply OnRecv_frames. Qed.

(** Whatever bytes a peer sends, [OnRecv] never reads outside the buffer: with a
    callback that returns, it returns before bytes from which no packet can be
    taken, or it reached a header of size zero and never returns. *)
Theorem OnRecv_any_input buffer s :
  (∀ p s, ∃ s', OnRecvPacket p s = Ret (tt, s')) → zlen buffer < 2 ^ 31 →
  (∃ n s', partial (drop n buffer) ∧ (n ≤ length buffer)%nat ∧
     OnRecv OnRecvPacket buffer (zlen buffer) s = Some (Ret (Z.of_nat n, s'))) ∨
  (∃ n, 4 ≤ zlen (drop n buffer) ∧ packet_size (drop n buffer) = 0 ∧
     ∀ fuel, OnRecv_loop OnRecvPacket fuel buffer (zlen buffer) 0 s = None).
Proof.
  intros Hcb Hb. apply (OnRecv_loop_total OnRecvPacket _ _ eq_refl Hb _ [] buffer s Hcb); [done|].
  unfold zlen. lia.
Qed.

(** A header of size zero whose callback returns makes the loop run forever. *)
Lemma OnRecv_zero_size_diverges ps rest s s' :
  Forall wf_packet ps → 4 ≤ zlen rest → packet_size rest = 0 → zlen (concat ps ++ rest) < 2 ^ 31 →
  (∀ s, ∃ s', OnRecvPacket (take 4 rest) s = Ret (tt, s')) → handle_packets OnRecvPacket ps s = Ret (tt, s') →
  ∀ fuel, OnRecv_loop OnRecvPacket fuel (concat ps ++ rest) (zlen (concat ps ++ rest)) 0 s = None.
Proof.
  intros Hps H4 Hz Hb Hcb E fuel. by apply (OnRecv_loop_diverges_after OnRecvPacket _ _ eq_refl Hb ps fuel [] rest s s').
Qed.

End properties.

Definition packet_3 : list byte := le16_bytes 7 ++ le16_bytes 1000 ++ [x61; x62; x63].

(** Two packets and the beginning of a third. *)
Lemma OnRecv_delivers_frames_witness :
  OnRecv (λ p, modify (λ l, l ++ [p])) (concat [packet_3; packet_3] ++ [x07; x00; x01]) 17 [] =
  Some (Ret (14, [packet_3; packet_3])).
Proof.
  apply (OnRecv_delivers_frames (λ p, modify (λ l, l ++ [p])) [packet_3; packet_3] [x07; x00; x01]).
  - repeat constructor; vm_compute; discriminate.
  - left. reflexivity.
  - reflexivity.
Defined.

End PacketSession.
