(* ===== verification/Session.v ===== *)
(** * Session: one connection (ServerCore/Session.h, Session.cpp, IocpEvent.h)

    The state of a [Session], its operations and the completion handlers the
    worker threads run.  [B] stands for [shared_ptr<SendBuffer>].  The system
    calls are requests recorded in [calls] in order, as are the calls of
    [OnRecvPacket]; what each returns at once
    ([TRUE], or an error code read from [WSAGetLastError]) is an argument of
    the operation, [os].  The virtual functions that contents code overrides
    are parameters.  [OnRecv] is the one of [PacketSession], which seals it. *)

From S2P Require Import Prelude RecvBuffer PacketSession.

Module Session.

Definition BUFFER_SIZE : Z := 65536.

Definition WSA_IO_PENDING : Z := 997.
Definition WSAECONNABORTED : Z := 10053.
Definition WSAECONNRESET : Z := 10054.

(** What an overlapped call returns at once. *)
Inductive sysres : Type := SysOk | SysErr (code : Z).

(** The error code, unless the request was accepted. *)
Definition sys_failed (r : sysres) : option Z :=
  match r with
  | SysOk => None
  | SysErr e => if e =? WSA_IO_PENDING then None else Some e
  end.

Record os : Type := mkOs {
  os_reuse : bool;
  os_bind : bool;
  os_connect : sysres;
  os_disconnect : sysres;
  os_recv : sysres;
  os_send : sysres
}.

Definition os_ok : os := mkOs true true SysOk SysOk SysOk SysOk.

Inductive EEventType : Type := Connect_ | Disconnect_ | Accept_ | Recv_ | Send_.

Inductive ServiceType : Type := Server | Client.

Inductive call (B : Type) : Type :=
| ConnectEx
| DisconnectEx
| WSARecv (len : Z)
| WSASend (bufs : list B)
| AddSession
| ReleaseSession
| OnRecvPacketCall (p : list byte).
Arguments ConnectEx {B}.
Arguments DisconnectEx {B}.
Arguments WSARecv {B} len.
Arguments WSASend {B} bufs.
Arguments AddSession {B}.
Arguments ReleaseSession {B}.
Arguments OnRecvPacketCall {B} p.

(** Each event's [owner] is null or this session. *)
Record t (B : Type) : Type := mk {
  _connected : bool;
  _recvBuffer : RecvBuffer.t;
  _sendQueue : list B;
  _sendRegistered : bool;
  connect_owner : bool;
  disconnect_owner : bool;
  recv_owner : bool;
  send_owner : bool;
  sendBuffers : list B;
  calls : list (call B)
}.
Arguments mk {B}.
Arguments _connected {B}.
Arguments _recvBuffer {B}.
Arguments _sendQueue {B}.
Arguments _sendRegistered {B}.
Arguments connect_owner {B}.
Arguments disconnect_owner {B}.
Arguments recv_owner {B}.
Arguments send_owner {B}.
Arguments sendBuffers {B}.
Arguments calls {B}.

Section setters.
Context {B : Type}.
Definition set_connected (b : bool) (s : t B) : t B :=
  mk b (_recvBuffer s) (_sendQueue s) (_sendRegistered s) (connect_owner s)
    (disconnect_owner s) (recv_owner s) (send_owner s) (sendBuffers s) (calls s).
Definition set_recvBuffer (rb : RecvBuffer.t) (s : t B) : t B :=
  mk (_connected s) rb (_sendQueue s) (_sendRegistered s) (connect_owner s)
    (disconnect_owner s) (recv_owner s) (send_owner s) (sendBuffers s) (calls s).
Definition set_send (q : list B) (reg : bool) (bufs : list B) (s : t B) : t B :=
  mk (_connected s) (_recvBuffer s) q reg (connect_owner s)
    (disconnect_owner s) (recv_owner s) (send_owner s) bufs (calls s).
Definition set_connect_owner (b : bool) (s : t B) : t B :=
  mk (_connected s) (_recvBuffer s) (_sendQueue s) (_sendRegistered s) b
    (disconnect_owner s) (recv_owner s) (send_owner s) (sendBuffers s) (calls s).
Definition set_disconnect_owner (b : bool) (s : t B) : t B :=
  mk (_connected s) (_recvBuffer s) (_sendQueue s) (_sendRegistered s) (connect_owner s)
    b (recv_owner s) (send_owner s) (sendBuffers s) (calls s).
Definition set_recv_owner (b : bool) (s : t B) : t B :=
  mk (_connected s) (_recvBuffer s) (_sendQueue s) (_sendRegistered s) (connect_owner s)
    (disconnect_owner s) b (send_owner s) (sendBuffers s) (calls s).
Definition set_send_owner (b : bool) (s : t B) : t B :=
  mk (_connected s) (_recvBuffer s) (_sendQueue s) (_sendRegistered s) (connect_owner s)
    (disconnect_owner s) (recv_owner s) b (sendBuffers s) (calls s).
Definition add_call (c : call B) (s : t B) : t B :=
  mk (_connected s) (_recvBuffer s) (_sendQueue s) (_sendRegistered s) (connect_owner s)
    (disconnect_owner s) (recv_owner s) (send_owner s) (sendBuffers s) (calls s ++ [c]).
End setters.

Section session.
Context {B : Type}.

(** The constructor: default member initialisers and [_recvBuffer(BUFFER_SIZE)]. *)
Definition new : t B :=
  mk false (RecvBuffer.new BUFFER_SIZE) [] false false false false false [] [].

Definition emit (c : call B) : M (t B) unit := modify (add_call c).

Definition IsConnected : M (t B) bool := gets _connected.

Definition RegisterDisconnect (o : os) : M (t B) bool :=
  modify (set_disconnect_owner true);;
  emit DisconnectEx;;
  match sys_failed (os_disconnect o) with
  | Some _ => modify (set_disconnect_owner false);; mret false
  | None => mret true
  end.

(** [_connected.exchange(false)] *)
Definition Disconnect (o : os) : M (t B) unit :=
  was ← IsConnected;
  modify (set_connected false);;
  when was (RegisterDisconnect o;; mret tt).

Definition HandleError (o : os) (errorCode : Z) : M (t B) unit :=
  when ((errorCode =? WSAECONNRESET) || (errorCode =? WSAECONNABORTED)) (Disconnect o).

Definition RegisterConnect (o : os) (type : ServiceType) : M (t B) bool :=
  conn ← IsConnected;
  if (conn : bool) then mret false
  else match type with
  | Server => mret false
  | Client =>
    if negb (os_reuse o) then mret false
    else if negb (os_bind o) then mret false
    else
      modify (set_connect_owner true);;
      emit ConnectEx;;
      match sys_failed (os_connect o) with
      | Some _ => modify (set_connect_owner false);; mret false
      | None => mret true
      end
  end.

Definition Connect (o : os) (type : ServiceType) : M (t B) bool := RegisterConnect o type.

Definition RegisterRecv (o : os) : M (t B) unit :=
  conn ← IsConnected;
  when conn (
    modify (set_recv_owner true);;
    s ← get;
    emit (WSARecv (RecvBuffer.FreeSize (_recvBuffer s)));;
    match sys_failed (os_recv o) with
    | Some e => HandleError o e;; modify (set_recv_owner false)
    | None => mret tt
    end).

(** The drained queue goes to [_sendEvent.sendBuffers]. *)
Definition RegisterSend (o : os) : M (t B) unit :=
  conn ← IsConnected;
  when conn (
    modify (set_send_owner true);;
    modify (fun s => set_send [] (_sendRegistered s) (sendBuffers s ++ _sendQueue s) s);;
    s ← get;
    emit (WSASend (sendBuffers s));;
    match sys_failed (os_send o) with
    | Some e =>
      HandleError o e;;
      modify (set_send_owner false);;
      modify (fun s => set_send (_sendQueue s) false [] s)
    | None => mret tt
    end).

Definition Send (o : os) (sendBuffer : B) : M (t B) unit :=
  conn ← IsConnected;
  when conn (
    registered ← gets _sendRegistered;
    modify (fun s => set_send (_sendQueue s ++ [sendBuffer]) true (sendBuffers s) s);;
    when (negb registered) (RegisterSend o)).

(** ** Completion handlers

    The virtual functions contents code defines. *)
Context (OnConnected : M (t B) unit).
Context (OnDisconnected : M (t B) unit).
Context (OnSend : Z → M (t B) unit).
Context (OnRecvPacket : list byte → M (t B) unit).

Definition ProcessConnect (o : os) : M (t B) unit :=
  modify (set_connect_owner false);;
  modify (set_connected true);;
  emit AddSession;;
  OnConnected;;
  RegisterRecv o.

Definition ProcessDisconnect : M (t B) unit :=
  modify (set_disconnect_owner false);;
  OnDisconnected;;
  emit ReleaseSession.

(** [PacketSession::OnRecv] on the unread bytes, with the virtual [OnRecvPacket]. *)
Definition OnRecv (buffer : list byte) (len : Z) : M (t B) Z := λ s,
  match PacketSession.OnRecv (λ p, emit (OnRecvPacketCall p);; OnRecvPacket p) buffer len s with
  | None => Crash Hang
  | Some r => r
  end.

Definition ProcessRecv (o : os) (numOfBytes : Z) : M (t B) unit :=
  modify (set_recv_owner false);;
  if numOfBytes =? 0 then Disconnect o
  else
    s ← get;
    let '(ok, rb) := RecvBuffer.OnWrite numOfBytes (_recvBuffer s) in
    if negb ok then Disconnect o
    else
      modify (set_recvBuffer rb);;
      let dataSize := RecvBuffer.DataSize rb in
      processLen ← OnRecv (RecvBuffer.ReadPos rb dataSize) dataSize;
      s ← get;
      if (processLen <? 0) || (dataSize <? processLen) then Disconnect o
      else
        let '(ok, rb) := RecvBuffer.OnRead processLen (_recvBuffer s) in
        if negb ok then Disconnect o
        else
          rb ← lift (RecvBuffer.Clean rb);
          modify (set_recvBuffer rb);;
          RegisterRecv o.

(** A receive completes: the kernel has stored [bs] at the posted position. *)
Definition RecvCompleted (o : os) (bs : list byte) : M (t B) unit :=
  modify (fun s => set_recvBuffer (RecvBuffer.WritePos_store bs (_recvBuffer s)) s);;
  ProcessRecv o (zlen bs).

Definition ProcessSend (o : os) (numOfBytes : Z) : M (t B) unit :=
  modify (set_send_owner false);;
  modify (fun s => set_send (_sendQueue s) (_sendRegistered s) [] s);;
  if numOfBytes =? 0 then Disconnect o
  else
    OnSend numOfBytes;;
    s ← get;
    match _sendQueue s with
    | [] => modify (set_send [] false (sendBuffers s))
    | _ => RegisterSend o
    end.

Definition Dispatch (o : os) (eventType : EEventType) (numOfBytes : Z) : M (t B) unit :=
  match eventType with
  | Connect_ => ProcessConnect o
  | Disconnect_ => ProcessDisconnect
  | Recv_ => ProcessRecv o numOfBytes
  | Send_ => ProcessSend o numOfBytes
  | Accept_ => mret tt
  end.

(** The length of the receive that is under way. *)
Definition posted (s : t B) : option Z :=
  if recv_owner s then last (omap (λ c, match c with WSARecv len => Some len | _ => None end) (calls s)) else None.

(** The kernel completes a receive only if one was posted, with at least one byte and
    at most the posted length. *)
Definition completes (c : list byte) (s : t B) : bool :=
  match posted s with Some len => (0 <? zlen c) && (zlen c <=? len) | None => false end.

(** The completions of the receives of a connection, one after another; [None] when
    the kernel cannot complete the next one. *)
Fixpoint receive_all (o : os) (cs : list (list byte)) (s : t B) : option (result (t B)) :=
  match cs with
  | [] => Some (Ret s)
  | c :: cs =>
    if completes c s then
      match RecvCompleted o c s with
      | Ret (_, s') => receive_all o cs s'
      | Crash f => Some (Crash f)
      end
    else None
  end.

(** What the kernel guarantees of the bytes it stores: they fit what was posted. *)
Fixpoint kernel_fits (o : os) (cs : list (list byte)) (s : t B) : Prop :=
  match cs with
  | [] => True
  | c :: cs =>
    (∀ len, posted s = Some len → 0 < zlen c ≤ len) ∧
    ∀ s', RecvCompleted o c s = Ret (tt, s') → kernel_fits o cs s'
  end.

End session.

(** ** The receive path *)

Definition delivered {B} (s : t B) : list (list byte) :=
  omap (fun c => match c with OnRecvPacketCall p => Some p | _ => None end) (calls s).

(** Between two completions the session is connected, a receive is posted for all the
    free bytes of the buffer, which are at least one partition, and the buffer holds
    less than a packet. *)
Record recv_inv {B} (s : t B) : Prop := {
  ri_connected : _connected s = true;
  ri_posted : posted s = Some (RecvBuffer.FreeSize (_recvBuffer s));
  ri_wf : RecvBuffer.wf (_recvBuffer s);
  ri_size : RecvBuffer._bufferSize (_recvBuffer s) = BUFFER_SIZE;
  ri_free : BUFFER_SIZE ≤ RecvBuffer.FreeSize (_recvBuffer s);
  ri_partial : PacketSession.partial (RecvBuffer.contents (_recvBuffer s))
}.

(** [f] returns, stays connected, and leaves the receive buffer and the packets
    delivered so far alone. *)
Definition recv_frame {B} (f : M (t B) unit) : Prop :=
  ∀ s, ∃ s', f s = Ret (tt, s') ∧ _recvBuffer s' = _recvBuffer s ∧ delivered s' = delivered s ∧ _connected s' = _connected s.

Section delivery.
Context {B : Type} (OnConnected : M (t B) unit) (OnRecvPacket : list byte → M (t B) unit) (o : os).

(** The callbacks return, do not touch the receive buffer, which is private to
    [Session], and do not disconnect; [WSARecv] is accepted. *)
Hypothesis connected_frame : recv_frame OnConnected.
Hypothesis handler_frame : ∀ p, recv_frame (OnRecvPacket p).
Hypothesis recv_accepted : sys_failed (os_recv o) = None.

Lemma RegisterRecv_run (s : t B) : _connected s = true →
  RegisterRecv o s = Ret (tt, add_call (WSARecv (RecvBuffer.FreeSize (_recvBuffer s))) (set_recv_owner true s)).
Proof. intros Hc. unfold RegisterRecv, IsConnected, emit. autorewrite with run. simpl. rewrite Hc. simpl. autorewrite with run. by rewrite recv_accepted. Qed.

(** What [RegisterRecv] leaves. *)
Lemma posted_recv n (s : t B) : posted (add_call (WSARecv n) (set_recv_owner true s)) = Some n.
Proof. unfold posted. simpl. rewrite omap_app. simpl. by rewrite last_snoc. Qed.

Lemma delivered_add_call c (s : t B) :
  (∀ p, c ≠ OnRecvPacketCall p) → delivered (add_call c s) = delivered s.
Proof.
  intros Hc. unfold delivered. simpl. rewrite omap_app. simpl.
  destruct c; try (by rewrite app_nil_r). by destruct (Hc p).
Qed.

(** The session after its connection has been established. *)
Lemma connect_recv_inv : ∃ s, ProcessConnect OnConnected o new = Ret (tt, s) ∧ recv_inv s ∧
  RecvBuffer.contents (_recvBuffer s) = [] ∧ delivered s = [].
Proof.
  unfold ProcessConnect, emit. autorewrite with run. set (s1 := add_call _ _).
  destruct (connected_frame s1) as (s2 & E2 & R2 & D2 & C2). rewrite (M_bind_step _ _ s1 tt s2 E2), RegisterRecv_run by (by rewrite C2).
  eexists. split; [done|]. assert (_recvBuffer s2 = RecvBuffer.new BUFFER_SIZE) as HR by (by rewrite R2).
  split_and!; simpl; [|by rewrite HR|by rewrite delivered_add_call].
  split; simpl; [by rewrite C2|exact (posted_recv _ _)|rewrite HR..].
  - apply RecvBuffer.new_wf; vm_compute; reflexivity.
  - done.
  - vm_compute. discriminate.
  - left. reflexivity.
Qed.

Lemma handle_packets_frame pkts s :
  ∃ s', PacketSession.handle_packets (λ p, emit (OnRecvPacketCall p);; OnRecvPacket p) pkts s = Ret (tt, s') ∧
        _recvBuffer s' = _recvBuffer s ∧ delivered s' = delivered s ++ pkts ∧ _connected s' = _connected s.
Proof.
  revert s. induction pkts as [|p pkts IH]; intros s.
  { exists s. by rewrite app_nil_r. }
  set (s1 := add_call (OnRecvPacketCall p) s).
  destruct (handler_frame p s1) as (s2 & E2 & R2 & D2 & C2).
  destruct (IH s2) as (s3 & E3 & R3 & D3 & C3). exists s3. split_and!.
  - unfold PacketSession.handle_packets. simpl. rewrite (M_bind_step _ _ s tt s2); [exact E3|].
    by rewrite (M_bind_step _ _ s tt s1).
  - by rewrite R3, R2.
  - rewrite D3, D2. unfold delivered, s1. simpl. rewrite omap_app. simpl.
    by rewrite <-app_assoc.
  - by rewrite C3, C2.
Qed.

(** One completion: the packets it completes are delivered, what is left is
    kept, and a receive is posted for the rest of the buffer. *)
Lemma RecvCompleted_spec c future todo s :
  recv_inv s → 0 < zlen c ≤ RecvBuffer.FreeSize (_recvBuffer s) →
  Forall PacketSession.wf_packet todo →
  RecvBuffer.contents (_recvBuffer s) ++ c ++ future = concat todo →
  ∃ s' ps todo', RecvCompleted OnRecvPacket o c s = Ret (tt, s') ∧ recv_inv s' ∧
    todo = ps ++ todo' ∧ delivered s' = delivered s ++ ps ∧
    RecvBuffer.contents (_recvBuffer s') ++ future = concat todo'.
Proof.
  intros [Hconn _ Hwf Hsz Hfree Hpar] Hc Htodo E.
  destruct (RecvBuffer.OnWrite_spec c _ Hwf) as (rb1 & W1 & Hwf1 & C1 & _ & _ & S1); [lia|].
  rewrite app_assoc, <-C1 in E.
  destruct (PacketSession.frames_of_prefix _ _ _ Htodo E)
    as (ps & todo' & rest & -> & Crest & Efut & Hrest).
  apply Forall_app in Htodo as [Hps Htodo'].
  pose proof (RecvBuffer.zlen_contents _ Hwf1) as Hlen1.
  assert (zlen (concat ps ++ rest) < 2 ^ 31) as Hb.
  { rewrite <-Crest, Hlen1. destruct Hwf1 as [_ Hcap _ ? ?].
    unfold RecvBuffer.DataSize, RecvBuffer.BUFFER_COUNT, BUFFER_SIZE in *. lia. }
  set (s0 := set_recvBuffer (RecvBuffer.WritePos_store c (_recvBuffer s)) s).
  set (s1 := set_recvBuffer rb1 (set_recv_owner false s0)).
  pose proof (PacketSession.OnRecv_frames (λ p, emit (OnRecvPacketCall p);; OnRecvPacket p) ps rest s1 Hps Hrest Hb) as Hrecv.
  rewrite <-Crest, Hlen1 in Hrecv.
  destruct (handle_packets_frame ps s1) as (s2 & F2 & R2 & D2 & K2). rewrite F2 in Hrecv.
  assert (_recvBuffer s2 = rb1) as R2' by (by rewrite R2).
  destruct (RecvBuffer.OnRead_spec (zlen (concat ps)) rb1 Hwf1) as (rb3 & W3 & Hwf3 & C3 & _ & _ & S3).
  { split; [apply zlen_nonneg|]. rewrite <-Hlen1, Crest, zlen_app.
    pose proof (zlen_nonneg rest). lia. }
  assert (RecvBuffer.contents rb3 = rest) as C3'.
  { rewrite C3, Crest. unfold zlen. by rewrite Nat2Z.id, drop_app_length. }
  destruct (RecvBuffer.Clean_spec rb3 Hwf3) as (rb4 & W4 & Hwf4 & C4 & F4 & S4).
  { rewrite <-RecvBuffer.zlen_contents by done. rewrite C3', S3, S1, Hsz.
    apply PacketSession.partial_bound in Hrest. unfold BUFFER_SIZE. lia. }
  assert (_connected (set_recvBuffer rb4 s2) = true) as K4 by (simpl; by rewrite K2).
  exists (add_call (WSARecv (RecvBuffer.FreeSize rb4)) (set_recv_owner true (set_recvBuffer rb4 s2))), ps, todo'.
  split_and!; [|split; simpl; [exact K4|exact (posted_recv _ _)|done|congruence|congruence|by rewrite C4, C3']|done|by rewrite delivered_add_call|].
  - unfold RecvCompleted. rewrite (M_bind_step _ _ s tt s0) by done.
    unfold ProcessRecv. rewrite (M_bind_step _ _ s0 tt (set_recv_owner false s0)) by done.
    destruct (Z.eqb_spec (zlen c) 0); [lia|].
    rewrite (M_bind_step _ _ _ _ _ eq_refl). simpl. rewrite W1. simpl.
    rewrite (M_bind_step _ _ _ tt s1) by done.
    rewrite (M_bind_step _ _ s1 (zlen (concat ps)) s2); last first.
    { unfold OnRecv. fold (RecvBuffer.contents rb1). by rewrite Hrecv. }
    rewrite (M_bind_step _ _ s2 s2 s2) by done. rewrite R2'.
    destruct (Z.ltb_spec (zlen (concat ps)) 0); [pose proof (zlen_nonneg (concat ps)); lia|].
    destruct (Z.ltb_spec (RecvBuffer.DataSize rb1) (zlen (concat ps))) as [Hbad|_]; simpl.
    { rewrite <-Hlen1, Crest, zlen_app in Hbad. pose proof (zlen_nonneg rest). lia. }
    rewrite W3. simpl. rewrite W4. simpl. exact (RegisterRecv_run _ K4).
  - simpl. rewrite C4, C3'. done.
Qed.

Lemma receive_all_spec cs future todo s :
  recv_inv s → kernel_fits OnRecvPacket o cs s → Forall PacketSession.wf_packet todo →
  RecvBuffer.contents (_recvBuffer s) ++ concat cs ++ future = concat todo →
  ∃ s' ps todo', receive_all OnRecvPacket o cs s = Some (Ret s') ∧ recv_inv s' ∧
    todo = ps ++ todo' ∧ delivered s' = delivered s ++ ps ∧
    RecvBuffer.contents (_recvBuffer s') ++ future = concat todo'.
Proof.
  revert todo s. induction cs as [|c cs IH]; intros todo s Hi Hk Htodo E; simpl in *.
  { exists s, [], todo. split_and!; try done. by rewrite app_nil_r. }
  destruct Hk as [Hc Hk]. specialize (Hc _ (ri_posted _ Hi)). rewrite <-app_assoc in E.
  destruct (RecvCompleted_spec c _ todo s Hi Hc Htodo E)
    as (s1 & ps1 & todo1 & E1 & Hi1 & -> & D1 & C1).
  apply Forall_app in Htodo as [_ Htodo1].
  destruct (IH todo1 s1 Hi1 (Hk _ E1) Htodo1 C1)
    as (s2 & ps2 & todo2 & E2 & Hi2 & -> & D2 & C2).
  exists s2, (ps1 ++ ps2), todo2. split_and!; try done.
  - unfold completes. rewrite (ri_posted _ Hi), (proj2 (Z.ltb_lt _ _)), (proj2 (Z.leb_le _ _)) by lia. simpl. by rewrite E1.
  - by rewrite app_assoc.
  - by rewrite D2, D1, app_assoc.
Qed.

(** Completions of at most one partition always fit. *)
Lemma kernel_fits_partitions cs future todo s :
  recv_inv s → Forall (λ c, 0 < zlen c ≤ BUFFER_SIZE) cs →
  Forall PacketSession.wf_packet todo →
  RecvBuffer.contents (_recvBuffer s) ++ concat cs ++ future = concat todo →
  kernel_fits OnRecvPacket o cs s.
Proof.
  revert todo s. induction cs as [|c cs IH]; intros todo s Hi Hcs Htodo E; simpl in *; [done|].
  inversion_clear Hcs as [|? ? Hc Hcs']. pose proof (ri_free _ Hi).
  split; [intros len Hp; rewrite (ri_posted _ Hi) in Hp; injection Hp as <-; lia|]. intros s' E'. rewrite <-app_assoc in E.
  assert (0 < zlen c ≤ RecvBuffer.FreeSize (_recvBuffer s)) as Hfit by lia.
  destruct (RecvCompleted_spec c _ todo s Hi Hfit Htodo E)
    as (s1 & ps1 & todo1 & E1 & Hi1 & -> & D1 & C1).
  rewrite E1 in E'. injection E' as <-.
  apply Forall_app in Htodo as [_ Htodo1]. by apply (IH todo1).
Qed.

End delivery.

(** C6: end to end, the receive path of a connection is lossless and in order
    whatever the fragmentation.  From the establishment of the connection on, a peer
    sends the packets [all] and the kernel hands them over in the completions [cs],
    each at most as long as the receive that was posted; callbacks return and nothing
    disconnects.  Then a receive is posted before every completion, every completion
    handler returns, the packets handed to [OnRecvPacket] are the first ones of [all],
    all of them once all bytes have arrived, and the next receive is posted for all the
    free bytes, at least one partition of the buffer. *)
Theorem receive_path_delivers {B} (OnConnected : M (t B) unit) (OnRecvPacket : list byte → M (t B) unit) o cs future all :
  recv_frame OnConnected → (∀ p, recv_frame (OnRecvPacket p)) → sys_failed (os_recv o) = None →
  Forall PacketSession.wf_packet all →
  concat cs ++ future = concat all →
  (∀ s, ProcessConnect OnConnected o new = Ret (tt, s) → kernel_fits OnRecvPacket o cs s) →
  ∃ s0 s ps rest, ProcessConnect OnConnected o new = Ret (tt, s0) ∧ receive_all OnRecvPacket o cs s0 = Some (Ret s) ∧
    delivered s = ps ∧ all = ps ++ rest ∧
    (future = [] → delivered s = all) ∧
    posted s = Some (RecvBuffer.FreeSize (_recvBuffer s)) ∧ BUFFER_SIZE ≤ RecvBuffer.FreeSize (_recvBuffer s).
Proof.
  intros Hcn Hh Ho Hall E Hk.
  destruct (connect_recv_inv OnConnected o Hcn Ho) as (s0 & E0 & Hi0 & C0 & D0). specialize (Hk s0 E0).
  destruct (receive_all_spec OnRecvPacket o Hh Ho cs future all s0 Hi0 Hk Hall) as (s & ps & rest & Er & Hi & -> & D & C); [by rewrite C0|].
  rewrite D0 in D. exists s0, s, ps, rest. split_and!; try done; [|by apply Hi..].
  intros ->. rewrite D. simpl. rewrite app_nil_r in C.
  assert (rest = []) as ->; [|by rewrite app_nil_r].
  destruct rest as [|p rest]; [done|exfalso].
  apply Forall_app in Hall as [_ Hall]. inversion_clear Hall as [|? ? Hp _].
  pose proof (PacketSession.wf_packet_bounds p Hp) as Hb. destruct Hp as [_ Hp].
  pose proof (ri_partial _ Hi) as Hpar. rewrite C in Hpar. simpl in Hpar.
  unfold PacketSession.partial, PacketSession.sizeof_PacketHeader in Hpar.
  rewrite zlen_app in Hpar. pose proof (zlen_nonneg (concat rest)).
  rewrite PacketSession.packet_size_app, Hp in Hpar; lia.
Qed.

Lemma idle_frame {B} : recv_frame (mret tt : M (t B) unit).
Proof. intros s. by exists s. Qed.

Lemma receive_path_delivers_witness :
  ∃ s0 s, ProcessConnect (B := unit) (mret tt) os_ok new = Ret (tt, s0) ∧
    receive_all (B := unit) (λ _, mret tt) os_ok
      [[x07; x00; xe8]; [x03; x61; x62; x63; x07]; [x00; xe8; x03; x61; x62; x63]] s0 = Some (Ret s) ∧
    delivered s = [PacketSession.packet_3; PacketSession.packet_3].
Proof.
  destruct (receive_path_delivers (B := unit) (mret tt) (λ _, mret tt) os_ok
    [[x07; x00; xe8]; [x03; x61; x62; x63; x07]; [x00; xe8; x03; x61; x62; x63]] [] [PacketSession.packet_3; PacketSession.packet_3])
    as (s0 & s & ps & rest & H0 & H1 & _ & _ & H2 & _).
  - apply idle_frame.
  - intros p. apply idle_frame.
  - reflexivity.
  - repeat constructor; vm_compute; discriminate.
  - reflexivity.
  - intros s Hs. destruct (connect_recv_inv (B := unit) (mret tt) os_ok idle_frame eq_refl) as (s' & E & Hi & C & _).
    rewrite Hs in E. injection E as <-.
    apply (kernel_fits_partitions (λ _, mret tt) os_ok (λ _, idle_frame) eq_refl _ [] [PacketSession.packet_3; PacketSession.packet_3]).
    + exact Hi.
    + repeat constructor; vm_compute; try reflexivity; discriminate.
    + repeat constructor; vm_compute; discriminate.
    + rewrite C. reflexivity.
  - exists s0, s. split_and!; [exact H0|exact H1|]. by apply H2.
Defined.

End Session.
