(* ===== verification/SessionSend.v ===== *)
(** * SessionSend: the send path under concurrency (ServerCore/Session.cpp)

    [Send], [RegisterSend] and [ProcessSend] run on several threads at once.
    Here they are a step relation: each step is one access to the state the
    threads share (an atomic, or a critical section under [_lock]), so its
    traces are the interleavings of the code.  [Session] has the same code as
    whole operations.  [handed] and [accepted] are history: the buffers passed
    to [WSASend] so far, and the buffers [Send] put in the queue so far. *)

From S2P Require Import Prelude.
From stdpp Require Import functions.

Module SessionSend.

(** Where a thread is inside [RegisterSend]. *)
Inductive reg : Type :=
| RCheck    (* before IsConnected() *)
| RDrain    (* before the critical section that drains the queue *)
| RSubmit   (* before WSASend *)
| RClear    (* WSASend refused: before sendBuffers.clear() *)
| RStore.   (* before _sendRegistered.store(false) *)

(** [Reg k l]: in [RegisterSend], holding [_lock] when [l] (called from
    [ProcessSend]). *)
Inductive pc (B : Type) : Type :=
| Idle
| SendChecked (b : B)
| Reg (k : reg) (l : bool)
| ProcStart
| ProcLock.
Arguments Idle {B}.
Arguments SendChecked {B} b.
Arguments Reg {B} k l.
Arguments ProcStart {B}.
Arguments ProcLock {B}.

Record st (B : Type) : Type := mk {
  connected : bool;
  queue : list B;
  registered : bool;
  buffers : list B;
  lock : option nat;
  outstanding : nat;
  handed : list B;
  accepted : list B;
  refused : bool;
  pcs : nat → pc B
}.
Arguments mk {B}.
Arguments connected {B}.
Arguments queue {B}.
Arguments registered {B}.
Arguments buffers {B}.
Arguments lock {B}.
Arguments outstanding {B}.
Arguments handed {B}.
Arguments accepted {B}.
Arguments refused {B}.
Arguments pcs {B}.

Section steps.
Context {B : Type}.

Definition init : st B := mk true [] false [] None 0 [] [] false (λ _, Idle).

Definition unlock (l : bool) (lk : option nat) : option nat := if l then None else lk.

Inductive step : st B → st B → Prop :=
(* Send: IsConnected() *)
| send_check t b q rg bufs lk o h a rf p :
    p t = Idle →
    step (mk true q rg bufs lk o h a rf p)
         (mk true q rg bufs lk o h a rf (<[t := SendChecked b]> p))
(* Send: push and exchange under _lock *)
| send_push t b c q rg bufs o h a rf p :
    p t = SendChecked b →
    step (mk c q rg bufs None o h a rf p)
         (mk c (q ++ [b]) true bufs None o h (a ++ [b]) rf
             (<[t := if rg then Idle else Reg RCheck false]> p))
(* RegisterSend: IsConnected() *)
| reg_disconnected t l q rg bufs lk o h a rf p :
    p t = Reg RCheck l →
    step (mk false q rg bufs lk o h a rf p)
         (mk false q rg bufs (unlock l lk) o h a rf (<[t := Idle]> p))
| reg_connected t l q rg bufs lk o h a rf p :
    p t = Reg RCheck l →
    step (mk true q rg bufs lk o h a rf p)
         (mk true q rg bufs lk o h a rf (<[t := Reg RDrain l]> p))
(* RegisterSend: drain under _lock *)
| reg_drain t l c q rg bufs lk o h a rf p :
    p t = Reg RDrain l → lk = (if l then Some t else None) →
    step (mk c q rg bufs lk o h a rf p)
         (mk c [] rg (bufs ++ q) lk o h a rf (<[t := Reg RSubmit l]> p))
(* RegisterSend: WSASend accepted *)
| reg_submit t l c q rg bufs lk o h a rf p :
    p t = Reg RSubmit l →
    step (mk c q rg bufs lk o h a rf p)
         (mk c q rg bufs (unlock l lk) (S o) (h ++ bufs) a rf (<[t := Idle]> p))
(* RegisterSend: WSASend refused; HandleError may disconnect *)
| reg_refused t l c c' q rg bufs lk o h a rf p :
    p t = Reg RSubmit l → (c' = c ∨ c' = false) →
    step (mk c q rg bufs lk o h a rf p)
         (mk c' q rg bufs lk o (h ++ bufs) a true (<[t := Reg RClear l]> p))
| reg_clear t l c q rg bufs lk o h a rf p :
    p t = Reg RClear l →
    step (mk c q rg bufs lk o h a rf p)
         (mk c q rg [] lk o h a rf (<[t := Reg RStore l]> p))
| reg_store t l c q rg bufs lk o h a rf p :
    p t = Reg RStore l →
    step (mk c q rg bufs lk o h a rf p)
         (mk c q false bufs (unlock l lk) o h a rf (<[t := Idle]> p))
(* a completion is dequeued: ProcessSend starts *)
| proc_start t c q rg bufs lk o h a rf p :
    p t = Idle →
    step (mk c q rg bufs lk (S o) h a rf p)
         (mk c q rg bufs lk o h a rf (<[t := ProcStart]> p))
(* ProcessSend: sendBuffers.clear(), zero bytes: Disconnect *)
| proc_zero t c q rg bufs lk o h a rf p :
    p t = ProcStart →
    step (mk c q rg bufs lk o h a rf p)
         (mk false q rg [] lk o h a rf (<[t := Idle]> p))
(* ProcessSend: sendBuffers.clear(), OnSend *)
| proc_clear t c q rg bufs lk o h a rf p :
    p t = ProcStart →
    step (mk c q rg bufs lk o h a rf p)
         (mk c q rg [] lk o h a rf (<[t := ProcLock]> p))
(* ProcessSend: under _lock, the queue is empty *)
| proc_empty t c rg bufs o h a rf p :
    p t = ProcLock →
    step (mk c [] rg bufs None o h a rf p)
         (mk c [] false bufs None o h a rf (<[t := Idle]> p))
(* ProcessSend: under _lock, RegisterSend *)
| proc_again t c q rg bufs o h a rf p :
    p t = ProcLock → q ≠ [] →
    step (mk c q rg bufs None o h a rf p)
         (mk c q rg bufs (Some t) o h a rf (<[t := Reg RCheck true]> p))
(* any thread disconnects *)
| disconnect c q rg bufs lk o h a rf p :
    step (mk c q rg bufs lk o h a rf p) (mk false q rg bufs lk o h a rf p).

(** ** Invariant

    The right to register is a token: one thread has it, or the kernel while a
    send is outstanding, or nobody. *)

Inductive tokloc : Type := Nobody | Kernel | Thread (t : nat).

#[global] Instance tokloc_eq_dec : EqDecision tokloc.
Proof. solve_decision. Defined.

Definition has_token (k : pc B) : bool :=
  match k with Reg _ _ | ProcStart | ProcLock => true | _ => false end.

(** What [sendBuffers] may hold, and what of it is still to be handed to
    [WSASend], at a pc. *)
Definition may_hold (k : pc B) : bool :=
  match k with Reg RSubmit _ | Reg RClear _ | ProcStart => true | _ => false end.
Definition to_submit (k : pc B) (bufs : list B) : list B :=
  match k with Reg RSubmit _ => bufs | _ => [] end.

Definition after_refusal (k : pc B) : bool :=
  match k with Reg RClear _ | Reg RStore _ => true | _ => false end.

Definition at_token (p : nat → pc B) (l : tokloc) : pc B :=
  match l with Thread t => p t | _ => Idle end.

Definition located (p : nat → pc B) (l : tokloc) : Prop :=
  ∀ u, has_token (p u) = bool_decide (l = Thread u).

Record inv_at (l : tokloc) (s : st B) : Prop := {
  inv_located : located (pcs s) l;
  inv_outstanding : outstanding s = if decide (l = Kernel) then 1%nat else 0%nat;
  inv_registered : l ≠ Nobody → registered s = true;
  inv_buffers : l ≠ Kernel → may_hold (at_token (pcs s) l) = false → buffers s = [];
  inv_order : handed s ++ to_submit (at_token (pcs s) l) (buffers s) ++ queue s = accepted s;
  inv_refused : after_refusal (at_token (pcs s) l) = true → refused s = true;
  inv_idle : registered s = false → queue s = [] ∨ refused s = true;
  inv_nobody : l = Nobody → registered s = true → connected s = false
}.

Lemma located_same p l t k :
  located p l → has_token k = has_token (p t) → located (<[t := k]> p) l.
Proof.
  intros H Hk u. destruct (decide (t = u)) as [->|].
  - rewrite fn_lookup_insert. by rewrite Hk, H.
  - by rewrite fn_lookup_insert_ne.
Qed.

Lemma located_drop p t k l :
  located p (Thread t) → has_token k = false → (∀ u, l ≠ Thread u) →
  located (<[t := k]> p) l.
Proof.
  intros H Hk Hl u. rewrite bool_decide_eq_false_2 by done.
  destruct (decide (t = u)) as [->|].
  - by rewrite fn_lookup_insert.
  - rewrite fn_lookup_insert_ne by done. rewrite H. apply bool_decide_eq_false_2. congruence.
Qed.

Lemma located_take p t k l :
  located p l → (∀ u, l ≠ Thread u) → has_token k = true →
  located (<[t := k]> p) (Thread t).
Proof.
  intros H Hl Hk u. destruct (decide (t = u)) as [->|].
  - rewrite fn_lookup_insert, Hk. by rewrite bool_decide_eq_true_2.
  - rewrite fn_lookup_insert_ne by done. rewrite H.
    rewrite !bool_decide_eq_false_2; [done|congruence|done].
Qed.

Lemma located_thread p l t : located p l → has_token (p t) = true → l = Thread t.
Proof. intros H Ht. rewrite H in Ht. by apply bool_decide_eq_true in Ht. Qed.

Lemma at_token_ne p l t k :
  located p l → has_token (p t) = false → at_token (<[t := k]> p) l = at_token p l.
Proof.
  intros H Ht. destruct l as [| |u]; simpl; try done.
  apply fn_lookup_insert_ne. intros ->. rewrite H in Ht.
  by apply bool_decide_eq_false in Ht.
Qed.

Lemma at_token_eq (p : nat → pc B) t k : at_token (<[t := k]> p) (Thread t) = k.
Proof. simpl. apply fn_lookup_insert. Qed.

Lemma send_init_inv : inv_at Nobody init.
Proof. split; simpl; try done. by left. Qed.

End steps.

(** The thread that steps has the token. *)
Ltac holder :=
  match goal with
  | H : ?p ?t = _, L : located ?p ?l |- _ =>
    assert (l = Thread t) as -> by (apply (located_thread _ _ _ L); by rewrite H)
  end.

(** A step of the thread that has the token, which is at [l'] afterwards. *)
Ltac holder_step l' :=
  match goal with
  | Hinv : inv_at _ (mk _ _ _ _ _ _ _ _ _ ?p), H : ?p ?t = _ |- _ =>
    let Hloc := fresh in pose proof (inv_located _ _ Hinv) as Hloc; simpl in Hloc;
    holder; exists l'; destruct Hinv as [_ Ho Hr Hb Hord Hf Hi Hn]; simpl in *;
    rewrite H in *; simpl in *;
    specialize (Hr ltac:(done)); try specialize (Hb ltac:(done) eq_refl); subst
  end;
  split; simpl; rewrite ?fn_lookup_insert; simpl;
  try first
    [ done
    | apply located_same; [done|];
      match goal with H : ?p ?t = _ |- _ = has_token (?p ?t) => by rewrite H end
    | eapply located_drop; done
    | eapply located_take; done
    | by rewrite ?app_nil_r, <-?app_assoc
    | naive_solver ].

Section preservation.
Context {B : Type}.
Implicit Types s : st B.

(** A thread without the token moves to a pc without it. *)
Lemma inv_other l t k c q rg bufs lk o h a rf p :
  has_token (p t) = false → has_token k = false →
  inv_at l (mk c q rg bufs lk o h a rf p) →
  inv_at (B := B) l (mk c q rg bufs lk o h a rf (<[t := k]> p)).
Proof.
  intros Ht Hk [Hloc Ho Hr Hb Hord Hf Hi Hn]. simpl in *.
  split; simpl; rewrite ?at_token_ne by done; try done.
  apply located_same; [done|by rewrite Hk, Ht].
Qed.

Lemma step_keeps_token s s' l :
  step s s' → inv_at l s → ∃ l', inv_at l' s'.
Proof.
  intros Hstep Hinv. destruct Hstep;
    try match goal with H : ?p ?t = Idle |- _ => assert (has_token (p t) = false) by (by rewrite H) end;
    try match goal with H : ?p ?t = SendChecked _ |- _ => assert (has_token (p t) = false) by (by rewrite H) end.
  - exists l. by apply inv_other.
  - destruct rg.
    + exists l. apply inv_other; [done|done|].
      destruct Hinv as [Hloc Ho Hr Hb Hord Hf Hi Hn]. split; simpl in *; try done.
      by rewrite <-Hord, <-!app_assoc.
    + assert (l = Nobody) as ->.
      { destruct l; [done| |]; by pose proof (inv_registered _ _ Hinv ltac:(done)). }
      exists (Thread t). destruct Hinv as [Hloc Ho Hr Hb Hord Hf Hi Hn].
      split; simpl in *; rewrite ?fn_lookup_insert; simpl; try done.
      * eapply located_take; done.
      * intros _ _. by apply Hb.
      * by rewrite <-Hord, <-!app_assoc.
  - holder_step Nobody.
  - holder_step (Thread t).
  - holder_step (Thread t).
  - holder_step Kernel.
  - holder_step (Thread t).
  - holder_step (Thread t).
  - holder_step Nobody.
  - assert (l = Kernel) as ->.
    { pose proof (inv_outstanding _ _ Hinv) as Ho. simpl in Ho. by case_decide. }
    exists (Thread t). destruct Hinv as [Hloc Ho Hr Hb Hord Hf Hi Hn]. simpl in *.
    injection Ho as ->.
    split; simpl; rewrite ?fn_lookup_insert; simpl; try done.
    + by eapply located_take.
    + intros _. by apply Hr.
  - holder_step Nobody.
  - holder_step (Thread t).
  - holder_step Nobody.
  - holder_step (Thread t).
  - exists l. destruct Hinv as [Hloc Ho Hr Hb Hord Hf Hi Hn]. by split; simpl in *.
Qed.

Lemma send_reachable s : rtc step init s → ∃ l, inv_at l s.
Proof.
  intros Hs. apply (rtc_invariant step (λ s, ∃ l, inv_at l s) init s); [|done|].
  - intros x y Hxy [l Hl]. by eapply step_keeps_token.
  - exists Nobody. apply send_init_inv.
Qed.

Lemma to_submit_prefix (k : pc B) bufs : bufs = [] → to_submit k bufs = [].
Proof. intros ->. by destruct k as [| |[] ?| |]. Qed.

End preservation.

(** C7: in every interleaving of [Send], [RegisterSend], [ProcessSend] and
    [Disconnect], at most one [WSASend] is outstanding, and the buffers handed
    to [WSASend] are in the order [Send] accepted them, without loss or
    duplication: what was accepted is what was handed over, then what waits in
    [sendBuffers], then what waits in the queue. *)
Theorem send_path_fifo {B} (s : st B) :
  rtc step init s →
  (outstanding s ≤ 1)%nat ∧
  ∃ waiting, accepted s = handed s ++ waiting ++ queue s ∧ (waiting = [] ∨ waiting = buffers s).
Proof.
  intros [l [_ Ho _ _ Hord _ _ _]]%send_reachable. split.
  - rewrite Ho. case_decide; lia.
  - exists (to_submit (at_token (pcs s) l) (buffers s)). split; [done|].
    destruct (at_token (pcs s) l) as [| |[] ?| |]; simpl; auto.
Qed.

(** C24: no lost wake-up.  While the session is connected and no [WSASend] was
    refused, buffers that wait in the queue have somebody who will send them: a
    thread on its way through [RegisterSend] or [ProcessSend], or the
    completion of the outstanding send. *)
Theorem send_path_no_lost_wakeup {B} (s : st B) :
  rtc step init s → queue s ≠ [] → connected s = true → refused s = false →
  outstanding s = 1%nat ∨ ∃ t, has_token (pcs s t) = true.
Proof.
  intros [l [Hloc Ho Hr _ _ _ Hi Hn]]%send_reachable Hq Hc Hf.
  destruct (registered s) eqn:Hreg; [|destruct (Hi eq_refl); congruence].
  destruct l as [| |t].
  - rewrite Hn in Hc; done.
  - left. by rewrite Ho.
  - right. exists t. rewrite Hloc. by rewrite bool_decide_eq_true_2.
Qed.

(** Two threads send at once on an idle connection. *)
Definition after_two_sends : st nat :=
  mk true [7; 8]%nat true [] None 0 [] [7; 8]%nat false
    (<[2%nat := Idle]> (<[1%nat := Reg RCheck false]>
      (<[2%nat := SendChecked 8%nat]> (<[1%nat := SendChecked 7%nat]> (λ _, Idle))))).

Lemma reach_after_two_sends : rtc step init after_two_sends.
Proof.
  eapply rtc_l; [apply (send_check 1 7%nat); done|].
  eapply rtc_l; [apply (send_check 2 8%nat); done|].
  eapply rtc_l; [apply (send_push 1 7%nat true []); done|].
  eapply rtc_l; [apply (send_push 2 8%nat true [7%nat]); done|].
  apply rtc_refl.
Qed.

Lemma send_path_fifo_witness :
  (outstanding after_two_sends ≤ 1)%nat ∧
  ∃ waiting, accepted after_two_sends = handed after_two_sends ++ waiting ++ queue after_two_sends ∧
    (waiting = [] ∨ waiting = buffers after_two_sends).
Proof. apply (send_path_fifo after_two_sends). exact reach_after_two_sends. Defined.

Lemma send_path_no_lost_wakeup_witness :
  outstanding after_two_sends = 1%nat ∨ ∃ t, has_token (pcs after_two_sends t) = true.
Proof.
  apply (send_path_no_lost_wakeup after_two_sends).
  - exact reach_after_two_sends.
  - discriminate.
  - reflexivity.
  - reflexivity.
Defined.

(** A refused [WSASend] breaks the wake-up.  When the kernel refuses a send
    with an error that does not disconnect, a buffer another thread queued
    meanwhile stays in the queue of a connected session with nobody to send it. *)
Theorem send_path_stuck_after_refusal :
  ∃ s : st nat, rtc step init s ∧ connected s = true ∧ queue s = [8%nat] ∧
    outstanding s = 0%nat ∧ ∀ t, pcs s t = Idle.
Proof.
  eexists. split_and!.
  - eapply rtc_l; [apply (send_check 1 7%nat); done|].
    eapply rtc_l; [apply (send_push 1 7%nat); done|].
    eapply rtc_l; [apply (reg_connected 1 false); done|].
    eapply rtc_l; [apply (reg_drain 1 false); done|].
    eapply rtc_l; [apply (send_check 2 8%nat); done|].
    eapply rtc_l; [apply (send_push 2 8%nat); done|].
    eapply rtc_l; [apply (reg_refused 1 false true true); [done|by left]|].
    eapply rtc_l; [apply (reg_clear 1 false); done|].
    eapply rtc_l; [apply (reg_store 1 false); done|].
    apply rtc_refl.
  - done.
  - done.
  - done.
  - intros t. simpl.
    destruct (decide (t = 1%nat)) as [->|]; [by rewrite fn_lookup_insert|].
    destruct (decide (t = 2%nat)) as [->|];
      by rewrite ?fn_lookup_insert_ne, ?fn_lookup_insert, ?fn_lookup_insert_ne by done.
Qed.

End SessionSend.
