(* ===== verification/SendBuffer.v ===== *)
(** * SendBuffer: chunked send buffers (ServerCore/SendBuffer.h, SendBuffer.cpp)

    A [SendBuffer] is a region of a 6000-byte [SendBufferChunk]; each thread
    carves regions from the chunk in its thread-local [LSendBufferChunk], and
    chunks go back to a shared pool when the last [shared_ptr] to them dies
    ([PushGlobal] is their deleter).  Chunks and buffers live in stores and a
    [shared_ptr] is an address; [buffers] holds the [SendBuffer]s somebody still
    references, so a chunk is referenced by the buffers it owns and by the
    threads that have it in [LSendBufferChunk]. *)

From S2P Require Import Prelude.

Module SendBuffer.

Definition SEND_BUFFER_CHUNK_SIZE : Z := 6000.

Record SendBufferChunk : Type := mkChunk {
  _buffer : list byte;
  _open : bool;
  _usedSize : Z
}.

Record SendBuffer : Type := mkBuffer {
  _owner : nat;
  _offset : Z;
  _allocSize : Z;
  _writeSize : Z
}.

(** ** SendBufferChunk *)

Definition new_chunk : SendBufferChunk :=
  mkChunk (replicate (Z.to_nat SEND_BUFFER_CHUNK_SIZE) x00) false 0.

Definition chunk_Reset (ch : SendBufferChunk) : SendBufferChunk :=
  mkChunk (_buffer ch) false 0.

Definition FreeSize (ch : SendBufferChunk) : Z := u32 (zlen (_buffer ch) - _usedSize ch).

(** [None] is the null pointer: the request does not fit. *)
Definition chunk_Open (c : nat) (allocSize : Z) (ch : SendBufferChunk)
    : result (option SendBuffer * SendBufferChunk) :=
  ASSERT_CRASH (allocSize <=? SEND_BUFFER_CHUNK_SIZE);;
  ASSERT_CRASH (negb (_open ch));;
  if FreeSize ch <? allocSize then mret (None, ch)
  else mret (Some (mkBuffer c (_usedSize ch) allocSize 0),
             mkChunk (_buffer ch) true (_usedSize ch)).

Definition chunk_Close (writeSize : Z) (ch : SendBufferChunk) : result SendBufferChunk :=
  ASSERT_CRASH (_open ch);;
  mret (mkChunk (_buffer ch) false (u32 (_usedSize ch + writeSize))).

(** A write of [bs] at [&_buffer[off]]. *)
Definition chunk_store (off : Z) (bs : list byte) (ch : SendBufferChunk) : result SendBufferChunk :=
  if (0 <=? off) && (off + zlen bs <=? zlen (_buffer ch))
  then mret (mkChunk (splice off bs (_buffer ch)) (_open ch) (_usedSize ch))
  else Crash OutOfBounds.

(** ** SendBufferManager *)

Record st : Type := mk {
  chunks : gmap nat SendBufferChunk;
  _sendBufferChunks : list nat;
  LSendBufferChunk : gmap nat nat;
  buffers : gmap nat SendBuffer;
  next : nat
}.

Definition init : st := mk ∅ [] ∅ ∅ 0.

Definition set_chunk (c : nat) (ch : SendBufferChunk) (s : st) : st :=
  mk (<[c := ch]> (chunks s)) (_sendBufferChunks s) (LSendBufferChunk s) (buffers s) (next s).
Definition set_pool (p : list nat) (s : st) : st :=
  mk (chunks s) p (LSendBufferChunk s) (buffers s) (next s).
Definition set_tls (l : gmap nat nat) (s : st) : st :=
  mk (chunks s) (_sendBufferChunks s) l (buffers s) (next s).
Definition set_buffers (l : gmap nat SendBuffer) (s : st) : st :=
  mk (chunks s) (_sendBufferChunks s) (LSendBufferChunk s) l (next s).

(** Some [shared_ptr] to the chunk is alive. *)
Definition referenced (c : nat) (s : st) : Prop :=
  (∃ p b, buffers s !! p = Some b ∧ _owner b = c) ∨
  (∃ t, LSendBufferChunk s !! t = Some c).

#[global] Instance referenced_dec c s : Decision (referenced c s).
Proof.
  assert (Decision (map_Exists (λ _ b, _owner b = c) (buffers s) ∨
                    map_Exists (λ _ c', c' = c) (LSendBufferChunk s))) as D by apply _.
  destruct D as [D|D]; [left|right].
  - destruct D as [(p & b & ? & ?)|(t & c' & ? & ->)]; [left; eauto|right; eauto].
  - intros [(p & b & ? & ?)|(t & ?)]; apply D; [left|right]; by repeat eexists.
Defined.

(** A [shared_ptr] to [c] was dropped: the last one runs the deleter, and
    [PushGlobal] puts the chunk back in the pool. *)
Definition release (c : nat) (s : st) : st :=
  if decide (referenced c s) then s else set_pool (_sendBufferChunks s ++ [c]) s.

Definition chunk_at (c : nat) : M st SendBufferChunk :=
  s ← get; lift (deref (chunks s !! c)).

(** [SendBufferManager::Pop]: the last pooled chunk, or a new one. *)
Definition Pop : M st nat :=
  s ← get;
  match last (_sendBufferChunks s) with
  | Some c => modify (set_pool (take (length (_sendBufferChunks s) - 1) (_sendBufferChunks s)));; mret c
  | None =>
    modify (fun s => mk (<[next s := new_chunk]> (chunks s)) (_sendBufferChunks s)
                        (LSendBufferChunk s) (buffers s) (S (next s)));;
    mret (next s)
  end.

(** [LSendBufferChunk = Pop(); LSendBufferChunk->Reset();] on thread [t]. *)
Definition renew (t : nat) : M st unit :=
  c ← Pop;
  s ← get;
  let old := LSendBufferChunk s !! t in
  modify (set_tls (<[t := c]> (LSendBufferChunk s)));;
  match old with
  | Some c0 => modify (release c0)
  | None => mret tt
  end;;
  ch ← chunk_at c;
  modify (set_chunk c (chunk_Reset ch)).

(** [SendBufferManager::Open] on thread [t]. *)
Definition Open (t : nat) (size : Z) : M st (option nat) :=
  s ← get;
  when (bool_decide (LSendBufferChunk s !! t = None)) (renew t);;
  s ← get;
  c ← lift (deref (LSendBufferChunk s !! t));
  ch ← chunk_at c;
  assert_crash (negb (_open ch));;
  when (FreeSize ch <? size) (renew t);;
  s ← get;
  c ← lift (deref (LSendBufferChunk s !! t));
  ch ← chunk_at c;
  '(b, ch) ← lift (chunk_Open c size ch);
  modify (set_chunk c ch);;
  match b with
  | Some b =>
    s ← get;
    modify (fun s => mk (chunks s) (_sendBufferChunks s) (LSendBufferChunk s)
                        (<[next s := b]> (buffers s)) (S (next s)));;
    mret (Some (next s))
  | None => mret None
  end.

Definition buffer_at (p : nat) : M st SendBuffer :=
  s ← get; lift (deref (buffers s !! p)).

(** A write of [bs] at [sendBuffer->Buffer() + off]. *)
Definition store (p : nat) (off : Z) (bs : list byte) : M st unit :=
  b ← buffer_at p;
  ch ← chunk_at (_owner b);
  ch ← lift (chunk_store (_offset b + off) bs ch);
  modify (set_chunk (_owner b) ch).

(** [SendBuffer::Close] *)
Definition Close (p : nat) (writeSize : Z) : M st unit :=
  b ← buffer_at p;
  assert_crash (writeSize <=? _allocSize b);;
  modify (fun s => set_buffers
    (<[p := mkBuffer (_owner b) (_offset b) (_allocSize b) writeSize]> (buffers s)) s);;
  ch ← chunk_at (_owner b);
  ch ← lift (chunk_Close writeSize ch);
  modify (set_chunk (_owner b) ch).

(** The last [shared_ptr] to a [SendBuffer] dies. *)
Definition drop_buffer (p : nat) : M st unit :=
  b ← buffer_at p;
  modify (fun s => set_buffers (delete p (buffers s)) s);;
  modify (release (_owner b)).

(** What a receiver of the buffer reads: [WriteSize()] bytes at [Buffer()]. *)
Definition bytes_of (p : nat) (s : st) : option (list byte) :=
  b ← buffers s !! p;
  ch ← chunks s !! _owner b;
  Some (slice (_offset b) (_writeSize b) (_buffer ch)).

(** ** Running the operations on a known buffer *)

Lemma store_run p off bs s b ch :
  buffers s !! p = Some b → chunks s !! _owner b = Some ch →
  0 ≤ _offset b + off → _offset b + off + zlen bs ≤ zlen (_buffer ch) →
  store p off bs s = Ret (tt, set_chunk (_owner b)
    (mkChunk (splice (_offset b + off) bs (_buffer ch)) (_open ch) (_usedSize ch)) s).
Proof.
  intros Hp Hc H0 H1. unfold store, buffer_at, chunk_at. autorewrite with run.
  rewrite Hp. autorewrite with run. rewrite Hc. autorewrite with run. unfold chunk_store.
  destruct (Z.leb_spec 0 (_offset b + off)); [|lia].
  destruct (Z.leb_spec (_offset b + off + zlen bs) (zlen (_buffer ch))); [done|lia].
Qed.

Lemma store_overflow p off bs s b ch :
  buffers s !! p = Some b → chunks s !! _owner b = Some ch →
  zlen (_buffer ch) < _offset b + off + zlen bs → store p off bs s = Crash OutOfBounds.
Proof.
  intros Hp Hc H1. unfold store, buffer_at, chunk_at. autorewrite with run.
  rewrite Hp. autorewrite with run. rewrite Hc. autorewrite with run. unfold chunk_store.
  destruct (Z.leb_spec (_offset b + off + zlen bs) (zlen (_buffer ch))); [lia|].
  by rewrite andb_false_r.
Qed.

Lemma Close_run p n s b ch :
  buffers s !! p = Some b → chunks s !! _owner b = Some ch → _open ch = true →
  n ≤ _allocSize b →
  Close p n s = Ret (tt, set_chunk (_owner b)
    (mkChunk (_buffer ch) false (u32 (_usedSize ch + n)))
    (set_buffers (<[p := mkBuffer (_owner b) (_offset b) (_allocSize b) n]> (buffers s)) s)).
Proof.
  intros Hp Hc Ho Hn. unfold Close, buffer_at, chunk_at. autorewrite with run.
  rewrite Hp. autorewrite with run. destruct (Z.leb_spec n (_allocSize b)); [|lia].
  autorewrite with run. simpl. rewrite Hc. autorewrite with run. unfold chunk_Close.
  by rewrite Ho.
Qed.

(** ** Invariant

    Between two uses of the manager no chunk is open; a buffer's bytes lie in
    the used part of its chunk; pooled chunks are not referenced. *)

Record wf (s : st) : Prop := {
  wf_chunk : ∀ c ch, chunks s !! c = Some ch →
    zlen (_buffer ch) = SEND_BUFFER_CHUNK_SIZE ∧
    0 ≤ _usedSize ch ≤ SEND_BUFFER_CHUNK_SIZE ∧ _open ch = false ∧ (c < next s)%nat;
  wf_buffer : ∀ p b, buffers s !! p = Some b → (p < next s)%nat ∧
    ∃ ch, chunks s !! _owner b = Some ch ∧ 0 ≤ _offset b ∧ 0 ≤ _writeSize b ∧
          _offset b + _writeSize b ≤ _usedSize ch;
  wf_pool : ∀ c, c ∈ _sendBufferChunks s → is_Some (chunks s !! c) ∧ ¬ referenced c s;
  wf_nodup : NoDup (_sendBufferChunks s);
  wf_tls : ∀ t c, LSendBufferChunk s !! t = Some c → is_Some (chunks s !! c)
}.

Lemma init_wf : wf init.
Proof.
  split; simpl; try (intros *; rewrite lookup_empty; done).
  - intros c Hc. by apply not_elem_of_nil in Hc.
  - constructor.
Qed.

Lemma referenced_chunk c s : wf s → referenced c s → is_Some (chunks s !! c).
Proof.
  intros Hwf [(p & b & Hp & <-)|(t & Ht)].
  - destruct (wf_buffer s Hwf p b Hp) as (_ & ch & -> & _). eauto.
  - by eapply wf_tls.
Qed.

Lemma bytes_of_same p s s' :
  buffers s' !! p = buffers s !! p →
  (∀ b, buffers s !! p = Some b → chunks s' !! _owner b = chunks s !! _owner b) →
  bytes_of p s' = bytes_of p s.
Proof.
  intros Hb Hc. unfold bytes_of. rewrite Hb.
  destruct (buffers s !! p) as [b|]; [|done]. simpl. by rewrite (Hc b).
Qed.

Lemma referenced_same c s s' :
  buffers s' = buffers s → LSendBufferChunk s' = LSendBufferChunk s →
  referenced c s' ↔ referenced c s.
Proof. unfold referenced. by intros -> ->. Qed.

(** What [renew] and the other steps of the manager keep. *)
Record kept (s s' : st) : Prop := {
  kept_buffers : buffers s' = buffers s;
  kept_bytes : ∀ p, bytes_of p s' = bytes_of p s
}.

Lemma Pop_spec s :
  wf s → ∃ c s', Pop s = Ret (c, s') ∧ wf s' ∧ is_Some (chunks s' !! c) ∧
    ¬ referenced c s' ∧ c ∉ _sendBufferChunks s' ∧ kept s s' ∧
    LSendBufferChunk s' = LSendBufferChunk s.
Proof.
  intros Hwf. pose proof Hwf as [Hch Hbuf Hpool Hnd Htls].
  unfold Pop. rewrite (M_bind_step _ _ s s s) by done.
  destruct (last (_sendBufferChunks s)) as [c|] eqn:Hlast.
  - apply last_Some in Hlast as [l Hl].
    set (s' := set_pool l s).
    assert (take (length (_sendBufferChunks s) - 1) (_sendBufferChunks s) = l) as Et.
    { rewrite Hl, length_app. simpl. rewrite Nat.add_sub. by apply take_app_length. }
    exists c, s'. rewrite Et, (M_bind_step _ _ s tt s') by done.
    destruct (Hpool c) as [Hc Hnr]; [rewrite Hl; set_solver|].
    rewrite Hl in Hnd. apply NoDup_app in Hnd as (Hndl & Hdisj & _).
    split_and!; try done.
    + split; simpl; try done. intros c' Hc'. apply Hpool. rewrite Hl. set_solver.
    + simpl. intros Hin. by apply (Hdisj c Hin), list_elem_of_singleton.
  - set (s' := mk (<[next s := new_chunk]> (chunks s)) (_sendBufferChunks s)
                  (LSendBufferChunk s) (buffers s) (S (next s))).
    exists (next s), s'. split; [done|].
    assert (chunks s !! next s = None) as Hfresh.
    { destruct (chunks s !! next s) as [ch|] eqn:E; [|done].
      apply Hch in E as (_ & _ & _ & ?). lia. }
    assert (¬ referenced (next s) s) as Hnr.
    { intros Hr%referenced_chunk; [|done]. rewrite Hfresh in Hr. by destruct Hr. }
    assert (∀ c, is_Some (chunks s !! c) → next s ≠ c) as Hne.
    { intros c Hc <-. rewrite Hfresh in Hc. by destruct Hc. }
    split_and!; try done.
    + split; simpl.
      * intros c ch. rewrite lookup_insert. case_decide as Hc.
        -- intros [= <-]. split_and!; try done. lia.
        -- intros E%Hch. destruct E as (? & ? & ? & ?). split_and!; lia || done.
      * intros p b E%Hbuf. destruct E as (? & ch & Ech & ?). split; [lia|].
        exists ch. rewrite lookup_insert_ne; [done|]. apply Hne. rewrite Ech. eauto.
      * intros c Hc. destruct (Hpool c Hc) as [Hsome Hr]. split; [|done].
        rewrite lookup_insert_ne; [done|by apply Hne].
      * done.
      * intros t c E%Htls. rewrite lookup_insert_ne; [done|by apply Hne].
    + simpl. rewrite lookup_insert_eq. eauto.
    + simpl. intros Hin%Hpool. destruct Hin as [Hsome _]. by destruct (Hne _ Hsome).
    + split; [done|]. intros p. apply bytes_of_same; [done|].
      intros b E%Hbuf. destruct E as (_ & ch & Ech & _). simpl.
      rewrite lookup_insert_ne; [done|]. apply Hne. rewrite Ech. eauto.
Qed.

(** The deleter: a chunk that is not pooled yet and no longer referenced
    joins the pool. *)
Lemma release_wf c s :
  wf s → is_Some (chunks s !! c) → c ∉ _sendBufferChunks s → wf (release c s).
Proof.
  intros Hwf Hc Hin. unfold release. case_decide as Hr; [done|].
  destruct Hwf as [Hch Hbuf Hpool Hnd Htls]. split; simpl; try done.
  - intros c' [?|E%list_elem_of_singleton]%elem_of_app; [by apply Hpool|by subst].
  - apply NoDup_app. split_and!; [done| |by apply NoDup_singleton].
    intros c' ? E%list_elem_of_singleton. by subst.
Qed.

Lemma release_kept c s : kept s (release c s).
Proof. unfold release. by case_decide. Qed.

Lemma kept_trans s1 s2 s3 : kept s1 s2 → kept s2 s3 → kept s1 s3.
Proof. intros [? Hb] [? Hb']. split; [congruence|]. intros p. by rewrite Hb', Hb. Qed.

(** Thread [t] takes an unreferenced, unpooled chunk. *)
Lemma set_tls_wf t c s :
  wf s → is_Some (chunks s !! c) → c ∉ _sendBufferChunks s →
  wf (set_tls (<[t := c]> (LSendBufferChunk s)) s).
Proof.
  intros [Hch Hbuf Hpool Hnd Htls] Hc Hin. split; simpl; try done.
  - intros c' Hc'. destruct (Hpool c' Hc') as [Hs Hr]. split; [done|].
    intros [(p & b & ? & ?)|(t' & Ht')]; [apply Hr; left; eauto|]. simpl in Ht'.
    rewrite lookup_insert in Ht'. case_decide; [congruence|]. apply Hr. right. eauto.
  - intros t' c'. rewrite lookup_insert. case_decide; [congruence|]. apply Htls.
Qed.

(** [Reset] of a chunk without buffers. *)
Lemma reset_wf c ch s :
  wf s → chunks s !! c = Some ch → (∀ p b, buffers s !! p = Some b → _owner b ≠ c) →
  wf (set_chunk c (chunk_Reset ch) s) ∧ kept s (set_chunk c (chunk_Reset ch) s).
Proof.
  intros [Hch Hbuf Hpool Hnd Htls] Hc Hno. split; [split; simpl; try done|split; [done|]].
  - intros c' ch'. rewrite lookup_insert. case_decide as E; [|apply Hch].
    intros [= <-]. subst c'. apply Hch in Hc as (? & ? & ? & ?).
    split_and!; simpl; unfold SEND_BUFFER_CHUNK_SIZE in *; lia || done.
  - intros p b Hp. destruct (Hbuf p b Hp) as (? & ch' & ? & ?). split; [done|].
    exists ch'. rewrite lookup_insert_ne; [done|]. by apply not_eq_sym, (Hno p).
  - intros c' Hc'. destruct (Hpool c' Hc') as [Hs Hr]. split; [|done].
    rewrite lookup_insert. case_decide; [eauto|done].
  - intros t c' Ht. rewrite lookup_insert. case_decide; [eauto|by eapply Htls].
  - intros p. apply bytes_of_same; [done|]. intros b Hp. simpl.
    rewrite lookup_insert_ne; [done|]. by apply not_eq_sym, (Hno p).
Qed.

Lemma renew_spec t s :
  wf s → ∃ c ch s', renew t s = Ret (tt, s') ∧ wf s' ∧ kept s s' ∧
    LSendBufferChunk s' !! t = Some c ∧ chunks s' !! c = Some ch ∧ _usedSize ch = 0.
Proof.
  intros Hwf. destruct (Pop_spec s Hwf) as (c & s1 & E1 & Hwf1 & Hc1 & Hnr & Hnp & K1 & T1).
  set (s2 := set_tls (<[t := c]> (LSendBufferChunk s1)) s1).
  assert (wf s2) as Hwf2 by (by apply set_tls_wf).
  set (old := LSendBufferChunk s1 !! t).
  set (s3 := match old with Some c0 => release c0 s2 | None => s2 end).
  assert (wf s3 ∧ kept s2 s3 ∧ chunks s3 = chunks s2 ∧
          LSendBufferChunk s3 = LSendBufferChunk s2) as (Hwf3 & K3 & C3 & T3).
  { subst s3. destruct old as [c0|] eqn:Hold; [|done].
    split_and!; [|apply release_kept|unfold release; by case_decide..].
    apply release_wf; [done|by apply (wf_tls _ Hwf1 t)|].
    intros Hin. destruct (wf_pool _ Hwf1 c0 Hin) as [_ Hr]. apply Hr. right. eauto. }
  assert (is_Some (chunks s3 !! c)) as [ch Hch] by (by rewrite C3).
  destruct (reset_wf c ch s3 Hwf3 Hch) as [Hwf4 K4].
  { intros p b Hp <-. apply Hnr. left. exists p, b. split; [|done].
    by rewrite (kept_buffers _ _ K3) in Hp. }
  exists c, (chunk_Reset ch), (set_chunk c (chunk_Reset ch) s3). split_and!; try done.
  - unfold renew, chunk_at. rewrite (M_bind_step _ _ s c s1) by done. autorewrite with run.
    rewrite (M_bind_step _ _ _ tt s3) by (subst s3 old; by case_match).
    autorewrite with run. by rewrite Hch.
  - eapply kept_trans; [done|]. eapply kept_trans; [|done].
    eapply kept_trans; [|done]. by split.
  - simpl. rewrite T3. simpl. by rewrite lookup_insert_eq.
  - simpl. by rewrite lookup_insert_eq.
Qed.

Lemma FreeSize_used ch :
  zlen (_buffer ch) = SEND_BUFFER_CHUNK_SIZE → 0 ≤ _usedSize ch ≤ SEND_BUFFER_CHUNK_SIZE →
  FreeSize ch = SEND_BUFFER_CHUNK_SIZE - _usedSize ch.
Proof.
  unfold SEND_BUFFER_CHUNK_SIZE, FreeSize, u32. intros -> ?. by rewrite Z.mod_small by lia.
Qed.

(** The first half of [Open]: thread [t] has a chunk, a fresh one when the
    current one has not enough room. *)
Lemma Open_prepare t size s :
  wf s → ∃ c ch s1, wf s1 ∧ kept s s1 ∧ LSendBufferChunk s1 !! t = Some c ∧
    chunks s1 !! c = Some ch ∧ (size ≤ SEND_BUFFER_CHUNK_SIZE → size ≤ FreeSize ch) ∧
    Open t size s =
      ('(b, ch) ← lift (chunk_Open c size ch);
       modify (set_chunk c ch);;
       match b with
       | Some b =>
         s ← get;
         modify (fun s => mk (chunks s) (_sendBufferChunks s) (LSendBufferChunk s)
                             (<[next s := b]> (buffers s)) (S (next s)));;
         mret (Some (next s))
       | None => mret None
       end) s1.
Proof.
  intros Hwf.
  assert (∃ c ch s1, wf s1 ∧ kept s s1 ∧ LSendBufferChunk s1 !! t = Some c ∧
            chunks s1 !! c = Some ch ∧
            when (bool_decide (LSendBufferChunk s !! t = None)) (renew t) s = Ret (tt, s1))
    as (c1 & ch1 & s1 & Hwf1 & K1 & T1 & C1 & E1).
  { case_bool_decide as Ht.
    - destruct (renew_spec t s Hwf) as (c & ch & s' & ? & ? & ? & ? & ? & ?). naive_solver.
    - destruct (LSendBufferChunk s !! t) as [c|] eqn:E; [|done].
      destruct (wf_tls _ Hwf t c E) as [ch Hch]. by exists c, ch, s. }
  pose proof (wf_chunk _ Hwf1 c1 ch1 C1) as (Hl1 & Hu1 & Ho1 & _).
  assert (∃ c ch s2, wf s2 ∧ kept s1 s2 ∧ LSendBufferChunk s2 !! t = Some c ∧
            chunks s2 !! c = Some ch ∧ (size ≤ SEND_BUFFER_CHUNK_SIZE → size ≤ FreeSize ch) ∧
            when (FreeSize ch1 <? size) (renew t) s1 = Ret (tt, s2))
    as (c2 & ch2 & s2 & Hwf2 & K2 & T2 & C2 & Hf & E2).
  { destruct (Z.ltb_spec (FreeSize ch1) size).
    - destruct (renew_spec t s1 Hwf1) as (c & ch & s' & E & Hwf' & ? & ? & Hch & Hu).
      pose proof (wf_chunk _ Hwf' c ch Hch) as (Hl & ? & _).
      exists c, ch, s'. split_and!; try done. rewrite FreeSize_used by done. lia.
    - by exists c1, ch1, s1. }
  exists c2, ch2, s2. split_and!; try done; [by eapply kept_trans|].
  unfold Open, chunk_at. autorewrite with run.
  rewrite (M_bind_step _ _ s tt s1) by done. autorewrite with run.
  rewrite T1. autorewrite with run. rewrite C1. autorewrite with run.
  rewrite Ho1. autorewrite with run. rewrite (M_bind_step _ _ s1 tt s2) by done.
  autorewrite with run. rewrite T2. autorewrite with run. rewrite C2.
  autorewrite with run. done.
Qed.

(** [Open] of at most a chunk's size takes the region after the used part. *)
Lemma Open_spec t size s :
  wf s → 0 ≤ size ≤ SEND_BUFFER_CHUNK_SIZE →
  ∃ c ch s1, wf s1 ∧ kept s s1 ∧ chunks s1 !! c = Some ch ∧ c ∉ _sendBufferChunks s1 ∧
    _usedSize ch + size ≤ SEND_BUFFER_CHUNK_SIZE ∧
    Open t size s = Ret (Some (next s1),
      mk (<[c := mkChunk (_buffer ch) true (_usedSize ch)]> (chunks s1)) (_sendBufferChunks s1)
         (LSendBufferChunk s1) (<[next s1 := mkBuffer c (_usedSize ch) size 0]> (buffers s1))
         (S (next s1))).
Proof.
  intros Hwf Hsize.
  destruct (Open_prepare t size s Hwf) as (c & ch & s1 & Hwf1 & K & T & C & Hf & E).
  pose proof (wf_chunk _ Hwf1 c ch C) as (Hl & Hu & Ho & _).
  specialize (Hf ltac:(lia)). rewrite FreeSize_used in Hf by done.
  exists c, ch, s1. split_and!; try done; [|lia|].
  - intros Hin. destruct (wf_pool _ Hwf1 c Hin) as [_ Hr]. apply Hr. right. eauto.
  - rewrite E. unfold chunk_Open. rewrite FreeSize_used by done.
    destruct (Z.leb_spec size SEND_BUFFER_CHUNK_SIZE); [|lia]. rewrite Ho. simpl.
    destruct (Z.ltb_spec (SEND_BUFFER_CHUNK_SIZE - _usedSize ch) size); [lia|done].
Qed.

(** More than a chunk is refused by the assertion. *)
Lemma Open_too_large t size s :
  wf s → SEND_BUFFER_CHUNK_SIZE < size → Open t size s = Crash AssertCrash.
Proof.
  intros Hwf Hs. destruct (Open_prepare t size s Hwf) as (c & ch & s1 & _ & _ & _ & _ & _ & ->).
  unfold chunk_Open. destruct (Z.leb_spec size SEND_BUFFER_CHUNK_SIZE); [lia|done].
Qed.

End SendBuffer.
