(* ===== verification/PacketHandler.v ===== *)
(** * PacketHandler: framing messages into send buffers
      (Server/ClientPacketHandler.h, Client/ServerPacketHandler.h: MakeSendBuffer)

    The generated message classes are known to this code through [ByteSizeLong] and
    [SerializeToArray], here the class [Message]; [MessageLaws] is what the protobuf
    documentation says of the sizes.  [Packets] has the instance of the program's own
    messages and what becomes of them on the other side. *)

From S2P Require Import Prelude PacketSession SendBuffer.

(** [SerializeToArray m n] is [Some bs] when it returns true having written
    [bs], and [None] when it returns false. *)
Class Message (T : Type) : Type := {
  ByteSizeLong : T → Z;
  SerializeToArray : T → Z → option (list byte)
}.

Class MessageLaws (T : Type) `{Message T} : Prop := {
  ByteSizeLong_nonneg : ∀ m, 0 ≤ ByteSizeLong m;
  SerializeToArray_too_small : ∀ m n, n < ByteSizeLong m → SerializeToArray m n = None;
  SerializeToArray_fits : ∀ m n, ByteSizeLong m ≤ n →
    ∃ bs, SerializeToArray m n = Some bs ∧ zlen bs = ByteSizeLong m
}.

(** A message that is its own encoding. *)
#[export] Instance raw_message : Message (list byte) := {
  ByteSizeLong := zlen;
  SerializeToArray m n := if n <? zlen m then None else Some m
}.

#[export] Instance raw_message_laws : MessageLaws (list byte).
Proof.
  split; simpl; intros.
  - apply zlen_nonneg.
  - case_test; [done|lia].
  - case_test; [lia|]. eauto.
Qed.

Module PacketHandler.

Import SendBuffer.

(** The sending thread is [t]. *)
Definition MakeSendBuffer {T} `{Message T} (t : nat) (pkt : T) (pktId : Z) : M st nat :=
  let dataSize := u16 (ByteSizeLong pkt) in
  let packetSize := u16 (dataSize + PacketSession.sizeof_PacketHeader) in
  sendBuffer ← Open t packetSize;
  p ← lift (deref sendBuffer);
  store p 0 (le16_bytes packetSize ++ le16_bytes pktId);;
  match SerializeToArray pkt dataSize with
  | Some bs => store p PacketSession.sizeof_PacketHeader bs
  | None => crash AssertCrash
  end;;
  Close p packetSize;;
  mret p.

(** The largest message that fits: a chunk less the header. *)
Definition max_message : Z := SEND_BUFFER_CHUNK_SIZE - PacketSession.sizeof_PacketHeader.

(** The fault of making a message of [n] bytes, larger than [max_message]. *)
Definition send_fault (n : Z) : fault :=
  if (65532 <=? n) && (n <=? 65535) then OutOfBounds else AssertCrash.

(** The bytes of a packet. *)
Definition packet_of (pktId : Z) (bs : list byte) : list byte :=
  le16_bytes (zlen bs + PacketSession.sizeof_PacketHeader) ++ le16_bytes pktId ++ bs.

Lemma zlen_packet_of i bs : zlen (packet_of i bs) = zlen bs + 4.
Proof. unfold packet_of. rewrite !zlen_app. unfold le16_bytes. rewrite !zlen_cons, zlen_nil. lia. Qed.

Lemma packet_of_wf i bs : zlen bs ≤ max_message → PacketSession.wf_packet (packet_of i bs).
Proof.
  unfold max_message, SEND_BUFFER_CHUNK_SIZE, PacketSession.sizeof_PacketHeader. intros Hb.
  pose proof (zlen_nonneg bs). unfold PacketSession.wf_packet.
  rewrite zlen_packet_of. unfold PacketSession.sizeof_PacketHeader. split; [lia|].
  simpl. apply le16_roundtrip. unfold PacketSession.sizeof_PacketHeader. lia.
Qed.

Lemma packet_of_id i bs : 0 ≤ i < 2 ^ 16 → PacketSession.packet_id (packet_of i bs) = i.
Proof. intros. simpl. by apply le16_roundtrip. Qed.

(** A chunk whose used part grew by a closed buffer. *)
Lemma closed_wf s1 c ch buf n :
  wf s1 → chunks s1 !! c = Some ch → zlen buf = SEND_BUFFER_CHUNK_SIZE → 0 ≤ n →
  _usedSize ch + n ≤ SEND_BUFFER_CHUNK_SIZE →
  c ∉ _sendBufferChunks s1 →
  wf (mk (<[c := mkChunk buf false (_usedSize ch + n)]> (chunks s1)) (_sendBufferChunks s1)
         (LSendBufferChunk s1) (<[next s1 := mkBuffer c (_usedSize ch) n n]> (buffers s1))
         (S (next s1))).
Proof.
  intros [Hch Hbuf Hpool Hnd Htls] Hc Hl Hn Hroom Hnp.
  pose proof (Hch c ch Hc) as (? & ? & ? & ?). split; simpl; try done.
  - intros c' ch'. rewrite lookup_insert. case_decide.
    + intros [= <-]. subst. split_and!; simpl; lia || done.
    + intros E. destruct (Hch c' ch' E) as (? & ? & ? & ?). split_and!; lia || done.
  - intros p b. rewrite lookup_insert. case_decide.
    + intros [= <-]. subst. split; [lia|]. simpl. rewrite lookup_insert_eq.
      eexists. split; [done|]. simpl. lia.
    + intros E. destruct (Hbuf p b E) as (? & ch' & Ech & ? & ? & ?). split; [lia|].
      rewrite lookup_insert. case_decide as Hown; [|by exists ch'].
      eexists. split; [done|]. simpl. rewrite Hown, Ech in Hc. injection Hc as ->. lia.
  - intros c' Hc'. destruct (Hpool c' Hc') as [Hs Hr]. split.
    + rewrite lookup_insert. case_decide; [eauto|done].
    + intros [(p & b & Hp & Hown)|(t & Ht)]; simpl in *; [|apply Hr; right; eauto].
      rewrite lookup_insert in Hp. case_decide; [|apply Hr; left; eauto].
      injection Hp as <-. simpl in Hown. congruence.
  - intros t c' Ht. rewrite lookup_insert. case_decide; [eauto|by eapply Htls].
Qed.

Section make.
Context {T : Type} `{MessageLaws T}.
Implicit Types pkt : T.

(** The region just opened is filled with a packet and closed. *)
Lemma fill_spec s1 c ch packetSize hdr bs :
  wf s1 → chunks s1 !! c = Some ch → c ∉ _sendBufferChunks s1 →
  _usedSize ch + packetSize ≤ SEND_BUFFER_CHUNK_SIZE →
  packetSize = zlen hdr + zlen bs → zlen hdr = 4 →
  let s2 := mk (<[c := mkChunk (_buffer ch) true (_usedSize ch)]> (chunks s1))
              (_sendBufferChunks s1) (LSendBufferChunk s1)
              (<[next s1 := mkBuffer c (_usedSize ch) packetSize 0]> (buffers s1))
              (S (next s1)) in
  ∃ s3, (store (next s1) 0 hdr;; store (next s1) 4 bs;;
         Close (next s1) packetSize;; mret (next s1)) s2 = Ret (next s1, s3) ∧
    wf s3 ∧ bytes_of (next s1) s3 = Some (hdr ++ bs) ∧
    buffers s3 = <[next s1 := mkBuffer c (_usedSize ch) packetSize packetSize]> (buffers s1) ∧
    ∀ q, is_Some (buffers s1 !! q) → bytes_of q s3 = bytes_of q s1.
Proof.
  intros Hwf Hc Hnp Hroom Hsize Hhdr. simpl.
  pose proof (wf_chunk _ Hwf c ch Hc) as (Hlen & Hu & _ & _).
  unfold SEND_BUFFER_CHUNK_SIZE in *. pose proof (zlen_nonneg bs).
  set (u := _usedSize ch) in *. set (buf1 := splice u hdr (_buffer ch)).
  set (buf2 := splice (u + 4) bs buf1).
  assert (zlen buf1 = 6000) as Hl1 by (unfold buf1; rewrite zlen_splice; lia).
  assert (zlen buf2 = 6000) as Hl2 by (unfold buf2; rewrite zlen_splice; lia).
  set (p := next s1).
  exists (mk (<[c := mkChunk buf2 false (u + packetSize)]> (chunks s1)) (_sendBufferChunks s1)
             (LSendBufferChunk s1) (<[p := mkBuffer c u packetSize packetSize]> (buffers s1))
             (S p)).
  split_and!.
  - erewrite M_bind_step; last first.
    { eapply (store_run p 0 hdr); simpl; [by rewrite lookup_insert_eq|simpl; by rewrite lookup_insert_eq|simpl; lia..]. }
    erewrite M_bind_step; last first.
    { eapply (store_run p 4 bs); simpl; [by rewrite lookup_insert_eq|simpl; by rewrite lookup_insert_eq|simpl..].
      - lia.
      - rewrite Z.add_0_r. fold buf1. lia. }
    erewrite M_bind_step; last first.
    { eapply (Close_run p packetSize); simpl; [by rewrite lookup_insert_eq|simpl; by rewrite lookup_insert_eq|done|done]. }
    unfold set_chunk, set_buffers. simpl. rewrite Z.add_0_r, !insert_insert_eq.
    fold buf1 buf2. unfold u32. by rewrite Z.mod_small by lia.
  - apply (closed_wf s1 c ch); try done; lia.
  - unfold bytes_of. simpl. rewrite lookup_insert_eq. simpl. rewrite lookup_insert_eq. simpl.
    f_equal. rewrite Hsize, slice_app_split by lia. f_equal.
    + unfold buf2. rewrite slice_splice_before by lia. apply slice_splice_same; lia.
    + unfold buf2. rewrite Hhdr. apply slice_splice_same; lia.
  - done.
  - intros q [b Hq]. destruct (wf_buffer _ Hwf q b Hq) as (Hlt & ch' & Hch' & ? & ? & ?).
    unfold bytes_of. simpl. rewrite lookup_insert_ne by (subst p; lia). rewrite Hq. simpl.
    rewrite Hch'. destruct (decide (c = _owner b)) as [->|].
    + rewrite lookup_insert_eq. simpl. f_equal. assert (ch' = ch) as -> by congruence.
      unfold buf2, buf1. subst u.
      rewrite slice_splice_before by (rewrite ?zlen_splice by lia; lia).
      by rewrite slice_splice_before by lia.
    + by rewrite lookup_insert_ne, Hch'.
Qed.

Lemma MakeSendBuffer_spec t pkt pktId s :
  wf s → ByteSizeLong pkt ≤ max_message →
  ∃ p s' bs, MakeSendBuffer t pkt pktId s = Ret (p, s') ∧ wf s' ∧
    SerializeToArray pkt (ByteSizeLong pkt) = Some bs ∧
    zlen bs = ByteSizeLong pkt ∧
    bytes_of p s' = Some (packet_of pktId bs) ∧ buffers s !! p = None ∧
    dom (buffers s') = {[p]} ∪ dom (buffers s) ∧
    ∀ q, is_Some (buffers s !! q) → bytes_of q s' = bytes_of q s.
Proof.
  unfold max_message, SEND_BUFFER_CHUNK_SIZE, PacketSession.sizeof_PacketHeader.
  intros Hwf Hn. pose proof (ByteSizeLong_nonneg pkt) as Hpos.
  assert (u16 (ByteSizeLong pkt) = ByteSizeLong pkt) as E1 by (apply Z.mod_small; lia).
  assert (u16 (ByteSizeLong pkt + 4) = ByteSizeLong pkt + 4) as E2 by (apply Z.mod_small; lia).
  destruct (SerializeToArray_fits pkt (ByteSizeLong pkt)) as (bs & Hs & Hl); [lia|].
  destruct (Open_spec t (ByteSizeLong pkt + 4) s Hwf)
    as (c & ch & s1 & Hwf1 & K1 & Hc & Hnp & Hroom & Eo); [unfold SEND_BUFFER_CHUNK_SIZE; lia|].
  set (hdr := le16_bytes (ByteSizeLong pkt + 4) ++ le16_bytes pktId).
  destruct (fill_spec s1 c ch (ByteSizeLong pkt + 4) hdr bs Hwf1 Hc Hnp Hroom)
    as (s3 & E3 & Hwf3 & B3 & Bu3 & Bk3); [unfold hdr, zlen in *; simpl; lia|done|].
  assert (buffers s !! next s1 = None) as Hfresh.
  { rewrite <-(kept_buffers _ _ K1). destruct (buffers s1 !! next s1) as [b|] eqn:E; [|done].
    apply (wf_buffer _ Hwf1) in E as [? _]. lia. }
  exists (next s1), s3, bs. split_and!; try done.
  - unfold MakeSendBuffer, PacketSession.sizeof_PacketHeader. rewrite E1, E2, Hs.
    erewrite M_bind_step by exact Eo. autorewrite with run. exact E3.
  - rewrite B3. unfold packet_of, PacketSession.sizeof_PacketHeader. rewrite Hl.
    unfold hdr. by rewrite <-app_assoc.
  - by rewrite Bu3, dom_insert_L, (kept_buffers _ _ K1).
  - intros q Hq. rewrite Bk3 by (by rewrite (kept_buffers _ _ K1)). apply (kept_bytes _ _ K1).
Qed.

End make.

(** ** Properties *)

Section size.
Context {T : Type} `{MessageLaws T}.

(** The four size classes of [MakeSendBuffer]. *)
Inductive make_outcome (n : Z) (r : result (nat * st)) : Prop :=
| make_returns p s' : n ≤ max_message → r = Ret (p, s') → make_outcome n r
| make_asserts : max_message < n < 65532 → r = Crash AssertCrash → make_outcome n r
| make_overruns : 65532 ≤ n ≤ 65535 → r = Crash OutOfBounds → make_outcome n r
| make_truncates f : 65535 < n → r = Crash f → make_outcome n r.

Lemma MakeSendBuffer_tiny t (pkt : T) pktId s size :
  wf s → u16 (u16 (ByteSizeLong pkt) + 4) = size → size < 4 →
  u16 (ByteSizeLong pkt) = ByteSizeLong pkt →
  MakeSendBuffer t pkt pktId s = Crash OutOfBounds.
Proof.
  intros Hwf Hsize H4 Hd. rewrite Hd in Hsize.
  assert (0 ≤ size) by (rewrite <-Hsize; by apply Z.mod_pos_bound).
  destruct (SerializeToArray_fits pkt (ByteSizeLong pkt)) as (bs & Hs & Hl); [lia|].
  assert (65532 ≤ zlen bs) as Hbig.
  { rewrite Hl. pose proof (ByteSizeLong_nonneg pkt). unfold u16 in *.
    destruct (Z.le_gt_cases 65532 (ByteSizeLong pkt)); [done|].
    rewrite (Z.mod_small (_ + 4)) in Hsize by lia. lia. }
  destruct (Open_spec t size s Hwf) as (c & ch & s1 & Hwf1 & _ & Hc & _ & Hroom & Eo);
    [unfold SEND_BUFFER_CHUNK_SIZE; lia|].
  pose proof (wf_chunk _ Hwf1 c ch Hc) as (Hlen & Hu & _). unfold SEND_BUFFER_CHUNK_SIZE in *.
  unfold MakeSendBuffer, PacketSession.sizeof_PacketHeader. rewrite Hd, Hsize, Hs.
  erewrite M_bind_step by exact Eo. autorewrite with run.
  destruct (Z.le_gt_cases (_usedSize ch + 4) 6000) as [Hh|Hh].
  - erewrite M_bind_step; last first.
    { eapply (store_run (next s1) 0); simpl; [by rewrite lookup_insert_eq|simpl; by rewrite lookup_insert_eq|simpl; unfold zlen in *; simpl; lia..]. }
    unfold mbind, M_bind. erewrite store_overflow; [done|simpl; by rewrite lookup_insert_eq|simpl; by rewrite lookup_insert_eq|].
    simpl. rewrite zlen_splice; unfold zlen in *; simpl; lia.
  - unfold mbind, M_bind. erewrite store_overflow; [done|simpl; by rewrite lookup_insert_eq|simpl; by rewrite lookup_insert_eq|].
    simpl. unfold zlen in *. simpl. lia.
Qed.

Lemma MakeSendBuffer_cases t (pkt : T) pktId s :
  wf s → make_outcome (ByteSizeLong pkt) (MakeSendBuffer t pkt pktId s).
Proof.
  intros Hwf. pose proof (ByteSizeLong_nonneg pkt) as Hpos.
  destruct (Z.le_gt_cases (ByteSizeLong pkt) max_message) as [Hn|Hn].
  { destruct (MakeSendBuffer_spec t pkt pktId s Hwf Hn) as (p & s' & _ & -> & _).
    by eapply make_returns. }
  unfold max_message, SEND_BUFFER_CHUNK_SIZE, PacketSession.sizeof_PacketHeader in Hn.
  destruct (Z.le_gt_cases (ByteSizeLong pkt) 65535) as [Hm|Hm].
  { assert (u16 (ByteSizeLong pkt) = ByteSizeLong pkt) as E1 by (apply Z.mod_small; lia).
    destruct (Z.le_gt_cases 65532 (ByteSizeLong pkt)) as [Hw|Hw].
    - apply make_overruns; [lia|]. eapply (MakeSendBuffer_tiny t pkt pktId s); try done.
      rewrite E1. unfold u16. rewrite (Z.mod_eq _ (2 ^ 16)) by lia.
      rewrite <-(Z.div_unique (ByteSizeLong pkt + 4) 65536 1 (ByteSizeLong pkt + 4 - 65536)); lia.
    - apply make_asserts; [unfold max_message, SEND_BUFFER_CHUNK_SIZE, PacketSession.sizeof_PacketHeader; lia|].
      unfold MakeSendBuffer, PacketSession.sizeof_PacketHeader. rewrite E1.
      assert (u16 (ByteSizeLong pkt + 4) = ByteSizeLong pkt + 4) as -> by (apply Z.mod_small; lia).
      unfold mbind, M_bind. rewrite Open_too_large; [done|done|unfold SEND_BUFFER_CHUNK_SIZE; lia]. }
  assert (∃ f, MakeSendBuffer t pkt pktId s = Crash f) as [f Ef]; [|by eapply make_truncates].
  unfold MakeSendBuffer. rewrite (SerializeToArray_too_small pkt).
  2:{ assert (u16 (ByteSizeLong pkt) < 2 ^ 16) by (by apply Z.mod_pos_bound). lia. }
  unfold mbind, M_bind. repeat case_match; simplify_eq/=; eauto.
Qed.

End size.

(** C30: [MakeSendBuffer] returns exactly for messages of at most 5996 bytes.
    Larger ones crash the process on an assertion, except that an encoding of
    65532 to 65535 bytes, whose packet size wraps around to less than a header,
    is written far past the end of the chunk. *)
Theorem MakeSendBuffer_returns_iff {T} `{MessageLaws T} t (pkt : T) pktId s :
  wf s →
  ((∃ p s', MakeSendBuffer t pkt pktId s = Ret (p, s')) ↔ ByteSizeLong pkt ≤ max_message) ∧
  (max_message < ByteSizeLong pkt < 65532 → MakeSendBuffer t pkt pktId s = Crash AssertCrash) ∧
  (65532 ≤ ByteSizeLong pkt ≤ 65535 → MakeSendBuffer t pkt pktId s = Crash OutOfBounds).
Proof.
  intros Hwf. unfold max_message, SEND_BUFFER_CHUNK_SIZE, PacketSession.sizeof_PacketHeader.
  destruct (MakeSendBuffer_cases t pkt pktId s Hwf) as [p s' Hn ->|Hn ->|Hn ->|f Hn ->];
    unfold max_message, SEND_BUFFER_CHUNK_SIZE, PacketSession.sizeof_PacketHeader in *;
    (split_and!; [split; [naive_solver lia|]|..]); try (intros; lia || done).
  intros _. eauto.
Qed.

Lemma MakeSendBuffer_returns_iff_witness :
  MakeSendBuffer 1 (replicate (Z.to_nat 65533) x61) 1012 init = Crash OutOfBounds.
Proof.
  apply (MakeSendBuffer_returns_iff 1 (replicate (Z.to_nat 65533) x61) 1012 init); [apply init_wf|].
  unfold ByteSizeLong, raw_message, zlen. rewrite length_replicate, Z2Nat.id; lia.
Defined.

(** ** Send buffers in use are never overwritten *)

Section isolation.
Context {T : Type} `{MessageLaws T}.

(** The manager, and the bytes each live buffer was made with. *)
Inductive mstep : relation (st * gmap nat (list byte)) :=
| mstep_make t (pkt : T) pktId p s s' bs g :
    MakeSendBuffer t pkt pktId s = Ret (p, s') →
    SerializeToArray pkt (ByteSizeLong pkt) = Some bs →
    mstep (s, g) (s', <[p := packet_of pktId bs]> g)
| mstep_drop p s s' g :
    drop_buffer p s = Ret (tt, s') → mstep (s, g) (s', delete p g).

Definition intact (sg : st * gmap nat (list byte)) : Prop :=
  wf sg.1 ∧ dom (buffers sg.1) = dom sg.2 ∧
  ∀ p bs, sg.2 !! p = Some bs → bytes_of p sg.1 = Some bs.

Lemma drop_wf p s s' :
  wf s → drop_buffer p s = Ret (tt, s') →
  wf s' ∧ dom (buffers s') = dom (buffers s) ∖ {[p]} ∧
  ∀ q, q ≠ p → bytes_of q s' = bytes_of q s.
Proof.
  intros Hwf E. unfold drop_buffer, buffer_at in E. autorewrite with run in E.
  destruct (buffers s !! p) as [b|] eqn:Hp; [|done]. autorewrite with run in E.
  injection E as <-. set (s1 := set_buffers (delete p (buffers s)) s).
  assert (wf s1) as Hwf1.
  { destruct Hwf as [Hch Hbuf Hpool Hnd Htls]. split; simpl; try done.
    - intros q b'. rewrite lookup_delete. case_decide; [done|]. apply Hbuf.
    - intros c Hc. destruct (Hpool c Hc) as [Hs Hr]. split; [done|].
      intros [(q & b' & Hq & ?)|(t & Ht)]; apply Hr; [left|right; eauto].
      simpl in Hq. rewrite lookup_delete in Hq. case_decide; [done|eauto]. }
  destruct (release_kept (_owner b) s1) as [Hb Hk]. split_and!.
  - apply release_wf; [done|..].
    + destruct (wf_buffer _ Hwf p b Hp) as (_ & ch & Hch & _). simpl. eauto.
    + intros Hin. destruct (wf_pool _ Hwf _ Hin) as [_ Hr]. apply Hr. left. eauto.
  - rewrite Hb. simpl. apply dom_delete_L.
  - intros q Hq. rewrite Hk. apply bytes_of_same; [|done].
    simpl. by rewrite lookup_delete_ne.
Qed.

Lemma mstep_intact x y : mstep x y → intact x → intact y.
Proof.
  intros Hs (Hwf & Hdom & Hg). destruct Hs as [t pkt pktId p s s' bs g E Es|p s s' g E]; simpl in *.
  - assert (ByteSizeLong pkt ≤ max_message) as Hn.
    { destruct (MakeSendBuffer_cases t pkt pktId s Hwf); [done|congruence..]. }
    destruct (MakeSendBuffer_spec t pkt pktId s Hwf Hn)
      as (p' & s'' & bs' & E' & Hwf' & Es' & _ & Hb & Hfresh & Hd & Hk).
    rewrite E in E'. injection E' as <- <-. rewrite Es in Es'. injection Es' as <-.
    split_and!; simpl; [done|by rewrite Hd, dom_insert_L, Hdom|].
    intros q bs'. rewrite lookup_insert. case_decide; [by intros [= <-]; subst|]. intros Hq.
    rewrite Hk; [by apply Hg|]. apply elem_of_dom. rewrite Hdom. apply elem_of_dom. eauto.
  - destruct (drop_wf p s s' Hwf E) as (Hwf' & Hd & Hk).
    split_and!; simpl; [done|by rewrite Hd, dom_delete_L, Hdom|].
    intros q bs. rewrite lookup_delete. case_decide; [done|]. intros Hq.
    rewrite Hk by done. by apply Hg.
Qed.

End isolation.

(** C29: whatever the threads make and drop, and however chunks are recycled
    through the pool, a live send buffer holds exactly the bytes it was made
    with: no later [Open] hands out memory that is still in use. *)
Theorem send_buffers_isolated {T} `{MessageLaws T} s g p bs :
  rtc (mstep (T := T)) (init, ∅) (s, g) → g !! p = Some bs → bytes_of p s = Some bs.
Proof.
  intros Hr Hp. assert (intact (s, g)) as (_ & _ & Hg); [|by apply Hg].
  apply (rtc_invariant mstep intact (init, ∅)); [|done|].
  - intros x y. apply mstep_intact.
  - split_and!; [apply init_wf|simpl; by rewrite !dom_empty_L|]. simpl. intros q bs'. by rewrite lookup_empty.
Qed.

(** Thread 1 makes a buffer, thread 2 makes one and thread 1's chunk is left alone. *)
Lemma send_buffers_isolated_witness :
  ∃ p s (g : gmap nat (list byte)), g !! p = Some (packet_of 1012 [x68; x69]) ∧
           bytes_of p s = Some (packet_of 1012 [x68; x69]) ∧ g !! S (S p) = Some (packet_of 1012 [x6f]).
Proof.
  destruct (MakeSendBuffer_spec 1 [x68; x69] 1012 init init_wf) as (p & s & bs & E & Hwf & Es & _ & Hb & _ & Hd & _).
  { vm_compute. discriminate. }
  destruct (MakeSendBuffer_spec 2 [x6f] 1012 s Hwf) as (p2 & s2 & bs2 & E2 & _ & Es2 & _).
  { vm_compute. discriminate. }
  assert (p = 1%nat) as -> by (vm_compute in E; congruence).
  assert (p2 = 3%nat) as -> by (vm_compute in E; injection E as <-; vm_compute in E2; congruence).
  exists 1%nat, s2, (<[3%nat := packet_of 1012 bs2]> (<[1%nat := packet_of 1012 bs]> ∅)).
  injection Es as <-. injection Es2 as <-. split_and!; [reflexivity| |reflexivity].
  apply (send_buffers_isolated (T := list byte) s2 (<[3%nat := packet_of 1012 [x6f]]> (<[1%nat := packet_of 1012 [x68; x69]]> ∅)) 1).
  - eapply rtc_l; [by eapply (mstep_make 1)|]. eapply rtc_l; [by eapply (mstep_make 2)|]. apply rtc_refl.
  - reflexivity.
Defined.

End PacketHandler.
