(* ===== verification/Lock.v ===== *)
(** * Lock: the recursive read/write spin lock (ServerCore/Lock.h, Lock.cpp)

    The release build of [WriteLock], [WriteUnLock], [ReadLock] and
    [ReadUnLock] as a step relation: one step per access to an atomic member,
    so its traces are the interleavings of the code.  A thread locks and
    unlocks through [WriteLockGuard] and [ReadLockGuard], hence in nested
    order; [stk] is its stack of live guards.  [readers] is history: the
    threads that incremented [_lockState], once per time; [waiters] is the
    threads between the increment and the decrement of [_writerPending].  The lock stands for
    [LThreadId]s that [ThreadManager::InitTLS] handed out, from 1 on; the guard
    depth of a thread stays below 65536, and the read guards alive at one time are
    taken to be fewer than 2^31, so that [_lockState], an [atomic<int>], does not wrap. *)

From stdpp Require Import functions gmultiset.
From S2P Require Import Prelude.
#[local] Open Scope Z_scope.

Module Lock.

Definition WRITE_STATE : Z := -1.
Definition NOTTING_STATE : Z := 0.

Inductive guard : Type := GW | GR.

#[global] Instance guard_eq_dec : EqDecision guard.
Proof. solve_decision. Defined.

(** Where a thread is: outside, or before the named access. *)
Inductive pc : Type :=
| Out
| WL_check | WL_rec | WL_pend | WL_cas | WL_own | WL_setrec | WL_unpend
| WU_check | WU_sub | WU_own | WU_state
| RL_check | RL_pend | RL_load | RL_cas (expected : Z)
| RU_check | RU_sub
| Crashed.

#[global] Instance pc_eq_dec : EqDecision pc.
Proof. solve_decision. Defined.

Record th : Type := T { at_pc : pc; stk : list guard }.

Record st : Type := mk {
  _lockState : Z;
  _ownerThreadId : Z;
  _writeRecursion : Z;
  _writerPending : Z;
  readers : gmultiset Z;
  waiters : gset Z;
  ths : Z → th
}.

Definition init : st := mk NOTTING_STATE (-1) 0 0 ∅ ∅ (λ _, T Out []).

Definition max_depth : nat := Z.to_nat 65535.

(** [Lock::WriteLock]: a thread already owning the lock counts a recursion;
    otherwise it announces itself and spins on the exchange. *)
Inductive WriteLock : st → st → Prop :=
| wl_enter (t : Z) L O R P rd ws (f : Z → th) g :
    f t = T Out g → 0 ≤ t → (length g < max_depth)%nat →
    WriteLock (mk L O R P rd ws f) (mk L O R P rd ws (<[t := T WL_check g]> f))
| wl_check_own (t : Z) L R P rd ws (f : Z → th) g :
    f t = T WL_check g →
    WriteLock (mk L t R P rd ws f) (mk L t R P rd ws (<[t := T WL_rec g]> f))
| wl_check_other (t : Z) L O R P rd ws (f : Z → th) g :
    f t = T WL_check g → O ≠ t →
    WriteLock (mk L O R P rd ws f) (mk L O R P rd ws (<[t := T WL_pend g]> f))
| wl_rec (t : Z) L O R P rd ws (f : Z → th) g :
    f t = T WL_rec g →
    WriteLock (mk L O R P rd ws f) (mk L O (u16 (R + 1)) P rd ws (<[t := T Out (GW :: g)]> f))
| wl_pend (t : Z) L O R P rd ws (f : Z → th) g :
    f t = T WL_pend g →
    WriteLock (mk L O R P rd ws f) (mk L O R (u16 (P + 1)) rd ({[t]} ∪ ws) (<[t := T WL_cas g]> f))
| wl_cas_ok (t : Z) O R P rd ws (f : Z → th) g :
    f t = T WL_cas g →
    WriteLock (mk NOTTING_STATE O R P rd ws f) (mk WRITE_STATE O R P rd ws (<[t := T WL_own g]> f))
| wl_cas_fail (t : Z) L O R P rd ws (f : Z → th) g :
    f t = T WL_cas g → L ≠ NOTTING_STATE →
    WriteLock (mk L O R P rd ws f) (mk L O R P rd ws f)
| wl_own (t : Z) L O R P rd ws (f : Z → th) g :
    f t = T WL_own g →
    WriteLock (mk L O R P rd ws f) (mk L t R P rd ws (<[t := T WL_setrec g]> f))
| wl_setrec (t : Z) L O R P rd ws (f : Z → th) g :
    f t = T WL_setrec g →
    WriteLock (mk L O R P rd ws f) (mk L O 1 P rd ws (<[t := T WL_unpend g]> f))
| wl_unpend (t : Z) L O R P rd ws (f : Z → th) g :
    f t = T WL_unpend g →
    WriteLock (mk L O R P rd ws f) (mk L O R (u16 (P - 1)) rd (ws ∖ {[t]}) (<[t := T Out (GW :: g)]> f)).

(** [Lock::WriteUnLock], with the two [CRASH] branches. *)
Inductive WriteUnLock : st → st → Prop :=
| wu_enter (t : Z) L O R P rd ws (f : Z → th) g :
    f t = T Out (GW :: g) →
    WriteUnLock (mk L O R P rd ws f) (mk L O R P rd ws (<[t := T WU_check (GW :: g)]> f))
| wu_check_ok (t : Z) L R P rd ws (f : Z → th) g :
    f t = T WU_check g →
    WriteUnLock (mk L t R P rd ws f) (mk L t R P rd ws (<[t := T WU_sub g]> f))
| wu_check_bad (t : Z) L O R P rd ws (f : Z → th) g :
    f t = T WU_check g → O ≠ t →
    WriteUnLock (mk L O R P rd ws f) (mk L O R P rd ws (<[t := T Crashed g]> f))
| wu_sub_underflow (t : Z) L O P rd ws (f : Z → th) g :
    f t = T WU_sub g →
    WriteUnLock (mk L O 0 P rd ws f) (mk L O (u16 (-1)) P rd ws (<[t := T Crashed g]> f))
| wu_sub_last (t : Z) L O P rd ws (f : Z → th) g :
    f t = T WU_sub (GW :: g) →
    WriteUnLock (mk L O 1 P rd ws f) (mk L O 0 P rd ws (<[t := T WU_own g]> f))
| wu_sub_inner (t : Z) L O R P rd ws (f : Z → th) g :
    f t = T WU_sub (GW :: g) → R ≠ 0 → R ≠ 1 →
    WriteUnLock (mk L O R P rd ws f) (mk L O (R - 1) P rd ws (<[t := T Out g]> f))
| wu_own (t : Z) L O R P rd ws (f : Z → th) g :
    f t = T WU_own g →
    WriteUnLock (mk L O R P rd ws f) (mk L (-1) R P rd ws (<[t := T WU_state g]> f))
| wu_state (t : Z) L O R P rd ws (f : Z → th) g :
    f t = T WU_state g →
    WriteUnLock (mk L O R P rd ws f) (mk NOTTING_STATE O R P rd ws (<[t := T Out g]> f)).

(** [Lock::ReadLock]: the owner passes, others wait for pending writers and
    count themselves into [_lockState]. *)
Inductive ReadLock : st → st → Prop :=
| rl_enter (t : Z) L O R P rd ws (f : Z → th) g :
    f t = T Out g → 0 ≤ t → (length g < max_depth)%nat →
    ReadLock (mk L O R P rd ws f) (mk L O R P rd ws (<[t := T RL_check g]> f))
| rl_check_own (t : Z) L R P rd ws (f : Z → th) g :
    f t = T RL_check g →
    ReadLock (mk L t R P rd ws f) (mk L t R P rd ws (<[t := T Out (GR :: g)]> f))
| rl_check_other (t : Z) L O R P rd ws (f : Z → th) g :
    f t = T RL_check g → O ≠ t →
    ReadLock (mk L O R P rd ws f) (mk L O R P rd ws (<[t := T RL_pend g]> f))
| rl_pend_wait (t : Z) L O R P rd ws (f : Z → th) g :
    f t = T RL_pend g → 0 < P →
    ReadLock (mk L O R P rd ws f) (mk L O R P rd ws f)
| rl_pend_go (t : Z) L O R P rd ws (f : Z → th) g :
    f t = T RL_pend g → P ≤ 0 →
    ReadLock (mk L O R P rd ws f) (mk L O R P rd ws (<[t := T RL_load g]> f))
| rl_load_write (t : Z) O R P rd ws (f : Z → th) g :
    f t = T RL_load g →
    ReadLock (mk WRITE_STATE O R P rd ws f) (mk WRITE_STATE O R P rd ws (<[t := T RL_pend g]> f))
| rl_load (t : Z) L O R P rd ws (f : Z → th) g :
    f t = T RL_load g → L ≠ WRITE_STATE →
    ReadLock (mk L O R P rd ws f) (mk L O R P rd ws (<[t := T (RL_cas L) g]> f))
| rl_cas_ok (t : Z) L O R P rd ws (f : Z → th) g :
    f t = T (RL_cas L) g →
    ReadLock (mk L O R P rd ws f)
         (mk (L + 1) O R P ({[+ t +]} ⊎ rd) ws (<[t := T Out (GR :: g)]> f))
| rl_cas_fail (t : Z) e L O R P rd ws (f : Z → th) g :
    f t = T (RL_cas e) g → L ≠ e →
    ReadLock (mk L O R P rd ws f) (mk L O R P rd ws (<[t := T RL_pend g]> f)).

(** [Lock::ReadUnLock]. *)
Inductive ReadUnLock : st → st → Prop :=
| ru_enter (t : Z) L O R P rd ws (f : Z → th) g :
    f t = T Out (GR :: g) →
    ReadUnLock (mk L O R P rd ws f) (mk L O R P rd ws (<[t := T RU_check (GR :: g)]> f))
| ru_check_own (t : Z) L R P rd ws (f : Z → th) g :
    f t = T RU_check (GR :: g) →
    ReadUnLock (mk L t R P rd ws f) (mk L t R P rd ws (<[t := T Out g]> f))
| ru_check_other (t : Z) L O R P rd ws (f : Z → th) g :
    f t = T RU_check g → O ≠ t →
    ReadUnLock (mk L O R P rd ws f) (mk L O R P rd ws (<[t := T RU_sub g]> f))
| ru_sub_underflow (t : Z) L O R P rd ws (f : Z → th) g :
    f t = T RU_sub g → L ≤ 0 →
    ReadUnLock (mk L O R P rd ws f) (mk (L - 1) O R P rd ws (<[t := T Crashed g]> f))
| ru_sub (t : Z) L O R P rd ws (f : Z → th) g :
    f t = T RU_sub (GR :: g) → 0 < L →
    ReadUnLock (mk L O R P rd ws f)
         (mk (L - 1) O R P (rd ∖ {[+ t +]}) ws (<[t := T Out g]> f)).

Definition step (s s' : st) : Prop :=
  WriteLock s s' ∨ WriteUnLock s s' ∨ ReadLock s s' ∨ ReadUnLock s s'.

(** ** The invariant *)

(** A thread that has the lock exclusively. *)
Definition excl (x : th) : bool :=
  match at_pc x with
  | WL_own | WL_setrec | WL_unpend | WU_own | WU_state => true
  | _ => bool_decide (GW ∈ stk x)
  end.

(** [_ownerThreadId] and [_writeRecursion] while [t] has the lock. *)
Definition owner_of (t : Z) (x : th) : Z :=
  match at_pc x with WL_own | WU_state => -1 | _ => t end.

Definition count_w (g : list guard) : nat := length (filter (GW =.) g).

Definition recursion_ok (R : Z) (x : th) : Prop :=
  match at_pc x with
  | WL_own | WL_setrec | WU_own | WU_state => R = 0
  | WL_unpend => R = 1
  | _ => R = Z.of_nat (count_w (stk x))
  end.

(** How often the thread is counted in [_lockState] and whether it is in
    [_writerPending]. *)
Definition reads (x : th) : nat :=
  if bool_decide (GW ∈ stk x) then 0%nat else length (stk x).

Definition waits (x : th) : bool :=
  match at_pc x with
  | WL_cas | WL_own | WL_setrec | WL_unpend => true
  | _ => false
  end.

(** Guards taken as a writer sit on top of one that took the lock. *)
Definition shape (g : list guard) : Prop := GW ∈ g → last g = Some GW.

Definition pc_ok (x : th) : Prop :=
  let g := stk x in
  match at_pc x with
  | Out => (length g ≤ max_depth)%nat
  | WL_check | RL_check => (length g < max_depth)%nat
  | WL_rec => GW ∈ g ∧ (length g < max_depth)%nat
  | WL_pend | WL_cas | RL_pend | RL_load => GW ∉ g ∧ (length g < max_depth)%nat
  | RL_cas e => GW ∉ g ∧ (length g < max_depth)%nat ∧ 0 ≤ e
  | WL_own | WL_setrec | WL_unpend | WU_own | WU_state => g = []
  | WU_check | WU_sub => head g = Some GW ∧ (length g ≤ max_depth)%nat
  | RU_check => head g = Some GR ∧ (length g ≤ max_depth)%nat
  | RU_sub => head g = Some GR ∧ GW ∉ g ∧ (length g ≤ max_depth)%nat
  | Crashed => False
  end.

(** What the invariant says of thread [t], given the thread [x] that has the
    lock exclusively. *)
Record thread_inv (x : option Z) (O R : Z) (m : nat) (w : bool) (t : Z) (h : th) : Prop := {
  ti_excl : excl h = bool_decide (x = Some t);
  ti_owner : x = Some t → O = owner_of t h ∧ recursion_ok R h;
  ti_reads : m = reads h;
  ti_waits : w = waits h;
  ti_shape : shape (stk h);
  ti_pc : pc_ok h;
  ti_id : t < 0 → h = T Out []
}.

Definition glob_inv (x : option Z) (L O R : Z) (rd : gmultiset Z) : Prop :=
  match x with
  | Some t => L = WRITE_STATE ∧ rd = ∅ ∧ 0 ≤ t
  | None => L = Z.of_nat (size rd) ∧ O = -1 ∧ R = 0
  end.

Definition Inv (s : st) : Prop :=
  ∃ x, glob_inv x (_lockState s) (_ownerThreadId s) (_writeRecursion s) (readers s) ∧
       _writerPending s = u16 (Z.of_nat (size (waiters s))) ∧
       ∀ t, thread_inv x (_ownerThreadId s) (_writeRecursion s)
              (multiplicity t (readers s)) (bool_decide (t ∈ waiters s)) t (ths s t).

(** A thread that has nothing to do with the lock is not affected by what the
    thread that has it does. *)
Lemma thread_inv_frame x O R x' O' R' m w t h :
  thread_inv x O R m w t h → x ≠ Some t → x' ≠ Some t → thread_inv x' O' R' m w t h.
Proof.
  intros [He Ho Hm Hw Hs Hp Hi] Hx Hx'. split; try done.
  rewrite He. by rewrite !bool_decide_eq_false_2.
Qed.

(** A step of thread [t]: the invariant of [t] and the global part suffice. *)
Lemma lock_Inv_step t O R rd (ws : gset Z) f L' O' R' P' rd' ws' h x x' :
  (∀ t', thread_inv x O R (multiplicity t' rd) (bool_decide (t' ∈ ws)) t' (f t')) →
  glob_inv x' L' O' R' rd' →
  P' = u16 (Z.of_nat (size ws')) →
  (x' = x ∧ O' = O ∧ R' = R ∨ (x = None ∨ x = Some t) ∧ (x' = None ∨ x' = Some t)) →
  (∀ t', t' ≠ t → multiplicity t' rd' = multiplicity t' rd) →
  (∀ t', t' ≠ t → t' ∈ ws' ↔ t' ∈ ws) →
  thread_inv x' O' R' (multiplicity t rd') (bool_decide (t ∈ ws')) t h →
  Inv (mk L' O' R' P' rd' ws' (<[t := h]> f)).
Proof.
  intros Hf Hg HP Hx Hm Hw Ht. exists x'. split_and!; [done..|]. intros t'; simpl.
  destruct (decide (t' = t)) as [->|Hne].
  - by rewrite fn_lookup_insert.
  - rewrite fn_lookup_insert_ne by done. rewrite Hm by done.
    rewrite (bool_decide_ext _ _ (Hw t' Hne)).
    destruct Hx as [(-> & -> & ->)|Hx]; [apply Hf|].
    apply (thread_inv_frame x O R); [apply Hf|naive_solver..].
Qed.

Lemma size_reads_pos t (rd : gmultiset Z) :
  multiplicity t rd ≠ 0%nat → size rd ≠ 0%nat.
Proof. intros Hm Hs. apply gmultiset_size_empty_inv in Hs as ->. by rewrite multiplicity_empty in Hm. Qed.

(** The thread that [_ownerThreadId] names has the lock. *)
Lemma owner_excl x L O R rd (ws : gset Z) f :
  glob_inv x L O R rd →
  (∀ t', thread_inv x O R (multiplicity t' rd) (bool_decide (t' ∈ ws)) t' (f t')) →
  0 ≤ O → x = Some O.
Proof.
  intros Hg Hf HO. destruct x as [t|]; simpl in Hg; [|lia].
  destruct (ti_owner _ _ _ _ _ _ _ (Hf t) eq_refl) as [He _].
  unfold owner_of in He. destruct (at_pc (f t)); first [congruence | lia].
Qed.

Lemma active_id x O R m w t h : thread_inv x O R m w t h → h ≠ T Out [] → 0 ≤ t.
Proof. intros H Hne. apply Z.nlt_ge. intros Hlt. by apply Hne, (ti_id _ _ _ _ _ _ _ H). Qed.

Lemma shape_tail a g : shape (a :: g) → shape g.
Proof.
  unfold shape. intros H Hin. destruct g as [|b g]; [by apply not_elem_of_nil in Hin|].
  rewrite last_cons in H. specialize (H ltac:(set_solver)).
  destruct (last (b :: g)) eqn:E; [by simplify_eq|]. by apply last_None in E.
Qed.

Lemma shape_count g : shape (GW :: g) → count_w (GW :: g) = 1%nat → g = [].
Proof.
  intros Hs Hc. destruct (decide (GW ∈ g)) as [Hin|Hn].
  - exfalso. unfold count_w in Hc. rewrite filter_cons_True in Hc by done.
    simpl in Hc. assert (filter (GW =.) g = []) as He by (apply nil_length_inv; lia).
    assert (GW ∈ filter (GW =.) g) as Hf by by apply list_elem_of_filter.
    rewrite He in Hf. by apply not_elem_of_nil in Hf.
  - destruct g as [|b g _] using rev_ind; [done|]. specialize (Hs ltac:(set_solver)).
    rewrite app_comm_cons, last_snoc in Hs. set_solver.
Qed.

Lemma shape_gr g : shape g → shape (GR :: g).
Proof.
  unfold shape. intros H Hin. apply elem_of_cons in Hin as [?|Hin]; [done|].
  rewrite last_cons, (H Hin). done.
Qed.

Lemma shape_gw g : shape g → (GW ∈ g ∨ g = []) → shape (GW :: g).
Proof. unfold shape. intros H [Hin | ->] _; [by rewrite last_cons, (H Hin)|done]. Qed.

Lemma count_w_gr g : count_w (GR :: g) = count_w g.
Proof. done. Qed.

Lemma count_w_gw g : count_w (GW :: g) = S (count_w g).
Proof. done. Qed.

Lemma count_w_length g : (count_w g ≤ length g)%nat.
Proof. apply length_filter. Qed.

Lemma count_w_pos g : count_w g ≠ 0%nat → GW ∈ g.
Proof.
  unfold count_w. intros H. destruct (filter (GW =.) g) as [|y k] eqn:E; [done|].
  assert (y ∈ filter (GW =.) g) as Hin by (rewrite E; left).
  by apply list_elem_of_filter in Hin as [<- Hin].
Qed.

Lemma in_count_w g : GW ∈ g → count_w g ≠ 0%nat.
Proof.
  unfold count_w. intros H E. apply nil_length_inv in E.
  assert (GW ∈ filter (GW =.) g) as Hin by by apply list_elem_of_filter. rewrite E in Hin. set_solver.
Qed.

(** The steps that move one thread and write no member. *)
Lemma local_step t L O R P rd ws f h x :
  glob_inv x L O R rd → P = u16 (Z.of_nat (size ws)) →
  (∀ t', thread_inv x O R (multiplicity t' rd) (bool_decide (t' ∈ ws)) t' (f t')) →
  thread_inv x O R (multiplicity t rd) (bool_decide (t ∈ ws)) t h →
  Inv (mk L O R P rd ws (<[t := h]> f)).
Proof. intros Hg HP Hf Ht. apply (lock_Inv_step t O R rd ws) with x x; auto. Qed.

Lemma max_depth_val : Z.of_nat max_depth = 65535.
Proof. done. Qed.

Lemma max_depth_pos : (1 ≤ max_depth)%nat.
Proof. pose proof max_depth_val. lia. Qed.

#[local] Opaque max_depth.

Ltac unfold_thread :=
  unfold excl, owner_of, recursion_ok, reads, waits, pc_ok in *; cbn [at_pc stk] in *.

Lemma bool_decide_iff_eq (P Q : Prop) `{Decision P, Decision Q} :
  bool_decide P = bool_decide Q ↔ (P ↔ Q).
Proof. do 2 case_bool_decide; naive_solver. Qed.

Lemma bool_decide_true_eq (P : Prop) `{Decision P} : true = bool_decide P ↔ P.
Proof. case_bool_decide; naive_solver. Qed.

Lemma elem_gr g : GW ∈ GR :: g ↔ GW ∈ g.
Proof. set_solver. Qed.

Lemma elem_gw g : GW ∈ GW :: g.
Proof. left. Qed.

Lemma bool_decide_elem_gr g : bool_decide (GW ∈ GR :: g) = bool_decide (GW ∈ g).
Proof. apply bool_decide_ext, elem_gr. Qed.

Lemma bool_decide_elem_gw g : bool_decide (GW ∈ GW :: g) = true.
Proof. apply bool_decide_eq_true_2, elem_gw. Qed.

Lemma bool_decide_elem_nil : bool_decide (GW ∈ []) = false.
Proof. done. Qed.

(** The facts of thread [t], whose state is known, in usable form. *)
Ltac open_thread Hf :=
  match goal with
  | H : ?f ?t = T _ _ |- _ =>
    let Ht := fresh "Ht" in
    pose proof (Hf t) as Ht; rewrite H in Ht;
    try (assert (0 ≤ t) by (apply (active_id _ _ _ _ _ _ _ Ht); congruence));
    destruct Ht as [He Ho Hm Hw Hsh Hp Hid]; unfold_thread;
    rewrite ?bool_decide_iff_eq, ?bool_decide_true_eq in He;
    rewrite ?bool_decide_elem_gr, ?bool_decide_elem_gw, ?bool_decide_elem_nil in Hm;
    rewrite ?count_w_gr, ?count_w_gw in Ho
  end.

(** The goals [thread_inv] leaves. *)
Ltac close_thread :=
  split; unfold_thread;
  rewrite ?count_w_gr, ?count_w_gw, ?bool_decide_elem_gr, ?bool_decide_elem_gw,
    ?bool_decide_elem_nil, ?bool_decide_iff_eq, ?bool_decide_true_eq;
  try solve [done | lia | intros; lia | tauto | intuition (first [congruence|lia]) | by apply shape_gr
            | by eapply shape_tail | by (apply shape_gw; auto)
            | (match goal with H : GW ∈ GW :: _ ↔ _ |- _ => apply H; left end) | rewrite elem_gr in *; tauto ].

Lemma depth_u16 g : (length g < max_depth)%nat →
  u16 (Z.of_nat (count_w g) + 1) = Z.of_nat (S (count_w g)).
Proof.
  intros H. pose proof (count_w_length g). pose proof max_depth_val.
  unfold u16. rewrite Z.mod_small; lia.
Qed.

Lemma WriteLock_inv s s' : WriteLock s s' → Inv s → Inv s'.
Proof.
  intros Hs (x & Hg & HP & Hf).
  destruct Hs; simpl in *; open_thread Hf.
  - apply local_step with x; [done..|]. close_thread.
  - assert (x = Some t) by by eapply owner_excl.
    apply local_step with x; [done..|]. close_thread.
  - assert (x ≠ Some t) by naive_solver.
    apply local_step with x; [done..|]. close_thread.
  - destruct Hp as [Hp Hl]. assert (x = Some t) as -> by tauto.
    destruct (Ho eq_refl) as [-> ->]. rewrite depth_u16 by done.
    rewrite (bool_decide_eq_true_2 (GW ∈ g)) in Hm by done.
    apply (lock_Inv_step t t (Z.of_nat (count_w g)) rd ws) with (Some t) (Some t); auto.
    close_thread.
  - destruct Hp as [Hn Hl]. assert (x ≠ Some t) by tauto.
    assert (t ∉ ws) by by eapply bool_decide_eq_false_1.
    apply (lock_Inv_step t O R rd ws) with x x; auto; [|set_solver|].
    + rewrite size_union, size_singleton by set_solver. subst.
      unfold u16. rewrite Zplus_mod_idemp_l. f_equal. lia.
    + rewrite (bool_decide_eq_true_2 (t ∈ _)) by set_solver. close_thread.
  - destruct Hp as [Hn Hl]. destruct x as [t'|]; simpl in Hg; [naive_solver|].
    destruct Hg as (Hsz & -> & ->). unfold NOTTING_STATE in Hsz. assert (rd = ∅) as -> by (apply gmultiset_size_empty_inv; lia).
    rewrite multiplicity_empty, bool_decide_eq_false_2 in Hm by done.
    symmetry in Hm; apply nil_length_inv in Hm as ->.
    apply (lock_Inv_step t (-1) 0 ∅ ws) with None (Some t); auto; [done|]. close_thread.
  - by exists x.
  - subst g x. destruct (Ho eq_refl) as [-> ->].
    apply (lock_Inv_step t (-1) 0 rd ws) with (Some t) (Some t); auto. close_thread.
  - subst g x. destruct (Ho eq_refl) as [-> ->].
    apply (lock_Inv_step t t 0 rd ws) with (Some t) (Some t); auto. close_thread.
  - subst g x. destruct (Ho eq_refl) as [-> ->].
    assert (t ∈ ws) by by eapply bool_decide_eq_true_1.
    apply (lock_Inv_step t t 1 rd ws) with (Some t) (Some t); auto; [|set_solver|].
    + rewrite size_difference, size_singleton by set_solver.
      assert (size ws ≠ 0%nat) by (rewrite size_non_empty_iff; set_solver).
      subst. unfold u16. rewrite Zminus_mod_idemp_l. f_equal. lia.
    + rewrite (bool_decide_eq_false_2 (t ∈ _)) by set_solver. close_thread.
      apply max_depth_pos.
Qed.

Lemma head_gw g : head g = Some GW → GW ∈ g.
Proof. destruct g; simpl; intros; simplify_eq; left. Qed.

Lemma WriteUnLock_inv s s' : WriteUnLock s s' → Inv s → Inv s'.
Proof.
  intros Hs (x & Hg & HP & Hf).
  destruct Hs; simpl in *; open_thread Hf.
  - apply local_step with x; [done..|]. close_thread.
  - apply local_step with x; [done..|]. close_thread.
  - destruct Hp as [Hh%head_gw Hl]. assert (x = Some t) as -> by tauto.
    destruct (Ho eq_refl). congruence.
  - destruct Hp as [Hh%head_gw Hl]. assert (x = Some t) as -> by tauto.
    destruct (Ho eq_refl) as [_ Hc]. apply in_count_w in Hh. lia.
  - assert (x = Some t) as -> by (apply He; left).
    destruct (Ho eq_refl) as [-> Hc].
    assert (g = []) as -> by (apply shape_count; [done|]; rewrite count_w_gw; lia).
    apply (lock_Inv_step t t 1 rd ws) with (Some t) (Some t); auto. close_thread.
  - assert (x = Some t) as -> by (apply He; left).
    destruct (Ho eq_refl) as [-> Hc].
    assert (GW ∈ g) by (apply count_w_pos; lia). destruct Hp as [_ Hl]. simpl in Hl.
    apply (lock_Inv_step t t R rd ws) with (Some t) (Some t); auto. close_thread.
    by rewrite bool_decide_eq_true_2.
  - subst g x. destruct (Ho eq_refl) as [-> ->].
    apply (lock_Inv_step t t 0 rd ws) with (Some t) (Some t); auto. close_thread.
  - subst g x. destruct (Ho eq_refl) as [-> ->]. destruct Hg as (-> & -> & _).
    apply (lock_Inv_step t (-1) 0 ∅ ws) with (Some t) None; auto; [done|]. close_thread. apply Nat.le_0_l.
Qed.

Lemma no_writer x L O R rd : glob_inv x L O R rd → L ≠ WRITE_STATE → x = None.
Proof. destruct x; naive_solver. Qed.

Lemma ReadLock_inv s s' : ReadLock s s' → Inv s → Inv s'.
Proof.
  intros Hs (x & Hg & HP & Hf).
  destruct Hs; simpl in *; open_thread Hf.
  - apply local_step with x; [done..|]. close_thread.
  - assert (x = Some t) as -> by by eapply owner_excl.
    assert (GW ∈ g) by by apply He. rewrite (bool_decide_eq_true_2 (GW ∈ g)) in Hm by done.
    apply local_step with (Some t); [done..|]. close_thread. by rewrite bool_decide_eq_true_2.
  - assert (x ≠ Some t) by naive_solver.
    apply local_step with x; [done..|]. close_thread.
  - by exists x.
  - apply local_step with x; [done..|]. close_thread.
  - apply local_step with x; [done..|]. close_thread.
  - assert (x = None) as -> by by eapply no_writer.
    destruct Hg as (-> & -> & ->). apply local_step with None; [done..|]. close_thread.
  - destruct Hp as (Hn & Hl & H1). assert (x = None) as -> by (eapply no_writer; [done|]; unfold WRITE_STATE; lia).
    destruct Hg as (-> & -> & ->). rewrite bool_decide_eq_false_2 in Hm by done.
    apply (lock_Inv_step t (-1) 0 rd ws) with None None; auto.
    + split_and!; [|done..]. rewrite gmultiset_size_disj_union, gmultiset_size_singleton. lia.
    + intros t' Hne. rewrite multiplicity_disj_union, multiplicity_singleton_ne by done. done.
    + rewrite multiplicity_disj_union, multiplicity_singleton. close_thread.
      rewrite bool_decide_eq_false_2, decide_True by done. simpl. lia.
  - apply local_step with x; [done..|]. close_thread.
Qed.

Lemma ReadUnLock_inv s s' : ReadUnLock s s' → Inv s → Inv s'.
Proof.
  intros Hs (x & Hg & HP & Hf).
  destruct Hs; simpl in *; open_thread Hf.
  - apply local_step with x; [done..|]. close_thread.
  - assert (x = Some t) as -> by by eapply owner_excl.
    rewrite elem_gr in He. assert (GW ∈ g) as Hin by by apply He. destruct Hp as [_ Hl]. simpl in Hl.
    rewrite (bool_decide_eq_true_2 (GW ∈ g)) in Hm by done.
    apply local_step with (Some t); [done..|]. close_thread.
    by rewrite bool_decide_eq_true_2.
  - assert (x ≠ Some t) by naive_solver.
    apply local_step with x; [done..|]. close_thread.
  - destruct Hp as (Hh & Hn & Hl). destruct g as [|a g]; [done|].
    rewrite bool_decide_eq_false_2 in Hm by done.
    assert (size rd ≠ 0%nat) by (apply (size_reads_pos t); simpl in Hm; lia).
    destruct x as [t'|]; simpl in Hg; [|lia].
    destruct Hg as (_ & -> & _). by rewrite gmultiset_size_empty in *.
  - destruct Hp as (_ & Hn & Hl). rewrite elem_gr in Hn.
    rewrite bool_decide_eq_false_2 in Hm by done. simpl in *.
    assert (x = None) as -> by (eapply no_writer; [done|]; unfold WRITE_STATE; lia).
    destruct Hg as (-> & -> & ->).
    assert (t ∈ rd) by (apply elem_of_multiplicity; lia).
    apply (lock_Inv_step t (-1) 0 rd ws) with None None; auto.
    + split_and!; [|done..].
      rewrite gmultiset_size_difference, gmultiset_size_singleton by multiset_solver.
      pose proof (size_reads_pos t rd ltac:(lia)). lia.
    + intros t' Hne. rewrite multiplicity_difference, multiplicity_singleton_ne by done. lia.
    + rewrite multiplicity_difference, multiplicity_singleton. close_thread.
      rewrite bool_decide_eq_false_2, decide_True by done. lia.
Qed.

Lemma lock_step_inv s s' : step s s' → Inv s → Inv s'.
Proof.
  intros [H|[H|[H|H]]]; [by apply WriteLock_inv|by apply WriteUnLock_inv|
    by apply ReadLock_inv|by apply ReadUnLock_inv].
Qed.

Lemma lock_init_inv : Inv init.
Proof.
  exists None. split_and!; [done..|]. intros t; simpl. close_thread. apply Nat.le_0_l.
Qed.

Lemma lock_reachable s : rtc step init s → Inv s.
Proof. intros H. eapply rtc_invariant; [apply lock_step_inv|done|apply lock_init_inv]. Qed.

Lemma stack_of_excl s x t :
  thread_inv (Some x) (_ownerThreadId s) (_writeRecursion s) 0 (bool_decide (t ∈ waiters s)) t (ths s t) →
  t ≠ x → stk (ths s t) = [].
Proof.
  intros [He _ Hm _ _ _ _] Hne. rewrite bool_decide_eq_false_2 in He by congruence.
  assert (GW ∉ stk (ths s t)) as Hn.
  { unfold excl in He. destruct (at_pc (ths s t)); first [done|by eapply bool_decide_eq_false_1]. }
  unfold reads in Hm. rewrite bool_decide_eq_false_2 in Hm by done. by apply nil_length_inv.
Qed.

(** While a thread has a write guard, no other thread has a guard. *)
Lemma guards_exclusive s t t' : Inv s → GW ∈ stk (ths s t) → t' ≠ t → stk (ths s t') = [].
Proof.
  intros (x & Hg & _ & Hf) Hin Hne. assert (x = Some t) as ->.
  { pose proof (ti_excl _ _ _ _ _ _ _ (Hf t)) as He.
    unfold excl in He. rewrite (bool_decide_eq_true_2 (GW ∈ _)) in He by done.
    destruct (at_pc (ths s t)); symmetry in He; by eapply bool_decide_eq_true_1. }
  destruct Hg as (_ & Hrd & _). specialize (Hf t'). rewrite Hrd, multiplicity_empty in Hf.
  by eapply stack_of_excl.
Qed.

(** A thread that waits for the exchange while it is itself counted as a
    reader waits after every step. *)
Lemma upgrade_step t g s s' :
  step s s' → Inv s → g ≠ [] → ths s t = T WL_cas g → ths s' t = T WL_cas g.
Proof.
  intros Hs (x & Hg & _ & Hf) Hne Ht. specialize (Hf t). rewrite Ht in Hf.
  destruct Hf as [_ _ Hm _ _ [Hn _] _]. unfold reads in Hm; simpl in Hm, Hn.
  rewrite bool_decide_eq_false_2 in Hm by done.
  destruct Hs as [Hs|[Hs|[Hs|Hs]]]; destruct Hs; simpl in *; try done;
    match goal with |- context [<[?u := _]> _] =>
      destruct (decide (u = t)) as [->|]; [|by rewrite fn_lookup_insert_ne]
    end; try congruence.
  exfalso. destruct x as [t'|]; simpl in Hg; [naive_solver|].
  destruct Hg as (Hsz & _). unfold NOTTING_STATE in Hsz.
  apply (size_reads_pos t rd); [|lia]. destruct g; simpl in Hm; [done|lia].
Qed.

(** Runs of thread [1] for the witnesses. *)
Lemma depth_lt (g : list guard) : (length g ≤ 1)%nat → (length g < max_depth)%nat.
Proof. pose proof max_depth_val. lia. Qed.

Ltac side :=
  match goal with
  | |- (_ < max_depth)%nat => apply depth_lt; simpl; lia
  | _ => first [done | vm_compute; congruence]
  end.
Ltac wl c := eapply rtc_l; [left; eapply (c 1); side|].
Ltac wu c := eapply rtc_l; [right; left; eapply (c 1); side|].
Ltac rl c := eapply rtc_l; [right; right; left; eapply (c 1); side|].

Ltac take_write :=
  wl wl_enter; wl wl_check_other; wl wl_pend; wl wl_cas_ok; wl wl_own; wl wl_setrec; wl wl_unpend.

Lemma run_write : ∃ s, rtc step init s ∧ ths s 1 = T Out [GW].
Proof. eexists. split; [take_write; apply rtc_refl|done]. Qed.

Lemma run_write_unlock :
  ∃ s, rtc step init s ∧ ∀ t, ths s t = T Out [].
Proof.
  eexists. split.
  - take_write. wu wu_enter. wu wu_check_ok. wu wu_sub_last. wu wu_own. wu wu_state. apply rtc_refl.
  - intros t. simpl. destruct (decide (t = 1)) as [->|].
    + by rewrite fn_lookup_insert.
    + by rewrite !fn_lookup_insert_ne.
Qed.

Lemma run_upgrade : ∃ s, rtc step init s ∧ ths s 1 = T WL_cas [GR].
Proof.
  eexists. split.
  - rl rl_enter. rl rl_check_other. rl rl_pend_go. rl rl_load. rl rl_cas_ok.
    wl wl_enter. wl wl_check_other. wl wl_pend. apply rtc_refl.
  - done.
Qed.

(** C10: the lock excludes: while a thread has a write guard, no other thread has
    a guard of either kind, whatever the interleaving. *)
Theorem write_guard_exclusive s t t' :
  rtc step init s → GW ∈ stk (ths s t) → t' ≠ t → stk (ths s t') = [].
Proof.
  intros Hr%lock_reachable. by apply guards_exclusive.
Qed.

Lemma write_guard_exclusive_witness :
  ∃ s, rtc step init s ∧ GW ∈ stk (ths s 1) ∧ stk (ths s 2) = [].
Proof.
  destruct run_write as (s & Hr & H1). exists s.
  assert (GW ∈ stk (ths s 1)) as Hg by (rewrite H1; left).
  split_and!; [done..|]. by apply (write_guard_exclusive s 1 2).
Defined.

(** Used through its guards the lock never reaches one of its [CRASH]es: no
    invalid unlock, no recursion underflow, no underflow of [_lockState]. *)
Theorem lock_never_crashes s t : rtc step init s → at_pc (ths s t) ≠ Crashed.
Proof.
  intros (x & _ & _ & Hf)%lock_reachable Hc. pose proof (ti_pc _ _ _ _ _ _ _ (Hf t)) as Hp.
  unfold pc_ok in Hp. by rewrite Hc in Hp.
Qed.

Lemma lock_never_crashes_witness : ∃ s, rtc step init s ∧ at_pc (ths s 1) ≠ Crashed.
Proof.
  destruct run_write as (s & Hr & _). exists s. split; [done|].
  by apply (lock_never_crashes s 1).
Defined.

(** When every guard has been released, the four members are back at their
    initial values, so the lock can be taken again by readers and writers. *)
Theorem lock_quiescent s :
  rtc step init s → (∀ t, ths s t = T Out []) →
  _lockState s = NOTTING_STATE ∧ _ownerThreadId s = -1 ∧
  _writeRecursion s = 0 ∧ _writerPending s = 0.
Proof.
  intros (x & Hg & HP & Hf)%lock_reachable Hout.
  assert (waiters s = ∅) as Hws.
  { apply leibniz_equiv, elem_of_equiv_empty. intros t.
    pose proof (ti_waits _ _ _ _ _ _ _ (Hf t)) as Hw. rewrite Hout in Hw.
    by eapply bool_decide_eq_false_1. }
  assert (readers s = ∅) as Hrd.
  { apply gmultiset_eq. intros t. rewrite (ti_reads _ _ _ _ _ _ _ (Hf t)), Hout. done. }
  rewrite Hws in HP. destruct x as [t|].
  - pose proof (ti_excl _ _ _ _ _ _ _ (Hf t)) as He. rewrite Hout in He.
    rewrite (bool_decide_eq_true_2 (Some t = Some t)) in He; done.
  - rewrite Hrd in Hg. naive_solver.
Qed.

Lemma lock_quiescent_witness :
  ∃ s, rtc step init s ∧ (∀ t, ths s t = T Out []) ∧ _lockState s = NOTTING_STATE.
Proof.
  destruct run_write_unlock as (s & Hr & Ho). exists s. split_and!; [done..|].
  by apply (lock_quiescent s).
Defined.

(** C40: a thread that asks for the write lock while it holds only read guards
    of its own never gets it: in every later state it still spins on the
    exchange. *)
Theorem read_to_write_upgrade_hangs s s' t g :
  rtc step init s → g ≠ [] → ths s t = T WL_cas g → rtc step s s' →
  ths s' t = T WL_cas g.
Proof.
  intros Hr%lock_reachable Hg Ht Hs. revert Hr Ht.
  induction Hs as [|s s1 s' H1 _ IH]; intros Hi Ht; [done|].
  apply IH; [by eapply lock_step_inv|by eapply upgrade_step].
Qed.

Lemma read_to_write_upgrade_hangs_witness :
  ∃ s, rtc step init s ∧ ths s 1 = T WL_cas [GR] ∧
       ∀ s', rtc step s s' → ths s' 1 = T WL_cas [GR].
Proof.
  destruct run_upgrade as (s & Hr & H1). exists s. split_and!; [done..|].
  intros s' Hs. by apply (read_to_write_upgrade_hangs s s' 1 [GR]).
Defined.

End Lock.
