(* ===== verification/Critical.v ===== *)
(** * Critical: the bodies that run under a [WriteLockGuard] are atomic
      (ServerCore/Lock.h)

    Data that is only touched under the write guard of one lock: threads lock and
    unlock through the atomic accesses of [Lock], and a thread that has a write
    guard runs an operation statement by statement.  Statements of different
    threads and accesses to the lock interleave in any way.  Section [critical]
    shows once, for every such data, that the operations behave as if each ran
    alone at its return ([sections_atomic], [sections_refine]). *)

From stdpp Require Import functions.
From S2P Require Import Prelude Lock.
#[local] Open Scope Z_scope.

Module Critical.
Section critical.

(** The data, the operations, where a running operation is, and its results;
    one statement goes on or returns. *)
Context {D Op L R : Type} (enter : Op → L) (body : L → D → (L * D) + R).

Record st : Type := mk {
  lock : Lock.st;
  data : D;
  running : Z → option (Op * L);
  log : list (Z * Op * R)
}.

Definition init (d : D) : st := mk Lock.init d (λ _, None) [].

(** A thread that is inside an operation keeps a write guard: the guard's
    destructor runs at the return.  It can lock and unlock again on top of it,
    as [PopAll] does through [Pop]. *)
Definition guarded (l : Lock.st) (f : Z → option (Op * L)) : Prop :=
  ∀ t x, f t = Some x → Lock.GW ∈ Lock.stk (Lock.ths l t).

Inductive step : st → st → Prop :=
| s_lock l l' d f h :
    Lock.step l l' → guarded l' f → step (mk l d f h) (mk l' d f h)
| s_enter t op g l d f h :
    Lock.ths l t = Lock.T Lock.Out (Lock.GW :: g) → f t = None →
    step (mk l d f h) (mk l d (<[t := Some (op, enter op)]> f) h)
| s_body t op x x' l d d' f h :
    f t = Some (op, x) → body x d = inl (x', d') →
    step (mk l d f h) (mk l d' (<[t := Some (op, x')]> f) h)
| s_return t op x r l d f h :
    f t = Some (op, x) → body x d = inr r →
    step (mk l d f h) (mk l d (<[t := None]> f) (h ++ [(t, op, r)])).

(** ** Operations that run alone *)

(** Statements of one operation. *)
Definition alone (a b : L * D) : Prop := body (fst a) (snd a) = inl b.

(** The whole operation, from [d] to [d'] with result [r]. *)
Definition whole (op : Op) (d : D) (r : R) (d' : D) : Prop :=
  ∃ x, rtc alone (enter op, d) (x, d') ∧ body x d' = inr r.

(** Operations one after the other. *)
Inductive sequential : D → list (Z * Op * R) → D → Prop :=
| seq_nil d : sequential d [] d
| seq_snoc d h d1 t op r d2 :
    sequential d h d1 → whole op d1 r d2 → sequential d (h ++ [(t, op, r)]) d2.

(** The data is what the returned operations left, changed by the statements of
    the operation that is running, if there is one. *)
Definition inv (d0 : D) (s : st) : Prop :=
  Lock.Inv (lock s) ∧ guarded (lock s) (running s) ∧
  ∃ d1, sequential d0 (log s) d1 ∧
    ((∀ t, running s t = None) → data s = d1) ∧
    ∀ t op x, running s t = Some (op, x) → rtc alone (enter op, d1) (x, data s).

Lemma guarded_one l f t u x y : Lock.Inv l → guarded l f → f t = Some x → f u = Some y → t = u.
Proof.
  intros Hi Hg Ht Hu. apply Hg in Ht, Hu. destruct (decide (u = t)) as [->|Hne]; [done|].
  rewrite (Lock.guards_exclusive l t u Hi Ht Hne) in Hu. by apply not_elem_of_nil in Hu.
Qed.

Lemma critical_step_inv d0 s s' : step s s' → inv d0 s → inv d0 s'.
Proof.
  intros Hs (Hl & Hg & d1 & Hd & Hq & Hr).
  assert (∀ t x u, running s t = Some x → u ≠ t → running s u = None) as Hone.
  { intros t x u Ht Hne. destruct (running s u) as [y|] eqn:Hu; [|done].
    by destruct Hne; eapply guarded_one. }
  destruct Hs as [l l' d f h Hs Hg'|t op g l d f h Ht Hf|t op x x' l d d' f h Ht Hb|t op x r l d f h Ht Hb]; simpl in *.
  - split_and!; [by eapply Lock.lock_step_inv|done|]. by exists d1.
  - assert (Lock.GW ∈ Lock.stk (Lock.ths l t)) as Hin by (rewrite Ht; left).
    split_and!; [done| |].
    + intros u y; simpl. destruct (decide (u = t)) as [->|]; [done|]. rewrite fn_lookup_insert_ne by done. apply Hg.
    + assert (∀ u, f u = None) as Hnone.
      { intros u. destruct (f u) as [y|] eqn:Hu; [|done].
        destruct (decide (u = t)) as [->|Hne]; [congruence|]. apply Hg in Hu.
        rewrite (Lock.guards_exclusive l t u Hl Hin Hne) in Hu. by apply not_elem_of_nil in Hu. }
      exists d1. simpl. split_and!; [done| |].
      * intros Hn. specialize (Hn t). by rewrite fn_lookup_insert in Hn.
      * intros u op' y. destruct (decide (u = t)) as [->|].
        -- rewrite fn_lookup_insert. intros [= -> ->]. by rewrite (Hq Hnone).
        -- rewrite fn_lookup_insert_ne by done. by rewrite Hnone.
  - split_and!; [done| |].
    + intros u y; simpl. destruct (decide (u = t)) as [->|]; [intros _; by eapply Hg|]. rewrite fn_lookup_insert_ne by done. apply Hg.
    + exists d1. simpl. split_and!; [done| |].
      * intros Hn. specialize (Hn t). by rewrite fn_lookup_insert in Hn.
      * intros u op' y. destruct (decide (u = t)) as [->|Hne].
        -- rewrite fn_lookup_insert. intros [= <- <-]. eapply rtc_r; [by eapply Hr|exact Hb].
        -- rewrite fn_lookup_insert_ne, (Hone t _ u Ht Hne) by done. done.
  - assert (∀ u, (<[t := None]> f) u = None) as Hnone.
    { intros u. destruct (decide (u = t)) as [->|Hne]; [by rewrite fn_lookup_insert|].
      rewrite fn_lookup_insert_ne by done. by eapply Hone. }
    split_and!; [done| |].
    + intros u y; simpl. by rewrite Hnone.
    + exists d. simpl. split_and!; [|done|].
      * econstructor; [exact Hd|]. exists x. split; [by eapply Hr|done].
      * intros u op' y. by rewrite Hnone.
Qed.

Lemma critical_reachable d s : rtc step (init d) s → inv d s.
Proof.
  intros H. eapply rtc_invariant; [apply (critical_step_inv d)|done|]. split_and!; [apply Lock.lock_init_inv|done|].
  exists d. split_and!; [constructor|done|done].
Qed.

(** Whatever the interleaving, the operations that have returned form a
    sequential history, in the order of their returns, that leaves the data as it
    is whenever no operation is running. *)
Lemma sections_atomic d s :
  rtc step (init d) s → (∀ t, running s t = None) → sequential d (log s) (data s).
Proof. intros (_ & _ & d1 & Hd & Hq & _)%critical_reachable Hn. by rewrite (Hq Hn). Qed.

(** One statement at a time at most: two threads are never inside operations. *)
Lemma sections_exclusive d s t u x y :
  rtc step (init d) s → running s t = Some x → running s u = Some y → t = u.
Proof. intros (Hl & Hg & _)%critical_reachable. by apply (guarded_one (lock s) (running s)). Qed.

Lemma lock_run l l' d f h :
  (∀ t, f t = None) → rtc Lock.step l l' → rtc step (mk l d f h) (mk l' d f h).
Proof.
  intros Hf. induction 1 as [l|l l1 l' H1 _ IH]; [apply rtc_refl|].
  eapply rtc_l; [|exact IH]. apply s_lock; [done|]. intros t x. by rewrite Hf.
Qed.

(** ** Operations given by functions *)

(** [spec] is what an operation does when it runs alone. *)
Definition implements (spec : Op → D → R * D) : Prop :=
  ∀ op d, whole op d (fst (spec op d)) (snd (spec op d)).

Fixpoint history (spec : Op → D → R * D) (d : D) (h : list (Z * Op * R)) : Prop :=
  match h with
  | [] => True
  | (_, op, r) :: h => r = fst (spec op d) ∧ history spec (snd (spec op d)) h
  end.

Definition after (spec : Op → D → R * D) (d : D) (h : list (Z * Op * R)) : D :=
  foldl (λ d e, snd (spec (snd (fst e)) d)) d h.

Lemma alone_det a b c : alone a b → alone a c → b = c.
Proof. unfold alone. congruence. Qed.

Lemma whole_det op d r1 d1 r2 d2 : whole op d r1 d1 → whole op d r2 d2 → r1 = r2 ∧ d1 = d2.
Proof.
  intros (x & Hx & Ex) (y & Hy & Ey). revert x d1 Hx Ex y d2 Hy Ey.
  enough (∀ a b : L * D, rtc alone a b → ∀ r1, body (fst b) (snd b) = inr r1 →
            ∀ c r2, rtc alone a c → body (fst c) (snd c) = inr r2 → r1 = r2 ∧ b = c) as K.
  { intros x d1 Hx Ex y d2 Hy Ey. destruct (K _ _ Hx _ Ex _ _ Hy Ey) as [-> [= _ ->]]. done. }
  induction 1 as [a|a a' b Ha _ IH]; intros q1 E1 c q2 Hc E2.
  - inversion Hc as [|? b' ? Hb _]; subst; [split; congruence|]. unfold alone in Hb. congruence.
  - inversion Hc as [|? b' ? Hb Hc']; subst; [unfold alone in Ha; congruence|].
    rewrite (alone_det _ _ _ Ha Hb) in *. by eapply IH.
Qed.

Lemma history_snoc spec d h t op r :
  history spec d (h ++ [(t, op, r)]) ↔ history spec d h ∧ r = fst (spec op (after spec d h)).
Proof. revert d. induction h as [|[[t' op'] r'] h IH]; intros d; simpl; [naive_solver|]. rewrite IH. naive_solver. Qed.

Lemma sequential_history spec d h d' :
  implements spec → sequential d h d' → history spec d h ∧ d' = after spec d h.
Proof.
  intros Hspec. induction 1 as [|d h d1 t op r d2 _ [IH ->] Hw]; [done|].
  destruct (whole_det _ _ _ _ _ _ Hw (Hspec op (after spec d h))) as [-> ->].
  rewrite history_snoc. unfold after. by rewrite foldl_app.
Qed.

(** The concurrent operations refine the functions. *)
Lemma sections_refine spec d s :
  implements spec → rtc step (init d) s → (∀ t, running s t = None) →
  history spec d (log s) ∧ data s = after spec d (log s).
Proof. intros Hspec Hs Hn. apply sequential_history; [done|by apply sections_atomic]. Qed.

End critical.
End Critical.
