(* ===== verification/LockQueue.v ===== *)
(** * LockQueue: the queues guarded by [Lock] (ServerCore/LockQueue.h)

    Every operation holds a [WriteLockGuard] for its whole body, so by the
    exclusion theorem of [Lock] it is atomic and is a function of the items.
    [PopAll] tests the popped item itself as the loop condition, so the item
    type comes with its default value and its conversion to [bool]. *)

From Stdlib Require Import Sorting.Sorted.
From S2P Require Import Prelude.

(** [T()] and [static_cast<bool>] of the item type. *)
Class Item (T : Type) : Type := {
  T_default : T;
  truthy : T → bool
}.

(** Pointers: the default is [nullptr] and only [nullptr] is false. *)
#[global] Instance pointer_item {A} : Item (option A) := {
  T_default := None;
  truthy p := bool_decide (is_Some p)
}.

(** Enumerations and integers. *)
#[global] Instance Z_item : Item Z := { T_default := 0; truthy z := negb (z =? 0) }.

Module LockQueue.
Section queue.
Context {T : Type} `{!Item T}.

(** [queue<T>], front first. *)
Definition t : Type := list T.

Definition new : t := [].

Definition Push (item : T) (q : t) : t := q ++ [item].

(** The second component is [isEmpty]. *)
Definition Front (q : t) : T * bool :=
  match q with [] => (T_default, true) | x :: _ => (x, false) end.

Definition Pop (q : t) : T * t :=
  match q with [] => (T_default, q) | x :: q' => (x, q') end.

(** The overload with [OUT bool &isEmpty]. *)
Definition Pop_out (q : t) : (T * bool) * t :=
  match q with [] => (T_default, true, q) | x :: q' => (x, false, q') end.

(** [while (T item = Pop(OUT isEmpty))]; [fuel] bounds the iterations. *)
Fixpoint PopAll_loop (fuel : nat) (items : list T) (q : t) : result (list T * t) :=
  match fuel with
  | O => Crash Hang
  | S fuel =>
    let '(item, isEmpty, q') := Pop_out q in
    if truthy item then
      if isEmpty then Ret (items, q') else PopAll_loop fuel (items ++ [item]) q'
    else Ret (items, q')
  end.

Definition PopAll (items : list T) (q : t) : result (list T * t) :=
  PopAll_loop (S (length q)) items q.

Definition Size (q : t) : Z := i32 (zlen q).

Definition Clear (q : t) : t := [].

(** ** What [PopAll] takes: the items before the first false one. *)

Fixpoint truthy_prefix (q : t) : list T :=
  match q with
  | [] => []
  | x :: q' => if truthy x then x :: truthy_prefix q' else []
  end.

Fixpoint after_prefix (q : t) : t :=
  match q with
  | [] => []
  | x :: q' => if truthy x then after_prefix q' else q'
  end.

Lemma PopAll_loop_spec fuel items q :
  (length q < fuel)%nat →
  PopAll_loop fuel items q = Ret (items ++ truthy_prefix q, after_prefix q).
Proof.
  revert items q. induction fuel as [|fuel IH]; intros items q Hf; [lia|].
  destruct q as [|x q]; simpl.
  - rewrite app_nil_r. by destruct (truthy T_default).
  - destruct (truthy x); [|by rewrite app_nil_r].
    rewrite IH by (simpl in Hf; lia). by rewrite <-app_assoc.
Qed.

Lemma PopAll_run items q :
  PopAll items q = Ret (items ++ truthy_prefix q, after_prefix q).
Proof. apply PopAll_loop_spec. lia. Qed.

Lemma truthy_prefix_all q : Forall (λ x, truthy x = true) q → truthy_prefix q = q.
Proof. induction 1 as [|x q Hx _ IH]; simpl; [done|]. by rewrite Hx, IH. Qed.

Lemma after_prefix_all q : Forall (λ x, truthy x = true) q → after_prefix q = [].
Proof. induction 1 as [|x q Hx _ IH]; simpl; [done|]. by rewrite Hx. Qed.

Lemma PopAll_truthy items q :
  Forall (λ x, truthy x = true) q → PopAll items q = Ret (items ++ q, []).
Proof. intros H. by rewrite PopAll_run, truthy_prefix_all, after_prefix_all. Qed.

Lemma Pop_out_Push x q : Pop_out (Push x q) =
  match q with [] => (x, false, []) | y :: q' => (y, false, Push x q') end.
Proof. by destruct q. Qed.

End queue.
Arguments t : clear implicits.

(** [PopAll] returns for every queue.  It takes the items up to the first
    one that converts to false, in order, and it removes that false item too:
    an item equal to zero ends the batch and is lost, the items behind it stay. *)
Theorem PopAll_stops_at_false {T} `{!Item T} (items pre : list T) (x : T) (rest : LockQueue.t T) :
  Forall (λ y, truthy y = true) pre → truthy x = false →
  PopAll items (pre ++ x :: rest) = Ret (items ++ pre, rest) ∧
  PopAll items pre = Ret (items ++ pre, []).
Proof.
  intros Hp Hx. split; [|by apply PopAll_truthy].
  rewrite PopAll_run.
  enough (truthy_prefix (pre ++ x :: rest) = pre ∧ after_prefix (pre ++ x :: rest) = rest)
    as [-> ->] by done.
  induction Hp as [|y pre Hy _ [IH1 IH2]]; simpl; [by rewrite Hx|]. by rewrite Hy, IH1, IH2.
Qed.

Lemma PopAll_stops_at_false_witness :
  PopAll [] ([1; 2] ++ 0 :: [3]) = Ret ([] ++ [1; 2], [3]) ∧
  PopAll [] [1; 2] = Ret ([] ++ [1; 2], []).
Proof. apply (PopAll_stops_at_false [] [1; 2] 0 [3]); [repeat constructor|done]. Defined.

End LockQueue.

(** [PriorityLockQueue<T>]: [std::priority_queue<T>] keeps the greatest item
    for [operator<] of [T] on top.  [prio] embeds [T] with its [operator<]
    into the integers. *)
Module PriorityLockQueue.
Section queue.
Context {T : Type} `{!Item T} (prio : T → Z).

Definition t : Type := list T.

Definition new : t := [].

Definition Push (item : T) (q : t) : t := item :: q.

(** The greatest item and the others. *)
Fixpoint extract (q : t) : option (T * t) :=
  match q with
  | [] => None
  | x :: q' =>
    match extract q' with
    | None => Some (x, [])
    | Some (y, r) => if prio x <? prio y then Some (y, x :: r) else Some (x, y :: r)
    end
  end.

Definition Top (q : t) : T :=
  match extract q with None => T_default | Some (x, _) => x end.

Definition Pop (q : t) : T * t :=
  match extract q with None => (T_default, q) | Some (x, r) => (x, r) end.

(** [while (T item = Pop())]. *)
Fixpoint PopAll_loop (fuel : nat) (items : list T) (q : t) : result (list T * t) :=
  match fuel with
  | O => Crash Hang
  | S fuel =>
    let '(item, q') := Pop q in
    if truthy item then PopAll_loop fuel (items ++ [item]) q' else Ret (items, q')
  end.

Definition PopAll (items : list T) (q : t) : result (list T * t) :=
  PopAll_loop (S (length q)) items q.

Definition Clear (q : t) : t := [].

Lemma extract_perm q x r : extract q = Some (x, r) → q ≡ₚ x :: r.
Proof.
  revert x r. induction q as [|y q IH]; intros x r; simpl; [done|].
  destruct (extract q) as [[z r']|] eqn:E.
  - specialize (IH z r' eq_refl). case_test; intros; simplify_eq; rewrite IH; [apply Permutation_swap|done].
  - intros; simplify_eq. destruct q as [|z q]; [done|]. simpl in E.
    destruct (extract q) as [[]|]; [case_match|]; done.
Qed.

Lemma extract_max q x r : extract q = Some (x, r) → Forall (λ y, prio y ≤ prio x) r.
Proof.
  revert x r. induction q as [|y q IH]; intros x r; simpl; [done|].
  destruct (extract q) as [[z r']|] eqn:E.
  - specialize (IH z r' eq_refl). case_test; intros; simplify_eq; constructor; try lia; [done|].
    eapply Forall_impl; [exact IH|]. simpl. lia.
  - intros; simplify_eq. constructor.
Qed.

Lemma extract_None q : extract q = None ↔ q = [].
Proof.
  split; [|by intros ->]. destruct q as [|x q]; simpl; [done|].
  destruct (extract q) as [[]|]; [case_match|]; done.
Qed.

Lemma extract_length q x r : extract q = Some (x, r) → length q = S (length r).
Proof. intros H%extract_perm. by rewrite H. Qed.

Lemma prio_PopAll_loop_spec fuel items q :
  (length q < fuel)%nat → truthy T_default = false → Forall (λ x, truthy x = true) q →
  ∃ out, PopAll_loop fuel items q = Ret (items ++ out, []) ∧ out ≡ₚ q ∧
         StronglySorted (λ x y, prio y ≤ prio x) out.
Proof.
  intros Hf Hd. revert items q Hf. induction fuel as [|fuel IH]; intros items q Hf Hq; [lia|].
  simpl. unfold Pop. destruct (extract q) as [[x r]|] eqn:E.
  - pose proof (extract_perm _ _ _ E) as Hp. pose proof (extract_max _ _ _ E) as Hm.
    rewrite Hp, Forall_cons in Hq. destruct Hq as [-> Hr].
    destruct (IH (items ++ [x]) r) as (out & -> & Ho & Hs); [rewrite Hp in Hf; simpl in Hf; lia|done|].
    exists (x :: out). rewrite <-app_assoc. split_and!; [done|by rewrite Ho, Hp|].
    constructor; [done|]. by rewrite Ho.
  - apply extract_None in E as ->. rewrite Hd. exists []. rewrite app_nil_r.
    split_and!; [done..|constructor].
Qed.

End queue.
Arguments t : clear implicits.

(** [PriorityLockQueue::PopAll] of items that are all true returns every item
    exactly once, greatest first, and leaves the queue empty. *)
Lemma PopAll_descending {A} (prio : option A → Z) (items : list (option A))
    (q : PriorityLockQueue.t (option A)) :
  Forall (λ p, is_Some p) q →
  ∃ out, PopAll prio items q = Ret (items ++ out, []) ∧ out ≡ₚ q ∧
         StronglySorted (λ x y, prio y ≤ prio x) out.
Proof.
  intros Hq. apply prio_PopAll_loop_spec; [lia|done|].
  eapply Forall_impl; [exact Hq|]. intros p Hp. by apply bool_decide_eq_true_2.
Qed.


End PriorityLockQueue.
