(* ===== verification/JobQueue.v ===== *)
(** * JobQueue: serialised execution of jobs (ServerCore/Job.h, JobQueue.h, JobQueue.cpp)

    One [JobQueue] under concurrency.  [Push], [Execute] and the pops of
    [ExcuteGlobalJobs] are a step relation, one step per access to a shared
    object ([_jobCount], the two lock queues, the global queue).  A thread can
    push while a callback it executes runs.  [GetTickCount64] and the other
    queues a thread may be executing are nondeterministic.  [pushed], [ran] and
    [ran_delayed] are history; [putting] is the threads between the increment
    of [_jobCount] and the push into a queue.  At most 2^32 - 1 jobs are
    outstanding at a time. *)

From stdpp Require Import functions.
From S2P Require Import Prelude LockQueue.
#[local] Open Scope Z_scope.

Module JobQueue.

(** A [shared_ptr<Job>]: the address it compares by, and the job's
    [_executeTick]. *)
Record Job : Type := mkJob { job_addr : Z; _executeTick : Z }.

#[global] Instance Job_eq_dec : EqDecision Job.
Proof. solve_decision. Defined.

(** [Job::Job]: the delay is added to the millisecond counter. *)
Definition new_Job (addr now delaySeconds : Z) : Job :=
  mkJob addr (u64 (now + u32 delaySeconds)).

(** [Job::operator<], which [priority_queue<shared_ptr<Job>>] does not use. *)
Definition Job_lt (a b : Job) : bool := _executeTick b <? _executeTick a.

(** [operator<] of [shared_ptr]: by address. *)
Definition ptr_prio (p : option Job) : Z :=
  match p with Some j => job_addr j | None => 0 end.

Definition jobs_t : Type := LockQueue.t (option Job).
Definition prio_t : Type := PriorityLockQueue.t (option Job).

(** Where a thread is inside [Execute]. *)
Inductive epc : Type :=
| NoExec
| E_pop                              (* before _jobs.PopAll *)
| E_run (js : list (option Job)) (n : Z)    (* the callback of the head runs *)
| E_top (n : Z)                      (* before _priorityJobs.Top *)
| E_prun (j : Job) (n : Z)           (* the callback of a delayed job runs *)
| E_ppop (n : Z)                     (* before _priorityJobs.Pop *)
| E_sub (n : Z)                      (* before _jobCount.fetch_sub *)
| E_time.                            (* before the test of LEndTickCount *)

(** Where a thread is inside [Push]. *)
Inductive ppc : Type :=
| NoPush
| P_put (j : Job) (prevCount : Z)    (* before the push into a queue *)
| P_first.                           (* prevCount was 0 *)

Record th : Type := T { exec : epc; push : ppc }.

Record st : Type := mk {
  _jobCount : Z;
  _jobs : jobs_t;
  _priorityJobs : prio_t;
  GJobQueues : nat;
  putting : gset nat;
  pushed : list (option Job);
  ran : list (option Job);
  ran_delayed : list Job;
  ths : nat → th
}.

Definition init : st := mk 0 LockQueue.new PriorityLockQueue.new 0 ∅ [] [] [] (λ _, T NoExec NoPush).

(** A thread can call [Push] from outside or from a running callback. *)
Definition may_push (e : epc) : bool :=
  match e with
  | NoExec | E_prun _ _ => true
  | E_run js _ => negb (bool_decide (js = []))
  | _ => false
  end.

(** [JobQueue::Push]. *)
Inductive Push : st → st → Prop :=
| p_add t e j c js ps g pt hp hr hd (f : nat → th) :
    f t = T e NoPush → may_push e = true → c + 1 < 2 ^ 32 →
    Push (mk c js ps g pt hp hr hd f)
         (mk (u32 (c + 1)) js ps g ({[t]} ∪ pt) hp hr hd (<[t := T e (P_put j c)]> f))
| p_put_now t e j prev now c js ps g pt hp hr hd (f : nat → th) :
    f t = T e (P_put j prev) → _executeTick j ≤ now →
    Push (mk c js ps g pt hp hr hd f)
         (mk c (LockQueue.Push (Some j) js) ps g (pt ∖ {[t]}) (hp ++ [Some j]) hr hd
            (<[t := T e (if prev =? 0 then P_first else NoPush)]> f))
| p_put_delayed t e j prev now c js ps g pt hp hr hd (f : nat → th) :
    f t = T e (P_put j prev) → now < _executeTick j →
    Push (mk c js ps g pt hp hr hd f)
         (mk c js (PriorityLockQueue.Push (Some j) ps) g (pt ∖ {[t]}) hp hr hd
            (<[t := T e (if prev =? 0 then P_first else NoPush)]> f))
(* LCurrentJobQueue == nullptr: Execute() *)
| p_execute t c js ps g pt hp hr hd (f : nat → th) :
    f t = T NoExec P_first →
    Push (mk c js ps g pt hp hr hd f)
         (mk c js ps g pt hp hr hd (<[t := T E_pop NoPush]> f))
(* this thread is executing a queue: GlobalPush *)
| p_global t e c js ps g pt hp hr hd (f : nat → th) :
    f t = T e P_first →
    Push (mk c js ps g pt hp hr hd f)
         (mk c js ps (S g) pt hp hr hd (<[t := T e NoPush]> f)).

(** [JobQueue::Execute]. *)
Inductive Execute : st → st → Prop :=
| e_pop t c js ps g pt hp hr hd (f : nat → th) batch js' :
    f t = T E_pop NoPush → LockQueue.PopAll [] js = Ret (batch, js') →
    Execute (mk c js ps g pt hp hr hd f)
            (mk c js' ps g pt hp hr hd (<[t := T (E_run batch (u32 (zlen batch))) NoPush]> f))
| e_run t x batch n c js ps g pt hp hr hd (f : nat → th) :
    f t = T (E_run (x :: batch) n) NoPush →
    Execute (mk c js ps g pt hp hr hd f)
            (mk c js ps g pt hp (hr ++ [x]) hd (<[t := T (E_run batch n) NoPush]> f))
| e_run_end t n c js ps g pt hp hr hd (f : nat → th) :
    f t = T (E_run [] n) NoPush →
    Execute (mk c js ps g pt hp hr hd f)
            (mk c js ps g pt hp hr hd (<[t := T (E_top n) NoPush]> f))
| e_top_none t n c js ps g pt hp hr hd (f : nat → th) :
    f t = T (E_top n) NoPush → PriorityLockQueue.Top ptr_prio ps = None →
    Execute (mk c js ps g pt hp hr hd f)
            (mk c js ps g pt hp hr hd (<[t := T (E_sub n) NoPush]> f))
| e_top_wait t n j now c js ps g pt hp hr hd (f : nat → th) :
    f t = T (E_top n) NoPush → PriorityLockQueue.Top ptr_prio ps = Some j →
    now < _executeTick j →
    Execute (mk c js ps g pt hp hr hd f)
            (mk c js ps g pt hp hr hd (<[t := T (E_sub n) NoPush]> f))
| e_top_go t n j now c js ps g pt hp hr hd (f : nat → th) :
    f t = T (E_top n) NoPush → PriorityLockQueue.Top ptr_prio ps = Some j →
    _executeTick j ≤ now →
    Execute (mk c js ps g pt hp hr hd f)
            (mk c js ps g pt hp hr hd (<[t := T (E_prun j n) NoPush]> f))
| e_prun t n j c js ps g pt hp hr hd (f : nat → th) :
    f t = T (E_prun j n) NoPush →
    Execute (mk c js ps g pt hp hr hd f)
            (mk c js ps g pt hp hr (hd ++ [j]) (<[t := T (E_ppop n) NoPush]> f))
| e_ppop t n c js ps g pt hp hr hd (f : nat → th) :
    f t = T (E_ppop n) NoPush →
    Execute (mk c js ps g pt hp hr hd f)
            (mk c js (PriorityLockQueue.Pop ptr_prio ps).2 g pt hp hr hd
               (<[t := T (E_top (u32 (n + 1))) NoPush]> f))
| e_sub_all t n c js ps g pt hp hr hd (f : nat → th) :
    f t = T (E_sub n) NoPush → c = n →
    Execute (mk c js ps g pt hp hr hd f)
            (mk (u32 (c - n)) js ps g pt hp hr hd (<[t := T NoExec NoPush]> f))
| e_sub_some t n c js ps g pt hp hr hd (f : nat → th) :
    f t = T (E_sub n) NoPush → c ≠ n →
    Execute (mk c js ps g pt hp hr hd f)
            (mk (u32 (c - n)) js ps g pt hp hr hd (<[t := T E_time NoPush]> f))
| e_time_over t c js ps g pt hp hr hd (f : nat → th) :
    f t = T E_time NoPush →
    Execute (mk c js ps g pt hp hr hd f)
            (mk c js ps (S g) pt hp hr hd (<[t := T NoExec NoPush]> f))
| e_time_left t c js ps g pt hp hr hd (f : nat → th) :
    f t = T E_time NoPush →
    Execute (mk c js ps g pt hp hr hd f)
            (mk c js ps g pt hp hr hd (<[t := T E_pop NoPush]> f)).

(** [JobQueue::ExcuteGlobalJobs]: this queue is popped and executed. *)
Inductive ExcuteGlobalJobs : st → st → Prop :=
| g_pop t c js ps g pt hp hr hd (f : nat → th) :
    f t = T NoExec NoPush →
    ExcuteGlobalJobs (mk c js ps (S g) pt hp hr hd f)
                     (mk c js ps g pt hp hr hd (<[t := T E_pop NoPush]> f)).

(** [JobQueue::DoAsync]: the first access of its [Push]. *)
Inductive DoAsync (delaySeconds : Z) : st → st → Prop :=
| do_async t e addr now c js ps g pt hp hr hd (f : nat → th) :
    f t = T e NoPush → may_push e = true → c + 1 < 2 ^ 32 →
    DoAsync delaySeconds (mk c js ps g pt hp hr hd f)
      (mk (u32 (c + 1)) js ps g ({[t]} ∪ pt) hp hr hd (<[t := T e (P_put (new_Job addr now delaySeconds) c)]> f)).

(** [JobQueue::ClearJobs], which nothing calls: the two calls of [Clear]. *)
Inductive ClearJobs : st → st → Prop :=
| clear_jobs c js ps g pt hp hr hd f :
    ClearJobs (mk c js ps g pt hp hr hd f) (mk c (LockQueue.Clear js) ps g pt hp hr hd f)
| clear_priority c js ps g pt hp hr hd f :
    ClearJobs (mk c js ps g pt hp hr hd f) (mk c js (PriorityLockQueue.Clear ps) g pt hp hr hd f).

Definition step (s s' : st) : Prop := Push s s' ∨ Execute s s' ∨ ExcuteGlobalJobs s s'.

(** ** The invariant

    The right to execute the queue is a token: a thread has it, or the entry in
    the global queue stands for it, exactly while [_jobCount] is not zero. *)

Definition has_token (h : th) : bool :=
  match exec h, push h with
  | NoExec, P_put _ prev => prev =? 0
  | NoExec, P_first => true
  | NoExec, NoPush => false
  | _, _ => true
  end.

(** Jobs taken from the queues and not yet subtracted from [_jobCount]. *)
Definition taken (e : epc) : Z :=
  match e with
  | E_run _ n | E_top n | E_prun _ n | E_ppop n | E_sub n => n
  | _ => 0
  end.

(** Undelayed jobs taken and not yet run. *)
Definition batch_of (e : epc) : list (option Job) :=
  match e with E_run js _ => js | _ => [] end.

Definition exec_ok (ps : prio_t) (e : epc) : Prop :=
  match e with
  | E_prun _ _ | E_ppop _ => ps ≠ []
  | E_run js n => zlen js ≤ n
  | _ => True
  end.

Definition push_ok (h : th) : Prop :=
  match push h with
  | NoPush => True
  | P_put _ prev => may_push (exec h) = true ∧ (prev = 0 → exec h = NoExec) ∧ 0 ≤ prev
  | P_first => exec h = NoExec
  end.

Definition is_putting (h : th) : bool :=
  match push h with P_put _ _ => true | _ => false end.

Record thread_inv (x : option nat) (w : bool) (t : nat) (h : th) : Prop := {
  ti_token : has_token h = bool_decide (x = Some t);
  ti_put : w = is_putting h;
  ti_push : push_ok h
}.

Definition exec_of (x : option nat) (f : nat → th) : epc :=
  match x with Some t => exec (f t) | None => NoExec end.

Record glob_inv (x : option nat) (s : st) : Prop := {
  gi_count : _jobCount s = Z.of_nat (size (putting s)) + zlen (_jobs s) +
               zlen (_priorityJobs s) + taken (exec_of x (ths s));
  gi_small : _jobCount s < 2 ^ 32;
  gi_taken : 0 ≤ taken (exec_of x (ths s));
  gi_tokens : Z.of_nat (GJobQueues s) + (if x then 1 else 0) = (if _jobCount s =? 0 then 0 else 1);
  gi_jobs : Forall (λ p, is_Some p) (_jobs s);
  gi_prio : Forall (λ p, is_Some p) (_priorityJobs s);
  gi_exec : exec_ok (_priorityJobs s) (exec_of x (ths s));
  gi_fifo : pushed s = ran s ++ batch_of (exec_of x (ths s)) ++ _jobs s
}.

Definition Inv (s : st) : Prop :=
  ∃ x, glob_inv x s ∧ ∀ t, thread_inv x (bool_decide (t ∈ putting s)) t (ths s t).

(** ** Preservation *)

Lemma exec_of_same x t h f : exec h = exec (f t) → exec_of x (<[t := h]> f) = exec_of x f.
Proof.
  intros He. destruct x as [t'|]; [|done]. simpl. destruct (decide (t' = t)) as [->|].
  - by rewrite fn_lookup_insert.
  - by rewrite fn_lookup_insert_ne.
Qed.

Lemma exec_of_self t h f : exec_of (Some t) (<[t := h]> f) = exec h.
Proof. simpl. by rewrite fn_lookup_insert. Qed.

Lemma jq_Inv_step x x' t (pt pt' : gset nat) f h s' :
  (∀ t', thread_inv x (bool_decide (t' ∈ pt)) t' (f t')) →
  (x' = x ∨ (x = None ∨ x = Some t) ∧ (x' = None ∨ x' = Some t)) →
  (∀ t', t' ≠ t → t' ∈ pt' ↔ t' ∈ pt) →
  ths s' = <[t := h]> f → putting s' = pt' →
  thread_inv x' (bool_decide (t ∈ pt')) t h →
  glob_inv x' s' → Inv s'.
Proof.
  intros Hf Hx Hpt Hths <- Ht Hg. exists x'. split; [done|]. intros t'. rewrite Hths.
  destruct (decide (t' = t)) as [->|Hne]; [by rewrite fn_lookup_insert|].
  rewrite fn_lookup_insert_ne by done. rewrite (bool_decide_ext _ _ (Hpt t' Hne)).
  destruct (Hf t') as [Htok Hput Hpush]. split; [|done..]. rewrite Htok.
  destruct Hx as [->|[Hx Hx']]; [done|]. rewrite !bool_decide_eq_false_2; naive_solver.
Qed.

Lemma token_holder x w t h : thread_inv x w t h → exec h ≠ NoExec → x = Some t.
Proof.
  intros [Ht _ _] He. unfold has_token in Ht.
  destruct (exec h), (push h); try done; by apply symmetry, bool_decide_eq_true_1 in Ht.
Qed.

Lemma u32_small z : 0 ≤ z < 2 ^ 32 → u32 z = z.
Proof. apply Z.mod_small. Qed.

Lemma not_putting x (pt : gset nat) t e :
  thread_inv x (bool_decide (t ∈ pt)) t (T e NoPush) → t ∉ pt.
Proof. intros [_ Hw _]. by eapply bool_decide_eq_false_1. Qed.

Lemma is_putting_in x (pt : gset nat) t e j prev :
  thread_inv x (bool_decide (t ∈ pt)) t (T e (P_put j prev)) → t ∈ pt.
Proof. intros [_ Hw _]. by eapply bool_decide_eq_true_1. Qed.

Lemma size_remove t (pt : gset nat) :
  t ∈ pt → Z.of_nat (size pt) = Z.of_nat (size (pt ∖ {[t]})) + 1.
Proof.
  intros Hin. rewrite size_difference, size_singleton by set_solver.
  assert (size pt ≠ 0%nat) by (apply size_non_empty_iff; set_solver). lia.
Qed.

Lemma p_add_inv t e j c js ps g pt hp hr hd f :
  Inv (mk c js ps g pt hp hr hd f) → f t = T e NoPush → may_push e = true →
  c + 1 < 2 ^ 32 →
  Inv (mk (u32 (c + 1)) js ps g ({[t]} ∪ pt) hp hr hd (<[t := T e (P_put j c)]> f)).
Proof.
  intros (x & [Hcnt Hsm Htk Htok Hj Hp He Hfi] & Hf) Ht Hmay Hc; simpl in *.
  pose proof (Hf t) as Hti. rewrite Ht in Hti. pose proof (not_putting _ _ _ _ Hti) as Hn.
  pose proof (zlen_nonneg js). pose proof (zlen_nonneg ps).
  rewrite u32_small by lia.
  assert (Z.of_nat (size ({[t]} ∪ pt)) = Z.of_nat (size pt) + 1) as Hsz
    by (rewrite size_union, size_singleton by set_solver; lia).
  assert (c + 1 =? 0 = false) as Hc1 by (apply Z.eqb_neq; lia).
  destruct (Z.eqb_spec c 0) as [Hc0|Hc0].
  - destruct x; [lia|]. destruct Hti as [Htk' _ _].
    assert (e = NoExec) as -> by (destruct e; done).
    apply (jq_Inv_step None (Some t) t pt ({[t]} ∪ pt) f (T NoExec (P_put j c))); simpl; auto; [set_solver|..].
    + split; simpl; [|by rewrite bool_decide_eq_true_2 by set_solver|].
      * rewrite bool_decide_eq_true_2 by done. apply Z.eqb_eq. done.
      * split_and!; auto; lia.
    + split; simpl in *; rewrite ?fn_lookup_insert; simpl; rewrite ?Hc1; auto; lia.
  - apply (jq_Inv_step x x t pt ({[t]} ∪ pt) f (T e (P_put j c))); simpl; auto; [set_solver|..].
    + destruct Hti as [Htk' _ _]. split; simpl; [|by rewrite bool_decide_eq_true_2 by set_solver|].
      * rewrite <-Htk'. destruct e; try done. apply Z.eqb_neq. done.
      * split_and!; [done|lia|lia].
    + split; simpl; rewrite ?exec_of_same by (by rewrite Ht); rewrite ?Hc1; auto; lia.
Qed.

(** Both pushes into a queue: the other queue is unchanged. *)
Lemma p_put_inv t e j prev c js ps js' ps' g pt hp hp' hr hd f :
  Inv (mk c js ps g pt hp hr hd f) → f t = T e (P_put j prev) →
  (js' = js ++ [Some j] ∧ ps' = ps ∧ hp' = hp ++ [Some j] ∨ js' = js ∧ ps' = Some j :: ps ∧ hp' = hp) →
  Inv (mk c js' ps' g (pt ∖ {[t]}) hp' hr hd (<[t := T e (if prev =? 0 then P_first else NoPush)]> f)).
Proof.
  intros (x & [Hcnt Hsm Htk Htok Hj Hp He Hfi] & Hf) Ht Hput; simpl in *.
  pose proof (Hf t) as Hti. rewrite Ht in Hti. pose proof (is_putting_in _ _ _ _ _ _ Hti) as Hin.
  apply size_remove in Hin as Hsz. destruct Hti as [Htk' _ (Hmay & He0 & Hp0)]; simpl in *.
  apply (jq_Inv_step x x t pt (pt ∖ {[t]}) f (T e (if prev =? 0 then P_first else NoPush))); simpl; auto; [set_solver|..].
  - split.
    + rewrite <-Htk'. unfold has_token; simpl. by destruct e, (prev =? 0).
    + rewrite bool_decide_eq_false_2 by set_solver. by destruct (prev =? 0).
    + unfold push_ok; simpl. destruct (Z.eqb_spec prev 0); auto.
  - split; simpl; rewrite ?exec_of_same by (by rewrite Ht); auto.
    + destruct Hput as [(-> & -> & _)|(-> & -> & _)]; autorewrite with chat; lia.
    + destruct Hput as [(-> & -> & _)|(-> & -> & _)]; [|done]. apply Forall_app; split; [done|repeat constructor; eauto].
    + destruct Hput as [(-> & -> & _)|(-> & -> & _)]; [done|]. constructor; eauto.
    + destruct Hput as [(-> & -> & _)|(-> & -> & _)]; [done|]. destruct (exec_of x f); done.
    + destruct Hput as [(-> & -> & ->)|(-> & -> & ->)]; rewrite Hfi; [|done]. by rewrite <-!app_assoc.
Qed.

Lemma Push_inv s s' : Push s s' → Inv s → Inv s'.
Proof.
  intros Hs Hi. destruct Hs as [t e j c js ps g pt hp hr hd f Ht Hmay Hc
    |t e j prev now c js ps g pt hp hr hd f Ht Hn|t e j prev now c js ps g pt hp hr hd f Ht Hn
    |t c js ps g pt hp hr hd f Ht|t e c js ps g pt hp hr hd f Ht].
  - by apply p_add_inv.
  - eapply p_put_inv; [done..|]. left. done.
  - eapply p_put_inv; [done..|]. right. done.
  - destruct Hi as (x & [Hcnt Hsm Htk Htok Hj Hp He Hfi] & Hf); simpl in *.
    pose proof (Hf t) as Hti. rewrite Ht in Hti. destruct Hti as [Htk' Hw _]. simpl in *.
    symmetry in Htk'. apply bool_decide_eq_true_1 in Htk' as ->.
    apply (jq_Inv_step (Some t) (Some t) t pt pt f (T E_pop NoPush)); simpl; auto.
    + split; [by rewrite bool_decide_eq_true_2|done|done].
    + simpl in *. rewrite Ht in *. split; simpl; rewrite ?fn_lookup_insert; auto.
  - destruct Hi as (x & [Hcnt Hsm Htk Htok Hj Hp He Hfi] & Hf); simpl in *.
    pose proof (Hf t) as Hti. rewrite Ht in Hti. destruct Hti as [Htk' Hw Hpu]. simpl in *.
    unfold push_ok in Hpu; simpl in Hpu; subst e. simpl in Htk'.
    symmetry in Htk'. apply bool_decide_eq_true_1 in Htk' as ->.
    apply (jq_Inv_step (Some t) None t pt pt f (T NoExec NoPush)); simpl; auto.
    + split; [by rewrite bool_decide_eq_false_2|done|done].
    + simpl in *. rewrite Ht in *. split; simpl; auto. lia.
Qed.

Definition holder (t : nat) (e : epc) : option nat :=
  match e with NoExec => None | _ => Some t end.

(** A step of [Execute] by the thread that has the token. *)
Lemma exec_step x t e' pt f s' :
  (∀ t', thread_inv x (bool_decide (t' ∈ pt)) t' (f t')) → x = Some t → push (f t) = NoPush →
  ths s' = <[t := T e' NoPush]> f → putting s' = pt →
  glob_inv (holder t e') s' → Inv s'.
Proof.
  intros Hf -> Ht Hths Hpt Hg.
  apply (jq_Inv_step (Some t) (holder t e') t pt pt f (T e' NoPush)); auto.
  - right. split; [by right|]. destruct e'; simpl; auto.
  - destruct (Hf t) as [_ Hw _]. split; [|by rewrite Hw; unfold is_putting; rewrite Ht|done].
    destruct e'; simpl; by rewrite ?bool_decide_eq_true_2, ?bool_decide_eq_false_2.
Qed.

Lemma glob_inv_open x t e p s :
  (∀ t', thread_inv x (bool_decide (t' ∈ putting s)) t' (ths s t')) → glob_inv x s →
  ths s t = T e p → e ≠ NoExec → x = Some t ∧ exec_of x (ths s) = e.
Proof.
  intros Hf Hg Ht He. pose proof (Hf t) as Hti. rewrite Ht in Hti.
  apply token_holder in Hti as ->; [|done]. simpl. by rewrite Ht.
Qed.

Lemma all_truthy (q : jobs_t) :
  Forall (λ p, is_Some p) q → Forall (λ p, truthy p = true) q.
Proof. intros H. eapply Forall_impl; [exact H|]. intros p Hp. by apply bool_decide_eq_true_2. Qed.

Lemma Top_Some q j : PriorityLockQueue.Top ptr_prio q = Some j → q ≠ [].
Proof. intros H ->. done. Qed.

Lemma Pop_length (q : prio_t) :
  q ≠ [] → zlen q = zlen (PriorityLockQueue.Pop ptr_prio q).2 + 1.
Proof.
  intros Hq. unfold PriorityLockQueue.Pop, zlen.
  destruct (PriorityLockQueue.extract ptr_prio q) as [[y r]|] eqn:E; simpl.
  - apply PriorityLockQueue.extract_length in E. lia.
  - by apply PriorityLockQueue.extract_None in E.
Qed.

Lemma Pop_Forall (q : prio_t) :
  Forall (λ p, is_Some p) q → Forall (λ p, is_Some p) (PriorityLockQueue.Pop ptr_prio q).2.
Proof.
  intros Hq. unfold PriorityLockQueue.Pop.
  destruct (PriorityLockQueue.extract ptr_prio q) as [[y r]|] eqn:E; simpl; [|done].
  apply PriorityLockQueue.extract_perm in E. rewrite E in Hq. by apply Forall_cons in Hq as [_ ?].
Qed.

Ltac open_exec :=
  match goal with
  | Hf : (∀ t', thread_inv ?x _ t' _), Hg : glob_inv ?x _, Ht : ?f ?t = T ?e ?p |- _ =>
    destruct (glob_inv_open x t e p _ Hf Hg Ht ltac:(done)) as [-> Hex];
    destruct Hg as [Hcnt Hsm Htk Htok Hj Hp He Hfi];
    rewrite Hex in *; simpl in *; clear Hex;
    eapply (exec_step (Some t) t); [exact Hf|done|by rewrite Ht|done..|]
  end.

Ltac close_exec :=
  split; simpl in *; rewrite ?fn_lookup_insert; simpl; auto; try lia.

Lemma Execute_inv s s' : Execute s s' → Inv s → Inv s'.
Proof.
  intros Hs (x & Hg & Hf). destruct Hs; open_exec; pose proof (zlen_nonneg js); pose proof (zlen_nonneg ps).
  - rewrite LockQueue.PopAll_truthy in H0 by by apply all_truthy. simplify_eq/=.
    rewrite u32_small by (unfold zlen in *; lia). close_exec.
    + change (zlen (@nil (option Job))) with 0. lia.
    + by rewrite app_nil_r.
  - rewrite zlen_cons in He. close_exec. by rewrite <-app_assoc.
  - close_exec.
  - close_exec.
  - close_exec.
  - close_exec. by eapply Top_Some.
  - close_exec.
  - pose proof (Pop_length ps He). pose proof (zlen_nonneg (PriorityLockQueue.Pop ptr_prio ps).2).
    rewrite u32_small by lia. close_exec. by apply Pop_Forall.
  - subst n. rewrite Z.sub_diag. change (u32 0) with 0. case_test; [lia|]. close_exec.
  - rewrite u32_small by lia. case_test; close_exec; case_test; lia.
  - case_test; close_exec; case_test; lia.
  - close_exec.
Qed.

Lemma ExcuteGlobalJobs_inv s s' : ExcuteGlobalJobs s s' → Inv s → Inv s'.
Proof.
  intros [t c js ps g pt hp hr hd f Ht] (x & [Hcnt Hsm Htk Htok Hj Hp He Hfi] & Hf); simpl in *.
  destruct x as [t'|]; [case_test; lia|].
  pose proof (Hf t) as [_ Hw _]. rewrite Ht in Hw.
  apply (jq_Inv_step None (Some t) t pt pt f (T E_pop NoPush)); simpl; auto.
  - split; [by rewrite bool_decide_eq_true_2|done|done].
  - close_exec.
Qed.

Lemma jq_step_inv s s' : step s s' → Inv s → Inv s'.
Proof.
  intros [H|[H|H]]; [by apply Push_inv|by apply Execute_inv|by apply ExcuteGlobalJobs_inv].
Qed.

Lemma jq_init_inv : Inv init.
Proof. exists None. by split; [split|intros t; split]. Qed.

Lemma jq_reachable s : rtc step init s → Inv s.
Proof. intros H. eapply rtc_invariant; [apply jq_step_inv|done|apply jq_init_inv]. Qed.

(** Runs for the witnesses. *)
Definition j_now : Job := mkJob 8 0.
Definition j_early : Job := mkJob 16 5.
Definition j_late : Job := mkJob 24 10.

Ltac ps c := eapply rtc_l; [left; eapply c; first [done|vm_compute; done]|]; simpl.
Ltac es c := eapply rtc_l; [right; left; eapply c; first [done|vm_compute; done]|]; simpl.
Ltac gs c := eapply rtc_l; [right; right; eapply c; done|]; simpl.

Lemma run_pushed :
  ∃ s, rtc step init s ∧ exec (ths s 0%nat) = E_pop ∧ _jobs s = [Some j_now].
Proof.
  eexists. split_and!.
  - ps (p_add 0%nat NoExec j_now). ps (p_put_now 0%nat NoExec j_now 0 0). ps (p_execute 0%nat).
    apply rtc_refl.
  - done.
  - done.
Qed.

Lemma run_global :
  ∃ s, rtc step init s ∧ (∀ t, ths s t = T NoExec NoPush) ∧ _jobs s = [Some j_now].
Proof.
  eexists. split_and!.
  - ps (p_add 0%nat NoExec j_now). ps (p_put_now 0%nat NoExec j_now 0 0). ps (p_global 0%nat).
    apply rtc_refl.
  - intros t. simpl. destruct (decide (t = 0%nat)) as [->|];
      [by rewrite fn_lookup_insert|by rewrite !fn_lookup_insert_ne].
  - done.
Qed.

(** C25: at most one thread executes the jobs of a queue at any time. *)
Theorem job_queue_serial s t t' :
  rtc step init s → exec (ths s t) ≠ NoExec → exec (ths s t') ≠ NoExec → t = t'.
Proof.
  intros (x & _ & Hf)%jq_reachable Ht Ht'.
  pose proof (token_holder _ _ _ _ (Hf t) Ht). pose proof (token_holder _ _ _ _ (Hf t') Ht').
  congruence.
Qed.

Lemma job_queue_serial_witness :
  ∃ s, rtc step init s ∧ exec (ths s 0%nat) ≠ NoExec ∧
       ∀ t, exec (ths s t) ≠ NoExec → t = 0%nat.
Proof.
  destruct run_pushed as (s & Hr & He & _). exists s. rewrite He. split_and!; [done..|].
  intros t Ht. apply (job_queue_serial s t 0%nat); [done..|by rewrite He].
Defined.

(** C27: undelayed jobs run in the order in which they were queued, each once:
    the jobs that ran are a prefix of the jobs queued, and the jobs that have
    not run are the batch being executed and the queue. *)
Theorem job_queue_fifo s :
  rtc step init s →
  pushed s = ran s ++ _jobs s ∨
  ∃ t batch n, exec (ths s t) = E_run batch n ∧ pushed s = ran s ++ batch ++ _jobs s.
Proof.
  intros (x & [_ _ _ _ _ _ _ Hfi] & Hf)%jq_reachable. rewrite Hfi.
  destruct x as [t|]; [|by left]. simpl. destruct (exec (ths s t)) eqn:E; eauto 10.
Qed.

Lemma job_queue_fifo_witness :
  ∃ s, rtc step init s ∧
  (pushed s = ran s ++ _jobs s ∨
   ∃ t batch n, exec (ths s t) = E_run batch n ∧ pushed s = ran s ++ batch ++ _jobs s).
Proof.
  destruct run_pushed as (s & Hr & _). exists s. split; [done|]. by apply (job_queue_fifo s).
Defined.

(** C26: no wake-up is lost: when no thread is inside [Push] or [Execute] and a
    job is still queued, the queue is in the global queue, exactly once, so
    that a worker will execute it; and when it is not there, nothing is queued. *)
Theorem job_queue_no_lost_wakeup s :
  rtc step init s → (∀ t, ths s t = T NoExec NoPush) →
  (GJobQueues s = 1%nat ∧ (_jobs s ≠ [] ∨ _priorityJobs s ≠ [])) ∨
  (GJobQueues s = 0%nat ∧ _jobs s = [] ∧ _priorityJobs s = [] ∧ ran s = pushed s).
Proof.
  intros (x & [Hcnt Hsm Htk Htok _ _ _ Hfi] & Hf)%jq_reachable Hidle.
  assert (x = None) as ->.
  { destruct x as [t|]; [|done]. pose proof (Hf t) as [Ht _ _].
    rewrite Hidle, bool_decide_eq_true_2 in Ht; done. }
  assert (putting s = ∅) as Hpt.
  { apply leibniz_equiv, elem_of_equiv_empty. intros t. pose proof (Hf t) as [_ Hw _].
    rewrite Hidle in Hw. by eapply bool_decide_eq_false_1. }
  rewrite Hpt, size_empty in Hcnt. simpl in *.
  destruct (_jobs s), (_priorityJobs s); autorewrite with chat in *; case_test; unfold zlen in *;
    try lia; [right|left..]; (split_and!; auto; lia).
Qed.

Lemma job_queue_no_lost_wakeup_witness :
  ∃ s, rtc step init s ∧ _jobs s = [Some j_now] ∧ GJobQueues s = 1%nat.
Proof.
  destruct run_global as (s & Hr & Hi & Hj). exists s. split_and!; [done..|].
  destruct (job_queue_no_lost_wakeup s Hr Hi) as [[H _]|(_ & H & _)]; [done|congruence].
Defined.

(** Delayed jobs are not executed exactly once: [Execute] runs the job on top
    and pops afterwards, and the queue orders pointers by address.  When the
    callback queues a delayed job at a higher address, that job is popped in
    its place: it never runs, and the first job runs twice, although
    [_jobCount] ends at zero as if both had been served. *)
Theorem delayed_job_lost :
  ∃ s1 s, rtc step init s1 ∧ _priorityJobs s1 = [Some j_late; Some j_early] ∧
       rtc step s1 s ∧ (∀ t, ths s t = T NoExec NoPush) ∧
       _jobCount s = 0 ∧ _priorityJobs s = [] ∧
       ran_delayed s = [j_early; j_early] ∧ j_late ∉ ran_delayed s.
Proof.
  eexists _, _. split_and!.
  - ps (p_add 0%nat NoExec j_early). ps (p_put_delayed 0%nat NoExec j_early 0 0). ps (p_execute 0%nat).
    es (e_pop 0%nat). es (e_run_end 0%nat). es (e_top_go 0%nat 0 j_early 5).
    ps (p_add 0%nat (E_prun j_early 0) j_late).
    ps (p_put_delayed 0%nat (E_prun j_early 0) j_late 1 5). apply rtc_refl.
  - done.
  - es (e_prun 0%nat). es (e_ppop 0%nat). es (e_top_go 0%nat 1 j_early 6).
    es (e_prun 0%nat). es (e_ppop 0%nat). es (e_top_none 0%nat). es (e_sub_all 0%nat).
    apply rtc_refl.
  - intros t. simpl. destruct (decide (t = 0%nat)) as [->|];
      [by rewrite fn_lookup_insert|by rewrite !fn_lookup_insert_ne].
  - done.
  - done.
  - done.
  - simpl. unfold j_late, j_early. set_solver.
Qed.

(** ** DoAsync and ClearJobs *)

(** [DoAsync] is a [Push]; the theorems above are about it too. *)
Lemma DoAsync_step d s s' : DoAsync d s s' → step s s'.
Proof. intros []. left. by apply p_add. Qed.

(** [ClearJobs] leaves [_jobCount] as it is: the thread that executes a cleared
    queue finds nothing to run, and is where it was before, with [_jobCount] still
    not zero. *)
Lemma cleared_queue_spins t c g pt hp hr hd f :
  f t = T E_pop NoPush → 0 < c < 2 ^ 32 →
  ∃ f', rtc Execute (mk c [] [] g pt hp hr hd f) (mk c [] [] g pt hp hr hd f') ∧ f' t = T E_pop NoPush ∧
        ∀ u, u ≠ t → f' u = f u.
Proof.
  intros Ht Hc. eexists. split.
  - eapply rtc_l; [by eapply (e_pop t)|]. eapply rtc_l; [apply (e_run_end t); by rewrite fn_lookup_insert|].
    eapply rtc_l; [apply (e_top_none t); [by rewrite fn_lookup_insert|done]|].
    eapply rtc_l; [apply (e_sub_some t); [by rewrite fn_lookup_insert|intros E; vm_compute in E; lia]|].
    replace (u32 (c - u32 (zlen []))) with c; [|unfold u32, zlen; cbn; rewrite Z.sub_0_r, Z.mod_small; lia].
    eapply rtc_l; [apply (e_time_left t); by rewrite fn_lookup_insert|]. apply rtc_refl.
  - split; [by rewrite fn_lookup_insert|]. intros u Hu. by rewrite !fn_lookup_insert_ne.
Qed.

(** A reachable state in which that happens: the queue is cleared while its first
    job is about to be executed. *)
Lemma run_cleared :
  ∃ s s1 s2, rtc step init s ∧ ClearJobs s s1 ∧ ClearJobs s1 s2 ∧
    _jobs s2 = [] ∧ _priorityJobs s2 = [] ∧ _jobCount s2 = 1 ∧ ths s2 0%nat = T E_pop NoPush.
Proof.
  eexists _, _, _. split_and!.
  - ps (p_add 0%nat NoExec j_now). ps (p_put_now 0%nat NoExec j_now 0 0). ps (p_execute 0%nat). apply rtc_refl.
  - apply clear_jobs.
  - apply clear_priority.
  - done.
  - done.
  - done.
  - done.
Qed.

End JobQueue.
