(* ===== verification/RespondJobs.v ===== *)
(** * RespondJobs: where the job of a respondent runs
      (Server/PacketRespondent.h [RESPONSE_END], Server.cpp [WorkerThread],
       ServerCore/JobQueue.cpp)

    Every respondent makes a job and a [JobQueue] of its own, pushes the job, and
    then gives the queue to [GlobalPush]; the worker threads take queues from the
    global queue and execute them.  All queues and all worker threads, one step per
    access to shared state ([_jobCount], the lock queues, the global queue) or to
    [LCurrentJobQueue]; the clock only goes forward.  [created] and [ran] are
    history: the jobs a thread has made, and who has run which job. *)

From stdpp Require Import functions.
From S2P Require Import Prelude LockQueue.
#[local] Open Scope Z_scope.

Module RespondJobs.

(** A job by the thread that made it, its number there and its [_executeTick]. *)
Record job : Type := mkJob { creator : nat; number : nat; _executeTick : Z }.

(** A [JobQueue]; [_priorityJobs] as the list of its items. *)
Record queue : Type := mkQueue { _jobs : list (option job); _priorityJobs : list job; _jobCount : Z }.

(** [Execute] returns to [Push], which [RESPONSE_END] called, or to [ExcuteGlobalJobs]. *)
Inductive caller : Type := FromPush | FromGlobal.

Inductive epc : Type :=
| X_pop | X_run (jobs : list (option job)) (jobCount : Z) | X_top (jobCount : Z) | X_sub (jobCount : Z) | X_time.

Inductive pc : Type :=
| Loop
| R_add (q : nat) (j : job) | R_put (q : nat) (j : job) (prevCount : Z) | R_first (q : nat) (prevCount : Z)
| R_global (q : nat)
| Exec (e : epc) (q : nat) (k : caller).

Record st : Type := mk {
  queues : gmap nat queue;
  GJobQueues : list nat;
  clock : Z;
  LCurrentJobQueue : nat → option nat;
  pcs : nat → pc;
  created : nat → list job;
  ran : list (nat * job)
}.

Definition init : st := mk ∅ [] 0 (λ _, None) (λ _, Loop) (λ _, []) [].

(** Back to the caller of [Execute]. *)
Definition back (k : caller) (q : nat) : pc := match k with FromPush => R_global q | FromGlobal => Loop end.

(** [RESPONSE_END] with [JobQueue::Push]. *)
Inductive respond_step (t : nat) : st → st → Prop :=
| r_make q Q G T C f m h :
    f t = Loop → Q !! q = None →
    let j := mkJob t (length (m t)) T in
    respond_step t (mk Q G T C f m h)
      (mk (<[q := mkQueue [] [] 0]> Q) G T C (<[t := R_add q j]> f) (<[t := m t ++ [j]]> m) h)
| r_add q j js ps c Q G T C f m h :
    f t = R_add q j → Q !! q = Some (mkQueue js ps c) →
    respond_step t (mk Q G T C f m h) (mk (<[q := mkQueue js ps (u32 (c + 1))]> Q) G T C (<[t := R_put q j c]> f) m h)
| r_put q j prev js ps c Q G T C f m h :
    f t = R_put q j prev → Q !! q = Some (mkQueue js ps c) → _executeTick j ≤ T →
    respond_step t (mk Q G T C f m h)
      (mk (<[q := mkQueue (LockQueue.Push (Some j) js) ps c]> Q) G T C (<[t := R_first q prev]> f) m h)
| r_put_delayed q j prev js ps c Q G T C f m h :
    f t = R_put q j prev → Q !! q = Some (mkQueue js ps c) → T < _executeTick j →
    respond_step t (mk Q G T C f m h) (mk (<[q := mkQueue js (j :: ps) c]> Q) G T C (<[t := R_first q prev]> f) m h)
| r_execute q Q G T C f m h :
    f t = R_first q 0 → C t = None →
    respond_step t (mk Q G T C f m h) (mk Q G T (<[t := Some q]> C) (<[t := Exec X_pop q FromPush]> f) m h)
| r_busy q c Q G T C f m h :
    f t = R_first q 0 → C t = Some c → respond_step t (mk Q G T C f m h) (mk Q (G ++ [q]) T C (<[t := R_global q]> f) m h)
| r_not_first q prev Q G T C f m h :
    f t = R_first q prev → prev ≠ 0 → respond_step t (mk Q G T C f m h) (mk Q G T C (<[t := R_global q]> f) m h)
| r_global q Q G T C f m h :
    f t = R_global q → respond_step t (mk Q G T C f m h) (mk Q (G ++ [q]) T C (<[t := Loop]> f) m h).

(** [JobQueue::Execute]. *)
Inductive execute_step (t : nat) : st → st → Prop :=
| e_pop q k js ps c batch js' Q G T C f m h :
    f t = Exec X_pop q k → Q !! q = Some (mkQueue js ps c) → LockQueue.PopAll [] js = Ret (batch, js') →
    execute_step t (mk Q G T C f m h)
      (mk (<[q := mkQueue js' ps c]> Q) G T C (<[t := Exec (X_run batch (u32 (zlen batch))) q k]> f) m h)
| e_run q k j js n Q G T C f m h :
    f t = Exec (X_run (Some j :: js) n) q k →
    execute_step t (mk Q G T C f m h) (mk Q G T C (<[t := Exec (X_run js n) q k]> f) m (h ++ [(t, j)]))
| e_run_end q k n Q G T C f m h :
    f t = Exec (X_run [] n) q k → execute_step t (mk Q G T C f m h) (mk Q G T C (<[t := Exec (X_top n) q k]> f) m h)
| e_top q k n js c Q G T C f m h :
    f t = Exec (X_top n) q k → Q !! q = Some (mkQueue js [] c) →
    execute_step t (mk Q G T C f m h) (mk Q G T C (<[t := Exec (X_sub n) q k]> f) m h)
| e_sub_all q k n js ps c Q G T C f m h :
    f t = Exec (X_sub n) q k → Q !! q = Some (mkQueue js ps c) → c = n →
    execute_step t (mk Q G T C f m h)
      (mk (<[q := mkQueue js ps (u32 (c - n))]> Q) G T (<[t := None]> C) (<[t := back k q]> f) m h)
| e_sub_some q k n js ps c Q G T C f m h :
    f t = Exec (X_sub n) q k → Q !! q = Some (mkQueue js ps c) → c ≠ n →
    execute_step t (mk Q G T C f m h) (mk (<[q := mkQueue js ps (u32 (c - n))]> Q) G T C (<[t := Exec X_time q k]> f) m h)
| e_time_over q k Q G T C f m h :
    f t = Exec X_time q k →
    execute_step t (mk Q G T C f m h) (mk Q (G ++ [q]) T (<[t := None]> C) (<[t := back k q]> f) m h)
| e_time_left q k Q G T C f m h :
    f t = Exec X_time q k → execute_step t (mk Q G T C f m h) (mk Q G T C (<[t := Exec X_pop q k]> f) m h).

(** [JobQueue::ExcuteGlobalJobs], from the worker loop. *)
Inductive global_step (t : nat) : st → st → Prop :=
| g_pop q Q G T C f m h :
    f t = Loop → global_step t (mk Q (q :: G) T C f m h) (mk Q G T (<[t := Some q]> C) (<[t := Exec X_pop q FromGlobal]> f) m h).

Inductive step (s s' : st) : Prop :=
| step_respond t : respond_step t s s' → step s s'
| step_execute t : execute_step t s s' → step s s'
| step_global t : global_step t s s' → step s s'
| step_clock Q G T C f m h d : 0 ≤ d → s = mk Q G T C f m h → s' = mk Q G (T + d) C f m h → step s s'.

(** ** The invariant *)

(** The queue of a respondent that it has not given away. *)
Definition own (p : pc) : option nat :=
  match p with
  | R_add q _ | R_put q _ _ | R_first q _ | R_global q | Exec _ q FromPush => Some q
  | _ => None
  end.

(** Queues that other threads can reach. *)
Definition public (G : list nat) (f : nat → pc) (q : nat) : Prop := q ∈ G ∨ ∃ t e, f t = Exec e q FromGlobal.

Definition empty_queue : queue := mkQueue [] [] 0.

(** A queue that holds the one job of its respondent. *)
Definition one (j : job) : queue := mkQueue [Some j] [] 1.
Definition taken : queue := mkQueue [] [] 1.

(** What is true of thread [t] at [p], with [todo] the jobs it has made and not run. *)
Definition pc_ok (T : Z) (cur : option nat) (Q : gmap nat queue) (p : pc) (todo : list job) : Prop :=
  match p with
  | Loop => cur = None ∧ todo = []
  | R_add q j => cur = None ∧ todo = [j] ∧ Q !! q = Some empty_queue ∧ _executeTick j ≤ T
  | R_put q j c => cur = None ∧ todo = [j] ∧ Q !! q = Some taken ∧ c = 0 ∧ _executeTick j ≤ T
  | R_first q c => cur = None ∧ c = 0 ∧ ∃ j, todo = [j] ∧ Q !! q = Some (one j)
  | R_global q => cur = None ∧ todo = [] ∧ Q !! q = Some empty_queue
  | Exec X_pop q FromPush => ∃ j, todo = [j] ∧ Q !! q = Some (one j)
  | Exec (X_run js n) q FromPush => js = Some <$> todo ∧ n = 1 ∧ Q !! q = Some taken
  | Exec (X_top n) q FromPush | Exec (X_sub n) q FromPush => todo = [] ∧ n = 1 ∧ Q !! q = Some taken
  | Exec X_pop q FromGlobal => todo = [] ∧ Q !! q = Some empty_queue
  | Exec (X_run js n) q FromGlobal => todo = [] ∧ js = [] ∧ n = 0 ∧ Q !! q = Some empty_queue
  | Exec (X_top n) q FromGlobal | Exec (X_sub n) q FromGlobal => todo = [] ∧ n = 0 ∧ Q !! q = Some empty_queue
  | Exec X_time _ _ => False
  end.

(** The jobs that thread [t] has run, in order. *)
Definition ran_by (h : list (nat * job)) (t : nat) : list job := snd <$> filter (λ e, fst e = t) h.

Record inv (s : st) : Prop := {
  i_pc : ∀ t, ∃ todo, created s t = ran_by (ran s) t ++ todo ∧
           pc_ok (clock s) (LCurrentJobQueue s t) (queues s) (pcs s t) todo;
  i_own : ∀ t u q, own (pcs s t) = Some q → own (pcs s u) = Some q → t = u;
  i_public : ∀ q, public (GJobQueues s) (pcs s) q →
           queues s !! q = Some empty_queue ∧ ∀ t, own (pcs s t) ≠ Some q
}.

Lemma pc_ok_clock T T' cur Q p todo : T ≤ T' → pc_ok T cur Q p todo → pc_ok T' cur Q p todo.
Proof. intros H. destruct p as [| | | | |[] ? []]; simpl; try done; intros; destruct_and?; split_and?; try done; lia. Qed.

(** The queue a thread refers to. *)
Definition refers (p : pc) : option nat :=
  match p with
  | R_add q _ | R_put q _ _ | R_first q _ | R_global q | Exec _ q _ => Some q
  | Loop => None
  end.

(** A thread depends on its own queue only. *)
Lemma pc_ok_frame T cur Q Q' p todo :
  (∀ q, refers p = Some q → Q' !! q = Q !! q) → pc_ok T cur Q p todo → pc_ok T cur Q' p todo.
Proof. intros H. destruct p as [|q|q|q|q|[] q []]; simpl in *; try done; by rewrite (H q eq_refl). Qed.

Lemma refers_cases p q : refers p = Some q → own p = Some q ∨ ∃ e, p = Exec e q FromGlobal.
Proof. destruct p as [| | | | |e r []]; simpl; intros [=]; subst; eauto. Qed.

Lemma ran_by_app h t j u : ran_by (h ++ [(t, j)]) u = if decide (t = u) then ran_by h u ++ [j] else ran_by h u.
Proof.
  unfold ran_by. rewrite filter_app, fmap_app. case_decide as E.
  - by rewrite filter_cons_True.
  - rewrite filter_cons_False by done. by rewrite app_nil_r.
Qed.

(** ** Preservation *)

Lemma inv_move Q Q' G G' T C C' f m m' h h' t p' :
  inv (mk Q G T C f m h) →
  (∀ u, u ≠ t → C' u = C u ∧ m' u = m u ∧ ran_by h' u = ran_by h u) →
  (∃ todo, m' t = ran_by h' t ++ todo ∧ pc_ok T (C' t) Q' p' todo) →
  (∀ u q, u ≠ t → refers (f u) = Some q → Q' !! q = Q !! q) →
  (∀ q u, own p' = Some q → u ≠ t → own (f u) ≠ Some q) →
  (∀ q, public G' (<[t := p']> f) q → Q' !! q = Some empty_queue ∧ own p' ≠ Some q ∧ ∀ u, u ≠ t → own (f u) ≠ Some q) →
  inv (mk Q' G' T C' (<[t := p']> f) m' h').
Proof.
  intros [Hpc Hown Hpub] Hother Ht Hq Hp Hg. simpl in *. split; simpl.
  - intros u. destruct (decide (u = t)) as [->|Hne]; [by rewrite fn_lookup_insert|].
    destruct (Hother u Hne) as (-> & -> & ->). rewrite fn_lookup_insert_ne by done.
    destruct (Hpc u) as (todo & Hm & Hok). exists todo. split; [done|]. eapply pc_ok_frame; [|exact Hok]. intros q. by apply Hq.
  - intros u v q. destruct (decide (u = t)) as [->|], (decide (v = t)) as [->|];
      rewrite ?fn_lookup_insert, ?fn_lookup_insert_ne by done; [done| | |apply Hown].
    + intros Hu Hv. by destruct (Hp q v Hu).
    + intros Hu Hv. by destruct (Hp q u Hv).
  - intros q (HQ & Ho & Hu)%Hg. split; [done|]. intros u. destruct (decide (u = t)) as [->|]; [by rewrite fn_lookup_insert|].
    rewrite fn_lookup_insert_ne by done. by apply Hu.
Qed.

(** Nobody else refers to a queue that is not given away. *)
Lemma private_queue Q G T C f m h t q u q' :
  inv (mk Q G T C f m h) → own (f t) = Some q → u ≠ t → refers (f u) = Some q' → q' ≠ q.
Proof.
  intros [_ Hown Hpub] Ho Hne Hr ->. simpl in *. apply refers_cases in Hr as [Hr|[e Hr]].
  - by destruct Hne; eapply Hown.
  - destruct (Hpub q) as [_ Hn]; [right; by exists u, e|]. by apply (Hn t).
Qed.

(** Reading the global queue through a step of [t]: [t] does not leave or enter it. *)
Lemma public_same G (f : nat → pc) t p' q :
  public G (<[t := p']> f) q → (∀ e, p' = Exec e q FromGlobal → public G f q) → public G f q.
Proof.
  intros [H|(u & e & H)] Hp; [by left|]. destruct (decide (u = t)) as [->|].
  - rewrite fn_lookup_insert in H. by eapply Hp.
  - rewrite fn_lookup_insert_ne in H by done. right. by exists u, e.
Qed.

(** A step of a respondent on its own queue. *)
Lemma inv_private Q Q' x G T C C' f m h h' t q p' :
  inv (mk Q G T C f m h) → own (f t) = Some q → own p' = Some q → Q' = <[q := x]> Q →
  (∀ u, u ≠ t → C' u = C u ∧ ran_by h' u = ran_by h u) →
  (∃ todo, m t = ran_by h' t ++ todo ∧ pc_ok T (C' t) Q' p' todo) →
  inv (mk Q' G T C' (<[t := p']> f) m h').
Proof.
  intros Hi Ho Hp -> Hother Ht. eapply inv_move; [exact Hi| |exact Ht| | |].
  - intros u Hne. by destruct (Hother u Hne) as [-> ->].
  - intros u q' Hne Hr. rewrite lookup_insert_ne; [done|]. intros <-. by eapply private_queue.
  - intros q' u Hq' Hne Hu. destruct Hne. rewrite Hp in Hq'. injection Hq' as <-. by eapply (i_own _ Hi).
  - intros q' Hq'. apply public_same in Hq'; [|intros e ->; done].
    destruct (i_public _ Hi q' Hq') as [HQ Hn]. simpl in *. assert (q' ≠ q) by (intros ->; by apply (Hn t)).
    split_and!; [by rewrite lookup_insert_ne|congruence|done].
Qed.

(** A step on a queue taken from the global queue. *)
Lemma inv_global Q G T C C' f m h t e q p' :
  inv (mk Q G T C f m h) → f t = Exec e q FromGlobal → (p' = Loop ∨ ∃ e', p' = Exec e' q FromGlobal) →
  (∀ u, u ≠ t → C' u = C u) → (∃ todo, m t = ran_by h t ++ todo ∧ pc_ok T (C' t) Q p' todo) →
  inv (mk Q G T C' (<[t := p']> f) m h).
Proof.
  intros Hi Ht Hp Hother Hok. eapply inv_move; [exact Hi| |exact Hok|done| |].
  - intros u Hne. by rewrite Hother.
  - intros q' u Hq'. by destruct Hp as [->|[e' ->]].
  - intros q' Hq'. apply public_same in Hq'.
    + destruct (i_public _ Hi q' Hq') as [HQ Hn]. simpl in *. split_and!; [done|by destruct Hp as [->|[e' ->]]|done].
    + intros e' E. destruct Hp as [->|[e'' ->]]; [done|]. injection E as -> ->. right. by exists t, e.
Qed.

Lemma refers_known T cur Q p todo q : pc_ok T cur Q p todo → refers p = Some q → is_Some (Q !! q).
Proof. destruct p as [| | | | |[] ? []]; simpl; intros H [=]; subst; try done; destruct_and?; try destruct H as (? & ? & ?); naive_solver. Qed.

Lemma respond_inv t s s' : respond_step t s s' → inv s → inv s'.
Proof.
  intros Hs Hi. destruct (i_pc _ Hi t) as (todo & Hm & Hok). destruct Hs; simpl in *; rewrite H in Hok; simpl in Hok.
  - destruct Hok as [Hc ->]. rewrite app_nil_r in Hm.
    assert (∀ u q', refers (f u) = Some q' → q' ≠ q) as Hfresh.
    { intros u q' Hr ->. destruct (i_pc _ Hi u) as (todo' & _ & Hok'). eapply refers_known in Hr; [|exact Hok'].
      destruct Hr as [x Hx]. simpl in Hx. congruence. }
    eapply inv_move; [exact Hi| | | | |].
    + intros u Hne. by rewrite fn_lookup_insert_ne.
    + exists [j]. rewrite fn_lookup_insert. split; [by rewrite Hm|]. simpl. by rewrite lookup_insert_eq.
    + intros u q' Hne Hr. rewrite lookup_insert_ne; [done|]. intros <-. by eapply Hfresh.
    + intros q' u [= <-] Hne Hu. apply (Hfresh u q); [|done]. by destruct (f u) as [| | | | |? ? []].
    + intros q' Hq'. apply public_same in Hq'; [|done]. destruct (i_public _ Hi q' Hq') as [HQ Hn]. simpl in *.
      assert (q' ≠ q) by congruence. split_and!; [by rewrite lookup_insert_ne|congruence|done].
  - destruct Hok as (Hc & -> & HQ & HT). rewrite HQ in H0. injection H0 as <- <- <-.
    eapply inv_private; [exact Hi|by rewrite H|done|done|done|]. exists [j]. split; [done|]. simpl. by rewrite lookup_insert_eq.
  - destruct Hok as (Hc & -> & HQ & -> & HT). rewrite HQ in H0. injection H0 as <- <- <-.
    eapply inv_private; [exact Hi|by rewrite H|done|done|done|]. exists [j]. split; [done|]. simpl. rewrite lookup_insert_eq.
    split_and!; [done|done|]. by exists j.
  - lia.
  - destruct Hok as (Hc & _ & j & -> & HQ). eapply inv_private; [exact Hi|by rewrite H|done|symmetry; by apply insert_id| |].
    + intros u Hne. by rewrite fn_lookup_insert_ne.
    + exists [j]. split; [done|]. simpl. by exists j.
  - destruct Hok as (Hc & _). congruence.
  - by destruct Hok as (_ & -> & _).
  - destruct Hok as (Hc & -> & HQ). eapply inv_move; [exact Hi|done|by exists []|done|done|].
    intros q' Hq'. assert (q' = q ∨ public G f q') as [->|Hpub].
    { destruct Hq' as [[Hin|Hin]%elem_of_app|(u & e & Hu)].
      - right. by left.
      - left. by apply list_elem_of_singleton in Hin.
      - right. right. exists u, e. destruct (decide (u = t)) as [->|]; [by rewrite fn_lookup_insert in Hu|].
        by rewrite fn_lookup_insert_ne in Hu. }
    + split_and!; [done|done|]. intros u Hne Hu. destruct Hne. eapply (i_own _ Hi u t q); [exact Hu|]. simpl. by rewrite H.
    + destruct (i_public _ Hi q' Hpub) as [HQ' Hn]. by split_and!.
Qed.

Lemma execute_inv t s s' : execute_step t s s' → inv s → inv s'.
Proof.
  intros Hs Hi. destruct (i_pc _ Hi t) as (todo & Hm & Hok). destruct Hs; simpl in *; rewrite H in Hok; destruct k; simpl in Hok.
  - destruct Hok as (j & -> & HQ). rewrite HQ in H0. injection H0 as <- <- <-.
    rewrite LockQueue.PopAll_run in H1. injection H1 as <- <-.
    eapply inv_private; [exact Hi|by rewrite H|done|done|done|]. exists [j]. split; [done|]. simpl. by rewrite lookup_insert_eq.
  - destruct Hok as (-> & HQ). rewrite HQ in H0. injection H0 as <- <- <-.
    rewrite LockQueue.PopAll_run in H1. injection H1 as <- <-. simpl.
    rewrite insert_id by done. eapply inv_global; [exact Hi|exact H|by right; eexists|done|]. exists []. by split_and!.
  - destruct Hok as (E & -> & HQ). destruct todo as [|j' todo]; [done|]. injection E as -> ->.
    eapply inv_private; [exact Hi|by rewrite H|done|symmetry; by apply insert_id| |].
    + intros u Hne. rewrite ran_by_app. by rewrite decide_False by done.
    + exists todo. rewrite ran_by_app, decide_True by done. rewrite Hm, <-app_assoc. by split_and!.
  - by destruct Hok as (_ & ? & _).
  - destruct Hok as (E & -> & HQ). symmetry in E. apply fmap_nil_inv in E as ->.
    eapply inv_private; [exact Hi|by rewrite H|done|symmetry; by apply insert_id|done|]. exists []. by split_and!.
  - destruct Hok as (-> & _ & -> & HQ). eapply inv_global; [exact Hi|exact H|by right; eexists|done|]. exists []. by split_and!.
  - destruct Hok as (-> & -> & HQ).
    eapply inv_private; [exact Hi|by rewrite H|done|symmetry; by apply insert_id|done|]. exists []. by split_and!.
  - destruct Hok as (-> & -> & HQ). eapply inv_global; [exact Hi|exact H|by right; eexists|done|]. exists []. by split_and!.
  - destruct Hok as (-> & -> & HQ). rewrite HQ in H0. injection H0 as <- <- <-.
    eapply inv_private; [exact Hi|by rewrite H|done|done| |].
    + intros u Hne. by rewrite fn_lookup_insert_ne.
    + exists []. split; [done|]. simpl. by rewrite fn_lookup_insert, lookup_insert_eq.
  - destruct Hok as (-> & -> & HQ). rewrite HQ in H0. injection H0 as <- <- <-.
    change (u32 (0 - 0)) with 0. rewrite insert_id by done. eapply inv_global; [exact Hi|exact H|by left| |].
    + intros u Hne. by rewrite fn_lookup_insert_ne.
    + exists []. split; [done|]. simpl. by rewrite fn_lookup_insert.
  - destruct Hok as (-> & -> & HQ). rewrite HQ in H0. by injection H0 as <- <- <-.
  - destruct Hok as (-> & -> & HQ). rewrite HQ in H0. by injection H0 as <- <- <-.
  - done.
  - done.
  - done.
  - done.
Qed.

Lemma global_inv t s s' : global_step t s s' → inv s → inv s'.
Proof.
  intros Hs Hi. destruct (i_pc _ Hi t) as (todo & Hm & Hok). destruct Hs; simpl in *; rewrite H in Hok.
  destruct Hok as [Hc ->]. destruct (i_public _ Hi q) as [HQ Hn]; [left; simpl; left|]. simpl in *.
  eapply inv_move; [exact Hi| | |done|done|].
  - intros u Hne. by rewrite fn_lookup_insert_ne.
  - exists []. by split_and!.
  - intros q' Hq'. assert (public (q :: G) f q') as Hpub.
    { destruct Hq' as [Hin|(u & e & Hu)]; [left; by right|]. destruct (decide (u = t)) as [->|].
      - rewrite fn_lookup_insert in Hu. injection Hu as <- <-. left. left.
      - rewrite fn_lookup_insert_ne in Hu by done. right. by exists u, e. }
    destruct (i_public _ Hi q' Hpub) as [HQ' Hn']. by split_and!.
Qed.

Lemma jobs_step_inv s s' : step s s' → inv s → inv s'.
Proof.
  intros [t H|t H|t H|Q G T C f m h d Hd -> ->]; [by eapply respond_inv|by eapply execute_inv|by eapply global_inv|].
  intros [Hpc Hown Hpub]. split; simpl in *; [|done|done]. intros t. destruct (Hpc t) as (todo & Hm & Hok).
  exists todo. split; [done|]. eapply pc_ok_clock; [|exact Hok]. lia.
Qed.

Lemma jobs_reachable s : rtc step init s → inv s.
Proof.
  intros H. eapply rtc_invariant; [apply jobs_step_inv|done|]. split; simpl; [|done|].
  - intros t. by exists [].
  - intros q [Hin|(t & e & Ht)]; [by apply not_elem_of_nil in Hin|done].
Qed.

(** Jobs are told apart by their thread and number. *)
Definition numbered (s : st) : Prop := ∀ t i j, created s t !! i = Some j → creator j = t ∧ number j = i.

Lemma numbered_step s s' : step s s' → numbered s → numbered s'.
Proof.
  intros Hs Hn. assert (created s' = created s ∨ ∃ t T, created s' = <[t := created s t ++ [mkJob t (length (created s t)) T]]> (created s))
    as [E|(t & T & E)].
  { destruct Hs as [t H|t H|t H|Q G T C f m h d Hd -> ->]; [|destruct H; by left|destruct H; by left|by left].
    destruct H; try by left. right. simpl. eauto. }
  - unfold numbered. by rewrite E.
  - intros u i j. rewrite E. destruct (decide (u = t)) as [->|]; [|rewrite fn_lookup_insert_ne by done; apply Hn].
    rewrite fn_lookup_insert, lookup_app. destruct (created s t !! i) as [j'|] eqn:Ei; [intros [= <-]; by apply Hn|].
    intros Hj. apply list_lookup_singleton_Some in Hj as [Hi <-]. apply lookup_ge_None in Ei. simpl. split; [done|lia].
Qed.

Lemma jobs_numbered s : rtc step init s → numbered s.
Proof. intros H. eapply rtc_invariant; [apply numbered_step|done|]. intros t i j; simpl. by rewrite lookup_nil. Qed.

Lemma ran_by_in h t j : (t, j) ∈ h → j ∈ ran_by h t.
Proof. intros Hin. apply list_elem_of_fmap. exists (t, j). split; [done|]. by apply list_elem_of_filter. Qed.

Lemma numbered_NoDup s t l : numbered s → l `prefix_of` created s t → NoDup l.
Proof.
  intros Hn Hp. apply NoDup_alt. intros i i' j Hi Hi'. pose proof (prefix_lookup_Some _ _ _ _ Hi Hp) as H1.
  pose proof (prefix_lookup_Some _ _ _ _ Hi' Hp) as H2. apply Hn in H1, H2. lia.
Qed.

(** C19: a respondent's job runs once, in the thread that received the packet,
    before that thread goes on.  In every interleaving of the worker threads, the
    jobs a thread has run are jobs it has made itself, in the order of its packets,
    none of them twice, and when it is back in its loop it has run all of them; the
    queues that the respondents leave in the global queue hold no job. *)
Theorem respondents_run_in_place s t :
  rtc step init s →
  ran_by (ran s) t `prefix_of` created s t ∧
  (∀ j, (t, j) ∈ ran s → creator j = t) ∧
  NoDup (ran_by (ran s) t) ∧
  (pcs s t = Loop → created s t = ran_by (ran s) t) ∧
  ∀ q, q ∈ GJobQueues s → queues s !! q = Some empty_queue.
Proof.
  intros Hs. pose proof (jobs_reachable s Hs) as Hi. pose proof (jobs_numbered s Hs) as Hn.
  destruct (i_pc _ Hi t) as (todo & Hm & Hok). assert (ran_by (ran s) t `prefix_of` created s t) as Hp by by exists todo.
  split_and!; [done| |by eapply numbered_NoDup| |].
  - intros j Hj%ran_by_in. apply list_elem_of_lookup in Hj as [i Hj]. eapply prefix_lookup_Some in Hj; [|exact Hp].
    by apply Hn in Hj as [? _].
  - intros E. rewrite E in Hok. destruct Hok as [_ ->]. by rewrite app_nil_r in Hm.
  - intros q Hq. apply (i_public _ Hi). by left.
Qed.

(** Thread 1 handles a packet; thread 2 executes the queue it leaves behind. *)
Lemma run_respond :
  ∃ s, rtc step init s ∧ pcs s 1%nat = Loop ∧ created s 1%nat = [mkJob 1 0 0] ∧ pcs s 2%nat = Exec (X_run [] 0) 5 FromGlobal.
Proof.
  eexists. split.
  - eapply rtc_l; [eapply (step_respond _ _ 1), (r_make _ 5); reflexivity|].
    eapply rtc_l; [eapply (step_respond _ _ 1), r_add; reflexivity|].
    eapply rtc_l; [eapply (step_respond _ _ 1), r_put; [reflexivity|reflexivity|simpl; lia]|].
    eapply rtc_l; [eapply (step_respond _ _ 1), r_execute; reflexivity|].
    eapply rtc_l; [eapply (step_execute _ _ 1), e_pop; reflexivity|].
    eapply rtc_l; [eapply (step_execute _ _ 1), e_run; reflexivity|].
    eapply rtc_l; [eapply (step_execute _ _ 1), e_run_end; reflexivity|].
    eapply rtc_l; [eapply (step_execute _ _ 1), e_top; reflexivity|].
    eapply rtc_l; [eapply (step_execute _ _ 1), e_sub_all; reflexivity|].
    eapply rtc_l; [eapply (step_respond _ _ 1), r_global; reflexivity|].
    eapply rtc_l; [eapply (step_global _ _ 2), g_pop; reflexivity|].
    eapply rtc_l; [eapply (step_execute _ _ 2), e_pop; reflexivity|]. apply rtc_refl.
  - split_and!; reflexivity.
Qed.

Lemma respondents_run_in_place_witness :
  ∃ s, rtc step init s ∧ pcs s 2%nat = Exec (X_run [] 0) 5 FromGlobal ∧ ran_by (ran s) 1 = [mkJob 1 0 0].
Proof.
  destruct run_respond as (s & Hs & H1 & Hc & H2). exists s. split_and!; [done|done|].
  destruct (respondents_run_in_place s 1 Hs) as (_ & _ & _ & K & _). by rewrite <-(K H1).
Defined.

End RespondJobs.
