(* ===== verification/Wire.v ===== *)
(** * Wire: the protobuf wire format the generated classes use
      (calls of Protocol.pb.cc into WireFormatLite and EpsCopyOutputStream)

    Varints, tags and length-delimited payloads as the protobuf encoding
    specification defines them, with a reference decoder.  The generated code
    of [Protocol] writes through these functions. *)

From S2P Require Import Prelude.
#[local] Open Scope Z_scope.

Module Wire.

(** Base 128, least significant group first, at most ten bytes. *)
Fixpoint varint_f (fuel : nat) (n : Z) : list byte :=
  match fuel with
  | O => []
  | S fuel =>
    if n <? 128 then [byte_of_Z n]
    else byte_of_Z (128 + n mod 128) :: varint_f fuel (n / 128)
  end.

Definition varint (n : Z) : list byte := varint_f 10 n.

(** [VarintSize64]. *)
Definition VarintSize (n : Z) : Z := 1 + Z.log2 n / 7.

(** [WireFormatLite::StringSize]: the length prefix and the bytes. *)
Definition StringSize (s : list byte) : Z := VarintSize (zlen s) + zlen s.

Definition Int64Size (z : Z) : Z := VarintSize (u64 z).

Inductive wval : Type := WVarint (z : Z) | WBytes (s : list byte).

Definition enc (f : Z * wval) : list byte :=
  match f with
  | (num, WVarint z) => varint (num * 8) ++ varint z
  | (num, WBytes s) => varint (num * 8 + 2) ++ varint (zlen s) ++ s
  end.

Definition WriteBool (num : Z) (b : bool) : list byte := enc (num, WVarint (if b then 1 else 0)).
Definition WriteString (num : Z) (s : list byte) : list byte := enc (num, WBytes s).
Definition packed (l : list Z) : list byte := concat ((λ z, varint (u64 z)) <$> l).
Definition WriteInt64Packed (num : Z) (l : list Z) : list byte := enc (num, WBytes (packed l)).

(** ** The reference decoder *)

Fixpoint read_varint (fuel : nat) (bs : list byte) : option (Z * list byte) :=
  match fuel, bs with
  | S fuel, b :: bs' =>
    let v := byte_val b in
    if v <? 128 then Some (v, bs')
    else '(n, rest) ← read_varint fuel bs'; Some (v - 128 + 128 * n, rest)
  | _, _ => None
  end.

Definition read_field (bs : list byte) : option (Z * wval * list byte) :=
  '(tag, bs) ← read_varint 10 bs;
  if tag mod 8 =? 0 then
    '(z, bs) ← read_varint 10 bs; Some (tag / 8, WVarint z, bs)
  else if tag mod 8 =? 2 then
    '(n, bs) ← read_varint 10 bs;
    if n <=? zlen bs then Some (tag / 8, WBytes (take (Z.to_nat n) bs), drop (Z.to_nat n) bs)
    else None
  else None.

Fixpoint read_fields (fuel : nat) (bs : list byte) : option (list (Z * wval)) :=
  match bs with
  | [] => Some []
  | _ =>
    match fuel with
    | O => None
    | S fuel =>
      '(f, rest) ← read_field bs; fs ← read_fields fuel rest; Some (f :: fs)
    end
  end.

(** A packed payload of [int64]s. *)
Definition to_int64 (z : Z) : Z := if z <? 2 ^ 63 then z else z - 2 ^ 64.

Fixpoint read_packed (fuel : nat) (bs : list byte) : option (list Z) :=
  match bs with
  | [] => Some []
  | _ =>
    match fuel with
    | O => None
    | S fuel =>
      '(z, rest) ← read_varint 10 bs; l ← read_packed fuel rest; Some (to_int64 z :: l)
    end
  end.

(** ** UTF-8 (RFC 3629), which proto3 requires of string fields *)

Definition in_range (lo hi : Z) (b : byte) : bool := (lo <=? byte_val b) && (byte_val b <=? hi).
Definition cont (b : byte) : bool := in_range 128 191 b.

Fixpoint utf8_valid (bs : list byte) : bool :=
  match bs with
  | [] => true
  | b0 :: r =>
    if in_range 0 127 b0 then utf8_valid r
    else match r with
    | b1 :: r =>
      if in_range 194 223 b0 then cont b1 && utf8_valid r
      else match r with
      | b2 :: r =>
        if in_range 224 239 b0 then
          in_range (if byte_val b0 =? 224 then 160 else 128) (if byte_val b0 =? 237 then 159 else 191) b1
          && cont b2 && utf8_valid r
        else match r with
        | b3 :: r =>
          in_range 240 244 b0 &&
          in_range (if byte_val b0 =? 240 then 144 else 128) (if byte_val b0 =? 244 then 143 else 191) b1
          && cont b2 && cont b3 && utf8_valid r
        | [] => false
        end
      | [] => false
      end
    | [] => false
    end
  end.

Arguments utf8_valid : simpl never.
Arguments varint : simpl never.
Arguments read_varint : simpl never.

(** ** Sizes *)

Lemma VarintSize_small n : 0 ≤ n < 128 → VarintSize n = 1.
Proof.
  intros Hn. unfold VarintSize. destruct (Z.eq_dec n 0) as [->|]; [done|].
  assert (Z.log2 n < 7) by (apply Z.log2_lt_pow2; lia).
  pose proof (Z.log2_nonneg n). rewrite Z.div_small; lia.
Qed.

Lemma VarintSize_step n : 128 ≤ n → VarintSize n = 1 + VarintSize (n / 128).
Proof.
  intros Hn. unfold VarintSize.
  change 128 with (2 ^ 7). rewrite <-Z.shiftr_div_pow2, Z.log2_shiftr by lia.
  assert (7 ≤ Z.log2 n) by (apply Z.log2_le_pow2; lia).
  rewrite Z.max_r by lia.
  replace (Z.log2 n) with (Z.log2 n - 7 + 1 * 7) at 1 by lia. rewrite Z.div_add by lia. lia.
Qed.

Lemma pow_step (fuel : nat) : 128 ^ Z.of_nat (S fuel) = 128 * 128 ^ Z.of_nat fuel.
Proof. rewrite Nat2Z.inj_succ, Z.pow_succ_r; lia. Qed.

Lemma varint_f_S fuel n : varint_f (S fuel) n =
  if n <? 128 then [byte_of_Z n] else byte_of_Z (128 + n mod 128) :: varint_f fuel (n / 128).
Proof. done. Qed.

Lemma varint_f_length fuel n :
  0 ≤ n < 128 ^ Z.of_nat (S fuel) → zlen (varint_f (S fuel) n) = VarintSize n.
Proof.
  revert n. induction fuel as [|fuel IH]; intros n Hn.
  - change (128 ^ Z.of_nat 1) with 128 in Hn. simpl. case_test; [|lia]. by rewrite VarintSize_small by lia.
  - rewrite pow_step in Hn. rewrite varint_f_S. case_test; [by rewrite VarintSize_small by lia|].
    rewrite zlen_cons, (VarintSize_step n) by lia.
    f_equal. apply IH. split; [apply Z.div_pos; lia|apply Z.div_lt_upper_bound; lia].
Qed.

Lemma varint_length n : 0 ≤ n < 2 ^ 64 → zlen (varint n) = VarintSize n.
Proof. intros Hn. apply varint_f_length. change (128 ^ Z.of_nat 10) with (2 ^ 70). lia. Qed.

Lemma byte_val_small z : 0 ≤ z < 256 → byte_val (byte_of_Z z) = z.
Proof. intros Hz. rewrite byte_val_of_Z. unfold u8. apply Z.mod_small. lia. Qed.

Lemma read_varint_S fuel b bs : read_varint (S fuel) (b :: bs) =
  if byte_val b <? 128 then Some (byte_val b, bs)
  else '(n, rest) ← read_varint fuel bs; Some (byte_val b - 128 + 128 * n, rest).
Proof. done. Qed.

Lemma read_varint_f fuel n rest :
  0 ≤ n < 128 ^ Z.of_nat (S fuel) →
  read_varint (S fuel) (varint_f (S fuel) n ++ rest) = Some (n, rest).
Proof.
  revert n. induction fuel as [|fuel IH]; intros n Hn.
  - change (128 ^ Z.of_nat 1) with 128 in Hn. simpl. case_test; [|lia].
    simpl app. rewrite read_varint_S, byte_val_small by lia. case_test; [done|lia].
  - rewrite pow_step in Hn. rewrite varint_f_S. case_test.
    + simpl app. rewrite read_varint_S, byte_val_small by lia. case_test; [done|lia].
    + pose proof (Z.mod_pos_bound n 128 ltac:(lia)).
      rewrite <-app_comm_cons, read_varint_S. rewrite byte_val_small by lia. case_test; [lia|].
      rewrite IH; [|split; [apply Z.div_pos; lia|apply Z.div_lt_upper_bound; lia]].
      simpl. do 2 f_equal. pose proof (Z.div_mod n 128 ltac:(lia)). lia.
Qed.

Lemma read_varint_app n rest : 0 ≤ n < 2 ^ 64 → read_varint 10 (varint n ++ rest) = Some (n, rest).
Proof. intros Hn. apply (read_varint_f 9). change (128 ^ Z.of_nat 10) with (2 ^ 70). lia. Qed.

Lemma varint_nonempty n : varint n ≠ [].
Proof. unfold varint. simpl. by case_test. Qed.

Definition wf_field (f : Z * wval) : Prop :=
  0 < f.1 < 2 ^ 29 ∧
  match f.2 with WVarint z => 0 ≤ z < 2 ^ 64 | WBytes s => zlen s < 2 ^ 31 end.

Lemma read_field_enc f rest : wf_field f → read_field (enc f ++ rest) = Some (f, rest).
Proof.
  destruct f as [num [z|s]]; intros [Hnum Hv]; simpl in *; unfold read_field.
  - rewrite <-app_assoc, read_varint_app by lia. simpl.
    rewrite Z.mod_mul by lia. simpl. rewrite read_varint_app by lia. simpl.
    by rewrite Z.div_mul by lia.
  - rewrite <-!app_assoc, read_varint_app by lia. simpl.
    replace ((num * 8 + 2) mod 8) with 2 by (Z.to_euclidean_division_equations; lia). simpl.
    pose proof (zlen_nonneg s). rewrite read_varint_app by lia. simpl.
    rewrite zlen_app. pose proof (zlen_nonneg rest). case_test; [|lia].
    replace ((num * 8 + 2) / 8) with num by (Z.to_euclidean_division_equations; lia).
    unfold zlen. rewrite Nat2Z.id. by rewrite take_app_length, drop_app_length.
Qed.

Lemma enc_nonempty f : enc f ≠ [].
Proof.
  destruct f as [num [z|s]]; simpl; intros H; apply app_eq_nil in H as [H _]; by apply varint_nonempty in H.
Qed.

Lemma read_fields_S fuel bs : bs ≠ [] → read_fields (S fuel) bs =
  '(f, rest) ← read_field bs; fs ← read_fields fuel rest; Some (f :: fs).
Proof. by destruct bs. Qed.

Lemma read_packed_S fuel bs : bs ≠ [] → read_packed (S fuel) bs =
  '(z, rest) ← read_varint 10 bs; l ← read_packed fuel rest; Some (to_int64 z :: l).
Proof. by destruct bs. Qed.

Lemma read_fields_enc fs fuel :
  Forall wf_field fs → (length fs ≤ fuel)%nat → read_fields fuel (concat (enc <$> fs)) = Some fs.
Proof.
  intros Hfs. revert fuel. induction Hfs as [|f fs Hf _ IH]; intros fuel Hl; [by destruct fuel|].
  destruct fuel as [|fuel]; [simpl in Hl; lia|]. simpl in Hl.
  rewrite fmap_cons. cbn [concat]. rewrite read_fields_S.
  - rewrite read_field_enc by done. simpl. by rewrite IH by lia.
  - intros [E _]%app_eq_nil. by apply enc_nonempty in E.
Qed.

Lemma fields_count fs : (length fs ≤ length (concat (enc <$> fs)))%nat.
Proof.
  induction fs as [|f fs IH]; [done|]. rewrite fmap_cons. cbn [concat length].
  rewrite length_app. pose proof (enc_nonempty f). destruct (enc f); [done|].
  cbn [length]. lia.
Qed.

Lemma to_int64_u64 z : - 2 ^ 63 ≤ z < 2 ^ 63 → to_int64 (u64 z) = z.
Proof.
  intros Hz. unfold to_int64, u64. destruct (Z.ltb_spec z 0).
  - replace (z mod 2 ^ 64) with (z + 2 ^ 64) by (rewrite <-(Z.mod_add z 1), Z.mod_small; lia).
    case_test; lia.
  - rewrite Z.mod_small by lia. case_test; lia.
Qed.

Lemma u64_bounds z : 0 ≤ u64 z < 2 ^ 64.
Proof. apply Z.mod_pos_bound. lia. Qed.

Lemma read_packed_packed l fuel :
  Forall (λ z, - 2 ^ 63 ≤ z < 2 ^ 63) l → (length l ≤ fuel)%nat →
  read_packed fuel (packed l) = Some l.
Proof.
  intros Hl. revert fuel. induction Hl as [|z l Hz _ IH]; intros fuel Hf; [by destruct fuel|].
  destruct fuel as [|fuel]; simpl in Hf; [lia|].
  unfold packed. rewrite fmap_cons. cbn [concat]. rewrite read_packed_S.
  - rewrite read_varint_app by apply u64_bounds. simpl.
    fold (packed l). rewrite IH by lia. simpl. by rewrite to_int64_u64.
  - intros [E _]%app_eq_nil. by apply varint_nonempty in E.
Qed.

Lemma packed_count l : (length l ≤ length (packed l))%nat.
Proof.
  unfold packed. induction l as [|z l IH]; [done|]. rewrite fmap_cons. cbn [concat length].
  rewrite length_app. pose proof (varint_nonempty (u64 z)). destruct (varint (u64 z)); [done|].
  cbn [length]. lia.
Qed.

(** ** Sizes of the writes, with one-byte tags *)

Lemma zlen_tag t : 0 ≤ t < 128 → zlen (varint t) = 1.
Proof. intros Ht. rewrite varint_length by lia. apply VarintSize_small; lia. Qed.

Lemma zlen_WriteBool num b : 0 < num < 16 → zlen (WriteBool num b) = 2.
Proof.
  intros Hn. unfold WriteBool, enc. rewrite zlen_app, zlen_tag by lia. by destruct b.
Qed.

Lemma zlen_WriteString num s :
  0 < num < 16 → zlen s < 2 ^ 31 → zlen (WriteString num s) = 1 + StringSize s.
Proof.
  intros Hn Hs. pose proof (zlen_nonneg s). unfold WriteString, enc, StringSize.
  rewrite !zlen_app, zlen_tag, varint_length by lia. lia.
Qed.

Lemma zlen_packed l : zlen (packed l) = foldr Z.add 0 (Int64Size <$> l).
Proof.
  unfold packed. induction l as [|z l IH]; [done|]. rewrite !fmap_cons. cbn [concat foldr].
  rewrite zlen_app, IH, varint_length by apply u64_bounds. done.
Qed.

Lemma zlen_strings num l :
  0 < num < 16 → Forall (λ s, zlen s < 2 ^ 31) l →
  zlen (concat (WriteString num <$> l)) = zlen l + foldr Z.add 0 (StringSize <$> l).
Proof.
  intros Hn. induction 1 as [|s l Hs _ IH]; [done|]. rewrite !fmap_cons. cbn [concat foldr].
  rewrite zlen_app, zlen_cons, IH, zlen_WriteString by done. lia.
Qed.

End Wire.
