(* ===== verification/Protocol.v ===== *)
(** * Protocol: the generated message classes (Server/Protocol.pb.h, Protocol.pb.cc)

    One module per message with fields: its members with the presence bits,
    the setters, and the generated [Clear], [_InternalSerialize],
    [ByteSizeLong], [MergeImpl] and [CopyFrom].  Client/Protocol.pb.* are the
    same files.  [parse_field] is what an entry of the parse table [_table_]
    says of a field and [known] which fields the table accepts: the right wire
    type, and text that is valid UTF-8.  The parser that interprets the tables
    is in the protobuf library: the class [Parser] states the encoding
    specification's rule for known fields, [reference_parser] satisfies it.
    The unknown-field set is empty in every message the program builds and is
    not modelled. *)

From S2P Require Import Prelude Wire.
Import Wire.
#[local] Open Scope Z_scope.

(** [CheckHasBit], [CheckHasBitForRepeated] and [BatchCheckHasBit]. *)
Definition CheckHasBit (has_bits mask : Z) : bool := negb (Z.land has_bits mask =? 0).

Definition empty {A} (l : list A) : bool := match l with [] => true | _ => false end.

(** [WireFormatLite::Int64SizeWithPackedTagSize]. *)
Definition Int64SizeWithPackedTagSize (l : list Z) (tag_size : Z) : Z :=
  if empty l then 0
  else let n := foldr Z.add 0 (Int64Size <$> l) in tag_size + VarintSize n + n.

Lemma CheckHasBit_batch c mask bit :
  Z.land mask bit = bit → CheckHasBit c mask = false → CheckHasBit c bit = false.
Proof.
  unfold CheckHasBit. rewrite !negb_false_iff, !Z.eqb_eq. intros Hm H0.
  by rewrite <-Hm, Z.land_assoc, H0, Z.land_0_l.
Qed.

Lemma CheckHasBit_lor a b bit :
  CheckHasBit (Z.lor a b) bit = CheckHasBit a bit || CheckHasBit b bit.
Proof.
  unfold CheckHasBit. rewrite Z.land_lor_distr_l.
  destruct (Z.eqb_spec (Z.lor (Z.land a bit) (Z.land b bit)) 0) as [E|E].
  - apply Z.lor_eq_0_iff in E as [-> ->]. done.
  - destruct (Z.eqb_spec (Z.land a bit) 0) as [Ea|]; [|done].
    destruct (Z.eqb_spec (Z.land b bit) 0) as [Eb|]; [|done]. by rewrite Ea, Eb in E.
Qed.

Lemma CheckHasBit_0 bit : CheckHasBit 0 bit = false.
Proof. done. Qed.

Lemma foldr_add_nonneg l : Forall (λ z, 0 ≤ z) l → 0 ≤ foldr Z.add 0 l.
Proof. induction 1; simpl; lia. Qed.

Lemma Int64Size_pos z : 0 < Int64Size z.
Proof.
  unfold Int64Size, VarintSize. pose proof (Z.log2_nonneg (u64 z)).
  pose proof (Z.div_pos (Z.log2 (u64 z)) 7 ltac:(lia) ltac:(lia)). lia.
Qed.

Lemma zlen_WriteInt64Packed num l :
  0 < num < 16 → l ≠ [] → zlen (packed l) < 2 ^ 31 →
  zlen (WriteInt64Packed num l) = Int64SizeWithPackedTagSize l 1.
Proof.
  intros Hn Hl Hs. unfold WriteInt64Packed, enc, Int64SizeWithPackedTagSize.
  pose proof (zlen_nonneg (packed l)). rewrite !zlen_app, zlen_tag, varint_length, zlen_packed by lia.
  destruct l; [done|]. simpl. lia.
Qed.

Lemma app_congr {A} (a a' b b' : list A) : a = a' → b = b' → a ++ b = a' ++ b'.
Proof. by intros -> ->. Qed.

(** ** One lemma per kind of field *)

Section field.
Context (c : bool) (num : Z) (Hnum : 0 < num < 16).

Lemma size_bool b :
  zlen (if c && b then WriteBool num b else []) = if c && b then 2 else 0.
Proof. destruct (c && b); [by apply zlen_WriteBool|done]. Qed.

Lemma size_string s : zlen s < 2 ^ 31 →
  zlen (if c && negb (empty s) then WriteString num s else []) =
  if c && negb (empty s) then 1 + StringSize s else 0.
Proof. intros. destruct (c && negb (empty s)); [by apply zlen_WriteString|done]. Qed.

Lemma size_strings l : Forall (λ s, zlen s < 2 ^ 31) l →
  zlen (if c then concat (WriteString num <$> l) else []) =
  if c then zlen l + foldr Z.add 0 (StringSize <$> l) else 0.
Proof. intros. destruct c; [by apply zlen_strings|done]. Qed.

Lemma size_packed l : zlen (packed l) < 2 ^ 31 →
  zlen (if c && negb (empty l) then WriteInt64Packed num l else []) =
  if c then Int64SizeWithPackedTagSize l 1 else 0.
Proof.
  intros. destruct c; [|done]. destruct l as [|z l]; [done|]. by apply zlen_WriteInt64Packed.
Qed.

Lemma fields_bool b : (b = true → c = true) →
  (if c && b then WriteBool num b else []) =
  concat (enc <$> (if b then [(num, WVarint 1)] else [])).
Proof. destruct b; [|by destruct c]. intros ->; [|done]. simpl. by rewrite app_nil_r. Qed.

Lemma fields_string s : (s ≠ [] → c = true) →
  (if c && negb (empty s) then WriteString num s else []) =
  concat (enc <$> (if negb (empty s) then [(num, WBytes s)] else [])).
Proof. destruct s; [by destruct c|]. intros ->; [|done]. simpl. by rewrite app_nil_r. Qed.

Lemma fields_strings l : (l ≠ [] → c = true) →
  (if c then concat (WriteString num <$> l) else []) =
  concat (enc <$> ((λ s, (num, WBytes s)) <$> l)).
Proof.
  intros Hc. rewrite <-list_fmap_compose. destruct c; [done|].
  destruct l; [done|]. by specialize (Hc ltac:(done)).
Qed.

Lemma fields_packed l : (l ≠ [] → c = true) →
  (if c && negb (empty l) then WriteInt64Packed num l else []) =
  concat (enc <$> (if negb (empty l) then [(num, WBytes (packed l))] else [])).
Proof. destruct l; [by destruct c|]. intros ->; [|done]. simpl. by rewrite app_nil_r. Qed.

Lemma wf_bool (b : bool) : Forall wf_field (if b then [(num, WVarint 1)] else []).
Proof. destruct b; repeat constructor; simpl; lia. Qed.

Lemma wf_string s : zlen s < 2 ^ 31 →
  Forall wf_field (if negb (empty s) then [(num, WBytes s)] else []).
Proof. intros. destruct (negb (empty s)); repeat constructor; simpl; lia. Qed.

Lemma wf_strings l : Forall (λ s, zlen s < 2 ^ 31) l →
  Forall wf_field ((λ s, (num, WBytes s)) <$> l).
Proof.
  intros Hl. apply Forall_fmap. eapply Forall_impl; [exact Hl|].
  intros s Hs. repeat split; simpl; lia || done.
Qed.

Lemma wf_packed {A} (l : list A) s : zlen s < 2 ^ 31 →
  Forall wf_field (if negb (empty l) then [(num, WBytes s)] else []).
Proof. intros. destruct (negb (empty l)); repeat constructor; simpl; lia. Qed.

End field.

Section merge.
Context (c mask bit : Z) (Hm : Z.land mask bit = bit).

Lemma copy_bool b : (b = true → CheckHasBit c bit = true) →
  (if CheckHasBit c mask && CheckHasBit c bit && b then b else false) = b.
Proof.
  destruct b; [|by rewrite andb_false_r]. intros Hb. specialize (Hb eq_refl). rewrite Hb.
  destruct (CheckHasBit c mask) eqn:E; [done|]. by rewrite (CheckHasBit_batch _ _ _ Hm E) in Hb.
Qed.

Lemma copy_string (s : list byte) : (s ≠ [] → CheckHasBit c bit = true) →
  (if CheckHasBit c mask && CheckHasBit c bit && negb (empty s) then s else []) = s.
Proof.
  destruct s; [by rewrite andb_false_r|]. intros Hb. specialize (Hb ltac:(done)). rewrite Hb.
  destruct (CheckHasBit c mask) eqn:E; [done|]. by rewrite (CheckHasBit_batch _ _ _ Hm E) in Hb.
Qed.

Lemma copy_repeated {A} (l : list A) : (l ≠ [] → CheckHasBit c bit = true) →
  (if CheckHasBit c mask && CheckHasBit c bit then l else []) = l.
Proof.
  intros Hb. destruct l; [by destruct (_ && _)|]. specialize (Hb ltac:(done)). rewrite Hb.
  destruct (CheckHasBit c mask) eqn:E; [done|]. by rewrite (CheckHasBit_batch _ _ _ Hm E) in Hb.
Qed.

End merge.

Lemma copy_repeated1 {A} c bit (l : list A) : (l ≠ [] → CheckHasBit c bit = true) →
  (if CheckHasBit c bit then l else []) = l.
Proof.
  intros Hb. destruct l; [by destruct (CheckHasBit c bit)|]. by rewrite Hb.
Qed.

Lemma clear_field {A} c bit (l : list A) :
  (l ≠ [] → CheckHasBit c bit = true) → (if CheckHasBit c bit then [] else l) = [].
Proof. intros H. destruct (CheckHasBit c bit); [done|]. destruct l; [done|]. by specialize (H ltac:(done)). Qed.

(** ** Automation for the generated code *)

Ltac no_batch :=
  repeat match goal with
  | B : CheckHasBit ?c ?mask = false |- context [CheckHasBit ?c ?bit] =>
    rewrite (CheckHasBit_batch c mask bit eq_refl B)
  end.

Ltac proto_size :=
  intros; destruct_and?; rewrite ?zlen_app;
  rewrite ?size_bool, ?size_string, ?size_strings, ?size_packed by (done || lia);
  try match goal with |- _ = (if ?b then _ else 0) => let B := fresh in destruct b eqn:B end;
  first [lia | no_batch; simpl; lia].

Ltac proto_clear :=
  intros; destruct_and?; rewrite ?clear_field by done; reflexivity.

Ltac proto_copy :=
  destruct_and?; simpl; rewrite ?Z.lor_0_l;
  rewrite ?copy_bool, ?copy_string, ?copy_repeated, ?copy_repeated1 by done;
  split_and?; done.

Ltac proto_repeated l :=
  let IH := fresh in
  induction l as [|? l IH] using rev_ind; [by rewrite ?app_nil_r|];
  rewrite ?fmap_app, foldl_app; simpl in *; destruct_and?; split_and?;
  (congruence || by rewrite app_assoc; congruence).

Ltac proto_fields :=
  intros; destruct_and?; rewrite ?fmap_app, ?concat_app;
  repeat match goal with |- _ ++ _ = _ ++ _ => apply app_congr end;
  first [by apply fields_bool | by apply fields_string | by apply fields_strings
        | by apply fields_packed].

Ltac proto_wf_fields :=
  intros; destruct_and?; rewrite ?Forall_app; split_and?;
  first [apply wf_bool; lia | apply wf_string; done || lia | apply wf_strings; done || lia
        | apply wf_packed; done || lia].

(** Every field written is one the table accepts. *)
Lemma Forall_if {A} (P : A → Prop) (b : bool) l : Forall P l → Forall P (if b then l else []).
Proof. by destruct b. Qed.

Lemma Forall_fields {A B} (P : A → Prop) (Q : B → Prop) (f : A → B) l :
  (∀ x, P x → Q (f x)) → Forall P l → Forall Q (f <$> l).
Proof. intros Hf Hl. rewrite Forall_fmap. by apply (Forall_impl P). Qed.

Lemma packed_readable l :
  Forall (λ z, - 2 ^ 63 ≤ z < 2 ^ 63) l →
  bool_decide (is_Some (read_packed (length (packed l)) (packed l))) = true.
Proof. intros Hl. apply bool_decide_eq_true_2. rewrite read_packed_packed by (done || apply packed_count). eauto. Qed.

Ltac proto_known :=
  intros; destruct_and?; rewrite ?Forall_app; split_and?;
  first [apply Forall_if; repeat constructor; done
        | apply Forall_if; repeat constructor; by apply packed_readable
        | eapply Forall_fields; [|done]; done].

(** ** C_LOGIN *)

Module C_LOGIN.

Record t : Type := mk {
  has_bits : Z;
  id : list byte;
  pssd : list byte
}.

Definition new : t := mk 0 [] [].

Definition set_id (v : list byte) (m : t) : t :=
  mk (Z.lor (has_bits m) 1) v (pssd m).
Definition set_pssd (v : list byte) (m : t) : t :=
  mk (Z.lor (has_bits m) 2) (id m) v.

Definition Clear (m : t) : t :=
  let c := has_bits m in
  mk 0
    (if CheckHasBit c 1 then [] else id m)
    (if CheckHasBit c 2 then [] else pssd m).

Definition InternalSerialize (m : t) : list byte :=
  let c := has_bits m in
  (if CheckHasBit c 1 && negb (empty (id m)) then WriteString 1 (id m) else []) ++
  (if CheckHasBit c 2 && negb (empty (pssd m)) then WriteString 2 (pssd m) else []).

Definition ByteSizeLong (m : t) : Z :=
  let c := has_bits m in
  if CheckHasBit c 3 then
    (if CheckHasBit c 1 && negb (empty (id m)) then 1 + StringSize (id m) else 0) +
    (if CheckHasBit c 2 && negb (empty (pssd m)) then 1 + StringSize (pssd m) else 0)
  else 0.

Definition MergeImpl (to from : t) : t :=
  let c := has_bits from in
  mk (Z.lor (has_bits to) c)
    (if CheckHasBit c 3 && CheckHasBit c 1 && negb (empty (id from)) then id from else id to)
    (if CheckHasBit c 3 && CheckHasBit c 2 && negb (empty (pssd from)) then pssd from else pssd to).

Definition CopyFrom (to from : t) : t := MergeImpl (Clear to) from.

Definition parse_field (m : t) (f : Z * wval) : t :=
  match f with
  | (1, WBytes s) => set_id s m
  | (2, WBytes s) => set_pssd s m
  | _ => m
  end.

(** The fields the table accepts. *)
Definition known (f : Z * wval) : bool :=
  match f with
  | (1, WBytes s) => utf8_valid s
  | (2, WBytes s) => utf8_valid s
  | _ => false
  end.

(** [CheckHasBitConsistency]. *)
Definition wf (m : t) : Prop :=
  (id m ≠ [] → CheckHasBit (has_bits m) 1 = true) ∧
  (pssd m ≠ [] → CheckHasBit (has_bits m) 2 = true).

Definition small (m : t) : Prop :=
  zlen (id m) < 2 ^ 31 ∧ zlen (pssd m) < 2 ^ 31.

Definition utf8 (m : t) : Prop :=
  utf8_valid (id m) = true ∧ utf8_valid (pssd m) = true.

(** The message without its presence bits. *)
Definition strip (m : t) : t := mk 0 (id m) (pssd m).

Definition fields (m : t) : list (Z * wval) :=
  (if negb (empty (id m)) then [(1, WBytes (id m))] else []) ++
  (if negb (empty (pssd m)) then [(2, WBytes (pssd m))] else []).

Lemma C_LOGIN_size m : small m → zlen (InternalSerialize m) = ByteSizeLong m.
Proof. unfold InternalSerialize, ByteSizeLong, small. proto_size. Qed.

Lemma C_LOGIN_clear m : wf m → Clear m = new.
Proof. unfold wf, Clear. proto_clear. Qed.

Lemma C_LOGIN_fields m : wf m → InternalSerialize m = concat (enc <$> fields m).
Proof. unfold wf, InternalSerialize, fields. proto_fields. Qed.

Lemma C_LOGIN_wf_fields m : small m → Forall wf_field (fields m).
Proof. unfold small, fields. proto_wf_fields. Qed.

Lemma C_LOGIN_known m : small m → utf8 m → Forall (λ f, known f = true) (fields m).
Proof. unfold small, utf8, fields. proto_known. Qed.

Lemma C_LOGIN_copy a b : wf a → wf b → wf (CopyFrom a b) ∧ strip (CopyFrom a b) = strip b.
Proof.
  intros Ha Hb. unfold CopyFrom. rewrite C_LOGIN_clear by done.
  unfold wf, strip, MergeImpl, new in *. proto_copy.
Qed.

Lemma C_LOGIN_parse m : small m → strip (foldl parse_field new (fields m)) = strip m.
Proof.
  intros _. destruct m as [hb x0 x1]. destruct x0; destruct x1; reflexivity.
Qed.

End C_LOGIN.

(** ** S_LOGIN *)

Module S_LOGIN.

Record t : Type := mk {
  has_bits : Z;
  issuccess : bool;
  id : list byte;
  pssd : list byte
}.

Definition new : t := mk 0 false [] [].

Definition set_issuccess (v : bool) (m : t) : t :=
  mk (Z.lor (has_bits m) 4) v (id m) (pssd m).
Definition set_id (v : list byte) (m : t) : t :=
  mk (Z.lor (has_bits m) 1) (issuccess m) v (pssd m).
Definition set_pssd (v : list byte) (m : t) : t :=
  mk (Z.lor (has_bits m) 2) (issuccess m) (id m) v.

Definition Clear (m : t) : t :=
  let c := has_bits m in
  mk 0
    false
    (if CheckHasBit c 1 then [] else id m)
    (if CheckHasBit c 2 then [] else pssd m).

Definition InternalSerialize (m : t) : list byte :=
  let c := has_bits m in
  (if CheckHasBit c 4 && issuccess m then WriteBool 1 (issuccess m) else []) ++
  (if CheckHasBit c 1 && negb (empty (id m)) then WriteString 2 (id m) else []) ++
  (if CheckHasBit c 2 && negb (empty (pssd m)) then WriteString 3 (pssd m) else []).

Definition ByteSizeLong (m : t) : Z :=
  let c := has_bits m in
  if CheckHasBit c 7 then
    (if CheckHasBit c 1 && negb (empty (id m)) then 1 + StringSize (id m) else 0) +
    (if CheckHasBit c 2 && negb (empty (pssd m)) then 1 + StringSize (pssd m) else 0) +
    (if CheckHasBit c 4 && issuccess m then 2 else 0)
  else 0.

Definition MergeImpl (to from : t) : t :=
  let c := has_bits from in
  mk (Z.lor (has_bits to) c)
    (if CheckHasBit c 7 && CheckHasBit c 4 && issuccess from then issuccess from else issuccess to)
    (if CheckHasBit c 7 && CheckHasBit c 1 && negb (empty (id from)) then id from else id to)
    (if CheckHasBit c 7 && CheckHasBit c 2 && negb (empty (pssd from)) then pssd from else pssd to).

Definition CopyFrom (to from : t) : t := MergeImpl (Clear to) from.

Definition parse_field (m : t) (f : Z * wval) : t :=
  match f with
  | (1, WVarint z) => set_issuccess (negb (z =? 0)) m
  | (2, WBytes s) => set_id s m
  | (3, WBytes s) => set_pssd s m
  | _ => m
  end.

(** The fields the table accepts. *)
Definition known (f : Z * wval) : bool :=
  match f with
  | (1, WVarint _) => true
  | (2, WBytes s) => utf8_valid s
  | (3, WBytes s) => utf8_valid s
  | _ => false
  end.

(** [CheckHasBitConsistency]. *)
Definition wf (m : t) : Prop :=
  (issuccess m = true → CheckHasBit (has_bits m) 4 = true) ∧
  (id m ≠ [] → CheckHasBit (has_bits m) 1 = true) ∧
  (pssd m ≠ [] → CheckHasBit (has_bits m) 2 = true).

Definition small (m : t) : Prop :=
  zlen (id m) < 2 ^ 31 ∧ zlen (pssd m) < 2 ^ 31.

Definition utf8 (m : t) : Prop :=
  utf8_valid (id m) = true ∧ utf8_valid (pssd m) = true.

(** The message without its presence bits. *)
Definition strip (m : t) : t := mk 0 (issuccess m) (id m) (pssd m).

Definition fields (m : t) : list (Z * wval) :=
  (if issuccess m then [(1, WVarint 1)] else []) ++
  (if negb (empty (id m)) then [(2, WBytes (id m))] else []) ++
  (if negb (empty (pssd m)) then [(3, WBytes (pssd m))] else []).

Lemma S_LOGIN_size m : small m → zlen (InternalSerialize m) = ByteSizeLong m.
Proof. unfold InternalSerialize, ByteSizeLong, small. proto_size. Qed.

Lemma S_LOGIN_clear m : wf m → Clear m = new.
Proof. unfold wf, Clear. proto_clear. Qed.

Lemma S_LOGIN_fields m : wf m → InternalSerialize m = concat (enc <$> fields m).
Proof. unfold wf, InternalSerialize, fields. proto_fields. Qed.

Lemma S_LOGIN_wf_fields m : small m → Forall wf_field (fields m).
Proof. unfold small, fields. proto_wf_fields. Qed.

Lemma S_LOGIN_known m : small m → utf8 m → Forall (λ f, known f = true) (fields m).
Proof. unfold small, utf8, fields. proto_known. Qed.

Lemma S_LOGIN_copy a b : wf a → wf b → wf (CopyFrom a b) ∧ strip (CopyFrom a b) = strip b.
Proof.
  intros Ha Hb. unfold CopyFrom. rewrite S_LOGIN_clear by done.
  unfold wf, strip, MergeImpl, new in *. proto_copy.
Qed.

Lemma S_LOGIN_parse m : small m → strip (foldl parse_field new (fields m)) = strip m.
Proof.
  intros _. destruct m as [hb x0 x1 x2]. destruct x0; destruct x1; destruct x2; reflexivity.
Qed.

End S_LOGIN.

(** ** C_REGISTER *)

Module C_REGISTER.

Record t : Type := mk {
  has_bits : Z;
  id : list byte;
  pssd : list byte
}.

Definition new : t := mk 0 [] [].

Definition set_id (v : list byte) (m : t) : t :=
  mk (Z.lor (has_bits m) 1) v (pssd m).
Definition set_pssd (v : list byte) (m : t) : t :=
  mk (Z.lor (has_bits m) 2) (id m) v.

Definition Clear (m : t) : t :=
  let c := has_bits m in
  mk 0
    (if CheckHasBit c 1 then [] else id m)
    (if CheckHasBit c 2 then [] else pssd m).

Definition InternalSerialize (m : t) : list byte :=
  let c := has_bits m in
  (if CheckHasBit c 1 && negb (empty (id m)) then WriteString 1 (id m) else []) ++
  (if CheckHasBit c 2 && negb (empty (pssd m)) then WriteString 2 (pssd m) else []).

Definition ByteSizeLong (m : t) : Z :=
  let c := has_bits m in
  if CheckHasBit c 3 then
    (if CheckHasBit c 1 && negb (empty (id m)) then 1 + StringSize (id m) else 0) +
    (if CheckHasBit c 2 && negb (empty (pssd m)) then 1 + StringSize (pssd m) else 0)
  else 0.

Definition MergeImpl (to from : t) : t :=
  let c := has_bits from in
  mk (Z.lor (has_bits to) c)
    (if CheckHasBit c 3 && CheckHasBit c 1 && negb (empty (id from)) then id from else id to)
    (if CheckHasBit c 3 && CheckHasBit c 2 && negb (empty (pssd from)) then pssd from else pssd to).

Definition CopyFrom (to from : t) : t := MergeImpl (Clear to) from.

Definition parse_field (m : t) (f : Z * wval) : t :=
  match f with
  | (1, WBytes s) => set_id s m
  | (2, WBytes s) => set_pssd s m
  | _ => m
  end.

(** The fields the table accepts. *)
Definition known (f : Z * wval) : bool :=
  match f with
  | (1, WBytes s) => utf8_valid s
  | (2, WBytes s) => utf8_valid s
  | _ => false
  end.

(** [CheckHasBitConsistency]. *)
Definition wf (m : t) : Prop :=
  (id m ≠ [] → CheckHasBit (has_bits m) 1 = true) ∧
  (pssd m ≠ [] → CheckHasBit (has_bits m) 2 = true).

Definition small (m : t) : Prop :=
  zlen (id m) < 2 ^ 31 ∧ zlen (pssd m) < 2 ^ 31.

Definition utf8 (m : t) : Prop :=
  utf8_valid (id m) = true ∧ utf8_valid (pssd m) = true.

(** The message without its presence bits. *)
Definition strip (m : t) : t := mk 0 (id m) (pssd m).

Definition fields (m : t) : list (Z * wval) :=
  (if negb (empty (id m)) then [(1, WBytes (id m))] else []) ++
  (if negb (empty (pssd m)) then [(2, WBytes (pssd m))] else []).

Lemma C_REGISTER_size m : small m → zlen (InternalSerialize m) = ByteSizeLong m.
Proof. unfold InternalSerialize, ByteSizeLong, small. proto_size. Qed.

Lemma C_REGISTER_clear m : wf m → Clear m = new.
Proof. unfold wf, Clear. proto_clear. Qed.

Lemma C_REGISTER_fields m : wf m → InternalSerialize m = concat (enc <$> fields m).
Proof. unfold wf, InternalSerialize, fields. proto_fields. Qed.

Lemma C_REGISTER_wf_fields m : small m → Forall wf_field (fields m).
Proof. unfold small, fields. proto_wf_fields. Qed.

Lemma C_REGISTER_known m : small m → utf8 m → Forall (λ f, known f = true) (fields m).
Proof. unfold small, utf8, fields. proto_known. Qed.

Lemma C_REGISTER_copy a b : wf a → wf b → wf (CopyFrom a b) ∧ strip (CopyFrom a b) = strip b.
Proof.
  intros Ha Hb. unfold CopyFrom. rewrite C_REGISTER_clear by done.
  unfold wf, strip, MergeImpl, new in *. proto_copy.
Qed.

Lemma C_REGISTER_parse m : small m → strip (foldl parse_field new (fields m)) = strip m.
Proof.
  intros _. destruct m as [hb x0 x1]. destruct x0; destruct x1; reflexivity.
Qed.

End C_REGISTER.

(** ** S_REGISTER *)

Module S_REGISTER.

Record t : Type := mk {
  has_bits : Z;
  issuccess : bool;
  id : list byte;
  pssd : list byte
}.

Definition new : t := mk 0 false [] [].

Definition set_issuccess (v : bool) (m : t) : t :=
  mk (Z.lor (has_bits m) 4) v (id m) (pssd m).
Definition set_id (v : list byte) (m : t) : t :=
  mk (Z.lor (has_bits m) 1) (issuccess m) v (pssd m).
Definition set_pssd (v : list byte) (m : t) : t :=
  mk (Z.lor (has_bits m) 2) (issuccess m) (id m) v.

Definition Clear (m : t) : t :=
  let c := has_bits m in
  mk 0
    false
    (if CheckHasBit c 1 then [] else id m)
    (if CheckHasBit c 2 then [] else pssd m).

Definition InternalSerialize (m : t) : list byte :=
  let c := has_bits m in
  (if CheckHasBit c 4 && issuccess m then WriteBool 1 (issuccess m) else []) ++
  (if CheckHasBit c 1 && negb (empty (id m)) then WriteString 2 (id m) else []) ++
  (if CheckHasBit c 2 && negb (empty (pssd m)) then WriteString 3 (pssd m) else []).

Definition ByteSizeLong (m : t) : Z :=
  let c := has_bits m in
  if CheckHasBit c 7 then
    (if CheckHasBit c 1 && negb (empty (id m)) then 1 + StringSize (id m) else 0) +
    (if CheckHasBit c 2 && negb (empty (pssd m)) then 1 + StringSize (pssd m) else 0) +
    (if CheckHasBit c 4 && issuccess m then 2 else 0)
  else 0.

Definition MergeImpl (to from : t) : t :=
  let c := has_bits from in
  mk (Z.lor (has_bits to) c)
    (if CheckHasBit c 7 && CheckHasBit c 4 && issuccess from then issuccess from else issuccess to)
    (if CheckHasBit c 7 && CheckHasBit c 1 && negb (empty (id from)) then id from else id to)
    (if CheckHasBit c 7 && CheckHasBit c 2 && negb (empty (pssd from)) then pssd from else pssd to).

Definition CopyFrom (to from : t) : t := MergeImpl (Clear to) from.

Definition parse_field (m : t) (f : Z * wval) : t :=
  match f with
  | (1, WVarint z) => set_issuccess (negb (z =? 0)) m
  | (2, WBytes s) => set_id s m
  | (3, WBytes s) => set_pssd s m
  | _ => m
  end.

(** The fields the table accepts. *)
Definition known (f : Z * wval) : bool :=
  match f with
  | (1, WVarint _) => true
  | (2, WBytes s) => utf8_valid s
  | (3, WBytes s) => utf8_valid s
  | _ => false
  end.

(** [CheckHasBitConsistency]. *)
Definition wf (m : t) : Prop :=
  (issuccess m = true → CheckHasBit (has_bits m) 4 = true) ∧
  (id m ≠ [] → CheckHasBit (has_bits m) 1 = true) ∧
  (pssd m ≠ [] → CheckHasBit (has_bits m) 2 = true).

Definition small (m : t) : Prop :=
  zlen (id m) < 2 ^ 31 ∧ zlen (pssd m) < 2 ^ 31.

Definition utf8 (m : t) : Prop :=
  utf8_valid (id m) = true ∧ utf8_valid (pssd m) = true.

(** The message without its presence bits. *)
Definition strip (m : t) : t := mk 0 (issuccess m) (id m) (pssd m).

Definition fields (m : t) : list (Z * wval) :=
  (if issuccess m then [(1, WVarint 1)] else []) ++
  (if negb (empty (id m)) then [(2, WBytes (id m))] else []) ++
  (if negb (empty (pssd m)) then [(3, WBytes (pssd m))] else []).

Lemma S_REGISTER_size m : small m → zlen (InternalSerialize m) = ByteSizeLong m.
Proof. unfold InternalSerialize, ByteSizeLong, small. proto_size. Qed.

Lemma S_REGISTER_clear m : wf m → Clear m = new.
Proof. unfold wf, Clear. proto_clear. Qed.

Lemma S_REGISTER_fields m : wf m → InternalSerialize m = concat (enc <$> fields m).
Proof. unfold wf, InternalSerialize, fields. proto_fields. Qed.

Lemma S_REGISTER_wf_fields m : small m → Forall wf_field (fields m).
Proof. unfold small, fields. proto_wf_fields. Qed.

Lemma S_REGISTER_known m : small m → utf8 m → Forall (λ f, known f = true) (fields m).
Proof. unfold small, utf8, fields. proto_known. Qed.

Lemma S_REGISTER_copy a b : wf a → wf b → wf (CopyFrom a b) ∧ strip (CopyFrom a b) = strip b.
Proof.
  intros Ha Hb. unfold CopyFrom. rewrite S_REGISTER_clear by done.
  unfold wf, strip, MergeImpl, new in *. proto_copy.
Qed.

Lemma S_REGISTER_parse m : small m → strip (foldl parse_field new (fields m)) = strip m.
Proof.
  intros _. destruct m as [hb x0 x1 x2]. destruct x0; destruct x1; destruct x2; reflexivity.
Qed.

End S_REGISTER.

(** ** S_REFRESH_LOBBY *)

Module S_REFRESH_LOBBY.

Record t : Type := mk {
  has_bits : Z;
  issuccess : bool;
  roomnames : list (list byte);
  usercounts : list Z
}.

Definition new : t := mk 0 false [] [].

Definition set_issuccess (v : bool) (m : t) : t :=
  mk (Z.lor (has_bits m) 4) v (roomnames m) (usercounts m).
Definition add_roomnames (v : list byte) (m : t) : t :=
  mk (Z.lor (has_bits m) 1) (issuccess m) (roomnames m ++ [v]) (usercounts m).
Definition add_usercounts (v : Z) (m : t) : t :=
  mk (Z.lor (has_bits m) 2) (issuccess m) (roomnames m) (usercounts m ++ [v]).

Definition Clear (m : t) : t :=
  let c := has_bits m in
  mk 0
    false
    (if CheckHasBit c 1 then [] else roomnames m)
    (if CheckHasBit c 2 then [] else usercounts m).

Definition InternalSerialize (m : t) : list byte :=
  let c := has_bits m in
  (if CheckHasBit c 4 && issuccess m then WriteBool 1 (issuccess m) else []) ++
  (if CheckHasBit c 1 then concat (WriteString 2 <$> roomnames m) else []) ++
  (if CheckHasBit c 2 && negb (empty (usercounts m)) then WriteInt64Packed 3 (usercounts m) else []).

Definition ByteSizeLong (m : t) : Z :=
  let c := has_bits m in
  if CheckHasBit c 7 then
    (if CheckHasBit c 1 then zlen (roomnames m) + foldr Z.add 0 (StringSize <$> roomnames m) else 0) +
    (if CheckHasBit c 2 then Int64SizeWithPackedTagSize (usercounts m) 1 else 0) +
    (if CheckHasBit c 4 && issuccess m then 2 else 0)
  else 0.

Definition MergeImpl (to from : t) : t :=
  let c := has_bits from in
  mk (Z.lor (has_bits to) c)
    (if CheckHasBit c 7 && CheckHasBit c 4 && issuccess from then issuccess from else issuccess to)
    (if CheckHasBit c 7 && CheckHasBit c 1 then roomnames to ++ roomnames from else roomnames to)
    (if CheckHasBit c 7 && CheckHasBit c 2 then usercounts to ++ usercounts from else usercounts to).

Definition CopyFrom (to from : t) : t := MergeImpl (Clear to) from.

Definition parse_field (m : t) (f : Z * wval) : t :=
  match f with
  | (1, WVarint z) => set_issuccess (negb (z =? 0)) m
  | (2, WBytes s) => add_roomnames s m
  | (3, WBytes s) => foldl (λ m z, add_usercounts z m) m (default [] (read_packed (length s) s))
  | _ => m
  end.

(** The fields the table accepts. *)
Definition known (f : Z * wval) : bool :=
  match f with
  | (1, WVarint _) => true
  | (2, WBytes s) => utf8_valid s
  | (3, WBytes s) => bool_decide (is_Some (read_packed (length s) s))
  | _ => false
  end.

(** [CheckHasBitConsistency]. *)
Definition wf (m : t) : Prop :=
  (issuccess m = true → CheckHasBit (has_bits m) 4 = true) ∧
  (roomnames m ≠ [] → CheckHasBit (has_bits m) 1 = true) ∧
  (usercounts m ≠ [] → CheckHasBit (has_bits m) 2 = true).

Definition small (m : t) : Prop :=
  Forall (λ s, zlen s < 2 ^ 31) (roomnames m) ∧ Forall (λ z, - 2 ^ 63 ≤ z < 2 ^ 63) (usercounts m) ∧ zlen (packed (usercounts m)) < 2 ^ 31.

Definition utf8 (m : t) : Prop :=
  Forall (λ s, utf8_valid s = true) (roomnames m).

(** The message without its presence bits. *)
Definition strip (m : t) : t := mk 0 (issuccess m) (roomnames m) (usercounts m).

Definition fields (m : t) : list (Z * wval) :=
  (if issuccess m then [(1, WVarint 1)] else []) ++
  ((λ s, (2, WBytes s)) <$> roomnames m) ++
  (if negb (empty (usercounts m)) then [(3, WBytes (packed (usercounts m)))] else []).

Lemma S_REFRESH_LOBBY_size m : small m → zlen (InternalSerialize m) = ByteSizeLong m.
Proof. unfold InternalSerialize, ByteSizeLong, small. proto_size. Qed.

Lemma S_REFRESH_LOBBY_clear m : wf m → Clear m = new.
Proof. unfold wf, Clear. proto_clear. Qed.

Lemma S_REFRESH_LOBBY_fields m : wf m → InternalSerialize m = concat (enc <$> fields m).
Proof. unfold wf, InternalSerialize, fields. proto_fields. Qed.

Lemma S_REFRESH_LOBBY_wf_fields m : small m → Forall wf_field (fields m).
Proof. unfold small, fields. proto_wf_fields. Qed.

Lemma S_REFRESH_LOBBY_known m : small m → utf8 m → Forall (λ f, known f = true) (fields m).
Proof. unfold small, utf8, fields. proto_known. Qed.

Lemma S_REFRESH_LOBBY_copy a b : wf a → wf b → wf (CopyFrom a b) ∧ strip (CopyFrom a b) = strip b.
Proof.
  intros Ha Hb. unfold CopyFrom. rewrite S_REFRESH_LOBBY_clear by done.
  unfold wf, strip, MergeImpl, new in *. proto_copy.
Qed.

Lemma S_REFRESH_LOBBY_parse_roomnames m l : let m' := foldl parse_field m ((λ s, (2, WBytes s)) <$> l) in
  issuccess m' = issuccess m ∧ roomnames m' = roomnames m ++ l ∧ usercounts m' = usercounts m.
Proof. proto_repeated l. Qed.

Lemma S_REFRESH_LOBBY_parse_usercounts m l : let m' := foldl (λ m z, add_usercounts z m) m l in
  issuccess m' = issuccess m ∧ roomnames m' = roomnames m ∧ usercounts m' = usercounts m ++ l.
Proof. proto_repeated l. Qed.

Lemma S_REFRESH_LOBBY_parse m : small m → strip (foldl parse_field new (fields m)) = strip m.
Proof.
  intros [_ [Hc _]]. destruct m as [hb x0 x1 x2]. unfold strip, fields.
  cbn [issuccess roomnames usercounts] in *. rewrite !foldl_app.
  set (m0 := foldl parse_field new (if x0 then _ else _)).
  assert (issuccess m0 = x0 ∧ roomnames m0 = [] ∧ usercounts m0 = []) as (E1 & E2 & E3)
    by (subst m0; by destruct x0).
  destruct (S_REFRESH_LOBBY_parse_roomnames m0 x1) as (A1 & A2 & A3).
  set (m1 := foldl parse_field m0 _) in *. clearbody m0 m1.
  destruct x2 as [|z x2]; [simpl; by rewrite A1, A2, A3, E1, E2, E3|].
  cbn [negb empty foldl parse_field]. rewrite read_packed_packed by (done || apply packed_count).
  cbn [default]. destruct (S_REFRESH_LOBBY_parse_usercounts m1 (z :: x2)) as (B1 & B2 & B3).
  unfold Datatypes.id. rewrite B1, B2, B3, A1, A2, A3, E1, E2, E3. done.
Qed.

End S_REFRESH_LOBBY.

(** ** C_CREATE_ROOM *)

Module C_CREATE_ROOM.

Record t : Type := mk {
  has_bits : Z;
  id : list byte;
  roomname : list byte
}.

Definition new : t := mk 0 [] [].

Definition set_id (v : list byte) (m : t) : t :=
  mk (Z.lor (has_bits m) 1) v (roomname m).
Definition set_roomname (v : list byte) (m : t) : t :=
  mk (Z.lor (has_bits m) 2) (id m) v.

Definition Clear (m : t) : t :=
  let c := has_bits m in
  mk 0
    (if CheckHasBit c 1 then [] else id m)
    (if CheckHasBit c 2 then [] else roomname m).

Definition InternalSerialize (m : t) : list byte :=
  let c := has_bits m in
  (if CheckHasBit c 1 && negb (empty (id m)) then WriteString 1 (id m) else []) ++
  (if CheckHasBit c 2 && negb (empty (roomname m)) then WriteString 2 (roomname m) else []).

Definition ByteSizeLong (m : t) : Z :=
  let c := has_bits m in
  if CheckHasBit c 3 then
    (if CheckHasBit c 1 && negb (empty (id m)) then 1 + StringSize (id m) else 0) +
    (if CheckHasBit c 2 && negb (empty (roomname m)) then 1 + StringSize (roomname m) else 0)
  else 0.

Definition MergeImpl (to from : t) : t :=
  let c := has_bits from in
  mk (Z.lor (has_bits to) c)
    (if CheckHasBit c 3 && CheckHasBit c 1 && negb (empty (id from)) then id from else id to)
    (if CheckHasBit c 3 && CheckHasBit c 2 && negb (empty (roomname from)) then roomname from else roomname to).

Definition CopyFrom (to from : t) : t := MergeImpl (Clear to) from.

Definition parse_field (m : t) (f : Z * wval) : t :=
  match f with
  | (1, WBytes s) => set_id s m
  | (2, WBytes s) => set_roomname s m
  | _ => m
  end.

(** The fields the table accepts. *)
Definition known (f : Z * wval) : bool :=
  match f with
  | (1, WBytes s) => utf8_valid s
  | (2, WBytes s) => utf8_valid s
  | _ => false
  end.

(** [CheckHasBitConsistency]. *)
Definition wf (m : t) : Prop :=
  (id m ≠ [] → CheckHasBit (has_bits m) 1 = true) ∧
  (roomname m ≠ [] → CheckHasBit (has_bits m) 2 = true).

Definition small (m : t) : Prop :=
  zlen (id m) < 2 ^ 31 ∧ zlen (roomname m) < 2 ^ 31.

Definition utf8 (m : t) : Prop :=
  utf8_valid (id m) = true ∧ utf8_valid (roomname m) = true.

(** The message without its presence bits. *)
Definition strip (m : t) : t := mk 0 (id m) (roomname m).

Definition fields (m : t) : list (Z * wval) :=
  (if negb (empty (id m)) then [(1, WBytes (id m))] else []) ++
  (if negb (empty (roomname m)) then [(2, WBytes (roomname m))] else []).

Lemma C_CREATE_ROOM_size m : small m → zlen (InternalSerialize m) = ByteSizeLong m.
Proof. unfold InternalSerialize, ByteSizeLong, small. proto_size. Qed.

Lemma C_CREATE_ROOM_clear m : wf m → Clear m = new.
Proof. unfold wf, Clear. proto_clear. Qed.

Lemma C_CREATE_ROOM_fields m : wf m → InternalSerialize m = concat (enc <$> fields m).
Proof. unfold wf, InternalSerialize, fields. proto_fields. Qed.

Lemma C_CREATE_ROOM_wf_fields m : small m → Forall wf_field (fields m).
Proof. unfold small, fields. proto_wf_fields. Qed.

Lemma C_CREATE_ROOM_known m : small m → utf8 m → Forall (λ f, known f = true) (fields m).
Proof. unfold small, utf8, fields. proto_known. Qed.

Lemma C_CREATE_ROOM_copy a b : wf a → wf b → wf (CopyFrom a b) ∧ strip (CopyFrom a b) = strip b.
Proof.
  intros Ha Hb. unfold CopyFrom. rewrite C_CREATE_ROOM_clear by done.
  unfold wf, strip, MergeImpl, new in *. proto_copy.
Qed.

Lemma C_CREATE_ROOM_parse m : small m → strip (foldl parse_field new (fields m)) = strip m.
Proof.
  intros _. destruct m as [hb x0 x1]. destruct x0; destruct x1; reflexivity.
Qed.

End C_CREATE_ROOM.

(** ** S_CREATE_ROOM *)

Module S_CREATE_ROOM.

Record t : Type := mk {
  has_bits : Z;
  issuccess : bool;
  roomname : list byte
}.

Definition new : t := mk 0 false [].

Definition set_issuccess (v : bool) (m : t) : t :=
  mk (Z.lor (has_bits m) 2) v (roomname m).
Definition set_roomname (v : list byte) (m : t) : t :=
  mk (Z.lor (has_bits m) 1) (issuccess m) v.

Definition Clear (m : t) : t :=
  let c := has_bits m in
  mk 0
    false
    (if CheckHasBit c 1 then [] else roomname m).

Definition InternalSerialize (m : t) : list byte :=
  let c := has_bits m in
  (if CheckHasBit c 2 && issuccess m then WriteBool 1 (issuccess m) else []) ++
  (if CheckHasBit c 1 && negb (empty (roomname m)) then WriteString 2 (roomname m) else []).

Definition ByteSizeLong (m : t) : Z :=
  let c := has_bits m in
  if CheckHasBit c 3 then
    (if CheckHasBit c 1 && negb (empty (roomname m)) then 1 + StringSize (roomname m) else 0) +
    (if CheckHasBit c 2 && issuccess m then 2 else 0)
  else 0.

Definition MergeImpl (to from : t) : t :=
  let c := has_bits from in
  mk (Z.lor (has_bits to) c)
    (if CheckHasBit c 3 && CheckHasBit c 2 && issuccess from then issuccess from else issuccess to)
    (if CheckHasBit c 3 && CheckHasBit c 1 && negb (empty (roomname from)) then roomname from else roomname to).

Definition CopyFrom (to from : t) : t := MergeImpl (Clear to) from.

Definition parse_field (m : t) (f : Z * wval) : t :=
  match f with
  | (1, WVarint z) => set_issuccess (negb (z =? 0)) m
  | (2, WBytes s) => set_roomname s m
  | _ => m
  end.

(** The fields the table accepts. *)
Definition known (f : Z * wval) : bool :=
  match f with
  | (1, WVarint _) => true
  | (2, WBytes s) => utf8_valid s
  | _ => false
  end.

(** [CheckHasBitConsistency]. *)
Definition wf (m : t) : Prop :=
  (issuccess m = true → CheckHasBit (has_bits m) 2 = true) ∧
  (roomname m ≠ [] → CheckHasBit (has_bits m) 1 = true).

Definition small (m : t) : Prop :=
  zlen (roomname m) < 2 ^ 31.

Definition utf8 (m : t) : Prop :=
  utf8_valid (roomname m) = true.

(** The message without its presence bits. *)
Definition strip (m : t) : t := mk 0 (issuccess m) (roomname m).

Definition fields (m : t) : list (Z * wval) :=
  (if issuccess m then [(1, WVarint 1)] else []) ++
  (if negb (empty (roomname m)) then [(2, WBytes (roomname m))] else []).

Lemma S_CREATE_ROOM_size m : small m → zlen (InternalSerialize m) = ByteSizeLong m.
Proof. unfold InternalSerialize, ByteSizeLong, small. proto_size. Qed.

Lemma S_CREATE_ROOM_clear m : wf m → Clear m = new.
Proof. unfold wf, Clear. proto_clear. Qed.

Lemma S_CREATE_ROOM_fields m : wf m → InternalSerialize m = concat (enc <$> fields m).
Proof. unfold wf, InternalSerialize, fields. proto_fields. Qed.

Lemma S_CREATE_ROOM_wf_fields m : small m → Forall wf_field (fields m).
Proof. unfold small, fields. proto_wf_fields. Qed.

Lemma S_CREATE_ROOM_known m : small m → utf8 m → Forall (λ f, known f = true) (fields m).
Proof. unfold small, utf8, fields. proto_known. Qed.

Lemma S_CREATE_ROOM_copy a b : wf a → wf b → wf (CopyFrom a b) ∧ strip (CopyFrom a b) = strip b.
Proof.
  intros Ha Hb. unfold CopyFrom. rewrite S_CREATE_ROOM_clear by done.
  unfold wf, strip, MergeImpl, new in *. proto_copy.
Qed.

Lemma S_CREATE_ROOM_parse m : small m → strip (foldl parse_field new (fields m)) = strip m.
Proof.
  intros _. destruct m as [hb x0 x1]. destruct x0; destruct x1; reflexivity.
Qed.

End S_CREATE_ROOM.

(** ** C_JOIN_ROOM *)

Module C_JOIN_ROOM.

Record t : Type := mk {
  has_bits : Z;
  id : list byte;
  roomname : list byte
}.

Definition new : t := mk 0 [] [].

Definition set_id (v : list byte) (m : t) : t :=
  mk (Z.lor (has_bits m) 1) v (roomname m).
Definition set_roomname (v : list byte) (m : t) : t :=
  mk (Z.lor (has_bits m) 2) (id m) v.

Definition Clear (m : t) : t :=
  let c := has_bits m in
  mk 0
    (if CheckHasBit c 1 then [] else id m)
    (if CheckHasBit c 2 then [] else roomname m).

Definition InternalSerialize (m : t) : list byte :=
  let c := has_bits m in
  (if CheckHasBit c 1 && negb (empty (id m)) then WriteString 1 (id m) else []) ++
  (if CheckHasBit c 2 && negb (empty (roomname m)) then WriteString 2 (roomname m) else []).

Definition ByteSizeLong (m : t) : Z :=
  let c := has_bits m in
  if CheckHasBit c 3 then
    (if CheckHasBit c 1 && negb (empty (id m)) then 1 + StringSize (id m) else 0) +
    (if CheckHasBit c 2 && negb (empty (roomname m)) then 1 + StringSize (roomname m) else 0)
  else 0.

Definition MergeImpl (to from : t) : t :=
  let c := has_bits from in
  mk (Z.lor (has_bits to) c)
    (if CheckHasBit c 3 && CheckHasBit c 1 && negb (empty (id from)) then id from else id to)
    (if CheckHasBit c 3 && CheckHasBit c 2 && negb (empty (roomname from)) then roomname from else roomname to).

Definition CopyFrom (to from : t) : t := MergeImpl (Clear to) from.

Definition parse_field (m : t) (f : Z * wval) : t :=
  match f with
  | (1, WBytes s) => set_id s m
  | (2, WBytes s) => set_roomname s m
  | _ => m
  end.

(** The fields the table accepts. *)
Definition known (f : Z * wval) : bool :=
  match f with
  | (1, WBytes s) => utf8_valid s
  | (2, WBytes s) => utf8_valid s
  | _ => false
  end.

(** [CheckHasBitConsistency]. *)
Definition wf (m : t) : Prop :=
  (id m ≠ [] → CheckHasBit (has_bits m) 1 = true) ∧
  (roomname m ≠ [] → CheckHasBit (has_bits m) 2 = true).

Definition small (m : t) : Prop :=
  zlen (id m) < 2 ^ 31 ∧ zlen (roomname m) < 2 ^ 31.

Definition utf8 (m : t) : Prop :=
  utf8_valid (id m) = true ∧ utf8_valid (roomname m) = true.

(** The message without its presence bits. *)
Definition strip (m : t) : t := mk 0 (id m) (roomname m).

Definition fields (m : t) : list (Z * wval) :=
  (if negb (empty (id m)) then [(1, WBytes (id m))] else []) ++
  (if negb (empty (roomname m)) then [(2, WBytes (roomname m))] else []).

Lemma C_JOIN_ROOM_size m : small m → zlen (InternalSerialize m) = ByteSizeLong m.
Proof. unfold InternalSerialize, ByteSizeLong, small. proto_size. Qed.

Lemma C_JOIN_ROOM_clear m : wf m → Clear m = new.
Proof. unfold wf, Clear. proto_clear. Qed.

Lemma C_JOIN_ROOM_fields m : wf m → InternalSerialize m = concat (enc <$> fields m).
Proof. unfold wf, InternalSerialize, fields. proto_fields. Qed.

Lemma C_JOIN_ROOM_wf_fields m : small m → Forall wf_field (fields m).
Proof. unfold small, fields. proto_wf_fields. Qed.

Lemma C_JOIN_ROOM_known m : small m → utf8 m → Forall (λ f, known f = true) (fields m).
Proof. unfold small, utf8, fields. proto_known. Qed.

Lemma C_JOIN_ROOM_copy a b : wf a → wf b → wf (CopyFrom a b) ∧ strip (CopyFrom a b) = strip b.
Proof.
  intros Ha Hb. unfold CopyFrom. rewrite C_JOIN_ROOM_clear by done.
  unfold wf, strip, MergeImpl, new in *. proto_copy.
Qed.

Lemma C_JOIN_ROOM_parse m : small m → strip (foldl parse_field new (fields m)) = strip m.
Proof.
  intros _. destruct m as [hb x0 x1]. destruct x0; destruct x1; reflexivity.
Qed.

End C_JOIN_ROOM.

(** ** S_JOIN_ROOM *)

Module S_JOIN_ROOM.

Record t : Type := mk {
  has_bits : Z;
  issuccess : bool;
  roomname : list byte;
  userids : list (list byte)
}.

Definition new : t := mk 0 false [] [].

Definition set_issuccess (v : bool) (m : t) : t :=
  mk (Z.lor (has_bits m) 4) v (roomname m) (userids m).
Definition set_roomname (v : list byte) (m : t) : t :=
  mk (Z.lor (has_bits m) 2) (issuccess m) v (userids m).
Definition add_userids (v : list byte) (m : t) : t :=
  mk (Z.lor (has_bits m) 1) (issuccess m) (roomname m) (userids m ++ [v]).

Definition Clear (m : t) : t :=
  let c := has_bits m in
  mk 0
    false
    (if CheckHasBit c 2 then [] else roomname m)
    (if CheckHasBit c 1 then [] else userids m).

Definition InternalSerialize (m : t) : list byte :=
  let c := has_bits m in
  (if CheckHasBit c 4 && issuccess m then WriteBool 1 (issuccess m) else []) ++
  (if CheckHasBit c 2 && negb (empty (roomname m)) then WriteString 2 (roomname m) else []) ++
  (if CheckHasBit c 1 then concat (WriteString 3 <$> userids m) else []).

Definition ByteSizeLong (m : t) : Z :=
  let c := has_bits m in
  if CheckHasBit c 7 then
    (if CheckHasBit c 1 then zlen (userids m) + foldr Z.add 0 (StringSize <$> userids m) else 0) +
    (if CheckHasBit c 2 && negb (empty (roomname m)) then 1 + StringSize (roomname m) else 0) +
    (if CheckHasBit c 4 && issuccess m then 2 else 0)
  else 0.

Definition MergeImpl (to from : t) : t :=
  let c := has_bits from in
  mk (Z.lor (has_bits to) c)
    (if CheckHasBit c 7 && CheckHasBit c 4 && issuccess from then issuccess from else issuccess to)
    (if CheckHasBit c 7 && CheckHasBit c 2 && negb (empty (roomname from)) then roomname from else roomname to)
    (if CheckHasBit c 7 && CheckHasBit c 1 then userids to ++ userids from else userids to).

Definition CopyFrom (to from : t) : t := MergeImpl (Clear to) from.

Definition parse_field (m : t) (f : Z * wval) : t :=
  match f with
  | (1, WVarint z) => set_issuccess (negb (z =? 0)) m
  | (2, WBytes s) => set_roomname s m
  | (3, WBytes s) => add_userids s m
  | _ => m
  end.

(** The fields the table accepts. *)
Definition known (f : Z * wval) : bool :=
  match f with
  | (1, WVarint _) => true
  | (2, WBytes s) => utf8_valid s
  | (3, WBytes s) => utf8_valid s
  | _ => false
  end.

(** [CheckHasBitConsistency]. *)
Definition wf (m : t) : Prop :=
  (issuccess m = true → CheckHasBit (has_bits m) 4 = true) ∧
  (roomname m ≠ [] → CheckHasBit (has_bits m) 2 = true) ∧
  (userids m ≠ [] → CheckHasBit (has_bits m) 1 = true).

Definition small (m : t) : Prop :=
  zlen (roomname m) < 2 ^ 31 ∧ Forall (λ s, zlen s < 2 ^ 31) (userids m).

Definition utf8 (m : t) : Prop :=
  utf8_valid (roomname m) = true ∧ Forall (λ s, utf8_valid s = true) (userids m).

(** The message without its presence bits. *)
Definition strip (m : t) : t := mk 0 (issuccess m) (roomname m) (userids m).

Definition fields (m : t) : list (Z * wval) :=
  (if issuccess m then [(1, WVarint 1)] else []) ++
  (if negb (empty (roomname m)) then [(2, WBytes (roomname m))] else []) ++
  ((λ s, (3, WBytes s)) <$> userids m).

Lemma S_JOIN_ROOM_size m : small m → zlen (InternalSerialize m) = ByteSizeLong m.
Proof. unfold InternalSerialize, ByteSizeLong, small. proto_size. Qed.

Lemma S_JOIN_ROOM_clear m : wf m → Clear m = new.
Proof. unfold wf, Clear. proto_clear. Qed.

Lemma S_JOIN_ROOM_fields m : wf m → InternalSerialize m = concat (enc <$> fields m).
Proof. unfold wf, InternalSerialize, fields. proto_fields. Qed.

Lemma S_JOIN_ROOM_wf_fields m : small m → Forall wf_field (fields m).
Proof. unfold small, fields. proto_wf_fields. Qed.

Lemma S_JOIN_ROOM_known m : small m → utf8 m → Forall (λ f, known f = true) (fields m).
Proof. unfold small, utf8, fields. proto_known. Qed.

Lemma S_JOIN_ROOM_copy a b : wf a → wf b → wf (CopyFrom a b) ∧ strip (CopyFrom a b) = strip b.
Proof.
  intros Ha Hb. unfold CopyFrom. rewrite S_JOIN_ROOM_clear by done.
  unfold wf, strip, MergeImpl, new in *. proto_copy.
Qed.

Lemma S_JOIN_ROOM_parse_userids m l : let m' := foldl parse_field m ((λ s, (3, WBytes s)) <$> l) in
  issuccess m' = issuccess m ∧ roomname m' = roomname m ∧ userids m' = userids m ++ l.
Proof. proto_repeated l. Qed.

Lemma S_JOIN_ROOM_parse m : small m → strip (foldl parse_field new (fields m)) = strip m.
Proof.
  intros _. destruct m as [hb x0 x1 x2]. unfold strip, fields. simpl. rewrite ?foldl_app.
  destruct x0; destruct x1; simpl; 
    match goal with |- context [foldl parse_field ?m (_ <$> ?l)] =>
      pose proof (S_JOIN_ROOM_parse_userids m l) as Hl end; simpl in Hl; destruct_and?; congruence.
Qed.

End S_JOIN_ROOM.

(** ** S_REFRESH_ROOM *)

Module S_REFRESH_ROOM.

Record t : Type := mk {
  has_bits : Z;
  userids : list (list byte)
}.

Definition new : t := mk 0 [].

Definition add_userids (v : list byte) (m : t) : t :=
  mk (Z.lor (has_bits m) 1) (userids m ++ [v]).

Definition Clear (m : t) : t :=
  let c := has_bits m in
  mk 0
    (if CheckHasBit c 1 then [] else userids m).

Definition InternalSerialize (m : t) : list byte :=
  let c := has_bits m in
  (if CheckHasBit c 1 then concat (WriteString 1 <$> userids m) else []).

Definition ByteSizeLong (m : t) : Z :=
  let c := has_bits m in
    (if CheckHasBit c 1 then zlen (userids m) + foldr Z.add 0 (StringSize <$> userids m) else 0).

Definition MergeImpl (to from : t) : t :=
  let c := has_bits from in
  mk (Z.lor (has_bits to) c)
    (if CheckHasBit c 1 then userids to ++ userids from else userids to).

Definition CopyFrom (to from : t) : t := MergeImpl (Clear to) from.

Definition parse_field (m : t) (f : Z * wval) : t :=
  match f with
  | (1, WBytes s) => add_userids s m
  | _ => m
  end.

(** The fields the table accepts. *)
Definition known (f : Z * wval) : bool :=
  match f with
  | (1, WBytes s) => utf8_valid s
  | _ => false
  end.

(** [CheckHasBitConsistency]. *)
Definition wf (m : t) : Prop :=
  (userids m ≠ [] → CheckHasBit (has_bits m) 1 = true).

Definition small (m : t) : Prop :=
  Forall (λ s, zlen s < 2 ^ 31) (userids m).

Definition utf8 (m : t) : Prop :=
  Forall (λ s, utf8_valid s = true) (userids m).

(** The message without its presence bits. *)
Definition strip (m : t) : t := mk 0 (userids m).

Definition fields (m : t) : list (Z * wval) :=
  ((λ s, (1, WBytes s)) <$> userids m).

Lemma S_REFRESH_ROOM_size m : small m → zlen (InternalSerialize m) = ByteSizeLong m.
Proof. unfold InternalSerialize, ByteSizeLong, small. proto_size. Qed.

Lemma S_REFRESH_ROOM_clear m : wf m → Clear m = new.
Proof. unfold wf, Clear. proto_clear. Qed.

Lemma S_REFRESH_ROOM_fields m : wf m → InternalSerialize m = concat (enc <$> fields m).
Proof. unfold wf, InternalSerialize, fields. proto_fields. Qed.

Lemma S_REFRESH_ROOM_wf_fields m : small m → Forall wf_field (fields m).
Proof. unfold small, fields. proto_wf_fields. Qed.

Lemma S_REFRESH_ROOM_known m : small m → utf8 m → Forall (λ f, known f = true) (fields m).
Proof. unfold small, utf8, fields. proto_known. Qed.

Lemma S_REFRESH_ROOM_copy a b : wf a → wf b → wf (CopyFrom a b) ∧ strip (CopyFrom a b) = strip b.
Proof.
  intros Ha Hb. unfold CopyFrom. rewrite S_REFRESH_ROOM_clear by done.
  unfold wf, strip, MergeImpl, new in *. proto_copy.
Qed.

Lemma S_REFRESH_ROOM_parse_userids m l : let m' := foldl parse_field m ((λ s, (1, WBytes s)) <$> l) in
  userids m' = userids m ++ l.
Proof. proto_repeated l. Qed.

Lemma S_REFRESH_ROOM_parse m : small m → strip (foldl parse_field new (fields m)) = strip m.
Proof.
  intros _. destruct m as [hb x0]. unfold strip, fields. simpl. rewrite ?foldl_app.
  
    match goal with |- context [foldl parse_field ?m (_ <$> ?l)] =>
      pose proof (S_REFRESH_ROOM_parse_userids m l) as Hl end; simpl in Hl; destruct_and?; congruence.
Qed.

End S_REFRESH_ROOM.

(** ** C_CHAT_LOG *)

Module C_CHAT_LOG.

Record t : Type := mk {
  has_bits : Z;
  id : list byte;
  roomname : list byte;
  log : list byte
}.

Definition new : t := mk 0 [] [] [].

Definition set_id (v : list byte) (m : t) : t :=
  mk (Z.lor (has_bits m) 1) v (roomname m) (log m).
Definition set_roomname (v : list byte) (m : t) : t :=
  mk (Z.lor (has_bits m) 2) (id m) v (log m).
Definition set_log (v : list byte) (m : t) : t :=
  mk (Z.lor (has_bits m) 4) (id m) (roomname m) v.

Definition Clear (m : t) : t :=
  let c := has_bits m in
  mk 0
    (if CheckHasBit c 1 then [] else id m)
    (if CheckHasBit c 2 then [] else roomname m)
    (if CheckHasBit c 4 then [] else log m).

Definition InternalSerialize (m : t) : list byte :=
  let c := has_bits m in
  (if CheckHasBit c 1 && negb (empty (id m)) then WriteString 1 (id m) else []) ++
  (if CheckHasBit c 2 && negb (empty (roomname m)) then WriteString 2 (roomname m) else []) ++
  (if CheckHasBit c 4 && negb (empty (log m)) then WriteString 3 (log m) else []).

Definition ByteSizeLong (m : t) : Z :=
  let c := has_bits m in
  if CheckHasBit c 7 then
    (if CheckHasBit c 1 && negb (empty (id m)) then 1 + StringSize (id m) else 0) +
    (if CheckHasBit c 2 && negb (empty (roomname m)) then 1 + StringSize (roomname m) else 0) +
    (if CheckHasBit c 4 && negb (empty (log m)) then 1 + StringSize (log m) else 0)
  else 0.

Definition MergeImpl (to from : t) : t :=
  let c := has_bits from in
  mk (Z.lor (has_bits to) c)
    (if CheckHasBit c 7 && CheckHasBit c 1 && negb (empty (id from)) then id from else id to)
    (if CheckHasBit c 7 && CheckHasBit c 2 && negb (empty (roomname from)) then roomname from else roomname to)
    (if CheckHasBit c 7 && CheckHasBit c 4 && negb (empty (log from)) then log from else log to).

Definition CopyFrom (to from : t) : t := MergeImpl (Clear to) from.

Definition parse_field (m : t) (f : Z * wval) : t :=
  match f with
  | (1, WBytes s) => set_id s m
  | (2, WBytes s) => set_roomname s m
  | (3, WBytes s) => set_log s m
  | _ => m
  end.

(** The fields the table accepts. *)
Definition known (f : Z * wval) : bool :=
  match f with
  | (1, WBytes s) => utf8_valid s
  | (2, WBytes s) => utf8_valid s
  | (3, WBytes s) => utf8_valid s
  | _ => false
  end.

(** [CheckHasBitConsistency]. *)
Definition wf (m : t) : Prop :=
  (id m ≠ [] → CheckHasBit (has_bits m) 1 = true) ∧
  (roomname m ≠ [] → CheckHasBit (has_bits m) 2 = true) ∧
  (log m ≠ [] → CheckHasBit (has_bits m) 4 = true).

Definition small (m : t) : Prop :=
  zlen (id m) < 2 ^ 31 ∧ zlen (roomname m) < 2 ^ 31 ∧ zlen (log m) < 2 ^ 31.

Definition utf8 (m : t) : Prop :=
  utf8_valid (id m) = true ∧ utf8_valid (roomname m) = true ∧ utf8_valid (log m) = true.

(** The message without its presence bits. *)
Definition strip (m : t) : t := mk 0 (id m) (roomname m) (log m).

Definition fields (m : t) : list (Z * wval) :=
  (if negb (empty (id m)) then [(1, WBytes (id m))] else []) ++
  (if negb (empty (roomname m)) then [(2, WBytes (roomname m))] else []) ++
  (if negb (empty (log m)) then [(3, WBytes (log m))] else []).

Lemma C_CHAT_LOG_size m : small m → zlen (InternalSerialize m) = ByteSizeLong m.
Proof. unfold InternalSerialize, ByteSizeLong, small. proto_size. Qed.

Lemma C_CHAT_LOG_clear m : wf m → Clear m = new.
Proof. unfold wf, Clear. proto_clear. Qed.

Lemma C_CHAT_LOG_fields m : wf m → InternalSerialize m = concat (enc <$> fields m).
Proof. unfold wf, InternalSerialize, fields. proto_fields. Qed.

Lemma C_CHAT_LOG_wf_fields m : small m → Forall wf_field (fields m).
Proof. unfold small, fields. proto_wf_fields. Qed.

Lemma C_CHAT_LOG_known m : small m → utf8 m → Forall (λ f, known f = true) (fields m).
Proof. unfold small, utf8, fields. proto_known. Qed.

Lemma C_CHAT_LOG_copy a b : wf a → wf b → wf (CopyFrom a b) ∧ strip (CopyFrom a b) = strip b.
Proof.
  intros Ha Hb. unfold CopyFrom. rewrite C_CHAT_LOG_clear by done.
  unfold wf, strip, MergeImpl, new in *. proto_copy.
Qed.

Lemma C_CHAT_LOG_parse m : small m → strip (foldl parse_field new (fields m)) = strip m.
Proof.
  intros _. destruct m as [hb x0 x1 x2]. destruct x0; destruct x1; destruct x2; reflexivity.
Qed.

End C_CHAT_LOG.

(** ** S_CHAT_LOG *)

Module S_CHAT_LOG.

Record t : Type := mk {
  has_bits : Z;
  id : list byte;
  log : list byte
}.

Definition new : t := mk 0 [] [].

Definition set_id (v : list byte) (m : t) : t :=
  mk (Z.lor (has_bits m) 1) v (log m).
Definition set_log (v : list byte) (m : t) : t :=
  mk (Z.lor (has_bits m) 2) (id m) v.

Definition Clear (m : t) : t :=
  let c := has_bits m in
  mk 0
    (if CheckHasBit c 1 then [] else id m)
    (if CheckHasBit c 2 then [] else log m).

Definition InternalSerialize (m : t) : list byte :=
  let c := has_bits m in
  (if CheckHasBit c 1 && negb (empty (id m)) then WriteString 1 (id m) else []) ++
  (if CheckHasBit c 2 && negb (empty (log m)) then WriteString 2 (log m) else []).

Definition ByteSizeLong (m : t) : Z :=
  let c := has_bits m in
  if CheckHasBit c 3 then
    (if CheckHasBit c 1 && negb (empty (id m)) then 1 + StringSize (id m) else 0) +
    (if CheckHasBit c 2 && negb (empty (log m)) then 1 + StringSize (log m) else 0)
  else 0.

Definition MergeImpl (to from : t) : t :=
  let c := has_bits from in
  mk (Z.lor (has_bits to) c)
    (if CheckHasBit c 3 && CheckHasBit c 1 && negb (empty (id from)) then id from else id to)
    (if CheckHasBit c 3 && CheckHasBit c 2 && negb (empty (log from)) then log from else log to).

Definition CopyFrom (to from : t) : t := MergeImpl (Clear to) from.

Definition parse_field (m : t) (f : Z * wval) : t :=
  match f with
  | (1, WBytes s) => set_id s m
  | (2, WBytes s) => set_log s m
  | _ => m
  end.

(** The fields the table accepts. *)
Definition known (f : Z * wval) : bool :=
  match f with
  | (1, WBytes s) => utf8_valid s
  | (2, WBytes s) => utf8_valid s
  | _ => false
  end.

(** [CheckHasBitConsistency]. *)
Definition wf (m : t) : Prop :=
  (id m ≠ [] → CheckHasBit (has_bits m) 1 = true) ∧
  (log m ≠ [] → CheckHasBit (has_bits m) 2 = true).

Definition small (m : t) : Prop :=
  zlen (id m) < 2 ^ 31 ∧ zlen (log m) < 2 ^ 31.

Definition utf8 (m : t) : Prop :=
  utf8_valid (id m) = true ∧ utf8_valid (log m) = true.

(** The message without its presence bits. *)
Definition strip (m : t) : t := mk 0 (id m) (log m).

Definition fields (m : t) : list (Z * wval) :=
  (if negb (empty (id m)) then [(1, WBytes (id m))] else []) ++
  (if negb (empty (log m)) then [(2, WBytes (log m))] else []).

Lemma S_CHAT_LOG_size m : small m → zlen (InternalSerialize m) = ByteSizeLong m.
Proof. unfold InternalSerialize, ByteSizeLong, small. proto_size. Qed.

Lemma S_CHAT_LOG_clear m : wf m → Clear m = new.
Proof. unfold wf, Clear. proto_clear. Qed.

Lemma S_CHAT_LOG_fields m : wf m → InternalSerialize m = concat (enc <$> fields m).
Proof. unfold wf, InternalSerialize, fields. proto_fields. Qed.

Lemma S_CHAT_LOG_wf_fields m : small m → Forall wf_field (fields m).
Proof. unfold small, fields. proto_wf_fields. Qed.

Lemma S_CHAT_LOG_known m : small m → utf8 m → Forall (λ f, known f = true) (fields m).
Proof. unfold small, utf8, fields. proto_known. Qed.

Lemma S_CHAT_LOG_copy a b : wf a → wf b → wf (CopyFrom a b) ∧ strip (CopyFrom a b) = strip b.
Proof.
  intros Ha Hb. unfold CopyFrom. rewrite S_CHAT_LOG_clear by done.
  unfold wf, strip, MergeImpl, new in *. proto_copy.
Qed.

Lemma S_CHAT_LOG_parse m : small m → strip (foldl parse_field new (fields m)) = strip m.
Proof.
  intros _. destruct m as [hb x0 x1]. destruct x0; destruct x1; reflexivity.
Qed.

End S_CHAT_LOG.

(** ** C_ROOM_OUT *)

Module C_ROOM_OUT.

Record t : Type := mk {
  has_bits : Z;
  id : list byte;
  roomname : list byte
}.

Definition new : t := mk 0 [] [].

Definition set_id (v : list byte) (m : t) : t :=
  mk (Z.lor (has_bits m) 1) v (roomname m).
Definition set_roomname (v : list byte) (m : t) : t :=
  mk (Z.lor (has_bits m) 2) (id m) v.

Definition Clear (m : t) : t :=
  let c := has_bits m in
  mk 0
    (if CheckHasBit c 1 then [] else id m)
    (if CheckHasBit c 2 then [] else roomname m).

Definition InternalSerialize (m : t) : list byte :=
  let c := has_bits m in
  (if CheckHasBit c 1 && negb (empty (id m)) then WriteString 1 (id m) else []) ++
  (if CheckHasBit c 2 && negb (empty (roomname m)) then WriteString 2 (roomname m) else []).

Definition ByteSizeLong (m : t) : Z :=
  let c := has_bits m in
  if CheckHasBit c 3 then
    (if CheckHasBit c 1 && negb (empty (id m)) then 1 + StringSize (id m) else 0) +
    (if CheckHasBit c 2 && negb (empty (roomname m)) then 1 + StringSize (roomname m) else 0)
  else 0.

Definition MergeImpl (to from : t) : t :=
  let c := has_bits from in
  mk (Z.lor (has_bits to) c)
    (if CheckHasBit c 3 && CheckHasBit c 1 && negb (empty (id from)) then id from else id to)
    (if CheckHasBit c 3 && CheckHasBit c 2 && negb (empty (roomname from)) then roomname from else roomname to).

Definition CopyFrom (to from : t) : t := MergeImpl (Clear to) from.

Definition parse_field (m : t) (f : Z * wval) : t :=
  match f with
  | (1, WBytes s) => set_id s m
  | (2, WBytes s) => set_roomname s m
  | _ => m
  end.

(** The fields the table accepts. *)
Definition known (f : Z * wval) : bool :=
  match f with
  | (1, WBytes s) => utf8_valid s
  | (2, WBytes s) => utf8_valid s
  | _ => false
  end.

(** [CheckHasBitConsistency]. *)
Definition wf (m : t) : Prop :=
  (id m ≠ [] → CheckHasBit (has_bits m) 1 = true) ∧
  (roomname m ≠ [] → CheckHasBit (has_bits m) 2 = true).

Definition small (m : t) : Prop :=
  zlen (id m) < 2 ^ 31 ∧ zlen (roomname m) < 2 ^ 31.

Definition utf8 (m : t) : Prop :=
  utf8_valid (id m) = true ∧ utf8_valid (roomname m) = true.

(** The message without its presence bits. *)
Definition strip (m : t) : t := mk 0 (id m) (roomname m).

Definition fields (m : t) : list (Z * wval) :=
  (if negb (empty (id m)) then [(1, WBytes (id m))] else []) ++
  (if negb (empty (roomname m)) then [(2, WBytes (roomname m))] else []).

Lemma C_ROOM_OUT_size m : small m → zlen (InternalSerialize m) = ByteSizeLong m.
Proof. unfold InternalSerialize, ByteSizeLong, small. proto_size. Qed.

Lemma C_ROOM_OUT_clear m : wf m → Clear m = new.
Proof. unfold wf, Clear. proto_clear. Qed.

Lemma C_ROOM_OUT_fields m : wf m → InternalSerialize m = concat (enc <$> fields m).
Proof. unfold wf, InternalSerialize, fields. proto_fields. Qed.

Lemma C_ROOM_OUT_wf_fields m : small m → Forall wf_field (fields m).
Proof. unfold small, fields. proto_wf_fields. Qed.

Lemma C_ROOM_OUT_known m : small m → utf8 m → Forall (λ f, known f = true) (fields m).
Proof. unfold small, utf8, fields. proto_known. Qed.

Lemma C_ROOM_OUT_copy a b : wf a → wf b → wf (CopyFrom a b) ∧ strip (CopyFrom a b) = strip b.
Proof.
  intros Ha Hb. unfold CopyFrom. rewrite C_ROOM_OUT_clear by done.
  unfold wf, strip, MergeImpl, new in *. proto_copy.
Qed.

Lemma C_ROOM_OUT_parse m : small m → strip (foldl parse_field new (fields m)) = strip m.
Proof.
  intros _. destruct m as [hb x0 x1]. destruct x0; destruct x1; reflexivity.
Qed.

End C_ROOM_OUT.

(** ** All messages

    [C_REFRESH_LOBBY] and [S_ROOM_OUT] have no fields. *)

Module Msg.

Inductive kind : Type :=
| K_C_LOGIN | K_S_LOGIN | K_C_REGISTER | K_S_REGISTER | K_C_REFRESH_LOBBY | K_S_REFRESH_LOBBY | K_C_CREATE_ROOM | K_S_CREATE_ROOM | K_C_JOIN_ROOM | K_S_JOIN_ROOM | K_S_REFRESH_ROOM | K_C_CHAT_LOG | K_S_CHAT_LOG | K_C_ROOM_OUT | K_S_ROOM_OUT.

Inductive t : Type :=
| C_LOGIN (m : C_LOGIN.t)
| S_LOGIN (m : S_LOGIN.t)
| C_REGISTER (m : C_REGISTER.t)
| S_REGISTER (m : S_REGISTER.t)
| C_REFRESH_LOBBY
| S_REFRESH_LOBBY (m : S_REFRESH_LOBBY.t)
| C_CREATE_ROOM (m : C_CREATE_ROOM.t)
| S_CREATE_ROOM (m : S_CREATE_ROOM.t)
| C_JOIN_ROOM (m : C_JOIN_ROOM.t)
| S_JOIN_ROOM (m : S_JOIN_ROOM.t)
| S_REFRESH_ROOM (m : S_REFRESH_ROOM.t)
| C_CHAT_LOG (m : C_CHAT_LOG.t)
| S_CHAT_LOG (m : S_CHAT_LOG.t)
| C_ROOM_OUT (m : C_ROOM_OUT.t)
| S_ROOM_OUT.

Definition kind_of (p : t) : kind :=
  match p with
  | C_LOGIN m => K_C_LOGIN
  | S_LOGIN m => K_S_LOGIN
  | C_REGISTER m => K_C_REGISTER
  | S_REGISTER m => K_S_REGISTER
  | C_REFRESH_LOBBY => K_C_REFRESH_LOBBY
  | S_REFRESH_LOBBY m => K_S_REFRESH_LOBBY
  | C_CREATE_ROOM m => K_C_CREATE_ROOM
  | S_CREATE_ROOM m => K_S_CREATE_ROOM
  | C_JOIN_ROOM m => K_C_JOIN_ROOM
  | S_JOIN_ROOM m => K_S_JOIN_ROOM
  | S_REFRESH_ROOM m => K_S_REFRESH_ROOM
  | C_CHAT_LOG m => K_C_CHAT_LOG
  | S_CHAT_LOG m => K_S_CHAT_LOG
  | C_ROOM_OUT m => K_C_ROOM_OUT
  | S_ROOM_OUT => K_S_ROOM_OUT
  end.

Definition new (k : kind) : t :=
  match k with
  | K_C_LOGIN => C_LOGIN C_LOGIN.new
  | K_S_LOGIN => S_LOGIN S_LOGIN.new
  | K_C_REGISTER => C_REGISTER C_REGISTER.new
  | K_S_REGISTER => S_REGISTER S_REGISTER.new
  | K_C_REFRESH_LOBBY => C_REFRESH_LOBBY
  | K_S_REFRESH_LOBBY => S_REFRESH_LOBBY S_REFRESH_LOBBY.new
  | K_C_CREATE_ROOM => C_CREATE_ROOM C_CREATE_ROOM.new
  | K_S_CREATE_ROOM => S_CREATE_ROOM S_CREATE_ROOM.new
  | K_C_JOIN_ROOM => C_JOIN_ROOM C_JOIN_ROOM.new
  | K_S_JOIN_ROOM => S_JOIN_ROOM S_JOIN_ROOM.new
  | K_S_REFRESH_ROOM => S_REFRESH_ROOM S_REFRESH_ROOM.new
  | K_C_CHAT_LOG => C_CHAT_LOG C_CHAT_LOG.new
  | K_S_CHAT_LOG => S_CHAT_LOG S_CHAT_LOG.new
  | K_C_ROOM_OUT => C_ROOM_OUT C_ROOM_OUT.new
  | K_S_ROOM_OUT => S_ROOM_OUT
  end.

(** [PKT_*], the packet ids of both packet handlers. *)
Definition pkt_id (k : kind) : Z :=
  match k with
  | K_C_LOGIN => 1000
  | K_S_LOGIN => 1001
  | K_C_REGISTER => 1002
  | K_S_REGISTER => 1003
  | K_C_REFRESH_LOBBY => 1004
  | K_S_REFRESH_LOBBY => 1005
  | K_C_CREATE_ROOM => 1006
  | K_S_CREATE_ROOM => 1007
  | K_C_JOIN_ROOM => 1008
  | K_S_JOIN_ROOM => 1009
  | K_S_REFRESH_ROOM => 1010
  | K_C_CHAT_LOG => 1011
  | K_S_CHAT_LOG => 1012
  | K_C_ROOM_OUT => 1013
  | K_S_ROOM_OUT => 1014
  end.

Definition InternalSerialize (p : t) : list byte :=
  match p with
  | C_LOGIN m => C_LOGIN.InternalSerialize m
  | S_LOGIN m => S_LOGIN.InternalSerialize m
  | C_REGISTER m => C_REGISTER.InternalSerialize m
  | S_REGISTER m => S_REGISTER.InternalSerialize m
  | C_REFRESH_LOBBY => []
  | S_REFRESH_LOBBY m => S_REFRESH_LOBBY.InternalSerialize m
  | C_CREATE_ROOM m => C_CREATE_ROOM.InternalSerialize m
  | S_CREATE_ROOM m => S_CREATE_ROOM.InternalSerialize m
  | C_JOIN_ROOM m => C_JOIN_ROOM.InternalSerialize m
  | S_JOIN_ROOM m => S_JOIN_ROOM.InternalSerialize m
  | S_REFRESH_ROOM m => S_REFRESH_ROOM.InternalSerialize m
  | C_CHAT_LOG m => C_CHAT_LOG.InternalSerialize m
  | S_CHAT_LOG m => S_CHAT_LOG.InternalSerialize m
  | C_ROOM_OUT m => C_ROOM_OUT.InternalSerialize m
  | S_ROOM_OUT => []
  end.

Definition ByteSizeLong (p : t) : Z :=
  match p with
  | C_LOGIN m => C_LOGIN.ByteSizeLong m
  | S_LOGIN m => S_LOGIN.ByteSizeLong m
  | C_REGISTER m => C_REGISTER.ByteSizeLong m
  | S_REGISTER m => S_REGISTER.ByteSizeLong m
  | C_REFRESH_LOBBY => 0
  | S_REFRESH_LOBBY m => S_REFRESH_LOBBY.ByteSizeLong m
  | C_CREATE_ROOM m => C_CREATE_ROOM.ByteSizeLong m
  | S_CREATE_ROOM m => S_CREATE_ROOM.ByteSizeLong m
  | C_JOIN_ROOM m => C_JOIN_ROOM.ByteSizeLong m
  | S_JOIN_ROOM m => S_JOIN_ROOM.ByteSizeLong m
  | S_REFRESH_ROOM m => S_REFRESH_ROOM.ByteSizeLong m
  | C_CHAT_LOG m => C_CHAT_LOG.ByteSizeLong m
  | S_CHAT_LOG m => S_CHAT_LOG.ByteSizeLong m
  | C_ROOM_OUT m => C_ROOM_OUT.ByteSizeLong m
  | S_ROOM_OUT => 0
  end.

Definition Clear (p : t) : t :=
  match p with
  | C_LOGIN m => C_LOGIN (C_LOGIN.Clear m)
  | S_LOGIN m => S_LOGIN (S_LOGIN.Clear m)
  | C_REGISTER m => C_REGISTER (C_REGISTER.Clear m)
  | S_REGISTER m => S_REGISTER (S_REGISTER.Clear m)
  | C_REFRESH_LOBBY => C_REFRESH_LOBBY
  | S_REFRESH_LOBBY m => S_REFRESH_LOBBY (S_REFRESH_LOBBY.Clear m)
  | C_CREATE_ROOM m => C_CREATE_ROOM (C_CREATE_ROOM.Clear m)
  | S_CREATE_ROOM m => S_CREATE_ROOM (S_CREATE_ROOM.Clear m)
  | C_JOIN_ROOM m => C_JOIN_ROOM (C_JOIN_ROOM.Clear m)
  | S_JOIN_ROOM m => S_JOIN_ROOM (S_JOIN_ROOM.Clear m)
  | S_REFRESH_ROOM m => S_REFRESH_ROOM (S_REFRESH_ROOM.Clear m)
  | C_CHAT_LOG m => C_CHAT_LOG (C_CHAT_LOG.Clear m)
  | S_CHAT_LOG m => S_CHAT_LOG (S_CHAT_LOG.Clear m)
  | C_ROOM_OUT m => C_ROOM_OUT (C_ROOM_OUT.Clear m)
  | S_ROOM_OUT => S_ROOM_OUT
  end.

Definition wf (p : t) : Prop :=
  match p with
  | C_LOGIN m => C_LOGIN.wf m
  | S_LOGIN m => S_LOGIN.wf m
  | C_REGISTER m => C_REGISTER.wf m
  | S_REGISTER m => S_REGISTER.wf m
  | C_REFRESH_LOBBY => True
  | S_REFRESH_LOBBY m => S_REFRESH_LOBBY.wf m
  | C_CREATE_ROOM m => C_CREATE_ROOM.wf m
  | S_CREATE_ROOM m => S_CREATE_ROOM.wf m
  | C_JOIN_ROOM m => C_JOIN_ROOM.wf m
  | S_JOIN_ROOM m => S_JOIN_ROOM.wf m
  | S_REFRESH_ROOM m => S_REFRESH_ROOM.wf m
  | C_CHAT_LOG m => C_CHAT_LOG.wf m
  | S_CHAT_LOG m => S_CHAT_LOG.wf m
  | C_ROOM_OUT m => C_ROOM_OUT.wf m
  | S_ROOM_OUT => True
  end.

Definition small (p : t) : Prop :=
  match p with
  | C_LOGIN m => C_LOGIN.small m
  | S_LOGIN m => S_LOGIN.small m
  | C_REGISTER m => C_REGISTER.small m
  | S_REGISTER m => S_REGISTER.small m
  | C_REFRESH_LOBBY => True
  | S_REFRESH_LOBBY m => S_REFRESH_LOBBY.small m
  | C_CREATE_ROOM m => C_CREATE_ROOM.small m
  | S_CREATE_ROOM m => S_CREATE_ROOM.small m
  | C_JOIN_ROOM m => C_JOIN_ROOM.small m
  | S_JOIN_ROOM m => S_JOIN_ROOM.small m
  | S_REFRESH_ROOM m => S_REFRESH_ROOM.small m
  | C_CHAT_LOG m => C_CHAT_LOG.small m
  | S_CHAT_LOG m => S_CHAT_LOG.small m
  | C_ROOM_OUT m => C_ROOM_OUT.small m
  | S_ROOM_OUT => True
  end.

Definition utf8 (p : t) : Prop :=
  match p with
  | C_LOGIN m => C_LOGIN.utf8 m
  | S_LOGIN m => S_LOGIN.utf8 m
  | C_REGISTER m => C_REGISTER.utf8 m
  | S_REGISTER m => S_REGISTER.utf8 m
  | C_REFRESH_LOBBY => True
  | S_REFRESH_LOBBY m => S_REFRESH_LOBBY.utf8 m
  | C_CREATE_ROOM m => C_CREATE_ROOM.utf8 m
  | S_CREATE_ROOM m => S_CREATE_ROOM.utf8 m
  | C_JOIN_ROOM m => C_JOIN_ROOM.utf8 m
  | S_JOIN_ROOM m => S_JOIN_ROOM.utf8 m
  | S_REFRESH_ROOM m => S_REFRESH_ROOM.utf8 m
  | C_CHAT_LOG m => C_CHAT_LOG.utf8 m
  | S_CHAT_LOG m => S_CHAT_LOG.utf8 m
  | C_ROOM_OUT m => C_ROOM_OUT.utf8 m
  | S_ROOM_OUT => True
  end.

Definition strip (p : t) : t :=
  match p with
  | C_LOGIN m => C_LOGIN (C_LOGIN.strip m)
  | S_LOGIN m => S_LOGIN (S_LOGIN.strip m)
  | C_REGISTER m => C_REGISTER (C_REGISTER.strip m)
  | S_REGISTER m => S_REGISTER (S_REGISTER.strip m)
  | C_REFRESH_LOBBY => C_REFRESH_LOBBY
  | S_REFRESH_LOBBY m => S_REFRESH_LOBBY (S_REFRESH_LOBBY.strip m)
  | C_CREATE_ROOM m => C_CREATE_ROOM (C_CREATE_ROOM.strip m)
  | S_CREATE_ROOM m => S_CREATE_ROOM (S_CREATE_ROOM.strip m)
  | C_JOIN_ROOM m => C_JOIN_ROOM (C_JOIN_ROOM.strip m)
  | S_JOIN_ROOM m => S_JOIN_ROOM (S_JOIN_ROOM.strip m)
  | S_REFRESH_ROOM m => S_REFRESH_ROOM (S_REFRESH_ROOM.strip m)
  | C_CHAT_LOG m => C_CHAT_LOG (C_CHAT_LOG.strip m)
  | S_CHAT_LOG m => S_CHAT_LOG (S_CHAT_LOG.strip m)
  | C_ROOM_OUT m => C_ROOM_OUT (C_ROOM_OUT.strip m)
  | S_ROOM_OUT => S_ROOM_OUT
  end.

Definition fields (p : t) : list (Z * wval) :=
  match p with
  | C_LOGIN m => C_LOGIN.fields m
  | S_LOGIN m => S_LOGIN.fields m
  | C_REGISTER m => C_REGISTER.fields m
  | S_REGISTER m => S_REGISTER.fields m
  | C_REFRESH_LOBBY => []
  | S_REFRESH_LOBBY m => S_REFRESH_LOBBY.fields m
  | C_CREATE_ROOM m => C_CREATE_ROOM.fields m
  | S_CREATE_ROOM m => S_CREATE_ROOM.fields m
  | C_JOIN_ROOM m => C_JOIN_ROOM.fields m
  | S_JOIN_ROOM m => S_JOIN_ROOM.fields m
  | S_REFRESH_ROOM m => S_REFRESH_ROOM.fields m
  | C_CHAT_LOG m => C_CHAT_LOG.fields m
  | S_CHAT_LOG m => S_CHAT_LOG.fields m
  | C_ROOM_OUT m => C_ROOM_OUT.fields m
  | S_ROOM_OUT => []
  end.

Definition parse_field (p : t) (f : Z * wval) : t :=
  match p with
  | C_LOGIN m => C_LOGIN (C_LOGIN.parse_field m f)
  | S_LOGIN m => S_LOGIN (S_LOGIN.parse_field m f)
  | C_REGISTER m => C_REGISTER (C_REGISTER.parse_field m f)
  | S_REGISTER m => S_REGISTER (S_REGISTER.parse_field m f)
  | C_REFRESH_LOBBY => C_REFRESH_LOBBY
  | S_REFRESH_LOBBY m => S_REFRESH_LOBBY (S_REFRESH_LOBBY.parse_field m f)
  | C_CREATE_ROOM m => C_CREATE_ROOM (C_CREATE_ROOM.parse_field m f)
  | S_CREATE_ROOM m => S_CREATE_ROOM (S_CREATE_ROOM.parse_field m f)
  | C_JOIN_ROOM m => C_JOIN_ROOM (C_JOIN_ROOM.parse_field m f)
  | S_JOIN_ROOM m => S_JOIN_ROOM (S_JOIN_ROOM.parse_field m f)
  | S_REFRESH_ROOM m => S_REFRESH_ROOM (S_REFRESH_ROOM.parse_field m f)
  | C_CHAT_LOG m => C_CHAT_LOG (C_CHAT_LOG.parse_field m f)
  | S_CHAT_LOG m => S_CHAT_LOG (S_CHAT_LOG.parse_field m f)
  | C_ROOM_OUT m => C_ROOM_OUT (C_ROOM_OUT.parse_field m f)
  | S_ROOM_OUT => S_ROOM_OUT
  end.

(** [CopyFrom] of two messages of the same class. *)
Definition CopyFrom (to from : t) : option t :=
  match to, from with
  | C_LOGIN a, C_LOGIN b => Some (C_LOGIN (C_LOGIN.CopyFrom a b))
  | S_LOGIN a, S_LOGIN b => Some (S_LOGIN (S_LOGIN.CopyFrom a b))
  | C_REGISTER a, C_REGISTER b => Some (C_REGISTER (C_REGISTER.CopyFrom a b))
  | S_REGISTER a, S_REGISTER b => Some (S_REGISTER (S_REGISTER.CopyFrom a b))
  | C_REFRESH_LOBBY, C_REFRESH_LOBBY => Some C_REFRESH_LOBBY
  | S_REFRESH_LOBBY a, S_REFRESH_LOBBY b => Some (S_REFRESH_LOBBY (S_REFRESH_LOBBY.CopyFrom a b))
  | C_CREATE_ROOM a, C_CREATE_ROOM b => Some (C_CREATE_ROOM (C_CREATE_ROOM.CopyFrom a b))
  | S_CREATE_ROOM a, S_CREATE_ROOM b => Some (S_CREATE_ROOM (S_CREATE_ROOM.CopyFrom a b))
  | C_JOIN_ROOM a, C_JOIN_ROOM b => Some (C_JOIN_ROOM (C_JOIN_ROOM.CopyFrom a b))
  | S_JOIN_ROOM a, S_JOIN_ROOM b => Some (S_JOIN_ROOM (S_JOIN_ROOM.CopyFrom a b))
  | S_REFRESH_ROOM a, S_REFRESH_ROOM b => Some (S_REFRESH_ROOM (S_REFRESH_ROOM.CopyFrom a b))
  | C_CHAT_LOG a, C_CHAT_LOG b => Some (C_CHAT_LOG (C_CHAT_LOG.CopyFrom a b))
  | S_CHAT_LOG a, S_CHAT_LOG b => Some (S_CHAT_LOG (S_CHAT_LOG.CopyFrom a b))
  | C_ROOM_OUT a, C_ROOM_OUT b => Some (C_ROOM_OUT (C_ROOM_OUT.CopyFrom a b))
  | S_ROOM_OUT, S_ROOM_OUT => Some S_ROOM_OUT
  | _, _ => None
  end.

Definition known (k : kind) (f : Z * wval) : bool :=
  match k with
  | K_C_LOGIN => C_LOGIN.known f
  | K_S_LOGIN => S_LOGIN.known f
  | K_C_REGISTER => C_REGISTER.known f
  | K_S_REGISTER => S_REGISTER.known f
  | K_C_REFRESH_LOBBY => false
  | K_S_REFRESH_LOBBY => S_REFRESH_LOBBY.known f
  | K_C_CREATE_ROOM => C_CREATE_ROOM.known f
  | K_S_CREATE_ROOM => S_CREATE_ROOM.known f
  | K_C_JOIN_ROOM => C_JOIN_ROOM.known f
  | K_S_JOIN_ROOM => S_JOIN_ROOM.known f
  | K_S_REFRESH_ROOM => S_REFRESH_ROOM.known f
  | K_C_CHAT_LOG => C_CHAT_LOG.known f
  | K_S_CHAT_LOG => S_CHAT_LOG.known f
  | K_C_ROOM_OUT => C_ROOM_OUT.known f
  | K_S_ROOM_OUT => false
  end.

(** [ParseFromArray], a method of each class.  What the encoding specification says of
    it: an encoding that consists of known fields is accepted, and the fields take effect
    in order. *)
Class Parser : Type := {
  ParseFromArray : kind → list byte → option t;
  ParseFromArray_kind : ∀ k bs p, ParseFromArray k bs = Some p → kind_of p = k;
  ParseFromArray_fields : ∀ k fs,
    Forall wf_field fs → Forall (λ f, known k f = true) fs →
    ParseFromArray k (concat (enc <$> fs)) = Some (foldl parse_field (new k) fs)
}.

Lemma reference_parser_fields k fs :
  Forall wf_field fs →
  (fs' ← read_fields (length (concat (enc <$> fs))) (concat (enc <$> fs));
   Some (foldl parse_field (new k) fs')) = Some (foldl parse_field (new k) fs).
Proof. intros Hfs. by rewrite read_fields_enc by (done || apply fields_count). Qed.

Lemma parse_fields_kind fs p : kind_of (foldl parse_field p fs) = kind_of p.
Proof. revert p. induction fs as [|f fs IH]; intros p; [done|]. simpl. rewrite IH. by destruct p. Qed.

Lemma reference_parser_kind k bs p :
  (fs ← read_fields (length bs) bs; Some (foldl parse_field (new k) fs)) = Some p → kind_of p = k.
Proof. intros H. apply bind_Some in H as (fs & _ & [= <-]). rewrite parse_fields_kind. by destruct k. Qed.

Definition reference_parser : Parser := {|
  ParseFromArray k bs := fs ← read_fields (length bs) bs; Some (foldl parse_field (new k) fs);
  ParseFromArray_kind := reference_parser_kind;
  ParseFromArray_fields k fs Hfs _ := reference_parser_fields k fs Hfs
|}.

Lemma foldl_wrap {A} (f : A → Z * wval → A) (c : A → t) :
  (∀ a x, parse_field (c a) x = c (f a x)) →
  ∀ l a, foldl parse_field (c a) l = c (foldl f a l).
Proof. intros H l. induction l as [|x l IH]; intros a; simpl; [done|]. by rewrite H, IH. Qed.

Lemma fields_ok p : wf p → InternalSerialize p = concat (enc <$> fields p).
Proof.
  destruct p; simpl; intros; first [done | by apply C_LOGIN.C_LOGIN_fields | by apply S_LOGIN.S_LOGIN_fields | by apply C_REGISTER.C_REGISTER_fields | by apply S_REGISTER.S_REGISTER_fields | by apply S_REFRESH_LOBBY.S_REFRESH_LOBBY_fields | by apply C_CREATE_ROOM.C_CREATE_ROOM_fields | by apply S_CREATE_ROOM.S_CREATE_ROOM_fields | by apply C_JOIN_ROOM.C_JOIN_ROOM_fields | by apply S_JOIN_ROOM.S_JOIN_ROOM_fields | by apply S_REFRESH_ROOM.S_REFRESH_ROOM_fields | by apply C_CHAT_LOG.C_CHAT_LOG_fields | by apply S_CHAT_LOG.S_CHAT_LOG_fields | by apply C_ROOM_OUT.C_ROOM_OUT_fields].
Qed.

Lemma wf_fields_ok p : small p → Forall wf_field (fields p).
Proof.
  destruct p; simpl; intros; first [constructor | by apply C_LOGIN.C_LOGIN_wf_fields | by apply S_LOGIN.S_LOGIN_wf_fields | by apply C_REGISTER.C_REGISTER_wf_fields | by apply S_REGISTER.S_REGISTER_wf_fields | by apply S_REFRESH_LOBBY.S_REFRESH_LOBBY_wf_fields | by apply C_CREATE_ROOM.C_CREATE_ROOM_wf_fields | by apply S_CREATE_ROOM.S_CREATE_ROOM_wf_fields | by apply C_JOIN_ROOM.C_JOIN_ROOM_wf_fields | by apply S_JOIN_ROOM.S_JOIN_ROOM_wf_fields | by apply S_REFRESH_ROOM.S_REFRESH_ROOM_wf_fields | by apply C_CHAT_LOG.C_CHAT_LOG_wf_fields | by apply S_CHAT_LOG.S_CHAT_LOG_wf_fields | by apply C_ROOM_OUT.C_ROOM_OUT_wf_fields].
Qed.

Lemma known_ok p : small p → utf8 p → Forall (λ f, known (kind_of p) f = true) (fields p).
Proof.
  destruct p; simpl; intros; first [constructor | by apply C_LOGIN.C_LOGIN_known | by apply S_LOGIN.S_LOGIN_known | by apply C_REGISTER.C_REGISTER_known | by apply S_REGISTER.S_REGISTER_known | by apply S_REFRESH_LOBBY.S_REFRESH_LOBBY_known | by apply C_CREATE_ROOM.C_CREATE_ROOM_known | by apply S_CREATE_ROOM.S_CREATE_ROOM_known | by apply C_JOIN_ROOM.C_JOIN_ROOM_known | by apply S_JOIN_ROOM.S_JOIN_ROOM_known | by apply S_REFRESH_ROOM.S_REFRESH_ROOM_known | by apply C_CHAT_LOG.C_CHAT_LOG_known | by apply S_CHAT_LOG.S_CHAT_LOG_known | by apply C_ROOM_OUT.C_ROOM_OUT_known].
Qed.

Lemma parse_ok p : small p → strip (foldl parse_field (new (kind_of p)) (fields p)) = strip p.
Proof.
  destruct p; simpl; intros; try done;
    (erewrite foldl_wrap by reflexivity; simpl; f_equal); first [ by apply C_LOGIN.C_LOGIN_parse | by apply S_LOGIN.S_LOGIN_parse | by apply C_REGISTER.C_REGISTER_parse | by apply S_REGISTER.S_REGISTER_parse | by apply S_REFRESH_LOBBY.S_REFRESH_LOBBY_parse | by apply C_CREATE_ROOM.C_CREATE_ROOM_parse | by apply S_CREATE_ROOM.S_CREATE_ROOM_parse | by apply C_JOIN_ROOM.C_JOIN_ROOM_parse | by apply S_JOIN_ROOM.S_JOIN_ROOM_parse | by apply S_REFRESH_ROOM.S_REFRESH_ROOM_parse | by apply C_CHAT_LOG.C_CHAT_LOG_parse | by apply S_CHAT_LOG.S_CHAT_LOG_parse | by apply C_ROOM_OUT.C_ROOM_OUT_parse].
Qed.

(** C33: for every message class the size the generated [ByteSizeLong] announces is
    the number of bytes the generated [_InternalSerialize] writes. *)
Theorem generated_size p : small p → ByteSizeLong p = zlen (InternalSerialize p).
Proof.
  destruct p; simpl; intros; symmetry; first [done | by apply C_LOGIN.C_LOGIN_size | by apply S_LOGIN.S_LOGIN_size | by apply C_REGISTER.C_REGISTER_size | by apply S_REGISTER.S_REGISTER_size | by apply S_REFRESH_LOBBY.S_REFRESH_LOBBY_size | by apply C_CREATE_ROOM.C_CREATE_ROOM_size | by apply S_CREATE_ROOM.S_CREATE_ROOM_size | by apply C_JOIN_ROOM.C_JOIN_ROOM_size | by apply S_JOIN_ROOM.S_JOIN_ROOM_size | by apply S_REFRESH_ROOM.S_REFRESH_ROOM_size | by apply C_CHAT_LOG.C_CHAT_LOG_size | by apply S_CHAT_LOG.S_CHAT_LOG_size | by apply C_ROOM_OUT.C_ROOM_OUT_size].
Qed.

(** C32: a message whose text is UTF-8 survives the wire: the bytes the
    generated serialiser writes parse, through the parse table of its class, to
    a message with the same value in every field. *)
Theorem message_roundtrip `{Parser} p :
  wf p → small p → utf8 p →
  ∃ p', ParseFromArray (kind_of p) (InternalSerialize p) = Some p' ∧ strip p' = strip p.
Proof.
  intros Hwf Hs Hu. rewrite fields_ok, ParseFromArray_fields by (done || by apply wf_fields_ok || by apply known_ok).
  eexists. split; [done|]. by apply parse_ok.
Qed.

(** [Clear] resets a message to the state of a new one, and [CopyFrom] makes
    a message equal to its source whatever it held before. *)
Theorem generated_clear_copy a b :
  kind_of a = kind_of b → wf a → wf b →
  Clear a = new (kind_of a) ∧ ∃ c, CopyFrom a b = Some c ∧ wf c ∧ strip c = strip b.
Proof.
  destruct a, b; simpl; intros Hk Ha Hb; try discriminate Hk; (split;
    [first [done | f_equal; first [ by apply C_LOGIN.C_LOGIN_clear | by apply S_LOGIN.S_LOGIN_clear | by apply C_REGISTER.C_REGISTER_clear | by apply S_REGISTER.S_REGISTER_clear | by apply S_REFRESH_LOBBY.S_REFRESH_LOBBY_clear | by apply C_CREATE_ROOM.C_CREATE_ROOM_clear | by apply S_CREATE_ROOM.S_CREATE_ROOM_clear | by apply C_JOIN_ROOM.C_JOIN_ROOM_clear | by apply S_JOIN_ROOM.S_JOIN_ROOM_clear | by apply S_REFRESH_ROOM.S_REFRESH_ROOM_clear | by apply C_CHAT_LOG.C_CHAT_LOG_clear | by apply S_CHAT_LOG.S_CHAT_LOG_clear | by apply C_ROOM_OUT.C_ROOM_OUT_clear]] | ]);
    (eexists; split; [reflexivity|]); simpl; try done;
    first [ destruct (C_LOGIN.C_LOGIN_copy _ _ Ha Hb) as [? ->] | destruct (S_LOGIN.S_LOGIN_copy _ _ Ha Hb) as [? ->] | destruct (C_REGISTER.C_REGISTER_copy _ _ Ha Hb) as [? ->] | destruct (S_REGISTER.S_REGISTER_copy _ _ Ha Hb) as [? ->] | destruct (S_REFRESH_LOBBY.S_REFRESH_LOBBY_copy _ _ Ha Hb) as [? ->] | destruct (C_CREATE_ROOM.C_CREATE_ROOM_copy _ _ Ha Hb) as [? ->] | destruct (S_CREATE_ROOM.S_CREATE_ROOM_copy _ _ Ha Hb) as [? ->] | destruct (C_JOIN_ROOM.C_JOIN_ROOM_copy _ _ Ha Hb) as [? ->] | destruct (S_JOIN_ROOM.S_JOIN_ROOM_copy _ _ Ha Hb) as [? ->] | destruct (S_REFRESH_ROOM.S_REFRESH_ROOM_copy _ _ Ha Hb) as [? ->] | destruct (C_CHAT_LOG.C_CHAT_LOG_copy _ _ Ha Hb) as [? ->] | destruct (S_CHAT_LOG.S_CHAT_LOG_copy _ _ Ha Hb) as [? ->] | destruct (C_ROOM_OUT.C_ROOM_OUT_copy _ _ Ha Hb) as [? ->]]; done.
Qed.

(** A chat line for the witnesses. *)
Definition hello : t :=
  S_CHAT_LOG (S_CHAT_LOG.set_log [x68; x69] (S_CHAT_LOG.set_id [x62; x6f; x62] S_CHAT_LOG.new)).

Lemma hello_small : small hello.
Proof. split; vm_compute; done. Qed.

Lemma hello_wf : wf hello.
Proof. split; intros _; reflexivity. Qed.

Lemma generated_size_witness : ByteSizeLong hello = zlen (InternalSerialize hello).
Proof. apply (generated_size hello), hello_small. Defined.

Lemma message_roundtrip_witness :
  ∃ p', ParseFromArray (Parser := reference_parser) K_S_CHAT_LOG (InternalSerialize hello) = Some p' ∧
    strip p' = strip hello.
Proof.
  apply (message_roundtrip (H := reference_parser) hello); [apply hello_wf|apply hello_small|split; reflexivity].
Defined.

Lemma generated_clear_copy_witness :
  Clear hello = new K_S_CHAT_LOG ∧
  ∃ c, CopyFrom hello hello = Some c ∧ wf c ∧ strip c = strip hello.
Proof. apply (generated_clear_copy hello hello); [done|apply hello_wf..]. Defined.

End Msg.
