(* ===== verification/Packets.v ===== *)
(** * Packets: the program's messages as packets
      (Server/ClientPacketHandler.h, Client/ServerPacketHandler.h: MakeSendBuffer of the
       classes of Protocol.pb.h; PacketSession::OnRecv; HandlePacket's ParseFromArray)

    [PacketHandler] is about any class of messages with the documented sizes.  Here are
    the sizes of the generated classes, and the way of one message from [MakeSendBuffer]
    through [OnRecv] to [ParseFromArray]. *)

From S2P Require Import Prelude PacketSession SendBuffer PacketHandler Wire Protocol.
#[local] Open Scope Z_scope.

Module Packets.
Import PacketHandler.

(** [MessageLite::SerializeToArray]: false when the array is too small. *)
#[export] Instance generated_message : Message Msg.t := {
  ByteSizeLong := Msg.ByteSizeLong;
  SerializeToArray p n := if n <? Msg.ByteSizeLong p then None else Some (Msg.InternalSerialize p)
}.

Lemma serialized_size p : Msg.small p → zlen (Msg.InternalSerialize p) = Msg.ByteSizeLong p.
Proof.
  destruct p; simpl; intros; first [done | by apply C_LOGIN.C_LOGIN_size | by apply S_LOGIN.S_LOGIN_size
    | by apply C_REGISTER.C_REGISTER_size | by apply S_REGISTER.S_REGISTER_size | by apply S_REFRESH_LOBBY.S_REFRESH_LOBBY_size
    | by apply C_CREATE_ROOM.C_CREATE_ROOM_size | by apply S_CREATE_ROOM.S_CREATE_ROOM_size | by apply C_JOIN_ROOM.C_JOIN_ROOM_size
    | by apply S_JOIN_ROOM.S_JOIN_ROOM_size | by apply S_REFRESH_ROOM.S_REFRESH_ROOM_size | by apply C_CHAT_LOG.C_CHAT_LOG_size
    | by apply S_CHAT_LOG.S_CHAT_LOG_size | by apply C_ROOM_OUT.C_ROOM_OUT_size].
Qed.

(** The messages whose texts have a length that an [int] can state. *)
Definition small_message : Type := { p : Msg.t | Msg.small p }.

#[export] Instance small_generated : Message small_message := {
  ByteSizeLong m := ByteSizeLong (`m);
  SerializeToArray m := SerializeToArray (`m)
}.

(** The generated classes have the sizes that [PacketHandler] relies on. *)
#[export] Instance small_generated_laws : MessageLaws small_message.
Proof.
  split; intros [p Hp]; simpl.
  - rewrite <-serialized_size by done. apply zlen_nonneg.
  - intros n Hn. case_test; [done|lia].
  - intros n Hn. case_test; [lia|]. eexists. split; [done|]. by apply serialized_size.
Qed.

(** What [MakeSendBuffer] makes of a message that fits. *)
Lemma make_message t p pktId s :
  SendBuffer.wf s → Msg.small p → Msg.ByteSizeLong p ≤ max_message →
  ∃ b s', MakeSendBuffer t p pktId s = Ret (b, s') ∧ SendBuffer.wf s' ∧
    SendBuffer.bytes_of b s' = Some (packet_of pktId (Msg.InternalSerialize p)).
Proof.
  intros Hwf Hs Hn.
  set (m := exist Msg.small p Hs : small_message).
  assert (ByteSizeLong m ≤ max_message) as Hm by exact Hn.
  destruct (MakeSendBuffer_spec t m pktId s Hwf Hm)
    as (b & s' & bs & E & Hwf' & Es & _ & Hb & _).
  cbn in Es. destruct (Z.ltb_spec (Msg.ByteSizeLong p) (Msg.ByteSizeLong p)); [lia|]. injection Es as <-.
  by exists b, s'.
Qed.

(** One whole packet in the buffer: the callback gets it, and it is consumed if the
    callback returns. *)
Lemma OnRecv_one {S} (OnRecvPacket : list byte → M S unit) packet s :
  PacketSession.wf_packet packet →
  PacketSession.OnRecv OnRecvPacket packet (zlen packet) s =
  Some (match OnRecvPacket packet s with Ret (_, s') => Ret (zlen packet, s') | Crash f => Crash f end).
Proof.
  intros Hpk. pose proof (PacketSession.OnRecv_frames OnRecvPacket [packet] [] s) as Hf.
  change (concat [packet]) with (packet ++ []) in Hf. rewrite !app_nil_r in Hf.
  rewrite Hf; [| |by left|apply PacketSession.wf_packet_bounds in Hpk; lia].
  - unfold PacketSession.handle_packets. simpl. unfold mbind, M_bind.
    by destruct (OnRecvPacket packet s) as [[[] s']|].
  - by constructor.
Qed.

(** C28: what one side sends the other side parses.  A message of any of the generated
    classes that fits into a send buffer and whose texts are UTF-8 is made into a packet;
    received, that packet is handed to the packet handler whole and once, and is consumed
    when the handler returns; its id is that of the message's class, and
    [ParseFromArray], on the bytes after the header, gives a message with the same value
    in every field. *)
Theorem packet_roundtrip {P : Msg.Parser} t p s :
  SendBuffer.wf s → Msg.wf p → Msg.small p → Msg.utf8 p → Msg.ByteSizeLong p ≤ max_message →
  ∃ b s' packet p', MakeSendBuffer t p (Msg.pkt_id (Msg.kind_of p)) s = Ret (b, s') ∧
    SendBuffer.bytes_of b s' = Some packet ∧
    (∀ S (OnRecvPacket : list byte → M S unit) x,
       PacketSession.OnRecv OnRecvPacket packet (zlen packet) x =
       Some (match OnRecvPacket packet x with Ret (_, y) => Ret (zlen packet, y) | Crash f => Crash f end)) ∧
    PacketSession.packet_id packet = Msg.pkt_id (Msg.kind_of p) ∧
    Msg.ParseFromArray (Msg.kind_of p) (drop (Z.to_nat PacketSession.sizeof_PacketHeader) packet) = Some p' ∧
    Msg.strip p' = Msg.strip p.
Proof.
  intros Hwf Hp Hs Hu Hn. destruct (make_message t p (Msg.pkt_id (Msg.kind_of p)) s Hwf Hs Hn) as (b & s' & E & _ & Hb).
  exists b, s', (packet_of (Msg.pkt_id (Msg.kind_of p)) (Msg.InternalSerialize p)).
  exists (foldl Msg.parse_field (Msg.new (Msg.kind_of p)) (Msg.fields p)).
  split_and!; [exact E|exact Hb| | | |by apply Msg.parse_ok].
  - intros S cb x. apply OnRecv_one, packet_of_wf. by rewrite serialized_size.
  - apply packet_of_id. destruct p; simpl; lia.
  - change (drop _ (packet_of _ ?bs)) with bs. rewrite Msg.fields_ok by done.
    apply Msg.ParseFromArray_fields; [by apply Msg.wf_fields_ok|by apply Msg.known_ok].
Qed.

Lemma packet_roundtrip_witness :
  ∃ b s' packet p', MakeSendBuffer 1 Msg.hello 1012 SendBuffer.init = Ret (b, s') ∧
    SendBuffer.bytes_of b s' = Some packet ∧ PacketSession.packet_id packet = 1012 ∧
    Msg.ParseFromArray (Parser := Msg.reference_parser) Msg.K_S_CHAT_LOG (drop 4 packet) = Some p' ∧
    Msg.strip p' = Msg.strip Msg.hello.
Proof.
  destruct (packet_roundtrip (P := Msg.reference_parser) 1 Msg.hello SendBuffer.init) as (b & s' & packet & p' & E & Hb & _ & Hi & Hp & Hst).
  - apply SendBuffer.init_wf.
  - apply Msg.hello_wf.
  - apply Msg.hello_small.
  - split; reflexivity.
  - vm_compute. discriminate.
  - exists b, s', packet, p'. split_and!; [exact E|exact Hb|exact Hi|exact Hp|exact Hst].
Defined.

End Packets.
