(* ===== verification/ProtocolOps.v ===== *)
(** * ProtocolOps: the rest of the generated interface (Server/Protocol.pb.h, Protocol.pb.cc)

    The accessors of the message classes that [Protocol] does not have: clearing,
    mutable access, releasing and adopting of fields, access by index to repeated
    fields, and swapping.  A pointer that the caller gets and writes through is the
    function [f] it applies to the field.  No message of the program is on an arena.
    [built] is what can be made of a new message through the interface; the
    presence bits of such a message agree with its fields. *)

From S2P Require Import Prelude Wire Protocol.
Import Wire.
#[local] Open Scope Z_scope.

(** [ClearHasBit] and [ClearHasBitForRepeated]. *)
Definition ClearHasBit (has_bits mask : Z) : Z := Z.ldiff has_bits mask.

Lemma CheckHasBit_clear_ne c b b' :
  Z.land b b' = 0 → CheckHasBit (ClearHasBit c b) b' = CheckHasBit c b'.
Proof.
  intros Hb. unfold CheckHasBit, ClearHasBit. f_equal. f_equal. apply Z.bits_inj'. intros n Hn.
  rewrite !Z.land_spec, Z.ldiff_spec. assert (Z.testbit b n && Z.testbit b' n = false) as E
    by by rewrite <-Z.land_spec, Hb, Z.testbit_0_l.
  destruct (Z.testbit b' n), (Z.testbit b n), (Z.testbit c n); done.
Qed.

Lemma CheckHasBit_set c b b' : CheckHasBit b b' = true → CheckHasBit (Z.lor c b) b' = true.
Proof. intros Hb. by rewrite CheckHasBit_lor, Hb, orb_true_r. Qed.

Lemma CheckHasBit_set_ne c b b' : CheckHasBit b b' = false → CheckHasBit (Z.lor c b) b' = CheckHasBit c b'.
Proof. intros Hb. by rewrite CheckHasBit_lor, Hb, orb_false_r. Qed.

(** A field after a merge. *)
Lemma merge_bits {A} (Q : A → Prop) d c bit (P : bool) (y a : A) :
  (P = true → CheckHasBit c bit = true) → (Q a → CheckHasBit d bit = true) →
  Q (if P then y else a) → CheckHasBit (Z.lor d c) bit = true.
Proof.
  intros HP Ha HQ. rewrite CheckHasBit_lor. apply orb_true_iff. destruct P; [right; by apply HP|left; by apply Ha].
Qed.

(** The element at an index of a repeated field, and the field with it replaced;
    an index that is not in the field is outside of its memory. *)
Definition at_index {A} (l : list A) (index : Z) : result A :=
  if index <? 0 then Crash OutOfBounds
  else match l !! Z.to_nat index with Some x => Ret x | None => Crash OutOfBounds end.

Definition upd_index {A} (f : A → A) (l : list A) (index : Z) : result (list A) :=
  if index <? 0 then Crash OutOfBounds
  else match l !! Z.to_nat index with Some x => Ret (<[Z.to_nat index := f x]> l) | None => Crash OutOfBounds end.

Lemma upd_index_nonempty {A} (f : A → A) (l l' : list A) index : upd_index f l index = Ret l' → l ≠ [].
Proof. unfold upd_index. intros H. destruct (index <? 0); [done|]. by destruct l. Qed.

Lemma foldl_built {A B} (P : A → Prop) (f : A → B → A) (l : list B) (a : A) :
  (∀ a b, P a → P (f a b)) → P a → P (foldl f a l).
Proof. intros Hf. revert a. induction l as [|b l IH]; intros a Ha; simpl; auto. Qed.

(** The presence bits after one operation. *)
Ltac proto_bits :=
  repeat match goal with
  | |- context [CheckHasBit (ClearHasBit ?c ?b) ?b'] => rewrite (CheckHasBit_clear_ne c b b') by reflexivity
  | |- context [CheckHasBit (Z.lor ?c ?b) ?b'] =>
    first [rewrite (CheckHasBit_set c b b') by reflexivity | rewrite (CheckHasBit_set_ne c b b') by reflexivity]
  end.

Ltac proto_wf :=
  intros; destruct_and?; split_and?; cbn; proto_bits; auto; try done; try (by intros []).

Ltac and_true :=
  intros; repeat (match goal with H : _ && _ = true |- _ => apply andb_prop in H as [] end); done.

Ltac proto_merge :=
  intros ? ?; destruct_and?; split_and?; cbn;
  match goal with
  | |- _ = true → _ => apply (merge_bits (λ b, b = true)); [and_true|done]
  | |- _ ≠ [] → _ => apply (merge_bits (λ l, l ≠ [])); [and_true|done]
  end.

(** ** C_LOGIN *)

Module C_LOGIN_ops.
Import C_LOGIN.

Definition clear_id (m : t) : t := mk (ClearHasBit (has_bits m) 1) [] (pssd m).
Definition mutable_id (f : list byte → list byte) (m : t) : t := mk (Z.lor (has_bits m) 1) (f (id m)) (pssd m).
Definition release_id (m : t) : option (list byte) * t :=
  if CheckHasBit (has_bits m) 1 then (Some (id m), mk (ClearHasBit (has_bits m) 1) [] (pssd m)) else (None, m).
Definition set_allocated_id (value : option (list byte)) (m : t) : t :=
  match value with
  | Some v => mk (Z.lor (has_bits m) 1) v (pssd m)
  | None => mk (ClearHasBit (has_bits m) 1) [] (pssd m)
  end.

Definition clear_pssd (m : t) : t := mk (ClearHasBit (has_bits m) 2) (id m) [].
Definition mutable_pssd (f : list byte → list byte) (m : t) : t := mk (Z.lor (has_bits m) 2) (id m) (f (pssd m)).
Definition release_pssd (m : t) : option (list byte) * t :=
  if CheckHasBit (has_bits m) 2 then (Some (pssd m), mk (ClearHasBit (has_bits m) 2) (id m) []) else (None, m).
Definition set_allocated_pssd (value : option (list byte)) (m : t) : t :=
  match value with
  | Some v => mk (Z.lor (has_bits m) 2) (id m) v
  | None => mk (ClearHasBit (has_bits m) 2) (id m) []
  end.

Definition InternalSwap (a b : t) : t * t :=
  (mk (has_bits b) (id b) (pssd b), mk (has_bits a) (id a) (pssd a)).
Definition Swap (a b : t) : t * t := InternalSwap a b.
Definition move_assign (to from : t) : t * t := InternalSwap to from.

(** What the interface can make. *)
Inductive built : t → Prop :=
| b_new : built new
| b_set_id v m : built m → built (set_id v m)
| b_clear_id m : built m → built (clear_id m)
| b_mutable_id f m : built m → built (mutable_id f m)
| b_release_id m : built m → built (release_id m).2
| b_set_allocated_id v m : built m → built (set_allocated_id v m)
| b_set_pssd v m : built m → built (set_pssd v m)
| b_clear_pssd m : built m → built (clear_pssd m)
| b_mutable_pssd f m : built m → built (mutable_pssd f m)
| b_release_pssd m : built m → built (release_pssd m).2
| b_set_allocated_pssd v m : built m → built (set_allocated_pssd v m)
| b_Clear m : built m → built (Clear m)
| b_MergeImpl a b : built a → built b → built (MergeImpl a b)
| b_CopyFrom a b : built a → built b → built (CopyFrom a b)
| b_Swap_l a b : built a → built b → built (Swap a b).1
| b_Swap_r a b : built a → built b → built (Swap a b).2.

Lemma C_LOGIN_merge_wf a b : wf a → wf b → wf (MergeImpl a b).
Proof. unfold wf, MergeImpl. proto_merge. Qed.

Lemma C_LOGIN_built_wf m : built m → wf m.
Proof.
  induction 1.
  all: try (by apply C_LOGIN_merge_wf).
  all: try (by apply C_LOGIN_copy).
  all: try (rewrite C_LOGIN_clear by done; unfold wf; proto_wf; fail).
  all: try (unfold release_id, release_pssd, set_allocated_id, set_allocated_pssd; case_match; unfold wf in *; proto_wf; fail).
  all: unfold wf in *; proto_wf.
Qed.

(** Parsing builds through the same accessors. *)
Lemma C_LOGIN_parse_built m f : built m → built (parse_field m f).
Proof. intros Hm. unfold parse_field. repeat case_match; try exact Hm; try (constructor; exact Hm). all: apply (foldl_built built); [|exact Hm]; intros; by constructor. Qed.

End C_LOGIN_ops.

(** ** S_LOGIN *)

Module S_LOGIN_ops.
Import S_LOGIN.

Definition clear_issuccess (m : t) : t := mk (ClearHasBit (has_bits m) 4) false (id m) (pssd m).

Definition clear_id (m : t) : t := mk (ClearHasBit (has_bits m) 1) (issuccess m) [] (pssd m).
Definition mutable_id (f : list byte → list byte) (m : t) : t := mk (Z.lor (has_bits m) 1) (issuccess m) (f (id m)) (pssd m).
Definition release_id (m : t) : option (list byte) * t :=
  if CheckHasBit (has_bits m) 1 then (Some (id m), mk (ClearHasBit (has_bits m) 1) (issuccess m) [] (pssd m)) else (None, m).
Definition set_allocated_id (value : option (list byte)) (m : t) : t :=
  match value with
  | Some v => mk (Z.lor (has_bits m) 1) (issuccess m) v (pssd m)
  | None => mk (ClearHasBit (has_bits m) 1) (issuccess m) [] (pssd m)
  end.

Definition clear_pssd (m : t) : t := mk (ClearHasBit (has_bits m) 2) (issuccess m) (id m) [].
Definition mutable_pssd (f : list byte → list byte) (m : t) : t := mk (Z.lor (has_bits m) 2) (issuccess m) (id m) (f (pssd m)).
Definition release_pssd (m : t) : option (list byte) * t :=
  if CheckHasBit (has_bits m) 2 then (Some (pssd m), mk (ClearHasBit (has_bits m) 2) (issuccess m) (id m) []) else (None, m).
Definition set_allocated_pssd (value : option (list byte)) (m : t) : t :=
  match value with
  | Some v => mk (Z.lor (has_bits m) 2) (issuccess m) (id m) v
  | None => mk (ClearHasBit (has_bits m) 2) (issuccess m) (id m) []
  end.

Definition InternalSwap (a b : t) : t * t :=
  (mk (has_bits b) (issuccess b) (id b) (pssd b), mk (has_bits a) (issuccess a) (id a) (pssd a)).
Definition Swap (a b : t) : t * t := InternalSwap a b.
Definition move_assign (to from : t) : t * t := InternalSwap to from.

(** What the interface can make. *)
Inductive built : t → Prop :=
| b_new : built new
| b_set_issuccess v m : built m → built (set_issuccess v m)
| b_clear_issuccess m : built m → built (clear_issuccess m)
| b_set_id v m : built m → built (set_id v m)
| b_clear_id m : built m → built (clear_id m)
| b_mutable_id f m : built m → built (mutable_id f m)
| b_release_id m : built m → built (release_id m).2
| b_set_allocated_id v m : built m → built (set_allocated_id v m)
| b_set_pssd v m : built m → built (set_pssd v m)
| b_clear_pssd m : built m → built (clear_pssd m)
| b_mutable_pssd f m : built m → built (mutable_pssd f m)
| b_release_pssd m : built m → built (release_pssd m).2
| b_set_allocated_pssd v m : built m → built (set_allocated_pssd v m)
| b_Clear m : built m → built (Clear m)
| b_MergeImpl a b : built a → built b → built (MergeImpl a b)
| b_CopyFrom a b : built a → built b → built (CopyFrom a b)
| b_Swap_l a b : built a → built b → built (Swap a b).1
| b_Swap_r a b : built a → built b → built (Swap a b).2.

Lemma S_LOGIN_merge_wf a b : wf a → wf b → wf (MergeImpl a b).
Proof. unfold wf, MergeImpl. proto_merge. Qed.

Lemma S_LOGIN_built_wf m : built m → wf m.
Proof.
  induction 1.
  all: try (by apply S_LOGIN_merge_wf).
  all: try (by apply S_LOGIN_copy).
  all: try (rewrite S_LOGIN_clear by done; unfold wf; proto_wf; fail).
  all: try (unfold release_id, release_pssd, set_allocated_id, set_allocated_pssd; case_match; unfold wf in *; proto_wf; fail).
  all: unfold wf in *; proto_wf.
Qed.

(** Parsing builds through the same accessors. *)
Lemma S_LOGIN_parse_built m f : built m → built (parse_field m f).
Proof. intros Hm. unfold parse_field. repeat case_match; try exact Hm; try (constructor; exact Hm). all: apply (foldl_built built); [|exact Hm]; intros; by constructor. Qed.

End S_LOGIN_ops.

(** ** C_REGISTER *)

Module C_REGISTER_ops.
Import C_REGISTER.

Definition clear_id (m : t) : t := mk (ClearHasBit (has_bits m) 1) [] (pssd m).
Definition mutable_id (f : list byte → list byte) (m : t) : t := mk (Z.lor (has_bits m) 1) (f (id m)) (pssd m).
Definition release_id (m : t) : option (list byte) * t :=
  if CheckHasBit (has_bits m) 1 then (Some (id m), mk (ClearHasBit (has_bits m) 1) [] (pssd m)) else (None, m).
Definition set_allocated_id (value : option (list byte)) (m : t) : t :=
  match value with
  | Some v => mk (Z.lor (has_bits m) 1) v (pssd m)
  | None => mk (ClearHasBit (has_bits m) 1) [] (pssd m)
  end.

Definition clear_pssd (m : t) : t := mk (ClearHasBit (has_bits m) 2) (id m) [].
Definition mutable_pssd (f : list byte → list byte) (m : t) : t := mk (Z.lor (has_bits m) 2) (id m) (f (pssd m)).
Definition release_pssd (m : t) : option (list byte) * t :=
  if CheckHasBit (has_bits m) 2 then (Some (pssd m), mk (ClearHasBit (has_bits m) 2) (id m) []) else (None, m).
Definition set_allocated_pssd (value : option (list byte)) (m : t) : t :=
  match value with
  | Some v => mk (Z.lor (has_bits m) 2) (id m) v
  | None => mk (ClearHasBit (has_bits m) 2) (id m) []
  end.

Definition InternalSwap (a b : t) : t * t :=
  (mk (has_bits b) (id b) (pssd b), mk (has_bits a) (id a) (pssd a)).
Definition Swap (a b : t) : t * t := InternalSwap a b.
Definition move_assign (to from : t) : t * t := InternalSwap to from.

(** What the interface can make. *)
Inductive built : t → Prop :=
| b_new : built new
| b_set_id v m : built m → built (set_id v m)
| b_clear_id m : built m → built (clear_id m)
| b_mutable_id f m : built m → built (mutable_id f m)
| b_release_id m : built m → built (release_id m).2
| b_set_allocated_id v m : built m → built (set_allocated_id v m)
| b_set_pssd v m : built m → built (set_pssd v m)
| b_clear_pssd m : built m → built (clear_pssd m)
| b_mutable_pssd f m : built m → built (mutable_pssd f m)
| b_release_pssd m : built m → built (release_pssd m).2
| b_set_allocated_pssd v m : built m → built (set_allocated_pssd v m)
| b_Clear m : built m → built (Clear m)
| b_MergeImpl a b : built a → built b → built (MergeImpl a b)
| b_CopyFrom a b : built a → built b → built (CopyFrom a b)
| b_Swap_l a b : built a → built b → built (Swap a b).1
| b_Swap_r a b : built a → built b → built (Swap a b).2.

Lemma C_REGISTER_merge_wf a b : wf a → wf b → wf (MergeImpl a b).
Proof. unfold wf, MergeImpl. proto_merge. Qed.

Lemma C_REGISTER_built_wf m : built m → wf m.
Proof.
  induction 1.
  all: try (by apply C_REGISTER_merge_wf).
  all: try (by apply C_REGISTER_copy).
  all: try (rewrite C_REGISTER_clear by done; unfold wf; proto_wf; fail).
  all: try (unfold release_id, release_pssd, set_allocated_id, set_allocated_pssd; case_match; unfold wf in *; proto_wf; fail).
  all: unfold wf in *; proto_wf.
Qed.

(** Parsing builds through the same accessors. *)
Lemma C_REGISTER_parse_built m f : built m → built (parse_field m f).
Proof. intros Hm. unfold parse_field. repeat case_match; try exact Hm; try (constructor; exact Hm). all: apply (foldl_built built); [|exact Hm]; intros; by constructor. Qed.

End C_REGISTER_ops.

(** ** S_REGISTER *)

Module S_REGISTER_ops.
Import S_REGISTER.

Definition clear_issuccess (m : t) : t := mk (ClearHasBit (has_bits m) 4) false (id m) (pssd m).

Definition clear_id (m : t) : t := mk (ClearHasBit (has_bits m) 1) (issuccess m) [] (pssd m).
Definition mutable_id (f : list byte → list byte) (m : t) : t := mk (Z.lor (has_bits m) 1) (issuccess m) (f (id m)) (pssd m).
Definition release_id (m : t) : option (list byte) * t :=
  if CheckHasBit (has_bits m) 1 then (Some (id m), mk (ClearHasBit (has_bits m) 1) (issuccess m) [] (pssd m)) else (None, m).
Definition set_allocated_id (value : option (list byte)) (m : t) : t :=
  match value with
  | Some v => mk (Z.lor (has_bits m) 1) (issuccess m) v (pssd m)
  | None => mk (ClearHasBit (has_bits m) 1) (issuccess m) [] (pssd m)
  end.

Definition clear_pssd (m : t) : t := mk (ClearHasBit (has_bits m) 2) (issuccess m) (id m) [].
Definition mutable_pssd (f : list byte → list byte) (m : t) : t := mk (Z.lor (has_bits m) 2) (issuccess m) (id m) (f (pssd m)).
Definition release_pssd (m : t) : option (list byte) * t :=
  if CheckHasBit (has_bits m) 2 then (Some (pssd m), mk (ClearHasBit (has_bits m) 2) (issuccess m) (id m) []) else (None, m).
Definition set_allocated_pssd (value : option (list byte)) (m : t) : t :=
  match value with
  | Some v => mk (Z.lor (has_bits m) 2) (issuccess m) (id m) v
  | None => mk (ClearHasBit (has_bits m) 2) (issuccess m) (id m) []
  end.

Definition InternalSwap (a b : t) : t * t :=
  (mk (has_bits b) (issuccess b) (id b) (pssd b), mk (has_bits a) (issuccess a) (id a) (pssd a)).
Definition Swap (a b : t) : t * t := InternalSwap a b.
Definition move_assign (to from : t) : t * t := InternalSwap to from.

(** What the interface can make. *)
Inductive built : t → Prop :=
| b_new : built new
| b_set_issuccess v m : built m → built (set_issuccess v m)
| b_clear_issuccess m : built m → built (clear_issuccess m)
| b_set_id v m : built m → built (set_id v m)
| b_clear_id m : built m → built (clear_id m)
| b_mutable_id f m : built m → built (mutable_id f m)
| b_release_id m : built m → built (release_id m).2
| b_set_allocated_id v m : built m → built (set_allocated_id v m)
| b_set_pssd v m : built m → built (set_pssd v m)
| b_clear_pssd m : built m → built (clear_pssd m)
| b_mutable_pssd f m : built m → built (mutable_pssd f m)
| b_release_pssd m : built m → built (release_pssd m).2
| b_set_allocated_pssd v m : built m → built (set_allocated_pssd v m)
| b_Clear m : built m → built (Clear m)
| b_MergeImpl a b : built a → built b → built (MergeImpl a b)
| b_CopyFrom a b : built a → built b → built (CopyFrom a b)
| b_Swap_l a b : built a → built b → built (Swap a b).1
| b_Swap_r a b : built a → built b → built (Swap a b).2.

Lemma S_REGISTER_merge_wf a b : wf a → wf b → wf (MergeImpl a b).
Proof. unfold wf, MergeImpl. proto_merge. Qed.

Lemma S_REGISTER_built_wf m : built m → wf m.
Proof.
  induction 1.
  all: try (by apply S_REGISTER_merge_wf).
  all: try (by apply S_REGISTER_copy).
  all: try (rewrite S_REGISTER_clear by done; unfold wf; proto_wf; fail).
  all: try (unfold release_id, release_pssd, set_allocated_id, set_allocated_pssd; case_match; unfold wf in *; proto_wf; fail).
  all: unfold wf in *; proto_wf.
Qed.

(** Parsing builds through the same accessors. *)
Lemma S_REGISTER_parse_built m f : built m → built (parse_field m f).
Proof. intros Hm. unfold parse_field. repeat case_match; try exact Hm; try (constructor; exact Hm). all: apply (foldl_built built); [|exact Hm]; intros; by constructor. Qed.

End S_REGISTER_ops.

(** ** S_REFRESH_LOBBY *)

Module S_REFRESH_LOBBY_ops.
Import S_REFRESH_LOBBY.

Definition clear_issuccess (m : t) : t := mk (ClearHasBit (has_bits m) 4) false (roomnames m) (usercounts m).

Definition roomnames_size (m : t) : Z := zlen (roomnames m).
Definition roomnames_at (index : Z) (m : t) : result (list byte) := at_index (roomnames m) index.
Definition clear_roomnames (m : t) : t := mk (ClearHasBit (has_bits m) 1) (issuccess m) [] (usercounts m).
Definition mutable_roomnames (f : list (list byte) → list (list byte)) (m : t) : t := mk (Z.lor (has_bits m) 1) (issuccess m) (f (roomnames m)) (usercounts m).
Definition set_roomnames (index : Z) (value : list byte) (m : t) : result t :=
  match upd_index (λ _, value) (roomnames m) index with
  | Ret l => Ret (mk (has_bits m) (issuccess m) l (usercounts m))
  | Crash e => Crash e
  end.
Definition mutable_roomnames_at (index : Z) (f : list byte → list byte) (m : t) : result t :=
  match upd_index f (roomnames m) index with
  | Ret l => Ret (mk (has_bits m) (issuccess m) l (usercounts m))
  | Crash e => Crash e
  end.
Definition add_mutable_roomnames (f : list byte → list byte) (m : t) : t := mk (Z.lor (has_bits m) 1) (issuccess m) (roomnames m ++ [f []]) (usercounts m).

Definition usercounts_size (m : t) : Z := zlen (usercounts m).
Definition usercounts_at (index : Z) (m : t) : result (Z) := at_index (usercounts m) index.
Definition clear_usercounts (m : t) : t := mk (ClearHasBit (has_bits m) 2) (issuccess m) (roomnames m) [].
Definition mutable_usercounts (f : list Z → list Z) (m : t) : t := mk (Z.lor (has_bits m) 2) (issuccess m) (roomnames m) (f (usercounts m)).
Definition set_usercounts (index : Z) (value : Z) (m : t) : result t :=
  match upd_index (λ _, value) (usercounts m) index with
  | Ret l => Ret (mk (has_bits m) (issuccess m) (roomnames m) l)
  | Crash e => Crash e
  end.

Definition InternalSwap (a b : t) : t * t :=
  (mk (has_bits b) (issuccess b) (roomnames b) (usercounts b), mk (has_bits a) (issuccess a) (roomnames a) (usercounts a)).
Definition Swap (a b : t) : t * t := InternalSwap a b.
Definition move_assign (to from : t) : t * t := InternalSwap to from.

(** What the interface can make. *)
Inductive built : t → Prop :=
| b_new : built new
| b_set_issuccess v m : built m → built (set_issuccess v m)
| b_clear_issuccess m : built m → built (clear_issuccess m)
| b_add_roomnames v m : built m → built (add_roomnames v m)
| b_clear_roomnames m : built m → built (clear_roomnames m)
| b_set_roomnames i v m m' : built m → set_roomnames i v m = Ret m' → built m'
| b_mutable_roomnames f m : built m → built (mutable_roomnames f m)
| b_mutable_roomnames_at i f m m' : built m → mutable_roomnames_at i f m = Ret m' → built m'
| b_add_mutable_roomnames f m : built m → built (add_mutable_roomnames f m)
| b_add_usercounts v m : built m → built (add_usercounts v m)
| b_clear_usercounts m : built m → built (clear_usercounts m)
| b_set_usercounts i v m m' : built m → set_usercounts i v m = Ret m' → built m'
| b_mutable_usercounts f m : built m → built (mutable_usercounts f m)
| b_Clear m : built m → built (Clear m)
| b_MergeImpl a b : built a → built b → built (MergeImpl a b)
| b_CopyFrom a b : built a → built b → built (CopyFrom a b)
| b_Swap_l a b : built a → built b → built (Swap a b).1
| b_Swap_r a b : built a → built b → built (Swap a b).2.

Lemma S_REFRESH_LOBBY_merge_wf a b : wf a → wf b → wf (MergeImpl a b).
Proof. unfold wf, MergeImpl. proto_merge. Qed.

Lemma S_REFRESH_LOBBY_built_wf m : built m → wf m.
Proof.
  induction 1.
  all: try (by apply S_REFRESH_LOBBY_merge_wf).
  all: try (by apply S_REFRESH_LOBBY_copy).
  all: try (rewrite S_REFRESH_LOBBY_clear by done; unfold wf; proto_wf; fail).
  all: try (unfold set_roomnames, set_usercounts, mutable_roomnames_at in *; case_match eqn:E; [|done]; simplify_eq; apply upd_index_nonempty in E; unfold wf in *; proto_wf; fail).
  all: unfold wf in *; proto_wf.
Qed.

(** Parsing builds through the same accessors. *)
Lemma S_REFRESH_LOBBY_parse_built m f : built m → built (parse_field m f).
Proof. intros Hm. unfold parse_field. repeat case_match; try exact Hm; try (constructor; exact Hm). all: apply (foldl_built built); [|exact Hm]; intros; by constructor. Qed.

End S_REFRESH_LOBBY_ops.

(** ** C_CREATE_ROOM *)

Module C_CREATE_ROOM_ops.
Import C_CREATE_ROOM.

Definition clear_id (m : t) : t := mk (ClearHasBit (has_bits m) 1) [] (roomname m).
Definition mutable_id (f : list byte → list byte) (m : t) : t := mk (Z.lor (has_bits m) 1) (f (id m)) (roomname m).
Definition release_id (m : t) : option (list byte) * t :=
  if CheckHasBit (has_bits m) 1 then (Some (id m), mk (ClearHasBit (has_bits m) 1) [] (roomname m)) else (None, m).
Definition set_allocated_id (value : option (list byte)) (m : t) : t :=
  match value with
  | Some v => mk (Z.lor (has_bits m) 1) v (roomname m)
  | None => mk (ClearHasBit (has_bits m) 1) [] (roomname m)
  end.

Definition clear_roomname (m : t) : t := mk (ClearHasBit (has_bits m) 2) (id m) [].
Definition mutable_roomname (f : list byte → list byte) (m : t) : t := mk (Z.lor (has_bits m) 2) (id m) (f (roomname m)).
Definition release_roomname (m : t) : option (list byte) * t :=
  if CheckHasBit (has_bits m) 2 then (Some (roomname m), mk (ClearHasBit (has_bits m) 2) (id m) []) else (None, m).
Definition set_allocated_roomname (value : option (list byte)) (m : t) : t :=
  match value with
  | Some v => mk (Z.lor (has_bits m) 2) (id m) v
  | None => mk (ClearHasBit (has_bits m) 2) (id m) []
  end.

Definition InternalSwap (a b : t) : t * t :=
  (mk (has_bits b) (id b) (roomname b), mk (has_bits a) (id a) (roomname a)).
Definition Swap (a b : t) : t * t := InternalSwap a b.
Definition move_assign (to from : t) : t * t := InternalSwap to from.

(** What the interface can make. *)
Inductive built : t → Prop :=
| b_new : built new
| b_set_id v m : built m → built (set_id v m)
| b_clear_id m : built m → built (clear_id m)
| b_mutable_id f m : built m → built (mutable_id f m)
| b_release_id m : built m → built (release_id m).2
| b_set_allocated_id v m : built m → built (set_allocated_id v m)
| b_set_roomname v m : built m → built (set_roomname v m)
| b_clear_roomname m : built m → built (clear_roomname m)
| b_mutable_roomname f m : built m → built (mutable_roomname f m)
| b_release_roomname m : built m → built (release_roomname m).2
| b_set_allocated_roomname v m : built m → built (set_allocated_roomname v m)
| b_Clear m : built m → built (Clear m)
| b_MergeImpl a b : built a → built b → built (MergeImpl a b)
| b_CopyFrom a b : built a → built b → built (CopyFrom a b)
| b_Swap_l a b : built a → built b → built (Swap a b).1
| b_Swap_r a b : built a → built b → built (Swap a b).2.

Lemma C_CREATE_ROOM_merge_wf a b : wf a → wf b → wf (MergeImpl a b).
Proof. unfold wf, MergeImpl. proto_merge. Qed.

Lemma C_CREATE_ROOM_built_wf m : built m → wf m.
Proof.
  induction 1.
  all: try (by apply C_CREATE_ROOM_merge_wf).
  all: try (by apply C_CREATE_ROOM_copy).
  all: try (rewrite C_CREATE_ROOM_clear by done; unfold wf; proto_wf; fail).
  all: try (unfold release_id, release_roomname, set_allocated_id, set_allocated_roomname; case_match; unfold wf in *; proto_wf; fail).
  all: unfold wf in *; proto_wf.
Qed.

(** Parsing builds through the same accessors. *)
Lemma C_CREATE_ROOM_parse_built m f : built m → built (parse_field m f).
Proof. intros Hm. unfold parse_field. repeat case_match; try exact Hm; try (constructor; exact Hm). all: apply (foldl_built built); [|exact Hm]; intros; by constructor. Qed.

End C_CREATE_ROOM_ops.

(** ** S_CREATE_ROOM *)

Module S_CREATE_ROOM_ops.
Import S_CREATE_ROOM.

Definition clear_issuccess (m : t) : t := mk (ClearHasBit (has_bits m) 2) false (roomname m).

Definition clear_roomname (m : t) : t := mk (ClearHasBit (has_bits m) 1) (issuccess m) [].
Definition mutable_roomname (f : list byte → list byte) (m : t) : t := mk (Z.lor (has_bits m) 1) (issuccess m) (f (roomname m)).
Definition release_roomname (m : t) : option (list byte) * t :=
  if CheckHasBit (has_bits m) 1 then (Some (roomname m), mk (ClearHasBit (has_bits m) 1) (issuccess m) []) else (None, m).
Definition set_allocated_roomname (value : option (list byte)) (m : t) : t :=
  match value with
  | Some v => mk (Z.lor (has_bits m) 1) (issuccess m) v
  | None => mk (ClearHasBit (has_bits m) 1) (issuccess m) []
  end.

Definition InternalSwap (a b : t) : t * t :=
  (mk (has_bits b) (issuccess b) (roomname b), mk (has_bits a) (issuccess a) (roomname a)).
Definition Swap (a b : t) : t * t := InternalSwap a b.
Definition move_assign (to from : t) : t * t := InternalSwap to from.

(** What the interface can make. *)
Inductive built : t → Prop :=
| b_new : built new
| b_set_issuccess v m : built m → built (set_issuccess v m)
| b_clear_issuccess m : built m → built (clear_issuccess m)
| b_set_roomname v m : built m → built (set_roomname v m)
| b_clear_roomname m : built m → built (clear_roomname m)
| b_mutable_roomname f m : built m → built (mutable_roomname f m)
| b_release_roomname m : built m → built (release_roomname m).2
| b_set_allocated_roomname v m : built m → built (set_allocated_roomname v m)
| b_Clear m : built m → built (Clear m)
| b_MergeImpl a b : built a → built b → built (MergeImpl a b)
| b_CopyFrom a b : built a → built b → built (CopyFrom a b)
| b_Swap_l a b : built a → built b → built (Swap a b).1
| b_Swap_r a b : built a → built b → built (Swap a b).2.

Lemma S_CREATE_ROOM_merge_wf a b : wf a → wf b → wf (MergeImpl a b).
Proof. unfold wf, MergeImpl. proto_merge. Qed.

Lemma S_CREATE_ROOM_built_wf m : built m → wf m.
Proof.
  induction 1.
  all: try (by apply S_CREATE_ROOM_merge_wf).
  all: try (by apply S_CREATE_ROOM_copy).
  all: try (rewrite S_CREATE_ROOM_clear by done; unfold wf; proto_wf; fail).
  all: try (unfold release_roomname, set_allocated_roomname; case_match; unfold wf in *; proto_wf; fail).
  all: unfold wf in *; proto_wf.
Qed.

(** Parsing builds through the same accessors. *)
Lemma S_CREATE_ROOM_parse_built m f : built m → built (parse_field m f).
Proof. intros Hm. unfold parse_field. repeat case_match; try exact Hm; try (constructor; exact Hm). all: apply (foldl_built built); [|exact Hm]; intros; by constructor. Qed.

End S_CREATE_ROOM_ops.

(** ** C_JOIN_ROOM *)

Module C_JOIN_ROOM_ops.
Import C_JOIN_ROOM.

Definition clear_id (m : t) : t := mk (ClearHasBit (has_bits m) 1) [] (roomname m).
Definition mutable_id (f : list byte → list byte) (m : t) : t := mk (Z.lor (has_bits m) 1) (f (id m)) (roomname m).
Definition release_id (m : t) : option (list byte) * t :=
  if CheckHasBit (has_bits m) 1 then (Some (id m), mk (ClearHasBit (has_bits m) 1) [] (roomname m)) else (None, m).
Definition set_allocated_id (value : option (list byte)) (m : t) : t :=
  match value with
  | Some v => mk (Z.lor (has_bits m) 1) v (roomname m)
  | None => mk (ClearHasBit (has_bits m) 1) [] (roomname m)
  end.

Definition clear_roomname (m : t) : t := mk (ClearHasBit (has_bits m) 2) (id m) [].
Definition mutable_roomname (f : list byte → list byte) (m : t) : t := mk (Z.lor (has_bits m) 2) (id m) (f (roomname m)).
Definition release_roomname (m : t) : option (list byte) * t :=
  if CheckHasBit (has_bits m) 2 then (Some (roomname m), mk (ClearHasBit (has_bits m) 2) (id m) []) else (None, m).
Definition set_allocated_roomname (value : option (list byte)) (m : t) : t :=
  match value with
  | Some v => mk (Z.lor (has_bits m) 2) (id m) v
  | None => mk (ClearHasBit (has_bits m) 2) (id m) []
  end.

Definition InternalSwap (a b : t) : t * t :=
  (mk (has_bits b) (id b) (roomname b), mk (has_bits a) (id a) (roomname a)).
Definition Swap (a b : t) : t * t := InternalSwap a b.
Definition move_assign (to from : t) : t * t := InternalSwap to from.

(** What the interface can make. *)
Inductive built : t → Prop :=
| b_new : built new
| b_set_id v m : built m → built (set_id v m)
| b_clear_id m : built m → built (clear_id m)
| b_mutable_id f m : built m → built (mutable_id f m)
| b_release_id m : built m → built (release_id m).2
| b_set_allocated_id v m : built m → built (set_allocated_id v m)
| b_set_roomname v m : built m → built (set_roomname v m)
| b_clear_roomname m : built m → built (clear_roomname m)
| b_mutable_roomname f m : built m → built (mutable_roomname f m)
| b_release_roomname m : built m → built (release_roomname m).2
| b_set_allocated_roomname v m : built m → built (set_allocated_roomname v m)
| b_Clear m : built m → built (Clear m)
| b_MergeImpl a b : built a → built b → built (MergeImpl a b)
| b_CopyFrom a b : built a → built b → built (CopyFrom a b)
| b_Swap_l a b : built a → built b → built (Swap a b).1
| b_Swap_r a b : built a → built b → built (Swap a b).2.

Lemma C_JOIN_ROOM_merge_wf a b : wf a → wf b → wf (MergeImpl a b).
Proof. unfold wf, MergeImpl. proto_merge. Qed.

Lemma C_JOIN_ROOM_built_wf m : built m → wf m.
Proof.
  induction 1.
  all: try (by apply C_JOIN_ROOM_merge_wf).
  all: try (by apply C_JOIN_ROOM_copy).
  all: try (rewrite C_JOIN_ROOM_clear by done; unfold wf; proto_wf; fail).
  all: try (unfold release_id, release_roomname, set_allocated_id, set_allocated_roomname; case_match; unfold wf in *; proto_wf; fail).
  all: unfold wf in *; proto_wf.
Qed.

(** Parsing builds through the same accessors. *)
Lemma C_JOIN_ROOM_parse_built m f : built m → built (parse_field m f).
Proof. intros Hm. unfold parse_field. repeat case_match; try exact Hm; try (constructor; exact Hm). all: apply (foldl_built built); [|exact Hm]; intros; by constructor. Qed.

End C_JOIN_ROOM_ops.

(** ** S_JOIN_ROOM *)

Module S_JOIN_ROOM_ops.
Import S_JOIN_ROOM.

Definition clear_issuccess (m : t) : t := mk (ClearHasBit (has_bits m) 4) false (roomname m) (userids m).

Definition clear_roomname (m : t) : t := mk (ClearHasBit (has_bits m) 2) (issuccess m) [] (userids m).
Definition mutable_roomname (f : list byte → list byte) (m : t) : t := mk (Z.lor (has_bits m) 2) (issuccess m) (f (roomname m)) (userids m).
Definition release_roomname (m : t) : option (list byte) * t :=
  if CheckHasBit (has_bits m) 2 then (Some (roomname m), mk (ClearHasBit (has_bits m) 2) (issuccess m) [] (userids m)) else (None, m).
Definition set_allocated_roomname (value : option (list byte)) (m : t) : t :=
  match value with
  | Some v => mk (Z.lor (has_bits m) 2) (issuccess m) v (userids m)
  | None => mk (ClearHasBit (has_bits m) 2) (issuccess m) [] (userids m)
  end.

Definition userids_size (m : t) : Z := zlen (userids m).
Definition userids_at (index : Z) (m : t) : result (list byte) := at_index (userids m) index.
Definition clear_userids (m : t) : t := mk (ClearHasBit (has_bits m) 1) (issuccess m) (roomname m) [].
Definition mutable_userids (f : list (list byte) → list (list byte)) (m : t) : t := mk (Z.lor (has_bits m) 1) (issuccess m) (roomname m) (f (userids m)).
Definition set_userids (index : Z) (value : list byte) (m : t) : result t :=
  match upd_index (λ _, value) (userids m) index with
  | Ret l => Ret (mk (has_bits m) (issuccess m) (roomname m) l)
  | Crash e => Crash e
  end.
Definition mutable_userids_at (index : Z) (f : list byte → list byte) (m : t) : result t :=
  match upd_index f (userids m) index with
  | Ret l => Ret (mk (has_bits m) (issuccess m) (roomname m) l)
  | Crash e => Crash e
  end.
Definition add_mutable_userids (f : list byte → list byte) (m : t) : t := mk (Z.lor (has_bits m) 1) (issuccess m) (roomname m) (userids m ++ [f []]).

Definition InternalSwap (a b : t) : t * t :=
  (mk (has_bits b) (issuccess b) (roomname b) (userids b), mk (has_bits a) (issuccess a) (roomname a) (userids a)).
Definition Swap (a b : t) : t * t := InternalSwap a b.
Definition move_assign (to from : t) : t * t := InternalSwap to from.

(** What the interface can make. *)
Inductive built : t → Prop :=
| b_new : built new
| b_set_issuccess v m : built m → built (set_issuccess v m)
| b_clear_issuccess m : built m → built (clear_issuccess m)
| b_set_roomname v m : built m → built (set_roomname v m)
| b_clear_roomname m : built m → built (clear_roomname m)
| b_mutable_roomname f m : built m → built (mutable_roomname f m)
| b_release_roomname m : built m → built (release_roomname m).2
| b_set_allocated_roomname v m : built m → built (set_allocated_roomname v m)
| b_add_userids v m : built m → built (add_userids v m)
| b_clear_userids m : built m → built (clear_userids m)
| b_set_userids i v m m' : built m → set_userids i v m = Ret m' → built m'
| b_mutable_userids f m : built m → built (mutable_userids f m)
| b_mutable_userids_at i f m m' : built m → mutable_userids_at i f m = Ret m' → built m'
| b_add_mutable_userids f m : built m → built (add_mutable_userids f m)
| b_Clear m : built m → built (Clear m)
| b_MergeImpl a b : built a → built b → built (MergeImpl a b)
| b_CopyFrom a b : built a → built b → built (CopyFrom a b)
| b_Swap_l a b : built a → built b → built (Swap a b).1
| b_Swap_r a b : built a → built b → built (Swap a b).2.

Lemma S_JOIN_ROOM_merge_wf a b : wf a → wf b → wf (MergeImpl a b).
Proof. unfold wf, MergeImpl. proto_merge. Qed.

Lemma S_JOIN_ROOM_built_wf m : built m → wf m.
Proof.
  induction 1.
  all: try (by apply S_JOIN_ROOM_merge_wf).
  all: try (by apply S_JOIN_ROOM_copy).
  all: try (rewrite S_JOIN_ROOM_clear by done; unfold wf; proto_wf; fail).
  all: try (unfold set_userids, mutable_userids_at in *; case_match eqn:E; [|done]; simplify_eq; apply upd_index_nonempty in E; unfold wf in *; proto_wf; fail).
  all: try (unfold release_roomname, set_allocated_roomname; case_match; unfold wf in *; proto_wf; fail).
  all: unfold wf in *; proto_wf.
Qed.

(** Parsing builds through the same accessors. *)
Lemma S_JOIN_ROOM_parse_built m f : built m → built (parse_field m f).
Proof. intros Hm. unfold parse_field. repeat case_match; try exact Hm; try (constructor; exact Hm). all: apply (foldl_built built); [|exact Hm]; intros; by constructor. Qed.

End S_JOIN_ROOM_ops.

(** ** S_REFRESH_ROOM *)

Module S_REFRESH_ROOM_ops.
Import S_REFRESH_ROOM.

Definition userids_size (m : t) : Z := zlen (userids m).
Definition userids_at (index : Z) (m : t) : result (list byte) := at_index (userids m) index.
Definition clear_userids (m : t) : t := mk (ClearHasBit (has_bits m) 1) [].
Definition mutable_userids (f : list (list byte) → list (list byte)) (m : t) : t := mk (Z.lor (has_bits m) 1) (f (userids m)).
Definition set_userids (index : Z) (value : list byte) (m : t) : result t :=
  match upd_index (λ _, value) (userids m) index with
  | Ret l => Ret (mk (has_bits m) l)
  | Crash e => Crash e
  end.
Definition mutable_userids_at (index : Z) (f : list byte → list byte) (m : t) : result t :=
  match upd_index f (userids m) index with
  | Ret l => Ret (mk (has_bits m) l)
  | Crash e => Crash e
  end.
Definition add_mutable_userids (f : list byte → list byte) (m : t) : t := mk (Z.lor (has_bits m) 1) (userids m ++ [f []]).

Definition InternalSwap (a b : t) : t * t :=
  (mk (has_bits b) (userids b), mk (has_bits a) (userids a)).
Definition Swap (a b : t) : t * t := InternalSwap a b.
Definition move_assign (to from : t) : t * t := InternalSwap to from.

(** What the interface can make. *)
Inductive built : t → Prop :=
| b_new : built new
| b_add_userids v m : built m → built (add_userids v m)
| b_clear_userids m : built m → built (clear_userids m)
| b_set_userids i v m m' : built m → set_userids i v m = Ret m' → built m'
| b_mutable_userids f m : built m → built (mutable_userids f m)
| b_mutable_userids_at i f m m' : built m → mutable_userids_at i f m = Ret m' → built m'
| b_add_mutable_userids f m : built m → built (add_mutable_userids f m)
| b_Clear m : built m → built (Clear m)
| b_MergeImpl a b : built a → built b → built (MergeImpl a b)
| b_CopyFrom a b : built a → built b → built (CopyFrom a b)
| b_Swap_l a b : built a → built b → built (Swap a b).1
| b_Swap_r a b : built a → built b → built (Swap a b).2.

Lemma S_REFRESH_ROOM_merge_wf a b : wf a → wf b → wf (MergeImpl a b).
Proof. unfold wf, MergeImpl. proto_merge. Qed.

Lemma S_REFRESH_ROOM_built_wf m : built m → wf m.
Proof.
  induction 1.
  all: try (by apply S_REFRESH_ROOM_merge_wf).
  all: try (by apply S_REFRESH_ROOM_copy).
  all: try (rewrite S_REFRESH_ROOM_clear by done; unfold wf; proto_wf; fail).
  all: try (unfold set_userids, mutable_userids_at in *; case_match eqn:E; [|done]; simplify_eq; apply upd_index_nonempty in E; unfold wf in *; proto_wf; fail).
  all: unfold wf in *; proto_wf.
Qed.

(** Parsing builds through the same accessors. *)
Lemma S_REFRESH_ROOM_parse_built m f : built m → built (parse_field m f).
Proof. intros Hm. unfold parse_field. repeat case_match; try exact Hm; try (constructor; exact Hm). all: apply (foldl_built built); [|exact Hm]; intros; by constructor. Qed.

End S_REFRESH_ROOM_ops.

(** ** C_CHAT_LOG *)

Module C_CHAT_LOG_ops.
Import C_CHAT_LOG.

Definition clear_id (m : t) : t := mk (ClearHasBit (has_bits m) 1) [] (roomname m) (log m).
Definition mutable_id (f : list byte → list byte) (m : t) : t := mk (Z.lor (has_bits m) 1) (f (id m)) (roomname m) (log m).
Definition release_id (m : t) : option (list byte) * t :=
  if CheckHasBit (has_bits m) 1 then (Some (id m), mk (ClearHasBit (has_bits m) 1) [] (roomname m) (log m)) else (None, m).
Definition set_allocated_id (value : option (list byte)) (m : t) : t :=
  match value with
  | Some v => mk (Z.lor (has_bits m) 1) v (roomname m) (log m)
  | None => mk (ClearHasBit (has_bits m) 1) [] (roomname m) (log m)
  end.

Definition clear_roomname (m : t) : t := mk (ClearHasBit (has_bits m) 2) (id m) [] (log m).
Definition mutable_roomname (f : list byte → list byte) (m : t) : t := mk (Z.lor (has_bits m) 2) (id m) (f (roomname m)) (log m).
Definition release_roomname (m : t) : option (list byte) * t :=
  if CheckHasBit (has_bits m) 2 then (Some (roomname m), mk (ClearHasBit (has_bits m) 2) (id m) [] (log m)) else (None, m).
Definition set_allocated_roomname (value : option (list byte)) (m : t) : t :=
  match value with
  | Some v => mk (Z.lor (has_bits m) 2) (id m) v (log m)
  | None => mk (ClearHasBit (has_bits m) 2) (id m) [] (log m)
  end.

Definition clear_log (m : t) : t := mk (ClearHasBit (has_bits m) 4) (id m) (roomname m) [].
Definition mutable_log (f : list byte → list byte) (m : t) : t := mk (Z.lor (has_bits m) 4) (id m) (roomname m) (f (log m)).
Definition release_log (m : t) : option (list byte) * t :=
  if CheckHasBit (has_bits m) 4 then (Some (log m), mk (ClearHasBit (has_bits m) 4) (id m) (roomname m) []) else (None, m).
Definition set_allocated_log (value : option (list byte)) (m : t) : t :=
  match value with
  | Some v => mk (Z.lor (has_bits m) 4) (id m) (roomname m) v
  | None => mk (ClearHasBit (has_bits m) 4) (id m) (roomname m) []
  end.

Definition InternalSwap (a b : t) : t * t :=
  (mk (has_bits b) (id b) (roomname b) (log b), mk (has_bits a) (id a) (roomname a) (log a)).
Definition Swap (a b : t) : t * t := InternalSwap a b.
Definition move_assign (to from : t) : t * t := InternalSwap to from.

(** What the interface can make. *)
Inductive built : t → Prop :=
| b_new : built new
| b_set_id v m : built m → built (set_id v m)
| b_clear_id m : built m → built (clear_id m)
| b_mutable_id f m : built m → built (mutable_id f m)
| b_release_id m : built m → built (release_id m).2
| b_set_allocated_id v m : built m → built (set_allocated_id v m)
| b_set_roomname v m : built m → built (set_roomname v m)
| b_clear_roomname m : built m → built (clear_roomname m)
| b_mutable_roomname f m : built m → built (mutable_roomname f m)
| b_release_roomname m : built m → built (release_roomname m).2
| b_set_allocated_roomname v m : built m → built (set_allocated_roomname v m)
| b_set_log v m : built m → built (set_log v m)
| b_clear_log m : built m → built (clear_log m)
| b_mutable_log f m : built m → built (mutable_log f m)
| b_release_log m : built m → built (release_log m).2
| b_set_allocated_log v m : built m → built (set_allocated_log v m)
| b_Clear m : built m → built (Clear m)
| b_MergeImpl a b : built a → built b → built (MergeImpl a b)
| b_CopyFrom a b : built a → built b → built (CopyFrom a b)
| b_Swap_l a b : built a → built b → built (Swap a b).1
| b_Swap_r a b : built a → built b → built (Swap a b).2.

Lemma C_CHAT_LOG_merge_wf a b : wf a → wf b → wf (MergeImpl a b).
Proof. unfold wf, MergeImpl. proto_merge. Qed.

Lemma C_CHAT_LOG_built_wf m : built m → wf m.
Proof.
  induction 1.
  all: try (by apply C_CHAT_LOG_merge_wf).
  all: try (by apply C_CHAT_LOG_copy).
  all: try (rewrite C_CHAT_LOG_clear by done; unfold wf; proto_wf; fail).
  all: try (unfold release_id, release_roomname, release_log, set_allocated_id, set_allocated_roomname, set_allocated_log; case_match; unfold wf in *; proto_wf; fail).
  all: unfold wf in *; proto_wf.
Qed.

(** Parsing builds through the same accessors. *)
Lemma C_CHAT_LOG_parse_built m f : built m → built (parse_field m f).
Proof. intros Hm. unfold parse_field. repeat case_match; try exact Hm; try (constructor; exact Hm). all: apply (foldl_built built); [|exact Hm]; intros; by constructor. Qed.

End C_CHAT_LOG_ops.

(** ** S_CHAT_LOG *)

Module S_CHAT_LOG_ops.
Import S_CHAT_LOG.

Definition clear_id (m : t) : t := mk (ClearHasBit (has_bits m) 1) [] (log m).
Definition mutable_id (f : list byte → list byte) (m : t) : t := mk (Z.lor (has_bits m) 1) (f (id m)) (log m).
Definition release_id (m : t) : option (list byte) * t :=
  if CheckHasBit (has_bits m) 1 then (Some (id m), mk (ClearHasBit (has_bits m) 1) [] (log m)) else (None, m).
Definition set_allocated_id (value : option (list byte)) (m : t) : t :=
  match value with
  | Some v => mk (Z.lor (has_bits m) 1) v (log m)
  | None => mk (ClearHasBit (has_bits m) 1) [] (log m)
  end.

Definition clear_log (m : t) : t := mk (ClearHasBit (has_bits m) 2) (id m) [].
Definition mutable_log (f : list byte → list byte) (m : t) : t := mk (Z.lor (has_bits m) 2) (id m) (f (log m)).
Definition release_log (m : t) : option (list byte) * t :=
  if CheckHasBit (has_bits m) 2 then (Some (log m), mk (ClearHasBit (has_bits m) 2) (id m) []) else (None, m).
Definition set_allocated_log (value : option (list byte)) (m : t) : t :=
  match value with
  | Some v => mk (Z.lor (has_bits m) 2) (id m) v
  | None => mk (ClearHasBit (has_bits m) 2) (id m) []
  end.

Definition InternalSwap (a b : t) : t * t :=
  (mk (has_bits b) (id b) (log b), mk (has_bits a) (id a) (log a)).
Definition Swap (a b : t) : t * t := InternalSwap a b.
Definition move_assign (to from : t) : t * t := InternalSwap to from.

(** What the interface can make. *)
Inductive built : t → Prop :=
| b_new : built new
| b_set_id v m : built m → built (set_id v m)
| b_clear_id m : built m → built (clear_id m)
| b_mutable_id f m : built m → built (mutable_id f m)
| b_release_id m : built m → built (release_id m).2
| b_set_allocated_id v m : built m → built (set_allocated_id v m)
| b_set_log v m : built m → built (set_log v m)
| b_clear_log m : built m → built (clear_log m)
| b_mutable_log f m : built m → built (mutable_log f m)
| b_release_log m : built m → built (release_log m).2
| b_set_allocated_log v m : built m → built (set_allocated_log v m)
| b_Clear m : built m → built (Clear m)
| b_MergeImpl a b : built a → built b → built (MergeImpl a b)
| b_CopyFrom a b : built a → built b → built (CopyFrom a b)
| b_Swap_l a b : built a → built b → built (Swap a b).1
| b_Swap_r a b : built a → built b → built (Swap a b).2.

Lemma S_CHAT_LOG_merge_wf a b : wf a → wf b → wf (MergeImpl a b).
Proof. unfold wf, MergeImpl. proto_merge. Qed.

Lemma S_CHAT_LOG_built_wf m : built m → wf m.
Proof.
  induction 1.
  all: try (by apply S_CHAT_LOG_merge_wf).
  all: try (by apply S_CHAT_LOG_copy).
  all: try (rewrite S_CHAT_LOG_clear by done; unfold wf; proto_wf; fail).
  all: try (unfold release_id, release_log, set_allocated_id, set_allocated_log; case_match; unfold wf in *; proto_wf; fail).
  all: unfold wf in *; proto_wf.
Qed.

(** Parsing builds through the same accessors. *)
Lemma S_CHAT_LOG_parse_built m f : built m → built (parse_field m f).
Proof. intros Hm. unfold parse_field. repeat case_match; try exact Hm; try (constructor; exact Hm). all: apply (foldl_built built); [|exact Hm]; intros; by constructor. Qed.

End S_CHAT_LOG_ops.

(** ** C_ROOM_OUT *)

Module C_ROOM_OUT_ops.
Import C_ROOM_OUT.

Definition clear_id (m : t) : t := mk (ClearHasBit (has_bits m) 1) [] (roomname m).
Definition mutable_id (f : list byte → list byte) (m : t) : t := mk (Z.lor (has_bits m) 1) (f (id m)) (roomname m).
Definition release_id (m : t) : option (list byte) * t :=
  if CheckHasBit (has_bits m) 1 then (Some (id m), mk (ClearHasBit (has_bits m) 1) [] (roomname m)) else (None, m).
Definition set_allocated_id (value : option (list byte)) (m : t) : t :=
  match value with
  | Some v => mk (Z.lor (has_bits m) 1) v (roomname m)
  | None => mk (ClearHasBit (has_bits m) 1) [] (roomname m)
  end.

Definition clear_roomname (m : t) : t := mk (ClearHasBit (has_bits m) 2) (id m) [].
Definition mutable_roomname (f : list byte → list byte) (m : t) : t := mk (Z.lor (has_bits m) 2) (id m) (f (roomname m)).
Definition release_roomname (m : t) : option (list byte) * t :=
  if CheckHasBit (has_bits m) 2 then (Some (roomname m), mk (ClearHasBit (has_bits m) 2) (id m) []) else (None, m).
Definition set_allocated_roomname (value : option (list byte)) (m : t) : t :=
  match value with
  | Some v => mk (Z.lor (has_bits m) 2) (id m) v
  | None => mk (ClearHasBit (has_bits m) 2) (id m) []
  end.

Definition InternalSwap (a b : t) : t * t :=
  (mk (has_bits b) (id b) (roomname b), mk (has_bits a) (id a) (roomname a)).
Definition Swap (a b : t) : t * t := InternalSwap a b.
Definition move_assign (to from : t) : t * t := InternalSwap to from.

(** What the interface can make. *)
Inductive built : t → Prop :=
| b_new : built new
| b_set_id v m : built m → built (set_id v m)
| b_clear_id m : built m → built (clear_id m)
| b_mutable_id f m : built m → built (mutable_id f m)
| b_release_id m : built m → built (release_id m).2
| b_set_allocated_id v m : built m → built (set_allocated_id v m)
| b_set_roomname v m : built m → built (set_roomname v m)
| b_clear_roomname m : built m → built (clear_roomname m)
| b_mutable_roomname f m : built m → built (mutable_roomname f m)
| b_release_roomname m : built m → built (release_roomname m).2
| b_set_allocated_roomname v m : built m → built (set_allocated_roomname v m)
| b_Clear m : built m → built (Clear m)
| b_MergeImpl a b : built a → built b → built (MergeImpl a b)
| b_CopyFrom a b : built a → built b → built (CopyFrom a b)
| b_Swap_l a b : built a → built b → built (Swap a b).1
| b_Swap_r a b : built a → built b → built (Swap a b).2.

Lemma C_ROOM_OUT_merge_wf a b : wf a → wf b → wf (MergeImpl a b).
Proof. unfold wf, MergeImpl. proto_merge. Qed.

Lemma C_ROOM_OUT_built_wf m : built m → wf m.
Proof.
  induction 1.
  all: try (by apply C_ROOM_OUT_merge_wf).
  all: try (by apply C_ROOM_OUT_copy).
  all: try (rewrite C_ROOM_OUT_clear by done; unfold wf; proto_wf; fail).
  all: try (unfold release_id, release_roomname, set_allocated_id, set_allocated_roomname; case_match; unfold wf in *; proto_wf; fail).
  all: unfold wf in *; proto_wf.
Qed.

(** Parsing builds through the same accessors. *)
Lemma C_ROOM_OUT_parse_built m f : built m → built (parse_field m f).
Proof. intros Hm. unfold parse_field. repeat case_match; try exact Hm; try (constructor; exact Hm). all: apply (foldl_built built); [|exact Hm]; intros; by constructor. Qed.

End C_ROOM_OUT_ops.

(** ** All messages *)

Module MsgOps.

Definition built (p : Msg.t) : Prop :=
  match p with
  | Msg.C_LOGIN m => C_LOGIN_ops.built m
  | Msg.S_LOGIN m => S_LOGIN_ops.built m
  | Msg.C_REGISTER m => C_REGISTER_ops.built m
  | Msg.S_REGISTER m => S_REGISTER_ops.built m
  | Msg.S_REFRESH_LOBBY m => S_REFRESH_LOBBY_ops.built m
  | Msg.C_CREATE_ROOM m => C_CREATE_ROOM_ops.built m
  | Msg.S_CREATE_ROOM m => S_CREATE_ROOM_ops.built m
  | Msg.C_JOIN_ROOM m => C_JOIN_ROOM_ops.built m
  | Msg.S_JOIN_ROOM m => S_JOIN_ROOM_ops.built m
  | Msg.S_REFRESH_ROOM m => S_REFRESH_ROOM_ops.built m
  | Msg.C_CHAT_LOG m => C_CHAT_LOG_ops.built m
  | Msg.S_CHAT_LOG m => S_CHAT_LOG_ops.built m
  | Msg.C_ROOM_OUT m => C_ROOM_OUT_ops.built m
  | Msg.C_REFRESH_LOBBY | Msg.S_ROOM_OUT => True
  end.

Lemma new_built k : built (Msg.new k).
Proof. destruct k; simpl; first [done | constructor]. Qed.

Lemma built_wf p : built p → Msg.wf p.
Proof.
  destruct p; simpl; first [done | apply C_LOGIN_ops.C_LOGIN_built_wf | apply S_LOGIN_ops.S_LOGIN_built_wf | apply C_REGISTER_ops.C_REGISTER_built_wf | apply S_REGISTER_ops.S_REGISTER_built_wf | apply S_REFRESH_LOBBY_ops.S_REFRESH_LOBBY_built_wf | apply C_CREATE_ROOM_ops.C_CREATE_ROOM_built_wf | apply S_CREATE_ROOM_ops.S_CREATE_ROOM_built_wf | apply C_JOIN_ROOM_ops.C_JOIN_ROOM_built_wf | apply S_JOIN_ROOM_ops.S_JOIN_ROOM_built_wf | apply S_REFRESH_ROOM_ops.S_REFRESH_ROOM_built_wf | apply C_CHAT_LOG_ops.C_CHAT_LOG_built_wf | apply S_CHAT_LOG_ops.S_CHAT_LOG_built_wf | apply C_ROOM_OUT_ops.C_ROOM_OUT_built_wf].
Qed.

Lemma parse_field_built p f : built p → built (Msg.parse_field p f).
Proof.
  destruct p; simpl; first [done | apply C_LOGIN_ops.C_LOGIN_parse_built | apply S_LOGIN_ops.S_LOGIN_parse_built | apply C_REGISTER_ops.C_REGISTER_parse_built | apply S_REGISTER_ops.S_REGISTER_parse_built | apply S_REFRESH_LOBBY_ops.S_REFRESH_LOBBY_parse_built | apply C_CREATE_ROOM_ops.C_CREATE_ROOM_parse_built | apply S_CREATE_ROOM_ops.S_CREATE_ROOM_parse_built | apply C_JOIN_ROOM_ops.C_JOIN_ROOM_parse_built | apply S_JOIN_ROOM_ops.S_JOIN_ROOM_parse_built | apply S_REFRESH_ROOM_ops.S_REFRESH_ROOM_parse_built | apply C_CHAT_LOG_ops.C_CHAT_LOG_parse_built | apply S_CHAT_LOG_ops.S_CHAT_LOG_parse_built | apply C_ROOM_OUT_ops.C_ROOM_OUT_parse_built].
Qed.

Lemma clear_built p : built p → Msg.Clear p = Msg.new (Msg.kind_of p).
Proof.
  intros Hp%built_wf. destruct p; simpl in *; first [done | f_equal; first [by apply C_LOGIN.C_LOGIN_clear | by apply S_LOGIN.S_LOGIN_clear | by apply C_REGISTER.C_REGISTER_clear | by apply S_REGISTER.S_REGISTER_clear | by apply S_REFRESH_LOBBY.S_REFRESH_LOBBY_clear | by apply C_CREATE_ROOM.C_CREATE_ROOM_clear | by apply S_CREATE_ROOM.S_CREATE_ROOM_clear | by apply C_JOIN_ROOM.C_JOIN_ROOM_clear | by apply S_JOIN_ROOM.S_JOIN_ROOM_clear | by apply S_REFRESH_ROOM.S_REFRESH_ROOM_clear | by apply C_CHAT_LOG.C_CHAT_LOG_clear | by apply S_CHAT_LOG.S_CHAT_LOG_clear | by apply C_ROOM_OUT.C_ROOM_OUT_clear]].
Qed.

Lemma parse_field_kind p f : Msg.kind_of (Msg.parse_field p f) = Msg.kind_of p.
Proof. by destruct p. Qed.

Lemma fields_built k fs : built (foldl Msg.parse_field (Msg.new k) fs) ∧ Msg.kind_of (foldl Msg.parse_field (Msg.new k) fs) = k.
Proof.
  apply (foldl_built (λ p, built p ∧ Msg.kind_of p = k)).
  - intros p f [Hp Hk]. rewrite parse_field_kind. split; [by apply parse_field_built|done].
  - split; [apply new_built|by destruct k].
Qed.

(** C31: presence bits.  However a message is built, through the accessors, merges,
    copies and swaps of its class or by the parser, every field that is not at its
    default has its presence bit, so that [_InternalSerialize] writes it and
    [Clear] resets it. *)
Theorem messages_consistent `{Msg.Parser} :
  (∀ p, built p → Msg.wf p ∧ Msg.Clear p = Msg.new (Msg.kind_of p)) ∧
  (∀ k fs, Forall wf_field fs → Forall (λ f, Msg.known k f = true) fs →
     ∃ p, Msg.ParseFromArray k (concat (enc <$> fs)) = Some p ∧ Msg.kind_of p = k ∧ built p).
Proof.
  split; [intros p Hp; split; [by apply built_wf|by apply clear_built]|].
  intros k fs H1 H2. rewrite Msg.ParseFromArray_fields by done. destruct (fields_built k fs). eauto.
Qed.

(** A line whose id was written in place, released and set again. *)
Definition reused : C_CHAT_LOG.t :=
  C_CHAT_LOG.set_id [x62] (C_CHAT_LOG_ops.release_id (C_CHAT_LOG_ops.mutable_id (λ s, s ++ [x61]) C_CHAT_LOG.new)).2.

Lemma messages_consistent_witness :
  Msg.wf (Msg.C_CHAT_LOG reused) ∧ Msg.Clear (Msg.C_CHAT_LOG reused) = Msg.C_CHAT_LOG C_CHAT_LOG.new.
Proof.
  apply (proj1 (messages_consistent (H := Msg.reference_parser)) (Msg.C_CHAT_LOG reused)).
  exact (C_CHAT_LOG_ops.b_set_id _ _ (C_CHAT_LOG_ops.b_release_id _ (C_CHAT_LOG_ops.b_mutable_id _ _ C_CHAT_LOG_ops.b_new))).
Defined.

End MsgOps.
