(* ===== verification/Database.v ===== *)
(** * Database: connections, bindings and the connection pool
      (ServerCore/DBConnection.*, DBBind.h, DBConnectionPool.*, StringUtil.cpp)

    The ODBC driver and the database behind it are the class [Odbc]: a state
    and what [SQLExecDirectW] does to it, given the statement text and the
    bound parameters, and which bindings and fetches the driver accepts.  A connection
    keeps what is bound and the rows of its cursor.  Windows' string conversions are the class [WinText]. *)

From S2P Require Import Prelude.
#[local] Open Scope Z_scope.

(** ** Text (StringUtil.cpp) *)

Definition wstr : Type := list Z.
Definition str : Type := list byte.

#[global] Instance byte_countable : Countable byte :=
  inj_countable Byte.to_N Byte.of_N Byte.of_to_N.
#[global] Instance str_eq_dec : EqDecision str.
Proof. unfold str. apply _. Defined.
#[global] Instance str_countable : Countable str.
Proof. unfold str. apply _. Defined.

(** [MultiByteToWideChar] and [WideCharToMultiByte] for [CP_UTF8]. *)
Class WinText : Type := {
  MultiByteToWideChar : str → wstr;
  WideCharToMultiByte : wstr → str
}.

(** UTF-8 spends at most three bytes on a UTF-16 unit. *)
Class WinTextLen `{WinText} : Prop := {
  WideCharToMultiByte_len : ∀ ws, zlen (WideCharToMultiByte ws) ≤ 3 * zlen ws
}.

Definition Utf8ToWstring `{WinText} (utf8str : str) : wstr :=
  match utf8str with [] => [] | _ => MultiByteToWideChar utf8str end.

(** The wide string up to its terminator. *)
Fixpoint c_wstr (w : wstr) : wstr :=
  match w with
  | [] => []
  | c :: w' => if c =? 0 then [] else c :: c_wstr w'
  end.

(** [L"..."]. *)
Definition wlit (s : string) : wstr := (λ a, Z.of_N (Ascii.N_of_ascii a)) <$> String.list_ascii_of_string s.

Definition WCHARToUTF8 `{WinText} (wstr : wstr) : str := WideCharToMultiByte (c_wstr wstr).

(** ** Values

    Floating-point values as the bits of their format. *)

Inductive value : Type :=
| VNull
| VInt (z : Z)
| VStr (w : wstr)
| VReal (bits : Z)
| VDouble (bits : Z)
| VTime.

#[global] Instance value_eq_dec : EqDecision value.
Proof. solve_decision. Defined.

(** What [SQLExecDirectW] does: an error, or the rows of the result set and the
    new state. *)
Inductive sqlres (D : Type) : Type :=
| SqlOk (rows : list (list value)) (d : D)
| SqlError.
Arguments SqlOk {D} rows d.
Arguments SqlError {D}.

(** [SQLBindParameter] and [SQLBindCol] are given an index and are true when the call
    succeeds, with or without information; [SQLFetch d rows] is false when the fetch of the
    next of [rows] answers [SQL_ERROR]. *)
Class Odbc (D : Type) : Type := {
  SQLExecDirectW : string → gmap Z value → D → sqlres D;
  SQLBindParameter : Z → value → bool;
  SQLBindCol : Z → bool;
  SQLFetch : D → list (list value) → bool
}.

(** A driver that binds what it is given and delivers the rows of a result set. *)
Class OdbcAnswers (D : Type) `{!Odbc D} : Prop := {
  bind_parameter_law : ∀ i v, SQLBindParameter i v = true;
  bind_col_law : ∀ i, SQLBindCol i = true;
  fetch_law : ∀ d rows, SQLFetch d rows = true
}.

(** ** DBConnection *)

Module DBConnection.

Definition WVARCHAR_MAX : Z := 4000.
Definition BINARY_MAX : Z := 8000.

(** The C variable a parameter is bound to. *)
Inductive cvar : Type :=
| CBool (b : bool)
| CFloat (bits : Z) | CDouble (bits : Z)
| CInt8 (z : Z) | CInt16 (z : Z) | CInt32 (z : Z) | CInt64 (z : Z)
| CTimestamp
| CWchar (w : wstr)
| CBinary (bin : option str) (size : Z).

Inductive ctype : Type :=
| SQL_C_TINYINT | SQL_C_FLOAT | SQL_C_DOUBLE | SQL_C_SHORT | SQL_C_LONG | SQL_C_SBIGINT
| SQL_C_TYPE_TIMESTAMP | SQL_C_WCHAR | SQL_C_BINARY.

Inductive sqltype : Type :=
| SQL_TINYINT | SQL_REAL | SQL_DOUBLE | SQL_SMALLINT | SQL_INTEGER | SQL_BIGINT
| SQL_TYPE_TIMESTAMP | SQL_WVARCHAR | SQL_WLONGVARCHAR | SQL_BINARY | SQL_LONGVARBINARY.

(** The [BindParam] overloads: the types and the length given to
    [SQLBindParameter]. *)
Definition param_types (v : cvar) : ctype * sqltype * Z :=
  match v with
  | CBool _ => (SQL_C_TINYINT, SQL_TINYINT, 1)
  | CFloat _ => (SQL_C_FLOAT, SQL_REAL, 0)
  | CDouble _ => (SQL_C_DOUBLE, SQL_DOUBLE, 0)
  | CInt8 _ => (SQL_C_TINYINT, SQL_TINYINT, 1)
  | CInt16 _ => (SQL_C_SHORT, SQL_SMALLINT, 2)
  | CInt32 _ => (SQL_C_LONG, SQL_INTEGER, 4)
  | CInt64 _ => (SQL_C_SBIGINT, SQL_BIGINT, 8)
  | CTimestamp => (SQL_C_TYPE_TIMESTAMP, SQL_TYPE_TIMESTAMP, 16)
  | CWchar w =>
    let size := (zlen (c_wstr w) + 1) * 2 in
    (SQL_C_WCHAR, (if WVARCHAR_MAX <? size then SQL_WLONGVARCHAR else SQL_WVARCHAR), size)
  | CBinary bin size =>
    let size := match bin with None => 1 | Some _ => size end in
    (SQL_C_BINARY, (if BINARY_MAX <? size then SQL_LONGVARBINARY else SQL_BINARY), size)
  end.

(** The value the driver sends. *)
Definition param_value (v : cvar) : value :=
  match v with
  | CBool b => VInt (if b then 1 else 0)
  | CInt8 z | CInt16 z | CInt32 z | CInt64 z => VInt z
  | CTimestamp => VTime
  | CWchar w => VStr (c_wstr w)
  | CFloat bits => VReal bits
  | CDouble bits => VDouble bits
  | CBinary (Some b) size => VStr (byte_val <$> take (Z.to_nat size) b)
  | CBinary None _ => VNull
  end.

(** The variable a column is bound to: the [BindCol] overloads with the C type
    and the buffer length in bytes. *)
Inductive ccol : Type :=
| ColBool | ColFloat | ColDouble
| ColInt8 | ColInt16 | ColInt32 | ColInt64
| ColTimestamp
| ColWchar (size : Z)
| ColBinary (size : Z).

Definition col_types (c : ccol) : ctype * Z :=
  match c with
  | ColBool => (SQL_C_TINYINT, 1)
  | ColFloat => (SQL_C_FLOAT, 4)
  | ColDouble => (SQL_C_DOUBLE, 8)
  | ColInt8 => (SQL_C_TINYINT, 1)
  | ColInt16 => (SQL_C_SHORT, 2)
  | ColInt32 => (SQL_C_LONG, 4)
  | ColInt64 => (SQL_C_SBIGINT, 8)
  | ColTimestamp => (SQL_C_TYPE_TIMESTAMP, 16)
  | ColWchar size => (SQL_C_WCHAR, size)
  | ColBinary size => (SQL_C_BINARY, size)
  end.

(** What [SQLFetch] stores for a column value: character data is cut to the
    buffer, with its terminator, binary data to the buffer. *)
Definition col_store (c : ccol) (v : value) : value :=
  match c, v with
  | ColWchar size, VStr w => VStr (take (Z.to_nat (size / 2 - 1)) w)
  | ColBinary size, VStr w => VStr (take (Z.to_nat size) w)
  | _, _ => v
  end.

Record conn : Type := mkConn {
  params : gmap Z value;
  cols : gmap Z ccol;
  cursor : list (list value)
}.

Definition new : conn := mkConn ∅ ∅ [].

(** What the driver answers to the three calls of [Connect]. *)
Record connect_answers : Type := mkAnswers {
  alloc_connection : bool;
  driver_connect : bool;
  alloc_statement : bool
}.

Definition MAX_PATH : Z := 260.

(** [Connect]: [wcscpy_s] ends the process when the text does not fit. *)
Definition Connect (o : connect_answers) (connectionString : wstr) : result bool :=
  if negb (alloc_connection o) then Ret false
  else if MAX_PATH <? zlen (c_wstr connectionString) + 1 then Crash InvalidParameter
  else if negb (alloc_statement o) then Ret false
  else Ret (driver_connect o).

(** The handles of a connection, and the handles that [SQLFreeHandle] is called
    with. *)
Record handles : Type := mkHandles { _connection : option nat; _statement : option nat }.

Inductive handle : Type := SQL_HANDLE_DBC (h : nat) | SQL_HANDLE_STMT (h : nat).

(** [Clear]: the connection is freed before the statement that was allocated on it. *)
Definition Clear (h : handles) : list handle * handles :=
  (match _connection h with Some c => [SQL_HANDLE_DBC c] | None => [] end ++
   match _statement h with Some s => [SQL_HANDLE_STMT s] | None => [] end, mkHandles None None).

(** [GetRowCount]: the number [SQLRowCount] stored, [None] when it failed. *)
Definition GetRowCount (count : option Z) : Z := match count with Some c => i32 c | None => -1 end.

(** The connections, by number, and the database. *)
Record st (D : Type) : Type := mkSt {
  db : D;
  conns : gmap nat conn;
  _connections : list nat
}.
Arguments mkSt {D}.
Arguments db {D}.
Arguments conns {D}.
Arguments _connections {D}.

Section ops.
Context {D : Type} `{!Odbc D}.

(** [*c] of a connection pointer. *)
Definition get_conn (c : nat) : M (st D) conn :=
  s ← get; lift (deref (conns s !! c)).

Definition set_conn (c : nat) (k : conn) : M (st D) unit :=
  modify (λ s, mkSt (db s) (<[c := k]> (conns s)) (_connections s)).

Definition set_db (d : D) : M (st D) unit :=
  modify (λ s, mkSt d (conns s) (_connections s)).

(** [HandleError]: the loop asks for diagnostic records, but it tests
    [errorRet], which stays [0] ([SQL_SUCCESS]). *)
Fixpoint HandleError_loop (fuel : nat) (errorRet : Z) : result unit :=
  match fuel with
  | O => Crash Hang
  | S fuel =>
    if errorRet =? 100 then Ret tt
    else if negb (errorRet =? 0) && negb (errorRet =? 1) then Ret tt
    else HandleError_loop fuel errorRet
  end.

Definition diag_fuel : nat := Z.to_nat 65536.

(** [ok]: [ret == SQL_SUCCESS]. *)
Definition HandleError (ok : bool) : M (st D) unit :=
  if ok then mret tt else lift (HandleError_loop diag_fuel 0).

Definition Unbind (c : nat) : M (st D) unit := get_conn c;; set_conn c new.

Definition Execute (c : nat) (query : string) (doHandleError : bool) : M (st D) bool :=
  k ← get_conn c;
  s ← get;
  match SQLExecDirectW query (params k) (db s) with
  | SqlOk rows d =>
    set_db d;; set_conn c (mkConn (params k) (cols k) rows);; mret true
  | SqlError =>
    when doHandleError (HandleError false);; mret false
  end.

(** [Fetch]: the values stored in the bound columns, none when there is no row
    left. *)
Definition Fetch (c : nat) : M (st D) (option (gmap Z value)) :=
  k ← get_conn c;
  s ← get;
  if SQLFetch (db s) (cursor k) then
    match cursor k with
    | [] => mret None
    | row :: rows =>
      set_conn c (mkConn (params k) (cols k) rows);;
      mret (Some (map_imap (λ i col, Some (col_store col (default VNull (row !! Z.to_nat (i - 1))))) (cols k)))
    end
  else
    HandleError false;;
    mret None.

(** What the driver keeps of a bound parameter. *)
Definition set_param (c : nat) (paramIndex : Z) (v : value) : M (st D) unit :=
  k ← get_conn c;
  set_conn c (mkConn (<[paramIndex := v]> (params k)) (cols k) (cursor k)).

Definition BindParam (c : nat) (paramIndex : Z) (v : value) : M (st D) bool :=
  if SQLBindParameter paramIndex v then
    set_param c paramIndex v;;
    mret true
  else
    HandleError false;;
    mret false.

Definition BindCol (c : nat) (columnIndex : Z) (col : ccol) : M (st D) bool :=
  if SQLBindCol columnIndex then
    k ← get_conn c;
    set_conn c (mkConn (params k) (<[columnIndex := col]> (cols k)) (cursor k));;
    mret true
  else
    HandleError false;;
    mret false.

End ops.
#[global] Arguments HandleError : simpl never.
#[global] Arguments HandleError_loop : simpl never.

(** The loop has no way out. *)
Lemma HandleError_loop_hangs fuel : HandleError_loop fuel 0 = Crash Hang.
Proof. induction fuel; done. Qed.

Lemma HandleError_hangs {D} (s : st D) : HandleError false s = Crash Hang.
Proof. unfold HandleError, lift. by rewrite HandleError_loop_hangs. Qed.

(** A refused binding or fetch hangs like a refused statement. *)
Lemma refused_call_hangs {D} `{!Odbc D} c i v col k (s : st D) :
  conns s !! c = Some k →
  (SQLBindParameter i v = false → BindParam c i v s = Crash Hang) ∧
  (SQLBindCol i = false → BindCol c i col s = Crash Hang) ∧
  (SQLFetch (db s) (cursor k) = false → Fetch c s = Crash Hang).
Proof.
  intros Hc. unfold BindParam, BindCol, Fetch, get_conn. autorewrite with run. rewrite Hc. autorewrite with run.
  split_and!; intros ->; unfold mbind, M_bind; by rewrite HandleError_hangs.
Qed.

(** C35: [HandleError] never returns for a failed call, however long it runs: its
    loop condition reads a variable that is never assigned.  So a statement
    that fails in [Execute] with error handling hangs the worker thread instead
    of returning [false]. *)
Theorem failed_statement_hangs {D} `{!Odbc D} c query k (s : st D) :
  conns s !! c = Some k → SQLExecDirectW query (params k) (db s) = SqlError →
  (∀ fuel, HandleError_loop fuel 0 = Crash Hang) ∧
  Execute c query true s = Crash Hang ∧ Execute c query false s = Ret (false, s).
Proof.
  intros Hc Hq. split; [apply HandleError_loop_hangs|].
  unfold Execute, get_conn. autorewrite with run. rewrite Hc. autorewrite with run.
  rewrite Hq. autorewrite with run. split; [|done].
  unfold mbind at 1, M_bind at 1. by rewrite HandleError_hangs.
Qed.

(** A driver that rejects every statement. *)
#[local] Instance rejecting : Odbc unit := {
  SQLExecDirectW _ _ _ := SqlError;
  SQLBindParameter _ _ := true;
  SQLBindCol _ := true;
  SQLFetch _ _ := true
}.

Lemma failed_statement_hangs_witness :
  Execute 1 "SELECT id FROM chat.account;" true (mkSt tt {[1%nat := new]} []) = Crash Hang.
Proof.
  by apply (failed_statement_hangs 1 "SELECT id FROM chat.account;" new (mkSt tt {[1%nat := new]} [])).
Defined.

End DBConnection.

(** ** DBBind *)

Module DBBind.
Import DBConnection.

(** [FullBits<C>::value], an [int] constant. *)
Fixpoint FullBits (C : nat) : Z :=
  match C with
  | O => 0
  | S C' => Z.lor (i32 (Z.shiftl 1 (Z.of_nat C'))) (FullBits C')
  end.

Record t : Type := mk {
  ParamCount : nat;
  ColumnCount : nat;
  _conn : nat;
  _query : string;
  _paramFlag : Z;
  _columnFlag : Z
}.

Definition Validate (b : t) : bool :=
  (_paramFlag b =? FullBits (ParamCount b)) && (_columnFlag b =? FullBits (ColumnCount b)).

Definition flag_param (idx : Z) (b : t) : t :=
  mk (ParamCount b) (ColumnCount b) (_conn b) (_query b)
     (Z.lor (_paramFlag b) (u64 (Z.shiftl 1 idx))) (_columnFlag b).

Definition flag_column (idx : Z) (b : t) : t :=
  mk (ParamCount b) (ColumnCount b) (_conn b) (_query b)
     (_paramFlag b) (Z.lor (_columnFlag b) (u64 (Z.shiftl 1 idx))).

Section ops.
Context {D : Type} `{!Odbc D}.

(** The constructor. *)
Definition new (P C : nat) (dbConnection : nat) (query : string) : M (st D) t :=
  Unbind dbConnection;; mret (mk P C dbConnection query 0 0).

Definition Execute (b : t) (doHandleError : bool) : M (st D) bool :=
  assert_crash (Validate b);; DBConnection.Execute (_conn b) (_query b) doHandleError.

Definition Fetch (b : t) : M (st D) (option (gmap Z value)) := DBConnection.Fetch (_conn b).

Definition BindParam (idx : Z) (v : cvar) (b : t) : M (st D) t :=
  DBConnection.BindParam (_conn b) (idx + 1) (param_value v);; mret (flag_param idx b).

(** The indicator set to [SQL_NULL_DATA] makes the bound parameter null. *)
Definition SetParamNull (idx : Z) (b : t) : M (st D) t :=
  set_param (_conn b) (idx + 1) VNull;; mret (flag_param idx b).

Definition BindCol (idx : Z) (col : ccol) (b : t) : M (st D) t :=
  DBConnection.BindCol (_conn b) (idx + 1) col;; mret (flag_column idx b).

(** The overloads for arrays and pointers. *)
Definition BindParam_array (idx : Z) (sizeof_T : Z) (value : str) (N : Z) (b : t) : M (st D) t :=
  BindParam idx (CBinary (Some value) (i32 (sizeof_T * N))) b.

Definition BindParam_pointer (idx : Z) (sizeof_T : Z) (value : option str) (N : Z) (b : t) : M (st D) t :=
  BindParam idx (CBinary value (i32 (sizeof_T * N))) b.

Definition BindCol_array (idx : Z) (N : Z) (b : t) : M (st D) t := BindCol idx (ColWchar (2 * N)) b.

Definition BindCol_pointer (idx : Z) (len : Z) (b : t) : M (st D) t := BindCol idx (ColWchar (len - 1)) b.

(** [IsColNull(idx)] after a fetch that stored [row]. *)
Definition IsColNull (idx : Z) (row : gmap Z value) : bool :=
  bool_decide (row !! (idx + 1) = Some VNull).

End ops.

(** Both [BindCol] overloads for characters are given [n] characters of room: the
    array's takes [n - 1] of the text, the pointer's only [(n - 1) / 2 - 1], since
    it passes a number of characters where the driver expects bytes. *)
Lemma pointer_column_cut n w : 4 ≤ n ≤ zlen w →
  ∃ v1 v2, col_store (ColWchar (2 * n)) (VStr w) = VStr v1 ∧ zlen v1 = n - 1 ∧
           col_store (ColWchar (n - 1)) (VStr w) = VStr v2 ∧ zlen v2 = (n - 1) / 2 - 1 ∧ zlen v2 < zlen v1.
Proof.
  intros Hn. assert (1 ≤ (n - 1) / 2 ≤ n - 1) as Hd by (split; [apply Z.div_le_lower_bound|apply Z.div_le_upper_bound]; lia).
  unfold col_store. rewrite Z.mul_comm, Z.div_mul by lia. eexists _, _. split_and!; [done| |done| |];
    unfold zlen in *; rewrite ?length_take; lia.
Qed.

(** The bits of [FullBits<C>] are the first [C]. *)
Lemma FullBits_ones C : (C ≤ 31)%nat → FullBits C = Z.ones (Z.of_nat C).
Proof.
  induction C as [|C IH]; intros HC; [done|]. simpl. rewrite IH by lia.
  rewrite Z.shiftl_1_l. assert (0 < 2 ^ Z.of_nat C < 2 ^ 31) as Hb.
  { split; [apply Z.pow_pos_nonneg; lia|apply Z.pow_lt_mono_r; lia]. }
  unfold i32. rewrite Z.mod_small by lia. rewrite Z.add_simpl_r.
  apply Z.bits_inj'. intros n Hn.
  rewrite Z.lor_spec, !Z.testbit_ones, Z.pow2_bits_eqb by lia.
  destruct (Z.eqb_spec (Z.of_nat C) n), (Z.ltb_spec n (Z.of_nat C)), (Z.ltb_spec n (Z.of_nat (S C)));
    rewrite ?andb_true_r, ?andb_false_r; try lia; case_bool_decide; try done; destruct (Z.leb_spec 0 n); lia || done.
Qed.

(** The flags after binding the indices [l]. *)
Definition flags (l : list Z) : Z := foldr (λ idx f, Z.lor f (u64 (Z.shiftl 1 idx))) 0 l.

Lemma flags_bit l n :
  Forall (λ i, 0 ≤ i < 64) l → 0 ≤ n → Z.testbit (flags l) n = bool_decide (n ∈ l).
Proof.
  intros Hl Hn. induction Hl as [|i l Hi _ IH]; simpl.
  - by rewrite Z.bits_0.
  - rewrite Z.lor_spec, IH, Z.shiftl_1_l.
    assert (0 < 2 ^ i < 2 ^ 64) by (split; [apply Z.pow_pos_nonneg; lia|apply Z.pow_lt_mono_r; lia]).
    unfold u64. rewrite Z.mod_small by lia. rewrite Z.pow2_bits_eqb by lia.
    rewrite (bool_decide_ext (n ∈ i :: l) (n = i ∨ n ∈ l)) by apply elem_of_cons.
    destruct (Z.eqb_spec i n); repeat case_bool_decide; naive_solver.
Qed.

Lemma flags_full l C :
  Forall (λ i, 0 ≤ i < 64) l → (C ≤ 31)%nat →
  flags l = FullBits C ↔ ∀ i, i ∈ l ↔ 0 ≤ i < Z.of_nat C.
Proof.
  intros Hl HC. rewrite FullBits_ones by done. split.
  - intros Hf i. destruct (Z.le_gt_cases 0 i) as [Hi|Hi].
    + pose proof (flags_bit l i Hl Hi) as Hb. rewrite Hf, Z.testbit_ones_nonneg in Hb by lia.
      destruct (Z.ltb_spec i (Z.of_nat C)); symmetry in Hb;
        [apply bool_decide_eq_true_1 in Hb|apply bool_decide_eq_false_1 in Hb]; split; intros; try lia; done.
    + split; [|lia]. intros Hin. rewrite Forall_forall in Hl. specialize (Hl i Hin). lia.
  - intros Hi. apply Z.bits_inj'. intros n Hn. rewrite flags_bit, Z.testbit_ones_nonneg by (done || lia).
    specialize (Hi n). destruct (Z.ltb_spec n (Z.of_nat C)); case_bool_decide; naive_solver lia.
Qed.

Lemma param_flags ps b : _paramFlag b = 0 →
  let b' := foldr flag_param b ps in
  _paramFlag b' = flags ps ∧ _columnFlag b' = _columnFlag b ∧
  ParamCount b' = ParamCount b ∧ ColumnCount b' = ColumnCount b.
Proof. intros Hb. simpl. induction ps as [|p ps (IH1 & IH2 & IH3 & IH4)]; simpl; [done|]. by rewrite IH1. Qed.

Lemma column_flags cs b : _columnFlag b = 0 →
  let b' := foldr flag_column b cs in
  _columnFlag b' = flags cs ∧ _paramFlag b' = _paramFlag b ∧
  ParamCount b' = ParamCount b ∧ ColumnCount b' = ColumnCount b.
Proof. intros Hb. simpl. induction cs as [|p cs (IH1 & IH2 & IH3 & IH4)]; simpl; [done|]. by rewrite IH1. Qed.

(** [Validate] holds exactly when every parameter and every column of the
    statement has been bound and nothing beyond them: a statement with an
    unbound parameter or column is never executed. *)
Theorem Validate_iff (P C c : nat) query ps cs :
  (P ≤ 31)%nat → (C ≤ 31)%nat →
  Forall (λ i, 0 ≤ i < 64) ps → Forall (λ i, 0 ≤ i < 64) cs →
  Validate (foldr flag_column (foldr flag_param (mk P C c query 0 0) ps) cs) = true ↔
  (∀ i, i ∈ ps ↔ 0 ≤ i < Z.of_nat P) ∧ (∀ i, i ∈ cs ↔ 0 ≤ i < Z.of_nat C).
Proof.
  intros HP HC Hps Hcs. unfold Validate.
  destruct (param_flags ps (mk P C c query 0 0)) as (Hp & Hc0 & Hpc & Hcc); [done|].
  destruct (column_flags cs (foldr flag_param (mk P C c query 0 0) ps)) as (-> & -> & -> & ->); [done|].
  rewrite Hp, Hpc, Hcc. simpl. rewrite andb_true_iff, !Z.eqb_eq.
  by rewrite (flags_full ps P), (flags_full cs C).
Qed.

Lemma Validate_iff_witness :
  Validate (foldr flag_column (foldr flag_param (mk 2 1 0 EmptyString 0 0) [0; 1]) [0]) = true ↔
  (∀ i, i ∈ [0; 1] ↔ 0 ≤ i < Z.of_nat 2) ∧ (∀ i, i ∈ [0] ↔ 0 ≤ i < Z.of_nat 1).
Proof. apply (Validate_iff 2 1 0 EmptyString [0; 1] [0]); [lia..| |]; repeat constructor; lia. Defined.

End DBBind.

(** ** DBConnectionPool *)

Module DBConnectionPool.
Import DBConnection.
Section ops.
Context {D : Type}.

(** [Connect]: [env] is whether the environment was made and set up, [os i] what
    the driver answers to the [i]-th connection. *)
Fixpoint Connect_loop (os : nat → connect_answers) (connectionString : wstr) (first n : nat) : M (st D) bool :=
  match n with
  | O => mret true
  | S n' =>
    ok ← lift (DBConnection.Connect (os first) connectionString);
    if (ok : bool) then
      modify (λ s, mkSt (db s) (<[first := DBConnection.new]> (conns s)) (_connections s ++ [first]));;
      Connect_loop os connectionString (S first) n'
    else mret false
  end.

Definition Connect (env : bool) (os : nat → connect_answers) (connectionCount : nat) (connectionString : wstr) : M (st D) bool :=
  if env then Connect_loop os connectionString 0 connectionCount else mret false.

Definition Clear : M (st D) unit := modify (λ s, mkSt (db s) ∅ []).

(** [_connections.back()], [nullptr] when there is none. *)
Definition Pop : M (st D) (option nat) :=
  s ← get;
  match last (_connections s) with
  | None => mret None
  | Some c =>
    modify (λ s, mkSt (db s) (conns s) (take (length (_connections s) - 1) (_connections s)));;
    mret (Some c)
  end.

Definition Push (c : nat) : M (st D) unit :=
  modify (λ s, mkSt (db s) (conns s) (_connections s ++ [c])).

End ops.

Lemma Pop_nonempty {D} (s : st D) l c :
  _connections s = l ++ [c] → Pop s = Ret (Some c, mkSt (db s) (conns s) l).
Proof.
  intros Hl. unfold Pop. autorewrite with run. rewrite Hl, last_snoc.
  unfold modify, mbind, M_bind, mret, M_ret. do 3 f_equal.
  rewrite Hl, length_app; simpl. rewrite take_app_length'; [done|lia].
Qed.

Lemma Push_run {D} (s : st D) c :
  Push c s = Ret (tt, mkSt (db s) (conns s) (_connections s ++ [c])).
Proof. done. Qed.

(** The connections the loop adds. *)
Lemma Connect_loop_run {D} os cs n first (s : st D) :
  (∀ i, DBConnection.Connect (os i) cs = Ret true) →
  ∃ s', Connect_loop os cs first n s = Ret (true, s') ∧ db s' = db s ∧
    _connections s' = _connections s ++ seq first n ∧
    ∀ c, conns s' !! c = if decide (first ≤ c < first + n)%nat then Some DBConnection.new else conns s !! c.
Proof.
  intros Hok. revert first s. induction n as [|n IH]; intros first s.
  - exists s. split_and!; [done|done|by rewrite app_nil_r|]. intros c. case_decide; [lia|done].
  - cbn [Connect_loop]. autorewrite with run. rewrite Hok. autorewrite with run.
    set (s1 := mkSt _ _ _). destruct (IH (S first) s1) as (s' & E & Hd & Hl & Hc).
    exists s'. split_and!; [exact E|exact Hd|rewrite Hl; simpl; by rewrite <-app_assoc|].
    intros c. rewrite Hc. simpl. rewrite lookup_insert. repeat case_decide; try done; lia.
Qed.

(** Every pooled connection is a live object. *)
Definition wf {D} (s : st D) : Prop :=
  NoDup (_connections s) ∧ ∀ c, c ∈ _connections s → is_Some (conns s !! c).

End DBConnectionPool.
