(* ===== verification/GuardedOps.v ===== *)
(** * GuardedOps: the queues and the connection pool under concurrency
      (ServerCore/LockQueue.h, DBConnectionPool.cpp)

    The methods of [LockQueue], [PriorityLockQueue] and [DBConnectionPool]
    statement by statement, as bodies under the write guard of their lock.  With
    [Critical] this proves what the other files use: the methods are atomic and
    are the functions of [LockQueue] and [Database]. *)

From stdpp Require Import functions.
From S2P Require Import Prelude Lock LockQueue Critical Database.
#[local] Open Scope Z_scope.

Module QueueOps.
Section queue.
Context {T : Type} `{!Item T}.

Inductive op : Type :=
| Push (item : T) | Front | Pop | Pop_out | PopAll (items : list T) | Size | Clear.

(** What a method returns; [Undefined] stands for [front] or [pop] of an empty
    [std::queue]. *)
Inductive res : Type :=
| Unit | Item1 (x : T) | ItemEmpty (x : T) (isEmpty : bool) | Items (items : list T) | Int (n : Z) | Undefined.

(** Before the named statement.  [Pop(OUT isEmpty)] runs for its caller ([None])
    or in the loop condition of [PopAll] with the items so far. *)
Inductive pc : Type :=
| PushItem (item : T)
| FrontEmpty | FrontItem
| PopEmpty | PopFront | PopPop (ret : T)
| OutEmpty (k : option (list T)) | OutFront (k : option (list T)) | OutPop (ret : T) (k : option (list T))
| AllTest (items : list T) (item : T) (isEmpty : bool)
| SizeItems | ClearItems
| Return (r : res).

Definition enter (o : op) : pc :=
  match o with
  | Push item => PushItem item
  | Front => FrontEmpty
  | Pop => PopEmpty
  | Pop_out => OutEmpty None
  | PopAll items => OutEmpty (Some items)
  | Size => SizeItems
  | Clear => ClearItems
  end.

(** The end of [Pop(OUT isEmpty)]. *)
Definition popped (k : option (list T)) (item : T) (isEmpty : bool) : pc :=
  match k with None => Return (ItemEmpty item isEmpty) | Some items => AllTest items item isEmpty end.

Definition body (p : pc) (_items : list T) : (pc * list T) + res :=
  match p with
  | PushItem item => inl (Return Unit, _items ++ [item])
  | FrontEmpty => match _items with [] => inr (ItemEmpty T_default true) | _ => inl (FrontItem, _items) end
  | FrontItem => match _items with [] => inr Undefined | x :: _ => inr (ItemEmpty x false) end
  | PopEmpty => match _items with [] => inr (Item1 T_default) | _ => inl (PopFront, _items) end
  | PopFront => match _items with [] => inr Undefined | x :: _ => inl (PopPop x, _items) end
  | PopPop ret => match _items with [] => inr Undefined | _ :: q => inl (Return (Item1 ret), q) end
  | OutEmpty k => match _items with [] => inl (popped k T_default true, _items) | _ => inl (OutFront k, _items) end
  | OutFront k => match _items with [] => inr Undefined | x :: _ => inl (OutPop x k, _items) end
  | OutPop ret k => match _items with [] => inr Undefined | _ :: q => inl (popped k ret false, q) end
  | AllTest items item isEmpty =>
    if truthy item then
      if isEmpty then inr (Items items) else inl (OutEmpty (Some (items ++ [item])), _items)
    else inr (Items items)
  | SizeItems => inr (Int (i32 (zlen _items)))
  | ClearItems => inl (Return Unit, [])
  | Return r => inr r
  end.

(** The functions of [LockQueue]. *)
Definition spec (o : op) (q : LockQueue.t T) : res * LockQueue.t T :=
  match o with
  | Push item => (Unit, LockQueue.Push item q)
  | Front => (let '(x, e) := LockQueue.Front q in ItemEmpty x e, q)
  | Pop => let '(x, q') := LockQueue.Pop q in (Item1 x, q')
  | Pop_out => let '(x, e, q') := LockQueue.Pop_out q in (ItemEmpty x e, q')
  | PopAll items =>
    match LockQueue.PopAll items q with Ret (l, q') => (Items l, q') | Crash _ => (Undefined, q) end
  | Size => (Int (LockQueue.Size q), q)
  | Clear => (Unit, LockQueue.Clear q)
  end.

Lemma PopAll_alone items q :
  ∃ p, rtc (Critical.alone body) (OutEmpty (Some items), q) (p, LockQueue.after_prefix q) ∧
       body p (LockQueue.after_prefix q) = inr (Items (items ++ LockQueue.truthy_prefix q)).
Proof.
  revert items. induction q as [|x q IH]; intros items; simpl.
  - exists (AllTest items T_default true). split; [by apply rtc_once|]. simpl. rewrite app_nil_r. by destruct (truthy T_default).
  - destruct (truthy x) eqn:Hx.
    + destruct (IH (items ++ [x])) as (p & Hr & Hp). exists p. split.
      * do 3 (eapply rtc_l; [reflexivity|]). eapply rtc_l; [|exact Hr]. unfold Critical.alone. simpl. by rewrite Hx.
      * rewrite Hp. by rewrite <-app_assoc.
    + exists (AllTest items x false). split.
      * do 3 (eapply rtc_l; [reflexivity|]). apply rtc_refl.
      * simpl. by rewrite Hx, app_nil_r.
Qed.

(** Alone, every method ends, and it is the function of [LockQueue]. *)
Lemma queue_implements : Critical.implements enter body spec.
Proof.
  intros o q. unfold Critical.whole. destruct o as [item| | | |items| |]; simpl.
  - exists (Return Unit). split; [by apply rtc_once|done].
  - destruct q as [|x q]; [by exists FrontEmpty; split; [apply rtc_refl|]|].
    exists FrontItem. split; [by apply rtc_once|done].
  - destruct q as [|x q]; [by exists PopEmpty; split; [apply rtc_refl|]|].
    exists (Return (Item1 x)). split; [|done]. do 3 (eapply rtc_l; [reflexivity|]). apply rtc_refl.
  - destruct q as [|x q].
    + exists (Return (ItemEmpty T_default true)). split; [by apply rtc_once|done].
    + exists (Return (ItemEmpty x false)). split; [|done]. do 3 (eapply rtc_l; [reflexivity|]). apply rtc_refl.
  - rewrite LockQueue.PopAll_run. simpl. apply PopAll_alone.
  - exists SizeItems. split; [apply rtc_refl|done].
  - exists (Return Unit). split; [by apply rtc_once|done].
Qed.

(** The queue, its lock and any number of threads. *)
Definition system_step : relation (Critical.st (D := list T)) := Critical.step enter body.

End queue.
Arguments op : clear implicits.
Arguments res : clear implicits.
Arguments pc : clear implicits.

(** Thread 1 pushes 5 behind 3. *)
Lemma run_push :
  ∃ s, rtc system_step (Critical.init [3]) s ∧ Critical.log s = [(1, Push 5, Unit)] ∧ ∀ t, Critical.running s t = None.
Proof.
  destruct Lock.run_write as (l & Hl & H1). eexists. split.
  - etrans; [by apply (Critical.lock_run _ _ Lock.init l)|].
    eapply rtc_l; [by apply (Critical.s_enter _ _ 1 (Push 5) [])|]. eapply rtc_l; [by eapply (Critical.s_body _ _ 1)|].
    eapply rtc_l; [by eapply (Critical.s_return _ _ 1)|]. apply rtc_refl.
  - split; [reflexivity|]. intros t. simpl. destruct (decide (t = 1)) as [->|]; [by rewrite fn_lookup_insert|].
    by rewrite !fn_lookup_insert_ne.
Qed.

(** C9: lock-protected queues are linearizable.  Threads call the methods of one
    [LockQueue] at the same time; the accesses to the lock's atomics and the
    statements under the guard interleave in any way.  Whenever no method is
    inside its guard, the results returned so far, in the order of the returns,
    are those of the sequential functions, and the items are what these leave;
    no method ever reads the front of an empty queue. *)
Theorem lock_queue_linearizable {T} `{!Item T} (q : list T) s :
  rtc system_step (Critical.init q) s → (∀ t, Critical.running s t = None) →
  Critical.history spec q (Critical.log s) ∧ Critical.data s = Critical.after spec q (Critical.log s) ∧
  ∀ t o, (t, o, Undefined) ∉ Critical.log s.
Proof.
  intros Hs Hn. destruct (Critical.sections_refine enter body spec q s queue_implements Hs Hn) as [Hh ->].
  split_and!; [done|done|]. clear Hs Hn. revert q Hh. induction (Critical.log s) as [|[[t' o'] r'] h IH]; intros q Hh t o Hin.
  - by apply not_elem_of_nil in Hin.
  - destruct Hh as [-> Hh]. apply elem_of_cons in Hin as [[= -> -> E]|Hin]; [|by eapply IH].
    destruct o'; simpl in E; try done; repeat case_match; try done.
    all: match goal with H : LockQueue.PopAll _ _ = _ |- _ => by rewrite LockQueue.PopAll_run in H end.
Qed.

Lemma lock_queue_linearizable_witness :
  ∃ s, rtc system_step (Critical.init [3]) s ∧ Critical.log s = [(1, Push 5, Unit)] ∧ Critical.data s = [3; 5].
Proof.
  destruct run_push as (s & Hs & Hlog & Hn). exists s. split_and!; [done|done|].
  destruct (lock_queue_linearizable [3] s Hs Hn) as (_ & -> & _). by rewrite Hlog.
Defined.

End QueueOps.

(** [PriorityLockQueue]: [top] and [pop] of the heap are [extract]. *)
Module PriorityOps.
Section queue.
Context {T : Type} `{!Item T} (prio : T → Z).

Inductive op : Type := Push (item : T) | Top | Pop | PopAll (items : list T) | Clear.

Inductive res : Type := Unit | Item1 (x : T) | Items (items : list T) | Undefined.

Inductive pc : Type :=
| PushItem (item : T)
| TopEmpty | TopItem
| PopEmpty (k : option (list T)) | PopTop (k : option (list T)) | PopPop (ret : T) (k : option (list T))
| AllTest (items : list T) (item : T)
| ClearItems
| Return (r : res).

Definition enter (o : op) : pc :=
  match o with
  | Push item => PushItem item
  | Top => TopEmpty
  | Pop => PopEmpty None
  | PopAll items => PopEmpty (Some items)
  | Clear => ClearItems
  end.

Definition popped (k : option (list T)) (item : T) : pc :=
  match k with None => Return (Item1 item) | Some items => AllTest items item end.

Definition body (p : pc) (_items : list T) : (pc * list T) + res :=
  let heap := PriorityLockQueue.extract prio _items in
  match p with
  | PushItem item => inl (Return Unit, item :: _items)
  | TopEmpty => match _items with [] => inr (Item1 T_default) | _ => inl (TopItem, _items) end
  | TopItem => match heap with None => inr Undefined | Some (x, _) => inr (Item1 x) end
  | PopEmpty k => match _items with [] => inl (popped k T_default, _items) | _ => inl (PopTop k, _items) end
  | PopTop k => match heap with None => inr Undefined | Some (x, _) => inl (PopPop x k, _items) end
  | PopPop ret k => match heap with None => inr Undefined | Some (_, q) => inl (popped k ret, q) end
  | AllTest items item => if truthy item then inl (PopEmpty (Some (items ++ [item])), _items) else inr (Items items)
  | ClearItems => inl (Return Unit, [])
  | Return r => inr r
  end.

Definition spec (o : op) (q : PriorityLockQueue.t T) : res * PriorityLockQueue.t T :=
  match o with
  | Push item => (Unit, PriorityLockQueue.Push item q)
  | Top => (Item1 (PriorityLockQueue.Top prio q), q)
  | Pop => let '(x, q') := PriorityLockQueue.Pop prio q in (Item1 x, q')
  | PopAll items =>
    match PriorityLockQueue.PopAll prio items q with Ret (l, q') => (Items l, q') | Crash _ => (Undefined, q) end
  | Clear => (Unit, PriorityLockQueue.Clear q)
  end.

Lemma pop_alone k q :
  rtc (Critical.alone body) (PopEmpty k, q)
    (popped k (fst (PriorityLockQueue.Pop prio q)), snd (PriorityLockQueue.Pop prio q)).
Proof.
  unfold PriorityLockQueue.Pop. destruct q as [|y q]; [by apply rtc_once|].
  destruct (PriorityLockQueue.extract prio (y :: q)) as [[x r]|] eqn:E.
  - eapply rtc_l; [reflexivity|]. eapply rtc_l; [unfold Critical.alone, body; cbn [fst snd]; by rewrite E|].
    eapply rtc_l; [unfold Critical.alone, body; cbn [fst snd]; by rewrite E|]. apply rtc_refl.
  - by apply PriorityLockQueue.extract_None in E.
Qed.

(** A default that is false ends the loop on an empty queue. *)
Lemma prio_PopAll_alone fuel items q l q' :
  PriorityLockQueue.PopAll_loop prio fuel items q = Ret (l, q') →
  ∃ p, rtc (Critical.alone body) (PopEmpty (Some items), q) (p, q') ∧ body p q' = inr (Items l).
Proof.
  revert items q. induction fuel as [|fuel IH]; intros items q; simpl; [done|].
  pose proof (pop_alone (Some items) q) as Hpop. destruct (PriorityLockQueue.Pop prio q) as [x r]. simpl in Hpop.
  destruct (truthy x) eqn:Hx.
  - intros (p & Hr & Hp)%IH. exists p. split; [|done]. etrans; [exact Hpop|]. eapply rtc_l; [|exact Hr].
    unfold Critical.alone. simpl. by rewrite Hx.
  - intros [= -> ->]. exists (AllTest l x). split; [exact Hpop|]. simpl. by rewrite Hx.
Qed.

(** The operations, [PopAll] on queues of true items included. *)
Lemma priority_whole o q :
  truthy T_default = false → Forall (λ x, truthy x = true) q →
  Critical.whole enter body o q (fst (spec o q)) (snd (spec o q)).
Proof.
  intros Hd Hq. unfold Critical.whole. destruct o as [item| | |items|]; simpl.
  - exists (Return Unit). split; [by apply rtc_once|done].
  - unfold PriorityLockQueue.Top. destruct q as [|y q]; [by exists TopEmpty; split; [apply rtc_refl|]|].
    exists TopItem. split; [by apply rtc_once|]. unfold body.
    destruct (PriorityLockQueue.extract prio (y :: q)) as [[x r]|] eqn:E; [done|]. by apply PriorityLockQueue.extract_None in E.
  - pose proof (pop_alone None q) as Hpop. destruct (PriorityLockQueue.Pop prio q) as [x r]. simpl in *.
    exists (Return (Item1 x)). done.
  - destruct (PriorityLockQueue.prio_PopAll_loop_spec prio (S (length q)) items q) as (out & E & _); [lia|done|done|].
    unfold PriorityLockQueue.PopAll. rewrite E. simpl. by eapply prio_PopAll_alone.
  - exists (Return Unit). split; [by apply rtc_once|done].
Qed.

End queue.
End PriorityOps.

(** [DBConnectionPool::Pop] and [Push]. *)
Module PoolOps.

Inductive op : Type := Pop | Push (connection : nat).

(** [nullptr] is [Some None]; [None] is [back] of an empty vector. *)
Inductive pc : Type :=
| PopEmpty | PopBack | PopPop (connection : nat) | PushBack (connection : nat) | Return (r : option (option nat)).

Definition enter (o : op) : pc := match o with Pop => PopEmpty | Push c => PushBack c end.

Definition body (p : pc) (_connections : list nat) : (pc * list nat) + option (option nat) :=
  match p with
  | PopEmpty => match _connections with [] => inr (Some None) | _ => inl (PopBack, _connections) end
  | PopBack => match last _connections with None => inr None | Some c => inl (PopPop c, _connections) end
  | PopPop c => inl (Return (Some (Some c)), take (length _connections - 1) _connections)
  | PushBack c => inl (Return (Some None), _connections ++ [c])
  | Return r => inr r
  end.

(** The functions of [Database] on the free connections. *)
Definition spec (o : op) (l : list nat) : option (option nat) * list nat :=
  let s := DBConnection.mkSt tt ∅ l in
  match o with
  | Pop =>
    match DBConnectionPool.Pop s with Ret (r, s') => (Some r, DBConnection._connections s') | Crash _ => (None, l) end
  | Push c =>
    match DBConnectionPool.Push c s with Ret (_, s') => (Some None, DBConnection._connections s') | Crash _ => (None, l) end
  end.

Lemma spec_pop l c : spec Pop (l ++ [c]) = (Some (Some c), l).
Proof. unfold spec. by rewrite (DBConnectionPool.Pop_nonempty _ l c). Qed.

Lemma pool_implements : Critical.implements enter body spec.
Proof.
  intros [|c] l; unfold Critical.whole.
  - destruct l as [|c l _] using rev_ind; [exists PopEmpty; split; [apply rtc_refl|done]|].
    rewrite spec_pop. simpl. exists (Return (Some (Some c))). split; [|done].
    eapply rtc_l; [unfold Critical.alone; simpl; by destruct l|].
    eapply rtc_l; [unfold Critical.alone; simpl; by rewrite last_snoc|].
    apply rtc_once. unfold Critical.alone. cbn [fst snd body]. by rewrite length_app, take_app_length' by (simpl; lia).
  - exists (Return (Some None)). split; [by apply rtc_once|done].
Qed.

End PoolOps.
