(* ===== verification/PoolUse.v ===== *)
(** * PoolUse: the connections the worker threads use
      (Server/PacketRespondent.h, RoomHandler.cpp [RemoveUser], ClientSession.cpp
       [OnDisconnected], Server.cpp [main])

    The worker threads take connections from the pool and give them back: a
    respondent's job has one, [Room::RemoveUser] takes one more, and
    [OnDisconnected] has one after its own call of [RemoveUser].  Nobody tests for
    the null pointer that [Pop] returns when the pool is empty.  [Pop] and [Push]
    are atomic ([GuardedOps.PoolOps]), so one step is one call. *)

From stdpp Require Import functions.
From S2P Require Import Prelude Database GuardedOps.
#[local] Open Scope Z_scope.

Module PoolUse.

(** What a thread is doing and the connections it has. *)
Inductive pc : Type :=
| Idle
| InJob (dbConn : nat)                          (* the job of a respondent *)
| InJobRemove (dbConn dbConn' : nat)            (* RemoveUser, called by that job *)
| DiscRemove (dbConn : nat)                     (* RemoveUser, called by OnDisconnected *)
| DiscPop                                       (* before OnDisconnected's own Pop *)
| DiscUpdate (dbConn : nat)
| Null.                                         (* nullptr is dereferenced *)

Definition held (p : pc) : list nat :=
  match p with
  | InJob c | DiscRemove c | DiscUpdate c => [c]
  | InJobRemove c c' => [c; c']
  | _ => []
  end.

Record st : Type := mk { pool : list nat; pcs : nat → pc }.

(** [main]: 30 connections; ten launched threads and the main thread. *)
Definition connections : nat := 30.
Definition workers : nat := 11.

Definition init : st := mk (seq 0 connections) (λ _, Idle).

(** [Pop], with what the thread does with the pointer. *)
Definition pop (next : nat → pc) (l : list nat) : pc * list nat :=
  match PoolOps.spec PoolOps.Pop l with
  | (Some (Some c), l') => (next c, l')
  | (_, l') => (Null, l')
  end.

Definition push (c : nat) (l : list nat) : list nat := snd (PoolOps.spec (PoolOps.Push c) l).

(** [RESPONSE_START] and [RESPONSE_END]. *)
Inductive respond_step (t : nat) : st → st → Prop :=
| r_start l f : f t = Idle →
    respond_step t (mk l f) (mk (snd (pop InJob l)) (<[t := fst (pop InJob l)]> f))
| r_end c l f : f t = InJob c → respond_step t (mk l f) (mk (push c l) (<[t := Idle]> f)).

(** [Room::RemoveUser], from the job of [C_ROOM_OUT] and from [OnDisconnected]. *)
Inductive RemoveUser_step (t : nat) : st → st → Prop :=
| rm_job c l f : f t = InJob c →
    RemoveUser_step t (mk l f) (mk (snd (pop (InJobRemove c) l)) (<[t := fst (pop (InJobRemove c) l)]> f))
| rm_job_end c c' l f : f t = InJobRemove c c' →
    RemoveUser_step t (mk l f) (mk (push c' l) (<[t := InJob c]> f))
| rm_disc l f : f t = Idle →
    RemoveUser_step t (mk l f) (mk (snd (pop DiscRemove l)) (<[t := fst (pop DiscRemove l)]> f))
| rm_disc_end c l f : f t = DiscRemove c →
    RemoveUser_step t (mk l f) (mk (push c l) (<[t := DiscPop]> f)).

(** [ClientSession::OnDisconnected], of a session in no room or after [RemoveUser]. *)
Inductive OnDisconnected_step (t : nat) : st → st → Prop :=
| d_start l f : f t = Idle ∨ f t = DiscPop →
    OnDisconnected_step t (mk l f) (mk (snd (pop DiscUpdate l)) (<[t := fst (pop DiscUpdate l)]> f))
| d_end c l f : f t = DiscUpdate c →
    OnDisconnected_step t (mk l f) (mk (push c l) (<[t := Idle]> f)).

Inductive step (s s' : st) : Prop :=
| worker_step t : (t < workers)%nat →
    respond_step t s s' ∨ RemoveUser_step t s s' ∨ OnDisconnected_step t s s' → step s s'.

(** ** Counting *)

(** The connections of the threads [ts]. *)
Definition held_by (f : nat → pc) (ts : list nat) : list nat := ts ≫= (λ t, held (f t)).

Lemma held_by_other f ts t p : t ∉ ts → held_by (<[t := p]> f) ts = held_by f ts.
Proof.
  induction ts as [|u ts IH]; [done|]. intros Hn. apply not_elem_of_cons in Hn as [Hne Hn].
  unfold held_by. cbn. rewrite fn_lookup_insert_ne by done. f_equal. by apply IH.
Qed.

Lemma held_by_insert f ts t : NoDup ts → t ∈ ts →
  ∃ r, (held_by f ts ≡ₚ held (f t) ++ r) ∧ (length r ≤ 2 * (length ts - 1))%nat ∧
       ∀ p, held_by (<[t := p]> f) ts ≡ₚ held p ++ r.
Proof.
  intros Hnd Hin. apply list_elem_of_split in Hin as (l1 & l2 & ->). apply NoDup_app in Hnd as (_ & Hd & Hnd).
  apply NoDup_cons in Hnd as [Hn2 _]. assert (t ∉ l1) as Hn1 by (intros Hin; apply (Hd t Hin); left).
  exists (held_by f l1 ++ held_by f l2). assert (∀ f, held_by f (l1 ++ t :: l2) ≡ₚ held (f t) ++ held_by f l1 ++ held_by f l2) as K.
  { intros g. unfold held_by. rewrite bind_app, bind_cons. rewrite !app_assoc. f_equiv. apply Permutation_app_comm. }
  assert (∀ ts, (length (held_by f ts) ≤ 2 * length ts)%nat) as Hlen.
  { induction ts as [|u ts IH]; [done|]. unfold held_by in *. rewrite bind_cons, length_app.
    assert (length (held (f u)) ≤ 2)%nat by (destruct (f u); simpl; lia). simpl. lia. }
  split_and!; [apply K| |].
  - pose proof (Hlen l1). pose proof (Hlen l2). rewrite !length_app. simpl. lia.
  - intros p. rewrite K, fn_lookup_insert, !held_by_other by done. done.
Qed.

(** Every connection is in the pool or with one thread, once. *)
Record inv (s : st) : Prop := {
  i_perm : pool s ++ held_by (pcs s) (seq 0 workers) ≡ₚ seq 0 connections;
  i_null : ∀ t, pcs s t ≠ Null;
  i_idle : ∀ t, (workers ≤ t)%nat → pcs s t = Idle
}.

Lemma move_inv l l' f t p :
  (t < workers)%nat → p ≠ Null →
  (∀ r, l ++ held (f t) ++ r ≡ₚ seq 0 connections → l' ++ held p ++ r ≡ₚ seq 0 connections) →
  inv (mk l f) → inv (mk l' (<[t := p]> f)).
Proof.
  intros Ht Hp Hl [Hperm Hnull Hidle]. cbn [pool pcs] in *. split; cbn [pool pcs].
  - destruct (held_by_insert f (seq 0 workers) t) as (r & Hr & _ & Hu); [apply NoDup_seq|apply elem_of_seq; lia|].
    rewrite Hu. apply Hl. by rewrite <-Hr.
  - intros u. destruct (decide (u = t)) as [->|]; [by rewrite fn_lookup_insert|by rewrite fn_lookup_insert_ne].
  - intros u Hu. rewrite fn_lookup_insert_ne by lia. by apply Hidle.
Qed.

(** A thread with at most one connection finds another one in the pool. *)
Lemma pop_inv l f t next :
  (t < workers)%nat → (length (held (f t)) ≤ 1)%nat → (∀ c, next c ≠ Null ∧ held (next c) ≡ₚ c :: held (f t)) →
  inv (mk l f) → inv (mk (snd (pop next l)) (<[t := fst (pop next l)]> f)).
Proof.
  intros Ht Hlen Hnext Hi. destruct l as [|c l _] using rev_ind.
  - exfalso. destruct Hi as [Hperm _ _]. cbn [pool pcs] in Hperm.
    destruct (held_by_insert f (seq 0 workers) t) as (r & Hr & Hsum & _); [apply NoDup_seq|apply elem_of_seq; lia|].
    apply Permutation_length in Hr, Hperm. rewrite length_app in Hr. rewrite length_seq in Hsum, Hperm. cbn [app] in Hperm. unfold workers, connections in *. lia.
  - unfold pop. rewrite PoolOps.spec_pop. cbn [fst snd]. apply move_inv with (l ++ [c]); [done|apply Hnext| |done].
    intros r Hr. rewrite (proj2 (Hnext c)), <-Hr, <-app_assoc. done.
Qed.

Lemma push_inv l f t c p :
  (t < workers)%nat → p ≠ Null → held (f t) ≡ₚ c :: held p → inv (mk l f) → inv (mk (push c l) (<[t := p]> f)).
Proof.
  intros Ht Hp Hh. apply move_inv; [done|done|]. intros r Hr. rewrite <-Hr, Hh. change (push c l) with (l ++ [c]). by rewrite <-app_assoc.
Qed.

Lemma pool_step_inv s s' : step s s' → inv s → inv s'.
Proof.
  intros [t Ht [Hs|[Hs|Hs]]].
  - destruct Hs as [l f H|c l f H].
    + apply pop_inv; rewrite ?H; simpl; [done|lia|done].
    + apply push_inv; rewrite ?H; done.
  - destruct Hs as [c l f H|c c' l f H|l f H|c l f H].
    + apply pop_inv; rewrite ?H; simpl; [done|lia|]. intros x. split; [done|apply Permutation_swap].
    + apply push_inv; rewrite ?H; [done|done|apply Permutation_swap].
    + apply pop_inv; rewrite ?H; simpl; [done|lia|done].
    + apply push_inv; rewrite ?H; done.
  - destruct Hs as [l f H|c l f H].
    + assert (held (f t) = []) as E by (by destruct H as [-> | ->]). apply pop_inv; rewrite ?E; simpl; [done|lia|done].
    + apply push_inv; rewrite ?H; done.
Qed.

Lemma pool_reachable s : rtc step init s → inv s.
Proof.
  intros H. eapply rtc_invariant; [apply pool_step_inv|done|]. split; [|done|done].
  cbn [pool pcs init]. vm_compute. reflexivity.
Qed.

Lemma pool_distinct s : inv s → NoDup (pool s ++ held_by (pcs s) (seq 0 workers)).
Proof. intros [Hp _ _]. rewrite Hp. apply NoDup_seq. Qed.

Lemma held_by_in f ts t c : t ∈ ts → c ∈ held (f t) → c ∈ held_by f ts.
Proof. intros Ht Hc. apply list_elem_of_bind. by exists t. Qed.

(** Two threads of a list without repetitions of connections have none in common. *)
Lemma held_by_disjoint f ts t u c :
  NoDup (held_by f ts) → t ∈ ts → u ∈ ts → t ≠ u → c ∈ held (f t) → c ∉ held (f u).
Proof.
  intros Hnd Ht Hu Hne Hc Hc'. apply list_elem_of_split in Ht as (l1 & l2 & ->).
  unfold held_by in Hnd. rewrite bind_app, bind_cons in Hnd. apply NoDup_app in Hnd as (_ & H1 & Hnd).
  apply NoDup_app in Hnd as (_ & H2 & _). rewrite elem_of_app, elem_of_cons in Hu. destruct Hu as [Hu|[->|Hu]]; [|done|].
  - apply (H1 c); [by apply (held_by_in f l1 u)|]. apply elem_of_app. by left.
  - apply (H2 c Hc). by apply (held_by_in f l2 u).
Qed.

(** C18: the pool is large enough.  However the eleven worker threads interleave
    their jobs, departures and disconnections, [Pop] never returns the null
    pointer that nobody tests for, and no connection is used by two threads, or
    twice by one, or is in the pool while a thread uses it. *)
Theorem pool_suffices s :
  rtc step init s →
  (∀ t, pcs s t ≠ Null) ∧
  (∀ t u c, t ≠ u → c ∈ held (pcs s t) → c ∉ held (pcs s u)) ∧
  (∀ t, NoDup (held (pcs s t))) ∧
  ∀ t c, c ∈ held (pcs s t) → c ∉ pool s.
Proof.
  intros Hi%pool_reachable. pose proof (pool_distinct s Hi) as (_ & Hd & Hnd)%NoDup_app.
  assert (∀ t c, c ∈ held (pcs s t) → t ∈ seq 0 workers) as Hin.
  { intros t c Hc. apply elem_of_seq. destruct (decide (workers ≤ t)%nat) as [Hle|]; [|lia].
    rewrite (i_idle s Hi t Hle) in Hc. by apply not_elem_of_nil in Hc. }
  split_and!.
  - apply (i_null s Hi).
  - intros t u c Hne Hc Hc'. eapply (held_by_disjoint _ _ t u c Hnd); eauto.
  - intros t. destruct (pcs s t) as [| | c c'| | | |] eqn:E; simpl; try apply NoDup_singleton; try apply NoDup_nil_2.
    assert (t ∈ seq 0 workers) as Ht by (apply (Hin t c); rewrite E; left).
    apply list_elem_of_split in Ht as (l1 & l2 & Es). rewrite Es in Hnd. unfold held_by in Hnd.
    rewrite bind_app, bind_cons, E in Hnd. by apply NoDup_app in Hnd as (_ & _ & (? & _ & _)%NoDup_app).
  - intros t c Hc Hp. apply (Hd c Hp). by eapply held_by_in; eauto.
Qed.

Lemma pool_suffices_witness :
  ∃ s, rtc step init s ∧ pcs s 0%nat = InJobRemove 29 28 ∧ pcs s 1%nat = InJob 27 ∧ 28%nat ∉ held (pcs s 1%nat).
Proof.
  assert (∃ s, rtc step init s ∧ pcs s 0%nat = InJobRemove 29 28 ∧ pcs s 1%nat = InJob 27) as (s & Hs & H0 & H1).
  { eexists. split.
    - eapply rtc_l; [eapply (worker_step _ _ 0); [unfold workers; lia|left; by apply r_start]|].
      eapply rtc_l; [eapply (worker_step _ _ 0); [unfold workers; lia|right; left; by eapply (rm_job _ 29)]|].
      eapply rtc_l; [eapply (worker_step _ _ 1); [unfold workers; lia|left; by apply r_start]|]. apply rtc_refl.
    - split; vm_compute; reflexivity. }
  exists s. split_and!; [done..|]. destruct (pool_suffices s Hs) as (_ & Hd & _).
  apply (Hd 0%nat 1%nat); [done|]. rewrite H0. simpl. set_solver.
Defined.

End PoolUse.
