(* ===== verification/ChatDb.v ===== *)
(** * ChatDb: the statements of the server and the tables behind them
      (Server.cpp, AuthRespondent.h, LobbyRespondent.h, RoomRepondent.h, RoomHandler.cpp)

    The texts of the statements the server executes, the rows of the tables
    [main] creates, and the class [ChatDb]: what the SQL standard and the MySQL
    manual say these statements do to these tables.  [collate] is the
    comparison key of the default collation, under which primary and unique
    keys are compared.  [mem_chatdb] is a database that satisfies the class. *)

From S2P Require Import Prelude Database.
#[local] Open Scope Z_scope.

Module Sql.
Open Scope string_scope.

Definition login : string :=
  "SELECT id FROM chat.account WHERE id = ? And password = ? And is_online = ?;".
Definition set_online : string := "UPDATE chat.account SET is_online = ? WHERE id = ?;".
Definition insert_account : string :=
  "INSERT INTO chat.account (id, password, create_date, is_online) VALUES(?, ?, ?, ?);".
Definition all_rooms : string := "SELECT room_name, user_count FROM chat.room;".
Definition room_by_name : string := "SELECT room_id FROM chat.room WHERE room_name = ?;".
Definition insert_room : string := "INSERT INTO chat.room (room_name) VALUES(?);".
Definition set_room : string := "UPDATE chat.account SET current_room_id = ? WHERE id = ?;".
Definition room_and_name : string :=
  "SELECT room_id, room_name FROM chat.room WHERE room_name = ?;".
Definition inc_count : string :=
  "UPDATE chat.room SET user_count = `user_count` + 1 WHERE room_id = ?;".
Definition dec_count : string :=
  "UPDATE chat.room SET user_count = user_count - 1 WHERE room_id = ?;".
Definition users_in : string := "SELECT id FROM chat.account WHERE current_room_id = ?;".
Definition delete_room : string :=
  "DELETE FROM chat.room WHERE room_id = ? AND user_count <= 0;".
Definition room_of : string := "SELECT current_room_id FROM chat.account WHERE id = ?;".
Definition join_of : string :=
  "SELECT A.current_room_id, R.room_name FROM `chat`.`account` A INNER JOIN `chat`.`room` R ON A.current_room_id = R.room_id WHERE A.id = ?;".
Definition insert_log : string :=
  "INSERT INTO chat.log (account_id, room_id, message) VALUES(?, ?, ?);".

(** The statements of [main]. *)
Definition drop_log : string := "DROP TABLE IF EXISTS `chat`.`log`;".
Definition drop_account : string := "DROP TABLE IF EXISTS `chat`.`account`;".
Definition drop_room : string := "DROP TABLE IF EXISTS `chat`.`room`;".
Definition create_room : string :=
  "
    CREATE TABLE IF NOT EXISTS `chat`.`room` (
        `room_id` INT NOT NULL AUTO_INCREMENT,
        `room_name` VARCHAR(30) NOT NULL,
        `user_count` INT NOT NULL DEFAULT 1,
        PRIMARY KEY (`room_id`),
        UNIQUE KEY `uq_room_name` (`room_name`)
    ) ENGINE=InnoDB DEFAULT CHARSET=utf8mb4;
    ".
Definition create_account : string :=
  "
        CREATE TABLE IF NOT EXISTS `chat`.`account` (
        `id` VARCHAR(30) NOT NULL,
        `password` VARCHAR(255) NOT NULL,
        `create_date` DATETIME NOT NULL DEFAULT CURRENT_TIMESTAMP,
        `is_online` BOOL NOT NULL DEFAULT 0,
        `current_room_id` INT NULL,
        PRIMARY KEY (`id`),
        INDEX `idx_account_current_room_id` (`current_room_id`),
        CONSTRAINT `fk_account_room`
            FOREIGN KEY (`current_room_id`) 
            REFERENCES `chat`.`room` (`room_id`) 
            ON DELETE SET NULL
            ON UPDATE CASCADE
    ) ENGINE=InnoDB DEFAULT CHARSET=utf8mb4;
".
Definition create_log : string :=
  "
    CREATE TABLE IF NOT EXISTS `chat`.`log` (
        `log_id` INT NOT NULL AUTO_INCREMENT,
        `account_id` VARCHAR(30),
        `room_id` INT,
        `message` TEXT NOT NULL,
        `send_date` DATETIME NOT NULL DEFAULT CURRENT_TIMESTAMP,
        PRIMARY KEY (`log_id`),
        CONSTRAINT `fk_log_account`
            FOREIGN KEY (`account_id`) REFERENCES `chat`.`account` (`id`)
            ON DELETE CASCADE ON UPDATE CASCADE,
        CONSTRAINT `fk_log_room`
            FOREIGN KEY (`room_id`) REFERENCES `chat`.`room` (`room_id`)
            ON DELETE CASCADE ON UPDATE CASCADE
    ) ENGINE=InnoDB DEFAULT CHARSET=utf8mb4;
".

End Sql.

(** A row of [chat.account] (without [create_date]) and of [chat.room]. *)
Record account : Type := mkAccount {
  a_id : wstr;
  a_password : wstr;
  a_online : Z;
  a_room : option Z
}.

Record room_row : Type := mkRow {
  r_name : wstr;
  r_count : Z
}.

(** A row of [chat.log], without the [log_id] that numbers the rows and [send_date]. *)
Record log_row : Type := mkLog {
  l_account : wstr;
  l_room : Z;
  l_message : wstr
}.

Definition with_online (o : Z) (a : account) : account :=
  mkAccount (a_id a) (a_password a) o (a_room a).
Definition with_room (r : option Z) (a : account) : account :=
  mkAccount (a_id a) (a_password a) (a_online a) r.
Definition add_count (n : Z) (r : room_row) : room_row := mkRow (r_name r) (r_count r + n).
Definition leave_deleted (r : Z) (a : account) : account :=
  if decide (a_room a = Some r) then with_room None a else a.

Definition VOpt (r : option Z) : value := match r with Some z => VInt z | None => VNull end.

Class ChatDb (D : Type) `{!Odbc D} : Type := {
  #[global] chat_answers :: OdbcAnswers D;
  collate : wstr → wstr;
  accounts : D → gmap wstr account;
  rooms : D → gmap Z room_row;
  (* by [log_id] *)
  logs : D → list log_row;

  login_law : ∀ id pw o d,
    SQLExecDirectW Sql.login (<[3:=VInt o]> (<[2:=VStr pw]> (<[1:=VStr id]> ∅))) d =
    SqlOk (match accounts d !! collate id with
           | Some a => if decide (collate (a_password a) = collate pw ∧ a_online a = o)
                       then [[VStr (a_id a)]] else []
           | None => []
           end) d;
  set_online_law : ∀ id o d, ∃ d',
    SQLExecDirectW Sql.set_online (<[2:=VStr id]> (<[1:=VInt o]> ∅)) d = SqlOk [] d' ∧
    accounts d' = alter (with_online o) (collate id) (accounts d) ∧ rooms d' = rooms d;
  insert_account_dup_law : ∀ id pw o d, is_Some (accounts d !! collate id) →
    SQLExecDirectW Sql.insert_account
      (<[4:=VInt o]> (<[3:=VTime]> (<[2:=VStr pw]> (<[1:=VStr id]> ∅)))) d = SqlError;
  insert_account_law : ∀ id pw o d, accounts d !! collate id = None →
    zlen id ≤ 30 → zlen pw ≤ 255 → ∃ d',
    SQLExecDirectW Sql.insert_account
      (<[4:=VInt o]> (<[3:=VTime]> (<[2:=VStr pw]> (<[1:=VStr id]> ∅)))) d = SqlOk [] d' ∧
    accounts d' = <[collate id := mkAccount id pw o None]> (accounts d) ∧ rooms d' = rooms d;
  all_rooms_law : ∀ d, ∃ rows,
    SQLExecDirectW Sql.all_rooms ∅ d = SqlOk rows d ∧
    rows ≡ₚ (λ p, [VStr (r_name p.2); VInt (r_count p.2)]) <$> map_to_list (rooms d);
  room_by_name_law : ∀ name d, ∃ rows,
    SQLExecDirectW Sql.room_by_name (<[1:=VStr name]> ∅) d = SqlOk rows d ∧
    rows ≡ₚ (λ p, [VInt p.1]) <$>
      map_to_list (filter (λ p, collate (r_name p.2) = collate name) (rooms d));
  insert_room_law : ∀ name d, zlen name ≤ 30 →
    (∀ r row, rooms d !! r = Some row → collate (r_name row) ≠ collate name) → ∃ r d',
    SQLExecDirectW Sql.insert_room (<[1:=VStr name]> ∅) d = SqlOk [] d' ∧
    rooms d !! r = None ∧ (∀ k a, accounts d !! k = Some a → a_room a ≠ Some r) ∧
    rooms d' = <[r := mkRow name 1]> (rooms d) ∧ accounts d' = accounts d;
  set_room_law : ∀ id r d, (∀ z, r = Some z → is_Some (rooms d !! z)) → ∃ d',
    SQLExecDirectW Sql.set_room (<[2:=VStr id]> (<[1:=VOpt r]> ∅)) d = SqlOk [] d' ∧
    accounts d' = alter (with_room r) (collate id) (accounts d) ∧ rooms d' = rooms d;
  room_and_name_law : ∀ name d, ∃ rows,
    SQLExecDirectW Sql.room_and_name (<[1:=VStr name]> ∅) d = SqlOk rows d ∧
    rows ≡ₚ (λ p, [VInt p.1; VStr (r_name p.2)]) <$>
      map_to_list (filter (λ p, collate (r_name p.2) = collate name) (rooms d));
  inc_count_law : ∀ r d, ∃ d',
    SQLExecDirectW Sql.inc_count (<[1:=VInt r]> ∅) d = SqlOk [] d' ∧
    rooms d' = alter (add_count 1) r (rooms d) ∧ accounts d' = accounts d;
  dec_count_law : ∀ r d, ∃ d',
    SQLExecDirectW Sql.dec_count (<[1:=VInt r]> ∅) d = SqlOk [] d' ∧
    rooms d' = alter (add_count (-1)) r (rooms d) ∧ accounts d' = accounts d;
  users_in_law : ∀ r d, ∃ rows,
    SQLExecDirectW Sql.users_in (<[1:=VInt r]> ∅) d = SqlOk rows d ∧
    rows ≡ₚ (λ p, [VStr (a_id p.2)]) <$>
      map_to_list (filter (λ p, a_room p.2 = Some r) (accounts d));
  delete_room_law : ∀ r d, ∃ d',
    SQLExecDirectW Sql.delete_room (<[1:=VInt r]> ∅) d = SqlOk [] d' ∧
    match rooms d !! r with
    | Some row =>
      if decide (r_count row ≤ 0)
      then rooms d' = delete r (rooms d) ∧ accounts d' = leave_deleted r <$> accounts d
      else rooms d' = rooms d ∧ accounts d' = accounts d
    | None => rooms d' = rooms d ∧ accounts d' = accounts d
    end;
  room_of_law : ∀ id d,
    SQLExecDirectW Sql.room_of (<[1:=VStr id]> ∅) d =
    SqlOk (match accounts d !! collate id with Some a => [[VOpt (a_room a)]] | None => [] end) d;
  join_of_law : ∀ id d,
    SQLExecDirectW Sql.join_of (<[1:=VStr id]> ∅) d =
    SqlOk (match accounts d !! collate id ≫= a_room with
           | Some r => match rooms d !! r with
                       | Some row => [[VInt r; VStr (r_name row)]]
                       | None => []
                       end
           | None => []
           end) d;
  insert_log_law : ∀ id r m d, is_Some (accounts d !! collate id) → is_Some (rooms d !! r) →
    zlen m ≤ 16383 → ∃ d',
    SQLExecDirectW Sql.insert_log (<[3:=VStr m]> (<[2:=VInt r]> (<[1:=VStr id]> ∅))) d = SqlOk [] d' ∧
    accounts d' = accounts d ∧ rooms d' = rooms d ∧ logs d' = logs d ++ [mkLog id r m]
}.

(** ** The tables

    The tables of [main]'s statements and which others a table's foreign keys
    refer to. *)

Inductive table : Type := Log_ | Account_ | Room_.

#[global] Instance table_eq_dec : EqDecision table.
Proof. solve_decision. Defined.

Definition refers (t u : table) : bool :=
  match t, u with
  | Log_, Account_ | Log_, Room_ | Account_, Room_ => true
  | _, _ => false
  end.

Definition drop_of (t : table) : string :=
  match t with Log_ => Sql.drop_log | Account_ => Sql.drop_account | Room_ => Sql.drop_room end.
Definition create_of (t : table) : string :=
  match t with Log_ => Sql.create_log | Account_ => Sql.create_account | Room_ => Sql.create_room end.

(** What the manual says of the statements: a table can be dropped unless
    another one refers to it, and created if those it refers to exist; a new table
    is empty, one that exists is kept, and the others are not touched. *)
Class ChatDdl (D : Type) `{!Odbc D, !ChatDb D} : Type := {
  has_table : D → table → bool;

  drop_law : ∀ t d,
    (∀ u, has_table d u = true → u ≠ t → refers u t = false) →
    ∃ d', SQLExecDirectW (drop_of t) ∅ d = SqlOk [] d' ∧
      (∀ u, has_table d' u = bool_decide (u ≠ t) && has_table d u) ∧
      (t ≠ Account_ → accounts d' = accounts d) ∧ (t ≠ Room_ → rooms d' = rooms d);

  create_law : ∀ t d,
    (∀ u, refers t u = true → has_table d u = true) →
    ∃ d', SQLExecDirectW (create_of t) ∅ d = SqlOk [] d' ∧
      (∀ u, has_table d' u = bool_decide (u = t) || has_table d u) ∧
      accounts d' = (if bool_decide (t = Account_) && negb (has_table d t) then ∅ else accounts d) ∧
      rooms d' = (if bool_decide (t = Room_) && negb (has_table d t) then ∅ else rooms d)
}.

(** ** A database in memory

    The tables as maps; comparison is exact. *)

Record mem : Type := mkMem {
  m_accounts : gmap wstr account;
  m_rooms : gmap Z room_row;
  m_next : Z;
  m_tables : list table;
  m_logs : list log_row
}.

Definition mem_next (d : mem) : Z :=
  1 + foldr Z.max (m_next d)
        ((map_to_list (m_rooms d)).*1 ++ omap (λ p, a_room p.2) (map_to_list (m_accounts d))).

(** Parameter [i] as a string, an integer, a nullable integer. *)
Definition p_str (ps : gmap Z value) (i : Z) : wstr :=
  match ps !! i with Some (VStr w) => w | _ => [] end.
Definition p_int (ps : gmap Z value) (i : Z) : Z :=
  match ps !! i with Some (VInt z) => z | _ => 0 end.
Definition p_opt (ps : gmap Z value) (i : Z) : option Z :=
  match ps !! i with Some (VInt z) => Some z | _ => None end.

Definition mem_update (f : gmap wstr account → gmap wstr account)
    (g : gmap Z room_row → gmap Z room_row) (d : mem) : sqlres mem :=
  SqlOk [] (mkMem (f (m_accounts d)) (g (m_rooms d)) (m_next d) (m_tables d) (m_logs d)).

Definition mem_insert_room (name : wstr) (d : mem) : sqlres mem :=
  if decide (Exists (λ p : Z * room_row, r_name p.2 = name) (map_to_list (m_rooms d)))
  then SqlError
  else SqlOk [] (mkMem (m_accounts d) (<[mem_next d := mkRow name 1]> (m_rooms d)) (mem_next d) (m_tables d) (m_logs d)).

Definition mem_delete_room (r : Z) (d : mem) : sqlres mem :=
  match m_rooms d !! r with
  | Some row =>
    if decide (r_count row ≤ 0)
    then SqlOk [] (mkMem (leave_deleted r <$> m_accounts d) (delete r (m_rooms d)) (m_next d) (m_tables d)
                     (filter (λ l, l_room l ≠ r) (m_logs d)))
    else SqlOk [] d
  | None => SqlOk [] d
  end.

Definition mem_drop (t : table) (d : mem) : sqlres mem :=
  if forallb (λ u, bool_decide (u = t) || negb (refers u t)) (m_tables d)
  then SqlOk [] (mkMem (m_accounts d) (m_rooms d) (m_next d) (filter (λ u, u ≠ t) (m_tables d)) (m_logs d))
  else SqlError.

Definition mem_create (t : table) (d : mem) : sqlres mem :=
  if forallb (λ u, negb (refers t u) || bool_decide (u ∈ m_tables d)) [Log_; Account_; Room_]
  then SqlOk [] (if decide (t ∈ m_tables d) then d
                 else mkMem (if decide (t = Account_) then ∅ else m_accounts d) (if decide (t = Room_) then ∅ else m_rooms d)
                        (m_next d) (t :: m_tables d) (if decide (t = Log_) then [] else m_logs d))
  else SqlError.

Definition mem_exec (q : string) (ps : gmap Z value) (d : mem) : sqlres mem :=
  if decide (q = Sql.login) then
    SqlOk (match m_accounts d !! p_str ps 1 with
           | Some a => if decide (a_password a = p_str ps 2 ∧ a_online a = p_int ps 3)
                       then [[VStr (a_id a)]] else []
           | None => []
           end) d
  else if decide (q = Sql.set_online) then
    mem_update (alter (with_online (p_int ps 1)) (p_str ps 2)) id d
  else if decide (q = Sql.insert_account) then
    (if decide (is_Some (m_accounts d !! p_str ps 1)) then SqlError
     else mem_update <[p_str ps 1 := mkAccount (p_str ps 1) (p_str ps 2) (p_int ps 4) None]> id d)
  else if decide (q = Sql.all_rooms) then
    SqlOk ((λ p, [VStr (r_name p.2); VInt (r_count p.2)]) <$> map_to_list (m_rooms d)) d
  else if decide (q = Sql.room_by_name) then
    SqlOk ((λ p, [VInt p.1]) <$> map_to_list (filter (λ p, r_name p.2 = p_str ps 1) (m_rooms d))) d
  else if decide (q = Sql.insert_room) then mem_insert_room (p_str ps 1) d
  else if decide (q = Sql.set_room) then
    mem_update (alter (with_room (p_opt ps 1)) (p_str ps 2)) id d
  else if decide (q = Sql.room_and_name) then
    SqlOk ((λ p, [VInt p.1; VStr (r_name p.2)]) <$>
             map_to_list (filter (λ p, r_name p.2 = p_str ps 1) (m_rooms d))) d
  else if decide (q = Sql.inc_count) then mem_update id (alter (add_count 1) (p_int ps 1)) d
  else if decide (q = Sql.dec_count) then mem_update id (alter (add_count (-1)) (p_int ps 1)) d
  else if decide (q = Sql.users_in) then
    SqlOk ((λ p, [VStr (a_id p.2)]) <$>
             map_to_list (filter (λ p, a_room p.2 = Some (p_int ps 1)) (m_accounts d))) d
  else if decide (q = Sql.delete_room) then mem_delete_room (p_int ps 1) d
  else if decide (q = Sql.room_of) then
    SqlOk (match m_accounts d !! p_str ps 1 with Some a => [[VOpt (a_room a)]] | None => [] end) d
  else if decide (q = Sql.join_of) then
    SqlOk (match m_accounts d !! p_str ps 1 ≫= a_room with
           | Some r => match m_rooms d !! r with
                       | Some row => [[VInt r; VStr (r_name row)]]
                       | None => []
                       end
           | None => []
           end) d
  else if decide (q = Sql.insert_log) then
    (if decide (is_Some (m_accounts d !! p_str ps 1) ∧ is_Some (m_rooms d !! p_int ps 2))
     then SqlOk [] (mkMem (m_accounts d) (m_rooms d) (m_next d) (m_tables d)
                      (m_logs d ++ [mkLog (p_str ps 1) (p_int ps 2) (p_str ps 3)]))
     else SqlError)
  else if decide (q = Sql.drop_log) then mem_drop Log_ d
  else if decide (q = Sql.drop_account) then mem_drop Account_ d
  else if decide (q = Sql.drop_room) then mem_drop Room_ d
  else if decide (q = Sql.create_room) then mem_create Room_ d
  else if decide (q = Sql.create_account) then mem_create Account_ d
  else if decide (q = Sql.create_log) then mem_create Log_ d
  else SqlError.

#[global] Instance mem_odbc : Odbc mem := {
  SQLExecDirectW := mem_exec;
  SQLBindParameter _ _ := true;
  SQLBindCol _ := true;
  SQLFetch _ _ := true
}.

Lemma mem_next_above (d : mem) r :
  r ∈ (map_to_list (m_rooms d)).*1 ++ omap (λ p, a_room p.2) (map_to_list (m_accounts d)) →
  r < mem_next d.
Proof.
  unfold mem_next. induction ((map_to_list (m_rooms d)).*1 ++ _) as [|x l IH]; simpl; [set_solver|].
  rewrite elem_of_cons. intros [->|H%IH]; lia.
Qed.

Lemma mem_next_fresh_room d : m_rooms d !! mem_next d = None.
Proof.
  apply eq_None_not_Some. intros [row Hr].
  assert (mem_next d < mem_next d); [|lia]. apply mem_next_above.
  apply elem_of_app. left. apply list_elem_of_fmap. exists (mem_next d, row). split; [done|].
  by apply elem_of_map_to_list.
Qed.

Lemma mem_next_fresh_account d k a :
  m_accounts d !! k = Some a → a_room a ≠ Some (mem_next d).
Proof.
  intros Ha Hr. assert (mem_next d < mem_next d); [|lia]. apply mem_next_above.
  apply elem_of_app. right. apply list_elem_of_omap. exists (k, a). split; [|done].
  by apply elem_of_map_to_list.
Qed.

#[global] Instance mem_chatdb : ChatDb mem.
Proof.
  refine {| chat_answers := Build_OdbcAnswers mem _ (λ _ _, eq_refl) (λ _, eq_refl) (λ _ _, eq_refl); collate := Datatypes.id; accounts := m_accounts; rooms := m_rooms; logs := m_logs |}; intros.
  all: try reflexivity.
  all: try (eexists; split_and!; reflexivity).
  - change (SQLExecDirectW ?q ?p ?d) with
      (if decide (is_Some (m_accounts d !! id)) then SqlError (D := mem)
       else mem_update <[id := mkAccount id pw o None]> Datatypes.id d).
    by rewrite decide_True.
  - exists (mkMem (<[id := mkAccount id pw o None]> (m_accounts d)) (m_rooms d) (m_next d) (m_tables d) (m_logs d)).
    split_and!; [|reflexivity..].
    change (SQLExecDirectW ?q ?p ?d) with
      (if decide (is_Some (m_accounts d !! id)) then SqlError (D := mem)
       else mem_update <[id := mkAccount id pw o None]> Datatypes.id d).
    rewrite decide_False; [reflexivity|]. by apply eq_None_not_Some.
  - exists (mem_next d), (mkMem (m_accounts d) (<[mem_next d := mkRow name 1]> (m_rooms d)) (mem_next d) (m_tables d) (m_logs d)).
    split_and!; [|apply mem_next_fresh_room|apply mem_next_fresh_account|reflexivity..].
    change (SQLExecDirectW ?q ?p ?d) with (mem_insert_room name d).
    unfold mem_insert_room. rewrite decide_False; [done|].
    rewrite Exists_exists. intros ([r row] & Hin%elem_of_map_to_list & Hn). by eapply H0.
  - exists (match mem_exec Sql.set_room (<[2:=VStr id]> (<[1:=VOpt r]> ∅)) d with SqlOk _ d' => d' | SqlError => d end).
    destruct r; split_and!; reflexivity.
  - change (SQLExecDirectW ?q ?p ?d) with (mem_delete_room r d). unfold mem_delete_room.
    destruct (m_rooms d !! r) as [row|]; [case_decide|]; eauto.
  - exists (mkMem (m_accounts d) (m_rooms d) (m_next d) (m_tables d) (m_logs d ++ [mkLog id r m])).
    split_and!; [|reflexivity..].
    change (SQLExecDirectW ?q ?p ?d) with
      (if decide (is_Some (m_accounts d !! id) ∧ is_Some (m_rooms d !! r))
       then SqlOk [] (mkMem (m_accounts d) (m_rooms d) (m_next d) (m_tables d) (m_logs d ++ [mkLog id r m]))
       else SqlError).
    by rewrite decide_True.
Defined.

#[global] Instance mem_chatddl : ChatDdl mem.
Proof.
  refine {| has_table := λ d t, bool_decide (t ∈ m_tables d) |}.
  - intros t d H. exists (mkMem (m_accounts d) (m_rooms d) (m_next d) (filter (λ u, u ≠ t) (m_tables d)) (m_logs d)). split_and!.
    + transitivity (mem_drop t d); [by destruct t|]. unfold mem_drop.
      assert (forallb (λ u, bool_decide (u = t) || negb (refers u t)) (m_tables d) = true) as ->; [|done].
      apply forallb_forall. intros u Hu. apply list_elem_of_In in Hu. case_bool_decide as Hut; [done|]. simpl.
      rewrite (H u); [done| |done]. by apply bool_decide_eq_true_2.
    + intros u. simpl. rewrite <-bool_decide_and. apply bool_decide_ext. by rewrite list_elem_of_filter.
    + done.
    + done.
  - intros t d H. exists (if decide (t ∈ m_tables d) then d
                 else mkMem (if decide (t = Account_) then ∅ else m_accounts d) (if decide (t = Room_) then ∅ else m_rooms d)
                        (m_next d) (t :: m_tables d) (if decide (t = Log_) then [] else m_logs d)). split_and!.
    + transitivity (mem_create t d); [by destruct t|]. unfold mem_create.
      assert (forallb (λ u, negb (refers t u) || bool_decide (u ∈ m_tables d)) [Log_; Account_; Room_] = true) as ->; [|done].
      apply forallb_forall. intros u _. destruct (refers t u) eqn:E; [|done]. simpl. by apply H.
    + intros u. case_decide as Ht; simpl; rewrite <-bool_decide_or; apply bool_decide_ext.
      * split; [by right|]. by intros [->|].
      * apply elem_of_cons.
    + case_decide as Ht; [rewrite (bool_decide_eq_true_2 (t ∈ _)) by done; simpl; by rewrite andb_false_r|].
      rewrite (bool_decide_eq_false_2 (t ∈ _)) by done. simpl. rewrite andb_true_r. by destruct t.
    + case_decide as Ht; [rewrite (bool_decide_eq_true_2 (t ∈ _)) by done; simpl; by rewrite andb_false_r|].
      rewrite (bool_decide_eq_false_2 (t ∈ _)) by done. simpl. rewrite andb_true_r. by destruct t.
Defined.
