(* ===== verification/ChatServer.v ===== *)
(** * ChatServer: rooms, client sessions and the packet respondents
      (Server/RoomHandler.*, ClientSession.*, ClientSessionManager.*,
       PacketRespondent.h, AuthRespondent.h, LobbyRespondent.h, RoomRepondent.h)

    The server's shared objects as one store: the rooms by address, the map of
    [RoomHandler], the client sessions, the connection pool with the database.
    A respondent's job is a function of that store.  A room's owners are the
    entries of [RoomHandler::_rooms]: a [weak_ptr] to it has expired when it
    has no entry.  [sent] is history: the messages given to [Session::Send].
    [MakeSendBuffer] is used through what [PacketHandler] proves of it: it
    returns for messages of at most [max_message] bytes and crashes otherwise. *)

From S2P Require Import Prelude SendBuffer PacketHandler Wire Protocol Database ChatDb.
#[local] Open Scope Z_scope.

Module ChatServer.
Import Wire DBConnection.

(** [ERoomState]. *)
Definition Destruction : Z := -1.
Definition Empty : Z := 0.

Record Room : Type := mkRoom {
  _roomId : Z;
  roomState : Z;
  _users : gmap str nat
}.

Record ClientSession : Type := mkSession {
  _room : option nat;
  _id : str
}.

Record st (D : Type) : Type := mk {
  dbs : DBConnection.st D;
  heap : gmap nat Room;
  next_room : nat;
  _rooms : gmap Z nat;
  sessions : gmap nat ClientSession;
  sent : list (nat * Msg.t)
}.
Arguments mk {D}.
Arguments dbs {D}.
Arguments heap {D}.
Arguments next_room {D}.
Arguments _rooms {D}.
Arguments sessions {D}.
Arguments sent {D}.

Section server.
Context {D : Type} `{!Odbc D} {WT : WinText}.

(** A computation on the database part of the store. *)
Definition on_db {A} (m : M (DBConnection.st D) A) : M (st D) A := λ s,
  match m (dbs s) with
  | Ret (a, d) => Ret (a, mk d (heap s) (next_room s) (_rooms s) (sessions s) (sent s))
  | Crash f => Crash f
  end.

Definition set_room (p : nat) (r : Room) : M (st D) unit :=
  modify (λ s, mk (dbs s) (<[p := r]> (heap s)) (next_room s) (_rooms s) (sessions s) (sent s)).
Definition set_rooms (f : gmap Z nat → gmap Z nat) : M (st D) unit :=
  modify (λ s, mk (dbs s) (heap s) (next_room s) (f (_rooms s)) (sessions s) (sent s)).
Definition set_session (sid : nat) (c : ClientSession) : M (st D) unit :=
  modify (λ s, mk (dbs s) (heap s) (next_room s) (_rooms s) (<[sid := c]> (sessions s)) (sent s)).

Definition room_at (p : nat) : M (st D) Room := s ← get; lift (deref (heap s !! p)).
Definition session_at (sid : nat) : M (st D) ClientSession := s ← get; lift (deref (sessions s !! sid)).

(** *** Statements

    [DBBind<P, C>] on connection [c], its parameters and columns bound from
    index 0 on, and [ASSERT_CRASH(dbBind.Execute())]. *)

Fixpoint bind_params (idx : Z) (vs : list cvar) (b : DBBind.t) : M (DBConnection.st D) DBBind.t :=
  match vs with
  | [] => mret b
  | v :: vs => b ← DBBind.BindParam idx v b; bind_params (idx + 1) vs b
  end.

Fixpoint bind_cols (idx : Z) (cs : list ccol) (b : DBBind.t) : M (DBConnection.st D) DBBind.t :=
  match cs with
  | [] => mret b
  | c :: cs => b ← DBBind.BindCol idx c b; bind_cols (idx + 1) cs b
  end.

Definition statement (P C c : nat) (q : string) (vs : list cvar) (cs : list ccol)
    : M (DBConnection.st D) DBBind.t :=
  b ← DBBind.new P C c q;
  b ← bind_params 0 vs b;
  bind_cols 0 cs b.

Definition execute (P C c : nat) (q : string) (vs : list cvar) (cs : list ccol)
    : M (st D) DBBind.t :=
  b ← on_db (statement P C c q vs cs);
  ok ← on_db (DBBind.Execute b true);
  assert_crash ok;;
  mret b.

(** [while (dbBind.Fetch())]: the rows stored, in order. *)
Fixpoint fetch_loop (fuel : nat) (b : DBBind.t) : M (st D) (list (gmap Z value)) :=
  match fuel with
  | O => crash Hang
  | S fuel =>
    row ← on_db (DBBind.Fetch b);
    match row with
    | None => mret []
    | Some r => rs ← fetch_loop fuel b; mret (r :: rs)
    end
  end.

Definition fetch_all (b : DBBind.t) : M (st D) (list (gmap Z value)) :=
  k ← on_db (get_conn (DBBind._conn b));
  fetch_loop (S (length (cursor k))) b.

(** The variable bound to column [i] after a fetch. *)
Definition out_int (i : Z) (row : gmap Z value) : Z :=
  match row !! i with Some (VInt z) => z | _ => 0 end.
Definition out_str (i : Z) (row : gmap Z value) : wstr :=
  match row !! i with Some (VStr w) => w | _ => [] end.

(** [WCHAR outId[14]]. *)
Definition name_col : ccol := ColWchar 28.

Definition wide (u : str) : cvar := CWchar (Utf8ToWstring u).

(** *** ClientPacketHandler::MakeSendBuffer and Session::Send *)

Definition Send (sid : nat) (pkt : Msg.t) : M (st D) unit :=
  if Msg.ByteSizeLong pkt <=? PacketHandler.max_message
  then modify (λ s, mk (dbs s) (heap s) (next_room s) (_rooms s) (sessions s) (sent s ++ [(sid, pkt)]))
  else crash (PacketHandler.send_fault (Msg.ByteSizeLong pkt)).

Fixpoint send_each (l : list nat) (pkt : Msg.t) (exclu : option nat) : M (st D) unit :=
  match l with
  | [] => mret tt
  | sid :: l =>
    (match exclu with
     | Some e => if decide (e = sid) then mret tt else Send sid pkt
     | None => Send sid pkt
     end);;
    send_each l pkt exclu
  end.

(** [Room::BroadCast]. *)
Definition BroadCast (p : nat) (pkt : Msg.t) (excluUser : option nat) : M (st D) unit :=
  r ← room_at p; send_each ((map_to_list (_users r)).*2) pkt excluUser.

(** *** RoomHandler *)

Definition GetRoom (roomId : Z) : M (st D) (option nat) := gets (λ s, _rooms s !! roomId).

Definition AddRoom (p : nat) : M (st D) unit :=
  r ← room_at p; set_rooms <[_roomId r := p]>.

Definition RemoveRoom (roomId : Z) : M (st D) unit :=
  s ← get;
  assert_crash (bool_decide (is_Some (_rooms s !! roomId)));;
  set_rooms (delete roomId).

(** *** ClientSession *)

Definition SetRoom (sid : nat) (room : option nat) : M (st D) unit :=
  c ← session_at sid; set_session sid (mkSession room (_id c)).

Definition SetId (sid : nat) (id : str) : M (st D) unit :=
  c ← session_at sid; set_session sid (mkSession (_room c) id).

(** *** Room *)

(** [make_shared<Room>(roomId, userId, user)]. *)
Definition new_Room (roomId : Z) (userId : str) (user : nat) : M (st D) nat :=
  s ← get;
  modify (λ s, mk (dbs s) (<[next_room s := mkRoom roomId Empty {[userId := user]}]> (heap s))
                  (S (next_room s)) (_rooms s) (sessions s) (sent s));;
  mret (next_room s).

Definition AddUser (p : nat) (userId : str) (user : nat) : M (st D) bool :=
  r ← room_at p;
  if decide (_users r = ∅) then mret false
  else
    set_room p (mkRoom (_roomId r) (roomState r) (<[userId := user]> (_users r)));;
    SetRoom user (Some p);;
    mret true.

Definition GetUserCount (p : nat) : M (st D) Z :=
  r ← room_at p; mret (Z.of_nat (size (_users r))).

(** The packet that lists the users of a room. *)
Definition refresh_room (rows : list (gmap Z value)) : Msg.t :=
  Msg.S_REFRESH_ROOM (foldl (λ m row, S_REFRESH_ROOM.add_userids (WCHARToUTF8 (out_str 1 row)) m)
                        S_REFRESH_ROOM.new rows).

Definition RemoveUser (p : nat) (userId : str) : M (st D) unit :=
  dbConn ← on_db DBConnectionPool.Pop;
  c ← lift (deref dbConn);
  b ← on_db (DBBind.new 2 0 c Sql.set_room);
  b ← on_db (DBBind.BindParam 0 (CInt32 0) b);
  b ← on_db (DBBind.SetParamNull 0 b);
  b ← on_db (DBBind.BindParam 1 (wide userId) b);
  ok ← on_db (DBBind.Execute b true);
  assert_crash ok;;
  r ← room_at p;
  execute 1 0 c Sql.dec_count [CInt32 (_roomId r)] [];;
  assert_crash (bool_decide (is_Some (_users r !! userId)));;
  user ← lift (deref (_users r !! userId));
  SetRoom user None;;
  let users := delete userId (_users r) in
  let state := roomState r - 1 in
  (if decide (state = Empty) then
    set_room p (mkRoom (_roomId r) Destruction users);;
    execute 1 0 c Sql.delete_room [CInt32 (_roomId r)] [];;
    RemoveRoom (_roomId r)
  else
    set_room p (mkRoom (_roomId r) state users);;
    b ← execute 1 1 c Sql.users_in [CInt32 (_roomId r)] [name_col];
    rows ← fetch_all b;
    match rows with
    | [] => mret tt
    | _ => BroadCast p (refresh_room rows) None
    end);;
  on_db (DBConnectionPool.Push c).

(** [ClientSession::OnDisconnected]. *)
Definition expired (s : st D) (p : nat) : bool :=
  match heap s !! p with
  | Some r => negb (bool_decide (_rooms s !! _roomId r = Some p))
  | None => true
  end.

Definition OnDisconnected (sid : nat) : M (st D) unit :=
  k ← session_at sid;
  s ← get;
  (match _room k with
   | Some p => if expired s p then mret tt else RemoveUser p (_id k)
   | None => mret tt
   end);;
  dbConn ← on_db DBConnectionPool.Pop;
  c ← lift (deref dbConn);
  execute 2 0 c Sql.set_online [CBool false; wide (_id k)] [];;
  on_db (DBConnectionPool.Push c).

(** *** The respondents

    [RESPONSE_START] and [RESPONSE_END]: the job takes a connection, runs, and
    gives it back. *)
Definition respond (job : nat → M (st D) unit) : M (st D) unit :=
  dbConn ← on_db DBConnectionPool.Pop;
  c ← lift (deref dbConn);
  job c;;
  on_db (DBConnectionPool.Push c).

Definition C_LOGIN_job (session : nat) (id pssd : str) : M (st D) unit := respond (λ c,
  b ← execute 3 1 c Sql.login [wide id; wide pssd; CBool false] [name_col];
  row ← on_db (DBBind.Fetch b);
  let canLogin := bool_decide (is_Some row) in
  when canLogin
    (execute 2 0 c Sql.set_online [CBool true; wide id] [];;
     SetId session id);;
  Send session (Msg.S_LOGIN (S_LOGIN.set_pssd pssd (S_LOGIN.set_id id
                  (S_LOGIN.set_issuccess canLogin S_LOGIN.new))))).

Definition C_REGISTER_job (session : nat) (id pssd : str) : M (st D) unit := respond (λ c,
  b ← on_db (statement 4 0 c Sql.insert_account [wide id; wide pssd; CTimestamp; CBool false] []);
  ok ← on_db (DBBind.Execute b false);
  Send session (Msg.S_REGISTER (S_REGISTER.set_issuccess ok
                  (S_REGISTER.set_pssd pssd (S_REGISTER.set_id id S_REGISTER.new))))).

Definition lobby_packet (rows : list (gmap Z value)) : Msg.t :=
  Msg.S_REFRESH_LOBBY
    (foldl (λ m row, S_REFRESH_LOBBY.add_usercounts (out_int 2 row)
                       (S_REFRESH_LOBBY.add_roomnames (WCHARToUTF8 (out_str 1 row)) m))
       (S_REFRESH_LOBBY.set_issuccess true S_REFRESH_LOBBY.new) rows).

Definition C_REFRESH_LOBBY_job (session : nat) : M (st D) unit := respond (λ c,
  b ← execute 0 2 c Sql.all_rooms [] [name_col; ColInt64];
  rows ← fetch_all b;
  Send session (lobby_packet rows)).

Definition C_CREATE_ROOM_job (session : nat) (id roomname : str) : M (st D) unit := respond (λ c,
  b ← execute 1 1 c Sql.room_by_name [wide roomname] [ColInt32];
  row ← on_db (DBBind.Fetch b);
  let canCreate := negb (bool_decide (is_Some row)) in
  when canCreate
    (execute 1 0 c Sql.insert_room [wide roomname] [];;
     b ← execute 1 1 c Sql.room_by_name [wide roomname] [ColInt32];
     row ← on_db (DBBind.Fetch b);
     assert_crash (bool_decide (is_Some row));;
     let outRoomId := out_int 1 (default ∅ row) in
     execute 2 0 c Sql.set_room [CInt32 outRoomId; wide id] [];;
     p ← new_Room outRoomId id session;
     r ← room_at p;
     set_room p (mkRoom (_roomId r) (roomState r + 1) (_users r));;
     SetRoom session (Some p);;
     AddRoom p);;
  Send session (Msg.S_CREATE_ROOM (S_CREATE_ROOM.set_issuccess canCreate
                  (S_CREATE_ROOM.set_roomname roomname S_CREATE_ROOM.new)))).

(** The exchange loop on [roomState]: a job runs alone here, so the first
    exchange succeeds unless the room is being destroyed. *)
Definition claim_seat (p : nat) : M (st D) bool :=
  r ← room_at p;
  if decide (roomState r = Destruction) then mret false
  else set_room p (mkRoom (_roomId r) (roomState r + 1) (_users r));; mret true.

Definition join_packet (canJoin : bool) (roomname : str) (rows : list (gmap Z value)) : Msg.t :=
  Msg.S_JOIN_ROOM (S_JOIN_ROOM.set_issuccess canJoin
    (foldl (λ m row, S_JOIN_ROOM.add_userids (WCHARToUTF8 (out_str 1 row)) m)
       (S_JOIN_ROOM.set_roomname roomname S_JOIN_ROOM.new) rows)).

Definition C_JOIN_ROOM_job (session : nat) (id roomname : str) : M (st D) unit := respond (λ c,
  b ← execute 1 2 c Sql.room_and_name [wide roomname] [ColInt32; name_col];
  row ← on_db (DBBind.Fetch b);
  let outRoomId := out_int 1 (default ∅ row) in
  room ← (match row with Some _ => GetRoom outRoomId | None => mret None end);
  canJoin ← (match room with Some p => claim_seat p | None => mret false end);
  rows ←
    (if canJoin then
       execute 2 0 c Sql.set_room [CInt32 outRoomId; wide id] [];;
       execute 1 0 c Sql.inc_count [CInt32 outRoomId] [];;
       b ← execute 1 1 c Sql.users_in [CInt32 outRoomId] [name_col];
       rows ← fetch_all b;
       p ← lift (deref room);
       AddUser p id session;;
       BroadCast p (refresh_room rows) (Some session);;
       mret rows
     else mret []);
  Send session (join_packet canJoin roomname rows)).

Definition C_CHAT_LOG_job (session : nat) (id log : str) : M (st D) unit := respond (λ c,
  b ← execute 1 2 c Sql.join_of [wide id] [ColInt32; name_col];
  row ← on_db (DBBind.Fetch b);
  assert_crash (bool_decide (is_Some row));;
  let outRoomId := out_int 1 (default ∅ row) in
  execute 3 0 c Sql.insert_log [wide id; CInt32 outRoomId; wide log] [];;
  room ← GetRoom outRoomId;
  p ← lift (deref room);
  BroadCast p (Msg.S_CHAT_LOG (S_CHAT_LOG.set_log log (S_CHAT_LOG.set_id id S_CHAT_LOG.new))) None).

Definition C_ROOM_OUT_job (session : nat) (id : str) : M (st D) unit := respond (λ c,
  b ← execute 1 1 c Sql.room_of [wide id] [ColInt32];
  row ← on_db (DBBind.Fetch b);
  assert_crash (bool_decide (is_Some row));;
  assert_crash (negb (DBBind.IsColNull 0 (default ∅ row)));;
  let outRoomId := out_int 1 (default ∅ row) in
  room ← GetRoom outRoomId;
  p ← lift (deref room);
  RemoveUser p id;;
  Send session Msg.S_ROOM_OUT).

(** ** Running statements *)

Context {OA : OdbcAnswers D}.

Definition with_dbs (x : DBConnection.st D) (s : st D) : st D :=
  mk x (heap s) (next_room s) (_rooms s) (sessions s) (sent s).

(** The store after a statement on connection [c] left the database in [d] and
    the connection in [k]. *)
Definition ran (d : D) (c : nat) (k : conn) (s : st D) : st D :=
  with_dbs (mkSt d (<[c := k]> (conns (dbs s))) (_connections (dbs s))) s.

Lemma ran_ran d c k d' k' s : ran d' c k' (ran d c k s) = ran d' c k' s.
Proof. unfold ran, with_dbs; simpl. by rewrite insert_insert_eq. Qed.

Lemma ran_conn d c k s : conns (dbs (ran d c k s)) !! c = Some k.
Proof. apply lookup_insert_eq. Qed.

Fixpoint params_from (idx : Z) (vs : list cvar) (m : gmap Z value) : gmap Z value :=
  match vs with
  | [] => m
  | v :: vs => params_from (idx + 1) vs (<[idx + 1 := param_value v]> m)
  end.

Fixpoint cols_from (idx : Z) (cs : list ccol) (m : gmap Z ccol) : gmap Z ccol :=
  match cs with
  | [] => m
  | c :: cs => cols_from (idx + 1) cs (<[idx + 1 := c]> m)
  end.

Fixpoint param_flags (idx : Z) (vs : list cvar) (b : DBBind.t) : DBBind.t :=
  match vs with [] => b | _ :: vs => param_flags (idx + 1) vs (DBBind.flag_param idx b) end.

Fixpoint col_flags (idx : Z) (cs : list ccol) (b : DBBind.t) : DBBind.t :=
  match cs with [] => b | _ :: cs => col_flags (idx + 1) cs (DBBind.flag_column idx b) end.

Definition bound (P C c : nat) (q : string) (vs : list cvar) (cs : list ccol) : DBBind.t :=
  col_flags 0 cs (param_flags 0 vs (DBBind.mk P C c q 0 0)).

Lemma param_flags_conn vs idx b :
  DBBind._conn (param_flags idx vs b) = DBBind._conn b ∧
  DBBind._query (param_flags idx vs b) = DBBind._query b.
Proof. revert idx b. induction vs as [|v vs IH]; intros; simpl; [done|]. by destruct (IH (idx + 1) (DBBind.flag_param idx b)). Qed.

Lemma col_flags_conn cs idx b :
  DBBind._conn (col_flags idx cs b) = DBBind._conn b ∧
  DBBind._query (col_flags idx cs b) = DBBind._query b.
Proof. revert idx b. induction cs as [|v cs IH]; intros; simpl; [done|]. by destruct (IH (idx + 1) (DBBind.flag_column idx b)). Qed.

Lemma bound_conn P C c q vs cs :
  DBBind._conn (bound P C c q vs cs) = c ∧ DBBind._query (bound P C c q vs cs) = q.
Proof.
  unfold bound. destruct (col_flags_conn cs 0 (param_flags 0 vs (DBBind.mk P C c q 0 0))) as [-> ->].
  by destruct (param_flags_conn vs 0 (DBBind.mk P C c q 0 0)) as [-> ->].
Qed.

Definition on_conn (c : nat) (k : conn) (x : DBConnection.st D) : DBConnection.st D :=
  mkSt (db x) (<[c := k]> (conns x)) (_connections x).

Lemma on_conn_twice c k k' x : on_conn c k' (on_conn c k x) = on_conn c k' x.
Proof. unfold on_conn; simpl. by rewrite insert_insert_eq. Qed.

Lemma get_conn_run c k (x : DBConnection.st D) {A} (f : conn → M (DBConnection.st D) A) :
  conns x !! c = Some k → (get_conn c ≫= f) x = f k x.
Proof. intros Hc. unfold get_conn. autorewrite with run. rewrite Hc. done. Qed.

Lemma bind_params_run vs idx b k x :
  conns x !! DBBind._conn b = Some k →
  bind_params idx vs b x =
  Ret (param_flags idx vs b,
       match vs with [] => x | _ => on_conn (DBBind._conn b)
         (mkConn (params_from idx vs (params k)) (cols k) (cursor k)) x end).
Proof.
  revert idx b k x. induction vs as [|v vs IH]; intros idx b k x Hc; [done|]. simpl.
  unfold DBBind.BindParam, BindParam. rewrite bind_parameter_law. unfold set_param. rewrite !bind_assoc, (get_conn_run _ k) by done.
  unfold set_conn. autorewrite with run. fold (on_conn (DBBind._conn b) (mkConn (<[idx + 1 := param_value v]> (params k)) (cols k) (cursor k)) x).
  erewrite IH by apply lookup_insert_eq. simpl. destruct vs; [done|]. by rewrite on_conn_twice.
Qed.

Lemma bind_cols_run cs idx b k x :
  conns x !! DBBind._conn b = Some k →
  bind_cols idx cs b x =
  Ret (col_flags idx cs b,
       match cs with [] => x | _ => on_conn (DBBind._conn b)
         (mkConn (params k) (cols_from idx cs (cols k)) (cursor k)) x end).
Proof.
  revert idx b k x. induction cs as [|v cs IH]; intros idx b k x Hc; [done|]. simpl.
  unfold DBBind.BindCol, BindCol. rewrite bind_col_law, !bind_assoc, (get_conn_run _ k) by done.
  unfold set_conn. autorewrite with run. fold (on_conn (DBBind._conn b) (mkConn (params k) (<[idx + 1 := v]> (cols k)) (cursor k)) x).
  erewrite IH by apply lookup_insert_eq. simpl. destruct cs; [done|]. by rewrite on_conn_twice.
Qed.

Lemma statement_run P C c q vs cs k x :
  conns x !! c = Some k →
  statement P C c q vs cs x =
  Ret (bound P C c q vs cs, on_conn c (mkConn (params_from 0 vs ∅) (cols_from 0 cs ∅) []) x).
Proof.
  intros Hc. unfold statement, DBBind.new, Unbind.
  rewrite !bind_assoc, (get_conn_run _ k) by done. unfold set_conn. autorewrite with run.
  fold (on_conn c new x).
  erewrite M_bind_step by (apply (bind_params_run _ _ _ new); apply lookup_insert_eq).
  cbn [DBBind._conn]. unfold bound.
  destruct (param_flags_conn vs 0 (DBBind.mk P C c q 0 0)) as [Hpc _]. simpl in Hpc.
  destruct vs as [|v vs].
  - erewrite bind_cols_run by apply lookup_insert_eq. simpl. destruct cs; [done|]. by rewrite on_conn_twice.
  - rewrite on_conn_twice. erewrite bind_cols_run by (rewrite Hpc; apply lookup_insert_eq).
    rewrite Hpc. destruct cs; [done|]. by rewrite on_conn_twice.
Qed.

Lemma on_db_run {A} (m : M (DBConnection.st D) A) s a x :
  m (dbs s) = Ret (a, x) → on_db m s = Ret (a, with_dbs x s).
Proof. unfold on_db. by intros ->. Qed.

Lemma on_db_run_to {A} (m : M (DBConnection.st D) A) s a x s' :
  m (dbs s) = Ret (a, x) → with_dbs x s = s' → on_db m s = Ret (a, s').
Proof. intros Hm <-. by apply on_db_run. Qed.

Definition executed (vs : list cvar) (cs : list ccol) (rows : list (list value)) : conn :=
  mkConn (params_from 0 vs ∅) (cols_from 0 cs ∅) rows.

(** A statement whose bindings are complete and that the database accepts. *)
Lemma execute_run P C c q vs cs k s rows d :
  conns (dbs s) !! c = Some k →
  DBBind.Validate (bound P C c q vs cs) = true →
  SQLExecDirectW q (params_from 0 vs ∅) (db (dbs s)) = SqlOk rows d →
  execute P C c q vs cs s = Ret (bound P C c q vs cs, ran d c (executed vs cs rows) s).
Proof.
  intros Hc Hv Hq. unfold execute.
  erewrite M_bind_step by (eapply on_db_run, statement_run, Hc).
  destruct (bound_conn P C c q vs cs) as [Hbc Hbq].
  rewrite (M_bind_step _ _ _ true (ran d c (executed vs cs rows) s)); [done|].
  eapply on_db_run_to.
  - unfold DBBind.Execute. rewrite Hv. autorewrite with run. unfold Execute. rewrite Hbc, Hbq.
    erewrite get_conn_run by apply lookup_insert_eq. autorewrite with run. simpl. rewrite Hq.
    unfold set_db, set_conn. autorewrite with run. reflexivity.
  - simpl. rewrite insert_insert_eq. done.
Qed.

(** What a fetch stores for a row. *)
Definition stored (cs : list ccol) (row : list value) : gmap Z value :=
  map_imap (λ i col, Some (col_store col (default VNull (row !! Z.to_nat (i - 1))))) (cols_from 0 cs ∅).

Lemma fetch_run P C c q vs cs s row rows d :
  on_db (DBBind.Fetch (bound P C c q vs cs)) (ran d c (executed vs cs (row :: rows)) s) =
  Ret (Some (stored cs row), ran d c (executed vs cs rows) s).
Proof.
  eapply on_db_run_to.
  - unfold DBBind.Fetch, Fetch. destruct (bound_conn P C c q vs cs) as [-> _].
    erewrite get_conn_run by apply ran_conn. autorewrite with run. rewrite fetch_law. simpl.
    unfold set_conn. autorewrite with run. reflexivity.
  - apply (ran_ran d c (executed vs cs (row :: rows)) d (executed vs cs rows)).
Qed.

Lemma fetch_none_run P C c q vs cs s d :
  on_db (DBBind.Fetch (bound P C c q vs cs)) (ran d c (executed vs cs []) s) =
  Ret (None, ran d c (executed vs cs []) s).
Proof.
  eapply on_db_run_to.
  - unfold DBBind.Fetch, Fetch. destruct (bound_conn P C c q vs cs) as [-> _].
    erewrite get_conn_run by apply ran_conn. autorewrite with run. rewrite fetch_law. reflexivity.
  - done.
Qed.

Lemma fetch_loop_run P C c q vs cs s d rows fuel :
  (length rows < fuel)%nat →
  fetch_loop fuel (bound P C c q vs cs) (ran d c (executed vs cs rows) s) =
  Ret (stored cs <$> rows, ran d c (executed vs cs []) s).
Proof.
  revert fuel. induction rows as [|row rows IH]; intros [|fuel] Hf; simpl in Hf; [lia| |lia|]; cbn [fetch_loop].
  - by erewrite M_bind_step by apply fetch_none_run.
  - erewrite M_bind_step by apply fetch_run.
    cbn beta iota. by erewrite M_bind_step by (apply IH; lia).
Qed.

Lemma fetch_all_run P C c q vs cs s d rows :
  fetch_all (bound P C c q vs cs) (ran d c (executed vs cs rows) s) =
  Ret (stored cs <$> rows, ran d c (executed vs cs []) s).
Proof.
  unfold fetch_all. destruct (bound_conn P C c q vs cs) as [-> _].
  erewrite M_bind_step.
  2: { apply (on_db_run _ _ (executed vs cs rows) (dbs (ran d c (executed vs cs rows) s))).
       unfold get_conn. autorewrite with run. rewrite ran_conn. done. }
  change (with_dbs (dbs ?x) ?x) with x. apply fetch_loop_run. simpl. lia.
Qed.

(** The pool as [main] fills it and a job finds it: live connections, at least
    two of them. *)
Definition pool_ok (s : st D) : Prop :=
  ∃ l c1 c2 k1 k2, _connections (dbs s) = l ++ [c1; c2] ∧ c1 ≠ c2 ∧
    conns (dbs s) !! c1 = Some k1 ∧ conns (dbs s) !! c2 = Some k2.

Definition with_pool (l : list nat) (s : st D) : st D :=
  with_dbs (mkSt (db (dbs s)) (conns (dbs s)) l) s.

Lemma pop_run s l c :
  _connections (dbs s) = l ++ [c] →
  on_db DBConnectionPool.Pop s = Ret (Some c, with_pool l s).
Proof. intros Hl. apply on_db_run. by apply DBConnectionPool.Pop_nonempty. Qed.

Lemma push_run s c :
  on_db (DBConnectionPool.Push c) s = Ret (tt, with_pool (_connections (dbs s) ++ [c]) s).
Proof. by apply on_db_run. Qed.

(** A job that takes a connection and leaves the pool as it found it. *)
Lemma respond_run job s s' l c :
  _connections (dbs s) = l ++ [c] →
  job c (with_pool l s) = Ret (tt, s') → _connections (dbs s') = l →
  respond job s = Ret (tt, with_pool (l ++ [c]) s').
Proof.
  intros Hl Hj Hp. unfold respond. erewrite M_bind_step by by apply pop_run.
  autorewrite with run. simpl. erewrite M_bind_step by exact Hj. rewrite push_run. by rewrite Hp.
Qed.

Lemma Send_run sid pkt s :
  Msg.ByteSizeLong pkt ≤ PacketHandler.max_message →
  Send sid pkt s = Ret (tt, mk (dbs s) (heap s) (next_room s) (_rooms s) (sessions s) (sent s ++ [(sid, pkt)])).
Proof. intros Hs. unfold Send. case_test; [done|lia]. Qed.

End server.

(** One step of a job: unfold local definitions, then the monad laws. *)
Ltac run := cbv zeta; cbn beta iota; autorewrite with run.

(** Run one statement whose answer is given by [Hq]. *)
Ltac exec_first Hc Hq :=
  run; erewrite M_bind_step by (eapply execute_run; [exact Hc|done|exact Hq]); run.
Ltac exec_next Hq :=
  run; erewrite M_bind_step by (eapply execute_run; [apply ran_conn|done|exact Hq]); rewrite ?ran_ran; run.

(** ** Reading the database part of the store *)

Section view.
Context {D : Type} `{!Odbc D} {WT : WinText} `{!ChatDb D}.

(** The key of a user id, and of any text, in the database. *)
Definition w (u : str) : wstr := c_wstr (Utf8ToWstring u).
Definition ukey (u : str) : wstr := collate (w u).

Definition accts (s : st D) : gmap wstr account := accounts (db (dbs s)).
Definition db_rooms (s : st D) : gmap Z room_row := rooms (db (dbs s)).

(** The pool after a job that used its last connection. *)
Lemma pool_ok_after (s s' : st D) l c1 c2 k2 :
  c1 ≠ c2 → (∃ k1, conns (dbs s) !! c1 = Some k1) →
  conns (dbs s') = <[c2 := k2]> (conns (dbs s)) → _connections (dbs s') = (l ++ [c1]) ++ [c2] →
  pool_ok s'.
Proof.
  intros Hne [k1 H1] Hc Hp. exists l, c1, c2, k1, k2. rewrite Hp, Hc, <-app_assoc.
  split_and!; [done..|by rewrite lookup_insert_ne|apply lookup_insert_eq].
Qed.

End view.

(** Replies that echo the credentials fit when those are short enough. *)
Lemma VarintSize_two n : 0 ≤ n < 16384 → VarintSize n ≤ 2.
Proof.
  intros Hn. destruct (Z.lt_ge_cases n 128).
  - rewrite VarintSize_small; lia.
  - rewrite VarintSize_step by lia. rewrite VarintSize_small; [lia|].
    split; [apply Z.div_pos; lia|apply Z.div_lt_upper_bound; lia].
Qed.

Lemma StringSize_short s : zlen s < 16384 → StringSize s ≤ zlen s + 2.
Proof. intros Hs. pose proof (zlen_nonneg s). unfold StringSize. pose proof (VarintSize_two (zlen s)). lia. Qed.

(** ** A server for the witnesses

    Text is ASCII; two accounts, two connected sessions, two connections. *)

Definition ascii_text : WinText := {|
  MultiByteToWideChar := fmap byte_val;
  WideCharToMultiByte := fmap byte_of_Z
|}.

Definition amy : str := [x61; x6d; x79].
Definition bob : str := [x62; x6f; x62].
Definition secret : str := [x70; x77].
Definition demo_account (u : str) : account := mkAccount (byte_val <$> u) (byte_val <$> secret) 0 None.

Definition demo : st mem :=
  mk (mkSt (mkMem {[byte_val <$> amy := demo_account amy; byte_val <$> bob := demo_account bob]} ∅ 0 [Log_; Account_; Room_] [])
        {[0%nat := new; 1%nat := new]} [0%nat; 1%nat])
     ∅ 0 ∅ {[7%nat := mkSession None []; 8%nat := mkSession None []]} [].

Lemma demo_pool : pool_ok demo.
Proof. by exists [], 0%nat, 1%nat, new, new. Qed.

End ChatServer.
