(* ===== verification/ChatAuth.v ===== *)
(** * ChatAuth: login, registration and disconnection (Server/AuthRespondent.h, ClientSession.cpp)

    The whole effect of the respondents of [C_LOGIN] and [C_REGISTER] and of
    [OnDisconnected] outside a room, on every branch, for any database that
    satisfies [ChatDb]. *)

From S2P Require Import Prelude PacketHandler Wire Protocol Database ChatDb ChatServer.
#[local] Open Scope Z_scope.

Module ChatAuth.
Import Wire DBConnection ChatServer.

Section auth.
Context {D : Type} `{!Odbc D} {WT : WinText} `{!ChatDb D}.

Definition can_login (s : st D) (id pssd : str) : bool :=
  match accts s !! ukey id with
  | Some a => bool_decide (collate (a_password a) = ukey pssd ∧ a_online a = 0)
  | None => false
  end.

Definition login_reply (ok : bool) (id pssd : str) : Msg.t :=
  Msg.S_LOGIN (S_LOGIN.set_pssd pssd (S_LOGIN.set_id id (S_LOGIN.set_issuccess ok S_LOGIN.new))).

(** What a login does, on both branches. *)
Record login_effect (sid : nat) (id pssd : str) (sess : ClientSession) (s s' : st D) : Prop := {
  le_pool : pool_ok s';
  le_sent : sent s' = sent s ++ [(sid, login_reply (can_login s id pssd) id pssd)];
  le_accounts : accts s' = if can_login s id pssd then alter (with_online 1) (ukey id) (accts s) else accts s;
  le_rooms : db_rooms s' = db_rooms s;
  le_sessions : sessions s' = if can_login s id pssd
                then <[sid := mkSession (_room sess) id]> (sessions s) else sessions s;
  le_heap : heap s' = heap s;
  le_handler : _rooms s' = _rooms s;
  le_next : next_room s' = next_room s
}.

Lemma login_run s sid id pssd sess :
  pool_ok s → sessions s !! sid = Some sess →
  (∀ ok, Msg.ByteSizeLong (login_reply ok id pssd) ≤ PacketHandler.max_message) →
  ∃ s', C_LOGIN_job sid id pssd s = Ret (tt, s') ∧ login_effect sid id pssd sess s s'.
Proof.
  intros (l & c1 & c2 & k1 & k2 & Hp & Hne & H1 & H2) Hs Hsz.
  set (s0 := with_pool (l ++ [c1]) s).
  set (vs := [wide id; wide pssd; CBool false]).
  assert (SQLExecDirectW Sql.login (params_from 0 vs ∅) (db (dbs s0)) =
    SqlOk (match accts s !! ukey id with
           | Some a => if decide (collate (a_password a) = ukey pssd ∧ a_online a = 0)
                       then [[VStr (a_id a)]] else [] | None => [] end) (db (dbs s))) as Hq
    by apply login_law.
  destruct (decide (can_login s id pssd = true)) as [Hok|Hno%not_true_is_false].
  - destruct (set_online_law (c_wstr (Utf8ToWstring id)) 1 (db (dbs s))) as (d' & Hq' & Ha & Hr).
    unfold can_login in Hok. destruct (accts s !! ukey id) as [a|] eqn:Ea; [|done].
    apply bool_decide_eq_true_1 in Hok as Hok'. rewrite decide_True in Hq by done.
    eexists. split.
    + eapply (respond_run _ _ _ (l ++ [c1]) c2); [by rewrite Hp, <-app_assoc| |].
      * erewrite M_bind_step by (eapply execute_run; [exact H2|done|exact Hq]).
        erewrite M_bind_step by apply fetch_run.
        rewrite bool_decide_eq_true_2 by eauto. run.
        erewrite M_bind_step by (eapply execute_run; [apply ran_conn|done|exact Hq']).
        rewrite ran_ran. unfold SetId, session_at. autorewrite with run. simpl. rewrite Hs.
        autorewrite with run. unfold set_session. autorewrite with run. apply Send_run, Hsz.
      * done.
    + assert (can_login s id pssd = true) as Hok2 by (unfold can_login; by rewrite Ea).
      split; rewrite ?Hok2; simpl; try done.
      eapply pool_ok_after; eauto.
  - assert (SQLExecDirectW Sql.login (params_from 0 vs ∅) (db (dbs s0)) = SqlOk [] (db (dbs s))) as Hq'.
    { rewrite Hq. unfold can_login in Hno. destruct (accts s !! ukey id) as [a|]; [|done].
      apply bool_decide_eq_false_1 in Hno. by rewrite decide_False. }
    eexists. split.
    + eapply (respond_run _ _ _ (l ++ [c1]) c2); [by rewrite Hp, <-app_assoc| |].
      * erewrite M_bind_step by (eapply execute_run; [exact H2|done|exact Hq']).
        erewrite M_bind_step by apply fetch_none_run.
        rewrite bool_decide_eq_false_2 by apply is_Some_None. run. apply Send_run, Hsz.
      * done.
    + split; rewrite ?Hno; simpl; try done. eapply pool_ok_after; eauto.
Qed.

Definition short (id pssd : str) : Prop := zlen id + zlen pssd ≤ 5988.

Lemma login_reply_size ok id pssd :
  short id pssd → Msg.ByteSizeLong (login_reply ok id pssd) ≤ PacketHandler.max_message.
Proof.
  intros Hs. unfold short in Hs. pose proof (zlen_nonneg id). pose proof (zlen_nonneg pssd).
  pose proof (StringSize_short id ltac:(lia)). pose proof (StringSize_short pssd ltac:(lia)).
  change PacketHandler.max_message with 5996.
  unfold login_reply; simpl. unfold S_LOGIN.ByteSizeLong; simpl.
  repeat case_match; lia.
Qed.

(** One account, one session.  After a successful login every further login
    to the same account, from any session and with any spelling of the id or
    password, is refused and changes nothing in the database. *)
Theorem login_exclusive s sid1 sid2 id id' pssd pssd' sess1 sess2 :
  pool_ok s → sessions s !! sid1 = Some sess1 → sessions s !! sid2 = Some sess2 →
  short id pssd → short id' pssd' → can_login s id pssd = true → ukey id' = ukey id →
  ∃ s1 s2, C_LOGIN_job sid1 id pssd s = Ret (tt, s1) ∧
           C_LOGIN_job sid2 id' pssd' s1 = Ret (tt, s2) ∧
           sent s2 = sent s ++ [(sid1, login_reply true id pssd); (sid2, login_reply false id' pssd')] ∧
           accts s2 = accts s1 ∧ db_rooms s2 = db_rooms s.
Proof.
  intros Hp H1 H2 Hsh Hsh' Hok Hk.
  destruct (login_run s sid1 id pssd sess1 Hp H1) as (s1 & E1 & L1); [by intros; apply login_reply_size|].
  assert (is_Some (sessions s1 !! sid2)) as [sess2' H2'].
  { rewrite (le_sessions _ _ _ _ _ _ L1), Hok. destruct (decide (sid1 = sid2)) as [->|].
    - rewrite lookup_insert_eq. eauto.
    - rewrite lookup_insert_ne by done. eauto. }
  destruct (login_run s1 sid2 id' pssd' sess2') as (s2 & E2 & L2);
    [apply L1|done|by intros; apply login_reply_size|].
  assert (can_login s1 id' pssd' = false) as Hno.
  { unfold can_login. rewrite (le_accounts _ _ _ _ _ _ L1), Hok, Hk, lookup_alter_eq.
    destruct (accts s !! ukey id) as [a|]; [|done]. simpl. apply bool_decide_eq_false_2. naive_solver lia. }
  exists s1, s2. split_and!; [done..| | |].
  - rewrite (le_sent _ _ _ _ _ _ L2), (le_sent _ _ _ _ _ _ L1), Hok, Hno. by rewrite <-app_assoc.
  - rewrite (le_accounts _ _ _ _ _ _ L2), Hno. done.
  - rewrite (le_rooms _ _ _ _ _ _ L2), (le_rooms _ _ _ _ _ _ L1). done.
Qed.

(** [OnDisconnected] of a session that is in no room. *)
Lemma disconnect_run s sid sess :
  pool_ok s → sessions s !! sid = Some sess → _room sess = None →
  ∃ s', OnDisconnected sid s = Ret (tt, s') ∧ pool_ok s' ∧ sent s' = sent s ∧
        accts s' = alter (with_online 0) (ukey (_id sess)) (accts s) ∧ db_rooms s' = db_rooms s ∧
        sessions s' = sessions s ∧ heap s' = heap s ∧ _rooms s' = _rooms s ∧ next_room s' = next_room s.
Proof.
  intros (l & c1 & c2 & k1 & k2 & Hp & Hne & H1 & H2) Hs Hr.
  destruct (set_online_law (c_wstr (Utf8ToWstring (_id sess))) 0 (db (dbs s))) as (d' & Hq & Ha & Hrm).
  eexists. split.
  - unfold OnDisconnected, session_at. autorewrite with run. rewrite Hs. autorewrite with run.
    rewrite Hr. autorewrite with run.
    erewrite M_bind_step by (apply (pop_run s (l ++ [c1])); by rewrite Hp, <-app_assoc).
    autorewrite with run. erewrite M_bind_step by (eapply execute_run; [exact H2|done|exact Hq]).
    apply push_run.
  - simpl. split_and!; try done. eapply pool_ok_after; eauto.
Qed.

(** Login and disconnect undo each other: when the session that logged in
    disconnects, every account is as before the login, so the user can log in
    again. *)
Theorem login_disconnect_roundtrip s sid id pssd sess :
  pool_ok s → sessions s !! sid = Some sess → _room sess = None → short id pssd →
  can_login s id pssd = true →
  ∃ s1 s2, C_LOGIN_job sid id pssd s = Ret (tt, s1) ∧ OnDisconnected sid s1 = Ret (tt, s2) ∧
           accts s2 = accts s ∧ db_rooms s2 = db_rooms s.
Proof.
  intros Hp Hs Hr Hsh Hok.
  destruct (login_run s sid id pssd sess Hp Hs) as (s1 & E1 & L1); [by intros; apply login_reply_size|].
  destruct (disconnect_run s1 sid (mkSession (_room sess) id)) as (s2 & E2 & _ & _ & Ha & Hrm & _);
    [apply L1|by rewrite (le_sessions _ _ _ _ _ _ L1), Hok, lookup_insert_eq|done|].
  exists s1, s2. split_and!; [done..| |].
  - rewrite Ha, (le_accounts _ _ _ _ _ _ L1), Hok. simpl. rewrite alter_alter_eq.
    apply alter_id. intros a Ea. unfold can_login in Hok. rewrite Ea in Hok.
    apply bool_decide_eq_true_1 in Hok as [_ Ho]. destruct a; simpl in *. by subst.
  - by rewrite Hrm, (le_rooms _ _ _ _ _ _ L1).
Qed.

(** A session that logs in twice, to two accounts, leaves the first one
    online for good: after it disconnects nobody can log in to the first
    account, whatever the password. *)
Theorem relogin_strands_account s sid idA idB pA pB sess :
  pool_ok s → sessions s !! sid = Some sess → _room sess = None →
  short idA pA → short idB pB → ukey idA ≠ ukey idB →
  can_login s idA pA = true → can_login s idB pB = true →
  ∃ s1 s2 s3, C_LOGIN_job sid idA pA s = Ret (tt, s1) ∧ C_LOGIN_job sid idB pB s1 = Ret (tt, s2) ∧
    OnDisconnected sid s2 = Ret (tt, s3) ∧ ∀ pssd, can_login s3 idA pssd = false.
Proof.
  intros Hp Hs Hr HA HB Hne HokA HokB.
  destruct (login_run s sid idA pA sess Hp Hs) as (s1 & E1 & L1); [by intros; apply login_reply_size|].
  assert (sessions s1 !! sid = Some (mkSession (_room sess) idA)) as Hs1
    by by rewrite (le_sessions _ _ _ _ _ _ L1), HokA, lookup_insert_eq.
  destruct (login_run s1 sid idB pB _ (le_pool _ _ _ _ _ _ L1) Hs1) as (s2 & E2 & L2);
    [by intros; apply login_reply_size|].
  assert (can_login s1 idB pB = true) as HokB1.
  { unfold can_login. by rewrite (le_accounts _ _ _ _ _ _ L1), HokA, lookup_alter_ne. }
  destruct (disconnect_run s2 sid (mkSession (_room sess) idB)) as (s3 & E3 & _ & _ & Ha & _);
    [apply L2|by rewrite (le_sessions _ _ _ _ _ _ L2), HokB1, lookup_insert_eq|done|].
  exists s1, s2, s3. split_and!; [done..|]. intros pssd. unfold can_login. rewrite Ha. simpl.
  rewrite lookup_alter_ne by done.
  rewrite (le_accounts _ _ _ _ _ _ L2), HokB1, lookup_alter_ne by done.
  rewrite (le_accounts _ _ _ _ _ _ L1), HokA, lookup_alter_eq.
  destruct (accts s !! ukey idA); simpl; [|done]. apply bool_decide_eq_false_2. naive_solver lia.
Qed.

(** Credentials too long for a reply crash the server before any check of
    them: the reply echoes them and [MakeSendBuffer] cannot hold it. *)
Theorem long_credentials_crash s sid id pssd :
  pool_ok s → can_login s id pssd = false →
  PacketHandler.max_message < Msg.ByteSizeLong (login_reply false id pssd) →
  C_LOGIN_job sid id pssd s = Crash (PacketHandler.send_fault (Msg.ByteSizeLong (login_reply false id pssd))).
Proof.
  intros (l & c1 & c2 & k1 & k2 & Hp & Hne & H1 & H2) Hno Hbig.
  assert (SQLExecDirectW Sql.login (params_from 0 [wide id; wide pssd; CBool false] ∅) (db (dbs s)) =
          SqlOk [] (db (dbs s))) as Hq.
  { etransitivity; [apply login_law|]. unfold can_login in Hno. fold (accts s). unfold ukey in Hno.
    destruct (accts s !! _) as [a|]; [|done].
    apply bool_decide_eq_false_1 in Hno. by rewrite decide_False. }
  unfold C_LOGIN_job, respond.
  erewrite M_bind_step by (apply (pop_run s (l ++ [c1])); by rewrite Hp, <-app_assoc).
  run. erewrite M_bind_step by (eapply execute_run; [exact H2|done|exact Hq]).
  run. erewrite M_bind_step by apply fetch_none_run.
  rewrite bool_decide_eq_false_2 by apply is_Some_None. run.
  fold (login_reply false id pssd). unfold Send. case_test; [lia|]. by autorewrite with run.
Qed.

(** [Execute(false)]: the answer of the database as a boolean. *)
Lemma Execute_quiet_run (P C c : nat) q vs cs s0 s d :
  DBBind.Validate (bound P C c q vs cs) = true →
  SQLExecDirectW q (params_from 0 vs ∅) (db (dbs s0)) = d →
  s = ran (db (dbs s0)) c (executed vs cs []) s0 →
  on_db (DBBind.Execute (bound P C c q vs cs) false) s =
  match d with
  | SqlOk rows d' => Ret (true, ran d' c (executed vs cs rows) s0)
  | SqlError => Ret (false, s)
  end.
Proof.
  intros Hv Hq ->. destruct (bound_conn P C c q vs cs) as [Hbc Hbq].
  assert (DBBind.Execute (bound P C c q vs cs) false (dbs (ran (db (dbs s0)) c (executed vs cs []) s0)) =
    match d with
    | SqlOk rows d' => Ret (true, on_conn c (executed vs cs rows) (mkSt d' (conns (dbs (ran (db (dbs s0)) c (executed vs cs []) s0))) (_connections (dbs s0))))
    | SqlError => Ret (false, dbs (ran (db (dbs s0)) c (executed vs cs []) s0))
    end) as E.
  { unfold DBBind.Execute. rewrite Hv. autorewrite with run. unfold Execute. rewrite Hbc, Hbq.
    erewrite get_conn_run by apply ran_conn. autorewrite with run. simpl. rewrite Hq.
    destruct d; [|done]. unfold set_db, set_conn. autorewrite with run. done. }
  destruct d; (eapply on_db_run_to; [exact E|]); [|done].
  unfold ran, with_dbs, on_conn; simpl. by rewrite insert_insert_eq.
Qed.

Definition register_reply (ok : bool) (id pssd : str) : Msg.t :=
  Msg.S_REGISTER (S_REGISTER.set_issuccess ok
    (S_REGISTER.set_pssd pssd (S_REGISTER.set_id id S_REGISTER.new))).

Lemma register_reply_size ok id pssd :
  short id pssd → Msg.ByteSizeLong (register_reply ok id pssd) ≤ PacketHandler.max_message.
Proof.
  intros Hs. unfold short in Hs. pose proof (zlen_nonneg id). pose proof (zlen_nonneg pssd).
  pose proof (StringSize_short id ltac:(lia)). pose proof (StringSize_short pssd ltac:(lia)).
  change PacketHandler.max_message with 5996.
  unfold register_reply; simpl. unfold S_REGISTER.ByteSizeLong; simpl.
  repeat case_match; lia.
Qed.

Record register_effect (sid : nat) (id pssd : str) (ok : bool) (s s' : st D) : Prop := {
  re_pool : pool_ok s';
  re_sent : sent s' = sent s ++ [(sid, register_reply ok id pssd)];
  re_accounts : accts s' = if ok then <[ukey id := mkAccount (w id) (w pssd) 0 None]> (accts s) else accts s;
  re_rooms : db_rooms s' = db_rooms s;
  re_sessions : sessions s' = sessions s;
  re_heap : heap s' = heap s;
  re_handler : _rooms s' = _rooms s;
  re_next : next_room s' = next_room s
}.

Lemma register_run s sid id pssd :
  pool_ok s → short id pssd → zlen (w id) ≤ 30 → zlen (w pssd) ≤ 255 →
  ∃ s', C_REGISTER_job sid id pssd s = Ret (tt, s') ∧
        register_effect sid id pssd (bool_decide (accts s !! ukey id = None)) s s'.
Proof.
  intros (l & c1 & c2 & k1 & k2 & Hp & Hne & H1 & H2) Hsh Hid Hpw.
  set (vs := [wide id; wide pssd; CTimestamp; CBool false]).
  destruct (decide (accts s !! ukey id = None)) as [Hf|Hd].
  - destruct (insert_account_law (w id) (w pssd) 0 (db (dbs s)) Hf Hid Hpw) as (d' & Hq & Ha & Hr).
    rewrite bool_decide_eq_true_2 by done. eexists. split.
    + eapply (respond_run _ _ _ (l ++ [c1]) c2); [by rewrite Hp, <-app_assoc| |].
      * erewrite M_bind_step by (eapply on_db_run, statement_run, H2).
        erewrite M_bind_step
          by (eapply (Execute_quiet_run 4 0 c2 Sql.insert_account vs [] (with_pool (l ++ [c1]) s) _ (SqlOk [] d')); done).
        apply Send_run. by apply register_reply_size.
      * done.
    + split; simpl; try done. eapply pool_ok_after; eauto.
  - rewrite bool_decide_eq_false_2 by done.
    assert (is_Some (accts s !! ukey id)) as Hsome by by apply not_eq_None_Some.
    pose proof (insert_account_dup_law (w id) (w pssd) 0 (db (dbs s)) Hsome) as Hq. eexists. split.
    + eapply (respond_run _ _ _ (l ++ [c1]) c2); [by rewrite Hp, <-app_assoc| |].
      * erewrite M_bind_step by (eapply on_db_run, statement_run, H2).
        erewrite M_bind_step
          by (eapply (Execute_quiet_run 4 0 c2 Sql.insert_account vs [] (with_pool (l ++ [c1]) s) _ SqlError); done).
        apply Send_run. by apply register_reply_size.
      * done.
    + split; simpl; try done. eapply pool_ok_after; eauto.
Qed.

(** Registration.  A new id is registered and can log in with its password
    at once; registering an id that exists is refused, whatever its spelling
    under the collation, and does not change the existing account. *)
Theorem register_then_login s sid id pssd sess id' pssd' :
  pool_ok s → sessions s !! sid = Some sess → short id pssd → short id' pssd' →
  zlen (w id) ≤ 30 → zlen (w pssd) ≤ 255 → zlen (w id') ≤ 30 → zlen (w pssd') ≤ 255 →
  accts s !! ukey id = None → ukey id' = ukey id →
  ∃ s1 s2 s3, C_REGISTER_job sid id pssd s = Ret (tt, s1) ∧
    C_REGISTER_job sid id' pssd' s1 = Ret (tt, s2) ∧ C_LOGIN_job sid id pssd s2 = Ret (tt, s3) ∧
    sent s3 = sent s ++ [(sid, register_reply true id pssd); (sid, register_reply false id' pssd');
                         (sid, login_reply true id pssd)].
Proof.
  intros Hp Hs Hsh Hsh' Hid Hpw Hid' Hpw' Hf Hk.
  destruct (register_run s sid id pssd Hp Hsh Hid Hpw) as (s1 & E1 & R1).
  rewrite bool_decide_eq_true_2 in R1 by done.
  destruct (register_run s1 sid id' pssd' (re_pool _ _ _ _ _ _ R1) Hsh' Hid' Hpw') as (s2 & E2 & R2).
  rewrite bool_decide_eq_false_2 in R2
    by (rewrite (re_accounts _ _ _ _ _ _ R1), Hk, lookup_insert_eq; done).
  destruct (login_run s2 sid id pssd sess (re_pool _ _ _ _ _ _ R2)) as (s3 & E3 & L3);
    [by rewrite (re_sessions _ _ _ _ _ _ R2), (re_sessions _ _ _ _ _ _ R1)|by intros; apply login_reply_size|].
  assert (can_login s2 id pssd = true) as Hok.
  { unfold can_login. rewrite (re_accounts _ _ _ _ _ _ R2), (re_accounts _ _ _ _ _ _ R1), lookup_insert_eq.
    by apply bool_decide_eq_true_2. }
  exists s1, s2, s3. split_and!; [done..|].
  rewrite (le_sent _ _ _ _ _ _ L3), (re_sent _ _ _ _ _ _ R2), (re_sent _ _ _ _ _ _ R1), Hok.
  by rewrite <-!app_assoc.
Qed.

End auth.
#[local] Existing Instance ascii_text.

Lemma login_exclusive_witness :
  ∃ s1 s2, C_LOGIN_job 7 amy secret demo = Ret (tt, s1) ∧
           C_LOGIN_job 8 amy secret s1 = Ret (tt, s2) ∧
           sent s2 = sent demo ++ [(7%nat, login_reply true amy secret); (8%nat, login_reply false amy secret)] ∧
           accts s2 = accts s1 ∧ db_rooms s2 = db_rooms demo.
Proof.
  apply (login_exclusive demo 7 8 amy amy secret secret (mkSession None []) (mkSession None []));
    [apply demo_pool|by vm_compute..].
Defined.

Lemma login_disconnect_roundtrip_witness :
  ∃ s1 s2, C_LOGIN_job 7 amy secret demo = Ret (tt, s1) ∧ OnDisconnected 7 s1 = Ret (tt, s2) ∧
           accts s2 = accts demo ∧ db_rooms s2 = db_rooms demo.
Proof.
  apply (login_disconnect_roundtrip demo 7 amy secret (mkSession None []));
    [apply demo_pool|by vm_compute..].
Defined.

Lemma relogin_strands_account_witness :
  ∃ s1 s2 s3, C_LOGIN_job 7 amy secret demo = Ret (tt, s1) ∧ C_LOGIN_job 7 bob secret s1 = Ret (tt, s2) ∧
    OnDisconnected 7 s2 = Ret (tt, s3) ∧ ∀ pssd, can_login s3 amy pssd = false.
Proof.
  apply (relogin_strands_account demo 7 amy bob secret secret (mkSession None []));
    [apply demo_pool|by vm_compute..].
Defined.

Lemma long_credentials_crash_witness :
  C_LOGIN_job 7 (replicate (Z.to_nat 6000) x61) [] demo =
  Crash (PacketHandler.send_fault (Msg.ByteSizeLong (login_reply false (replicate (Z.to_nat 6000) x61) []))).
Proof.
  apply (long_credentials_crash demo 7 (replicate (Z.to_nat 6000) x61) []);
    [apply demo_pool|by vm_compute..].
Defined.

Lemma register_then_login_witness :
  ∃ s1 s2 s3, C_REGISTER_job 7 secret amy demo = Ret (tt, s1) ∧
    C_REGISTER_job 7 secret bob s1 = Ret (tt, s2) ∧ C_LOGIN_job 7 secret amy s2 = Ret (tt, s3) ∧
    sent s3 = sent demo ++ [(7%nat, register_reply true secret amy); (7%nat, register_reply false secret bob);
                         (7%nat, login_reply true secret amy)].
Proof.
  apply (register_then_login demo 7 secret amy (mkSession None []) secret bob);
    [apply demo_pool|by vm_compute..].
Defined.

End ChatAuth.
