(* ===== verification/ChatRooms.v ===== *)
(** * ChatRooms: the rooms in memory and in the database agree
      (Server/LobbyRespondent.h, RoomRepondent.h, RoomHandler.cpp)

    The invariant of the lobby: [RoomHandler::_rooms] and [chat.room] name the
    same rooms; the users of a room are the sessions whose account has that
    [current_room_id]; [roomState], [user_count] and the number of users are
    equal.  Creating, joining, leaving and chatting preserve it. *)

From S2P Require Import Prelude PacketHandler Wire Protocol Database ChatDb ChatServer.
#[local] Open Scope Z_scope.

Module ChatRooms.
Import Wire DBConnection ChatServer.

Section inv.
Context {D : Type} `{!Odbc D} {WT : WinText} `{!ChatDb D}.
Implicit Types (A : gmap wstr account) (R : gmap Z room_row) (Hd : gmap Z nat)
  (hp : gmap nat Room) (S : gmap nat ClientSession).

Definition member A (k : wstr) (i : Z) : Prop := ∃ a, A !! k = Some a ∧ a_room a = Some i.

(** Room [i] is the object [r] at [p] and the row [row]. *)
Record room_ok A S (i : Z) (p : nat) (r : Room) (row : room_row) : Prop := {
  ro_id : _roomId r = i;
  ro_state : roomState r = Z.of_nat (size (_users r));
  ro_count : r_count row = Z.of_nat (size (_users r));
  ro_nonempty : _users r ≠ ∅;
  ro_inj : ∀ u v, is_Some (_users r !! u) → is_Some (_users r !! v) → ukey u = ukey v → u = v;
  ro_members : ∀ k, member A k i ↔ ∃ u, is_Some (_users r !! u) ∧ ukey u = k;
  ro_sessions : ∀ u sid, _users r !! u = Some sid → S !! sid = Some (mkSession (Some p) u)
}.

Record lobby_inv A R Hd hp S (nx : nat) : Prop := {
  li_rooms : ∀ i p, Hd !! i = Some p → ∃ r row, hp !! p = Some r ∧ R !! i = Some row ∧ room_ok A S i p r row;
  li_dom : ∀ i, is_Some (R !! i) → is_Some (Hd !! i);
  li_names : ∀ i j ri rj, R !! i = Some ri → R !! j = Some rj →
    collate (r_name ri) = collate (r_name rj) → i = j;
  li_fresh : ∀ p, (nx ≤ p)%nat → hp !! p = None
}.

Lemma room_ok_frame A S A' S' i p r row :
  room_ok A S i p r row → (∀ k, member A' k i ↔ member A k i) →
  (∀ u sid, _users r !! u = Some sid → S' !! sid = S !! sid) →
  room_ok A' S' i p r row.
Proof.
  intros [H1 H2 H3 H4 H5 H6 H7] HA HS. split; try done.
  - intros k. by rewrite HA.
  - intros u sid Hu. rewrite (HS u sid Hu). by apply H7.
Qed.

(** The lobby does not depend on accounts and sessions outside the rooms. *)
Lemma lobby_inv_frame A A' R Hd hp S S' nx :
  lobby_inv A R Hd hp S nx → (∀ k i, member A' k i ↔ member A k i) →
  (∀ sid k, S !! sid = Some k → is_Some (_room k) → S' !! sid = Some k) →
  lobby_inv A' R Hd hp S' nx.
Proof.
  intros [Hr Hdom Hn Hf] HA HS. split; try done. intros i p Hi.
  destruct (Hr i p Hi) as (r & row & Hp & Hrow & Hok). exists r, row. split_and!; try done.
  eapply room_ok_frame; [done|done|]. intros u sid Hu. apply (ro_sessions _ _ _ _ _ _ Hok) in Hu as Hs.
  rewrite Hs. apply HS; [done|]. simpl. eauto.
Qed.

Lemma member_online A k k' i o : member (alter (with_online o) k A) k' i ↔ member A k' i.
Proof.
  unfold member. destruct (decide (k' = k)) as [->|]; [rewrite lookup_alter_eq|by rewrite lookup_alter_ne].
  destruct (A !! k); simpl; naive_solver.
Qed.

Lemma room_pointers A R Hd hp S nx i j p :
  lobby_inv A R Hd hp S nx → Hd !! i = Some p → Hd !! j = Some p → i = j.
Proof.
  intros [Hr _ _ _] Hi Hj.
  destruct (Hr i p Hi) as (r & row & Hp & _ & Hok), (Hr j p Hj) as (r' & row' & Hp' & _ & Hok').
  rewrite Hp in Hp'. simplify_eq. by rewrite <-(ro_id _ _ _ _ _ _ Hok), <-(ro_id _ _ _ _ _ _ Hok').
Qed.

(** Membership after one account moves. *)
Lemma member_alter A k k' i o :
  member (alter (with_room o) k A) k' i ↔
  (k' = k ∧ is_Some (A !! k) ∧ o = Some i) ∨ (k' ≠ k ∧ member A k' i).
Proof.
  unfold member. destruct (decide (k' = k)) as [->|Hne].
  - rewrite lookup_alter_eq. split.
    + intros (a & Ha & Hi). left. destruct (A !! k); simplify_eq/=. eauto.
    + intros [(_ & [a Ha] & ->)|[? _]]; [|done]. rewrite Ha. simpl. eauto.
  - rewrite lookup_alter_ne by done. naive_solver.
Qed.

Lemma names_alter R n i j ri rj k :
  (∀ i j ri rj, R !! i = Some ri → R !! j = Some rj → collate (r_name ri) = collate (r_name rj) → i = j) →
  alter (add_count n) k R !! i = Some ri → alter (add_count n) k R !! j = Some rj →
  collate (r_name ri) = collate (r_name rj) → i = j.
Proof.
  intros Hn. rewrite !lookup_alter_Some. intros [(-> & x & Hx & ->)|[? Hi]] [(-> & y & Hy & ->)|[? Hj]] Hc; naive_solver.
Qed.

Lemma create_inv A R Hd hp S nx i name sid id a :
  lobby_inv A R Hd hp S nx →
  R !! i = None → (∀ k a, A !! k = Some a → a_room a ≠ Some i) →
  (∀ j row, R !! j = Some row → collate (r_name row) ≠ collate name) →
  S !! sid = Some (mkSession None id) → A !! ukey id = Some a → a_room a = None →
  lobby_inv (alter (with_room (Some i)) (ukey id) A) (<[i := mkRow name 1]> R) (<[i := nx]> Hd)
    (<[nx := mkRoom i 1 {[id := sid]}]> hp) (<[sid := mkSession (Some nx) id]> S) (Datatypes.S nx).
Proof.
  intros [Hr Hdom Hn Hf] HR HA Hfresh HS Ha Har. split.
  - intros j p. rewrite lookup_insert_Some. intros [[<- <-]|[Hne Hj]].
    + exists (mkRoom i 1 {[id := sid]}), (mkRow name 1). rewrite !lookup_insert_eq.
      split_and!; [done..|]. split; simpl; rewrite ?map_size_singleton; try done.
      * intros u v [? Hu] [? Hv] _. apply lookup_singleton_Some in Hu as [<- _], Hv as [<- _]. done.
      * intros k. rewrite member_alter. split.
        -- intros [(-> & _)|[_ (b & Hb & Hbi)]]; [|by apply HA in Hb].
           exists id. rewrite lookup_singleton_eq. eauto.
        -- intros (u & [x Hu] & <-). apply lookup_singleton_Some in Hu as [<- _]. left. eauto.
      * intros u x Hu. apply lookup_singleton_Some in Hu as [<- <-]. by rewrite lookup_insert_eq.
    + destruct (Hr j p Hj) as (r & row & Hp & Hrow & Hok). exists r, row.
      assert (nx ≠ p) by (intros <-; rewrite Hf in Hp; [done|lia]).
      rewrite !lookup_insert_ne by done. split_and!; [done..|].
      eapply room_ok_frame; [done| |].
      * intros k. rewrite member_alter. split; [naive_solver|]. intros (b & Hb & Hbj). right.
        split; [|by exists b]. intros ->. rewrite Ha in Hb. naive_solver.
      * intros u x Hu. rewrite lookup_insert_ne; [done|]. intros <-.
        apply (ro_sessions _ _ _ _ _ _ Hok) in Hu. congruence.
  - intros j [row Hj]. rewrite lookup_insert_is_Some. apply lookup_insert_Some in Hj as [[-> _]|[? Hj]]; [by left|].
    right. split; [done|]. apply Hdom. eauto.
  - intros j j' ri rj. rewrite !lookup_insert_Some.
    intros [[<- <-]|[? H1]] [[<- <-]|[? H2]] Hc; simpl in *; [done| | |by eapply Hn].
    + by apply Hfresh in H2.
    + by apply Hfresh in H1.
  - intros p Hp. rewrite lookup_insert_ne by lia. apply Hf. lia.
Qed.

Lemma join_inv A R Hd hp S nx i p r row sid id a :
  lobby_inv A R Hd hp S nx →
  Hd !! i = Some p → hp !! p = Some r → R !! i = Some row →
  S !! sid = Some (mkSession None id) → A !! ukey id = Some a → a_room a = None →
  lobby_inv (alter (with_room (Some i)) (ukey id) A) (alter (add_count 1) i R) Hd
    (<[p := mkRoom i (roomState r + 1) (<[id := sid]> (_users r))]> hp)
    (<[sid := mkSession (Some p) id]> S) nx.
Proof.
  intros Hinv Hi Hp Hrow HS Ha Har. pose proof Hinv as [Hr Hdom Hn Hf].
  destruct (Hr i p Hi) as (r0 & row0 & Hp0 & Hrow0 & Hok). rewrite Hp in Hp0; rewrite Hrow in Hrow0; injection Hp0 as <-; injection Hrow0 as <-.
  assert (_users r !! id = None) as Hnew.
  { apply eq_None_not_Some. intros [x Hx].
    assert (member A (ukey id) i) as (b & Hb & Hbi) by (apply (ro_members _ _ _ _ _ _ Hok); eauto).
    congruence. }
  split.
  - intros j q Hj. destruct (decide (j = i)) as [->|Hne].
    + rewrite Hi in Hj. simplify_eq. exists (mkRoom i (roomState r + 1) (<[id := sid]> (_users r))), (add_count 1 row).
      rewrite lookup_insert_eq, lookup_alter_eq, Hrow. split_and!; [done..|].
      destruct Hok as [H1 H2 H3 H4 H5 H6 H7]. split; simpl; try done.
      * rewrite map_size_insert_None by done. lia.
      * rewrite map_size_insert_None by done. lia.
      * apply insert_non_empty.
      * assert (∀ v, is_Some (_users r !! v) → ukey v ≠ ukey id) as Hdiff.
        { intros v Hv Hk. assert (member A (ukey id) i) as (b & Hb & Hbi) by (apply H6; eauto). congruence. }
        intros u v. rewrite !lookup_insert_is_Some. intros [<-|[? Hu]] [<-|[? Hv]] Hk; auto.
        -- by destruct (Hdiff v).
        -- by destruct (Hdiff u).
      * intros k. rewrite member_alter. split.
        -- intros [(-> & _)|[Hk Hm]]; [exists id; rewrite lookup_insert_eq; eauto|].
           apply H6 in Hm as (u & Hu & <-). exists u. rewrite lookup_insert_is_Some. split; [|done].
           right. split; [|done]. by intros ->.
        -- intros (u & Hu & <-). apply lookup_insert_is_Some in Hu as [<-|[Hne Hu]]; [left; eauto|].
           destruct (decide (ukey u = ukey id)) as [->|]; [left; eauto|]. right. split; [done|]. apply H6. eauto.
      * intros u x Hu. apply lookup_insert_Some in Hu as [[<- <-]|[Hne Hu]]; [by rewrite lookup_insert_eq|].
        rewrite lookup_insert_ne; [by apply H7|]. intros <-. apply H7 in Hu. congruence.
    + destruct (Hr j q Hj) as (rj & rowj & Hq & Hrowj & Hokj). exists rj, rowj.
      assert (p ≠ q) by (intros <-; eapply Hne, room_pointers; eauto).
      rewrite lookup_insert_ne, lookup_alter_ne by done. split_and!; [done..|].
      eapply room_ok_frame; [done| |].
      * intros k. rewrite member_alter. split; [naive_solver|]. intros (b & Hb & Hbj). right.
        split; [|by exists b]. intros ->. rewrite Ha in Hb. naive_solver.
      * intros u x Hu. rewrite lookup_insert_ne; [done|]. intros <-.
        apply (ro_sessions _ _ _ _ _ _ Hokj) in Hu. congruence.
  - intros j Hj. apply Hdom. by apply lookup_alter_is_Some in Hj.
  - intros j j' ri rj. by apply names_alter.
  - intros q Hq. rewrite lookup_insert_ne; [by apply Hf|]. intros <-. rewrite Hf in Hp; done.
Qed.

(** The account of a user of room [i]. *)
Lemma user_account A S i p r row u :
  room_ok A S i p r row → is_Some (_users r !! u) → member A (ukey u) i.
Proof. intros Hok Hu. apply (ro_members _ _ _ _ _ _ Hok). eauto. Qed.

(** Another room is not affected when a user of room [i] leaves. *)
Lemma other_room_ok A S i p r row j q rj rowj u sid :
  room_ok A S i p r row → _users r !! u = Some sid →
  room_ok A S j q rj rowj → j ≠ i → p ≠ q →
  room_ok (alter (with_room None) (ukey u) A) (<[sid := mkSession None u]> S) j q rj rowj.
Proof.
  intros Hok Hu Hokj Hne Hpq. eapply room_ok_frame; [done| |].
  - intros k. rewrite member_alter. split; [naive_solver|]. intros Hm. right. split; [|done]. intros ->.
    destruct (user_account _ _ _ _ _ _ u Hok ltac:(eauto)) as (a & Ha & Hai), Hm as (b & Hb & Hbj). congruence.
  - intros v x Hv. rewrite lookup_insert_ne; [done|]. intros <-.
    apply (ro_sessions _ _ _ _ _ _ Hok) in Hu. apply (ro_sessions _ _ _ _ _ _ Hokj) in Hv. congruence.
Qed.

Lemma leave_inv A R Hd hp S nx i p r row u sid :
  lobby_inv A R Hd hp S nx →
  Hd !! i = Some p → hp !! p = Some r → R !! i = Some row →
  _users r !! u = Some sid → size (_users r) ≠ 1%nat →
  lobby_inv (alter (with_room None) (ukey u) A) (alter (add_count (-1)) i R) Hd
    (<[p := mkRoom i (roomState r - 1) (delete u (_users r))]> hp)
    (<[sid := mkSession None u]> S) nx.
Proof.
  intros Hinv Hi Hp Hrow Hu Hsz. pose proof Hinv as [Hr Hdom Hn Hf].
  destruct (Hr i p Hi) as (r0 & row0 & Hp0 & Hrow0 & Hok). rewrite Hp in Hp0; rewrite Hrow in Hrow0.
  injection Hp0 as <-; injection Hrow0 as <-. split.
  - intros j q Hj. destruct (decide (j = i)) as [->|Hne].
    + rewrite Hi in Hj. simplify_eq.
      exists (mkRoom i (roomState r - 1) (delete u (_users r))), (add_count (-1) row).
      rewrite lookup_insert_eq, lookup_alter_eq, Hrow. split_and!; [done..|].
      assert (size (_users r) ≠ 0%nat) by (apply map_size_ne_0_lookup; eauto).
      destruct Hok as [H1 H2 H3 H4 H5 H6 H7].
      assert (size (delete u (_users r)) = (size (_users r) - 1)%nat) as Hsz' by (rewrite map_size_delete, Hu; simpl; lia).
      split; simpl; rewrite ?Hsz'; try done; try lia.
      * intros He. rewrite He, map_size_empty in Hsz'. lia.
      * intros v v'. rewrite !lookup_delete_is_Some. naive_solver.
      * intros k. rewrite member_alter. split.
        -- intros [(_ & _ & ?)|[Hk Hm]]; [done|]. apply H6 in Hm as (v & Hv & <-). exists v.
           rewrite lookup_delete_is_Some. split; [|done]. split; [|done]. by intros ->.
        -- intros (v & Hv & <-). apply lookup_delete_is_Some in Hv as [Hne Hv]. right.
           split; [|apply H6; eauto]. intros Hk. apply Hne. symmetry. apply H5; eauto.
      * intros v x Hv. apply lookup_delete_Some in Hv as [Hne Hv].
        rewrite lookup_insert_ne; [by apply H7|]. intros <-. apply H7 in Hv. apply H7 in Hu. congruence.
    + destruct (Hr j q Hj) as (rj & rowj & Hq & Hrowj & Hokj). exists rj, rowj.
      assert (p ≠ q) by (intros <-; eapply Hne, room_pointers; eauto).
      rewrite lookup_insert_ne, lookup_alter_ne by done. split_and!; [done..|].
      eapply (other_room_ok A S i p r row); eauto.
  - intros j Hj. apply Hdom. by apply lookup_alter_is_Some in Hj.
  - intros j j' ri rj. by apply names_alter.
  - intros q Hq. rewrite lookup_insert_ne; [by apply Hf|]. intros <-. rewrite Hf in Hp; done.
Qed.

Lemma member_leave_deleted A k i j : i ≠ j → member (leave_deleted i <$> A) k j ↔ member A k j.
Proof.
  intros Hne. unfold member. setoid_rewrite lookup_fmap. unfold leave_deleted.
  destruct (A !! k) as [a|]; simpl; [|naive_solver]. case_decide; naive_solver.
Qed.

Lemma leave_last_inv A R Hd hp S nx i p r row u sid :
  lobby_inv A R Hd hp S nx →
  Hd !! i = Some p → hp !! p = Some r → R !! i = Some row →
  _users r !! u = Some sid → size (_users r) = 1%nat →
  lobby_inv (leave_deleted i <$> alter (with_room None) (ukey u) A)
    (delete i (alter (add_count (-1)) i R)) (delete i Hd)
    (<[p := mkRoom i Destruction (delete u (_users r))]> hp)
    (<[sid := mkSession None u]> S) nx.
Proof.
  intros Hinv Hi Hp Hrow Hu Hsz. pose proof Hinv as [Hr Hdom Hn Hf].
  destruct (Hr i p Hi) as (r0 & row0 & Hp0 & Hrow0 & Hok). rewrite Hp in Hp0; rewrite Hrow in Hrow0.
  injection Hp0 as <-; injection Hrow0 as <-. split.
  - intros j q. rewrite lookup_delete_Some. intros [Hne Hj].
    destruct (Hr j q Hj) as (rj & rowj & Hq & Hrowj & Hokj). exists rj, rowj.
    assert (p ≠ q) by (intros <-; eapply Hne, room_pointers; eauto).
    rewrite lookup_insert_ne, lookup_delete_ne, lookup_alter_ne by done. split_and!; [done..|].
    eapply room_ok_frame; [eapply (other_room_ok A S i p r row); eauto| |done].
    intros k. by apply member_leave_deleted.
  - intros j. rewrite !lookup_delete_is_Some. intros [? Hj]. split; [done|]. apply Hdom.
    by apply lookup_alter_is_Some in Hj.
  - intros j j' ri rj. rewrite !lookup_delete_Some. intros [_ H1] [_ H2]. eapply names_alter; eauto.
  - intros q Hq. rewrite lookup_insert_ne; [by apply Hf|]. intros <-. rewrite Hf in Hp; done.
Qed.

(** ** The invariant of the server *)

Definition server_inv (s : st D) : Prop :=
  pool_ok s ∧ lobby_inv (accts s) (db_rooms s) (_rooms s) (heap s) (sessions s) (next_room s).

(** Session [sid] belongs to the logged-in user [id], who is in no room. *)
Definition in_lobby (s : st D) (sid : nat) (id : str) : Prop :=
  sessions s !! sid = Some (mkSession None id) ∧
  ∃ a, accts s !! ukey id = Some a ∧ a_room a = None.

(** No room has this name under the collation. *)
Definition name_free (s : st D) (roomname : str) : Prop :=
  ∀ j row, db_rooms s !! j = Some row → collate (r_name row) ≠ ukey roomname.

Definition create_reply (ok : bool) (roomname : str) : Msg.t :=
  Msg.S_CREATE_ROOM (S_CREATE_ROOM.set_issuccess ok (S_CREATE_ROOM.set_roomname roomname S_CREATE_ROOM.new)).

Lemma create_reply_size ok roomname :
  zlen roomname ≤ 5900 → Msg.ByteSizeLong (create_reply ok roomname) ≤ PacketHandler.max_message.
Proof.
  intros Hs. pose proof (zlen_nonneg roomname). pose proof (StringSize_short roomname ltac:(lia)).
  change PacketHandler.max_message with 5996. unfold create_reply; simpl.
  unfold S_CREATE_ROOM.ByteSizeLong; simpl. repeat case_match; lia.
Qed.

(** Rows selected by room name: none, or the one room with that name. *)
Lemma filter_none (R : gmap Z room_row) n :
  (∀ j row, R !! j = Some row → collate (r_name row) ≠ n) →
  map_to_list (filter (λ p, collate (r_name p.2) = n) R) = [].
Proof.
  intros Hn. apply map_to_list_empty_iff, map_empty. intros j.
  apply map_lookup_filter_None. right. intros row Hj. by eapply Hn.
Qed.

Lemma filter_one (R : gmap Z room_row) n i row :
  R !! i = Some row → collate (r_name row) = n →
  (∀ j row', R !! j = Some row' → collate (r_name row') = n → j = i) →
  map_to_list (filter (λ p, collate (r_name p.2) = n) R) = [(i, row)].
Proof.
  intros Hi Hc Hu. rewrite <-(map_to_list_singleton i row). f_equal. apply map_eq. intros j.
  destruct (decide (j = i)) as [->|Hne].
  - rewrite lookup_singleton_eq. by apply map_lookup_filter_Some.
  - rewrite lookup_singleton_ne by done. apply map_lookup_filter_None. right.
    intros row' Hj Hc'. by apply Hne, (Hu j row').
Qed.

Lemma Permutation_one {B} (l : list B) x : l ≡ₚ [x] → l = [x].
Proof. intros H. by apply Permutation_singleton_r in H. Qed.

Lemma create_taken_run s sid id roomname :
  server_inv s → ¬ name_free s roomname → zlen roomname ≤ 5900 →
  ∃ s', C_CREATE_ROOM_job sid id roomname s = Ret (tt, s') ∧ server_inv s' ∧
        sent s' = sent s ++ [(sid, create_reply false roomname)] ∧
        accts s' = accts s ∧ db_rooms s' = db_rooms s ∧ _rooms s' = _rooms s ∧
        heap s' = heap s ∧ sessions s' = sessions s.
Proof.
  intros [(l & c1 & c2 & k1 & k2 & Hp & Hne & H1 & H2) Hinv] Htaken Hsz.
  destruct (room_by_name_law (w roomname) (db (dbs s))) as (rows & Hq & Hrows).
  destruct rows as [|row rows].
  { exfalso. apply Htaken. intros j row Hj Hc. apply Permutation_nil_l in Hrows. symmetry in Hrows.
    apply fmap_nil_inv, map_to_list_empty_iff in Hrows.
    assert (filter (λ p, collate (r_name p.2) = collate (w roomname)) (rooms (db (dbs s))) !! j = Some row) as Hf
      by by apply map_lookup_filter_Some.
    by rewrite Hrows, lookup_empty in Hf. }
  eexists. split.
  - eapply (respond_run _ _ _ (l ++ [c1]) c2); [by rewrite Hp, <-app_assoc| |].
    + erewrite M_bind_step by (eapply execute_run; [exact H2|done|exact Hq]).
      erewrite M_bind_step by apply fetch_run.
      rewrite bool_decide_eq_true_2 by eauto. run. apply Send_run. by apply create_reply_size.
    + done.
  - simpl. split_and!; try done. split; [eapply pool_ok_after; eauto|done].
Qed.

(** What [AddRoom] and the calls before it do to the objects. *)
Lemma new_room_run {B} (s : st D) sid id i k (m : M (st D) B) :
  sessions s !! sid = Some k →
  (p ← new_Room i id sid;
   (r ← room_at p;
    set_room p (mkRoom (_roomId r) (roomState r + 1) (_users r));;
    SetRoom sid (Some p);;
    AddRoom p);;
   m) s =
  m (mk (dbs s) (<[next_room s := mkRoom i 1 {[id := sid]}]> (heap s)) (S (next_room s))
        (<[i := next_room s]> (_rooms s)) (<[sid := mkSession (Some (next_room s)) (_id k)]> (sessions s)) (sent s)).
Proof.
  intros Hs. unfold new_Room, room_at, set_room, SetRoom, session_at, set_session, AddRoom, set_rooms, room_at.
  autorewrite with run. simpl. rewrite lookup_insert_eq. autorewrite with run. simpl.
  rewrite Hs. autorewrite with run. simpl. rewrite !lookup_insert_eq. autorewrite with run. simpl.
  rewrite insert_insert_eq. done.
Qed.

(** What the job of [C_CREATE_ROOM] does for a free name, wherever the user is. *)
Lemma create_any_run s sid id roomname k :
  pool_ok s → sessions s !! sid = Some k → name_free s roomname → zlen (w roomname) ≤ 30 → zlen roomname ≤ 5900 →
  ∃ s' i, C_CREATE_ROOM_job sid id roomname s = Ret (tt, s') ∧ pool_ok s' ∧
        sent s' = sent s ++ [(sid, create_reply true roomname)] ∧
        _rooms s' = <[i := next_room s]> (_rooms s) ∧ db_rooms s !! i = None ∧
        db_rooms s' = <[i := mkRow (w roomname) 1]> (db_rooms s) ∧
        heap s' = <[next_room s := mkRoom i 1 {[id := sid]}]> (heap s) ∧
        accts s' = alter (with_room (Some i)) (ukey id) (accts s) ∧
        sessions s' = <[sid := mkSession (Some (next_room s)) (_id k)]> (sessions s) ∧
        (∀ q a, accts s !! q = Some a → a_room a ≠ Some i) ∧ next_room s' = S (next_room s).
Proof.
  intros (l & c1 & c2 & k1 & k2 & Hp & Hne & H1 & H2) Hs Hfree Hlen Hsz.
  destruct (room_by_name_law (w roomname) (db (dbs s))) as (rows & Hq1 & Hrows).
  rewrite filter_none in Hrows by exact Hfree. apply Permutation_nil_r in Hrows as ->.
  destruct (insert_room_law (w roomname) (db (dbs s)) Hlen Hfree)
    as (i & d1 & Hq2 & Hi & Hacc & Hr1 & Ha1).
  destruct (room_by_name_law (w roomname) d1) as (rows & Hq3 & Hrows).
  rewrite (filter_one _ _ i (mkRow (w roomname) 1)) in Hrows; [|by rewrite Hr1, lookup_insert_eq|done|].
  2: { intros j row' Hj Hc. rewrite Hr1 in Hj. apply lookup_insert_Some in Hj as [[-> _]|[_ Hj]]; [done|].
       by apply Hfree in Hj. }
  apply Permutation_one in Hrows as ->.
  destruct (set_room_law (w id) (Some i) d1) as (d2 & Hq4 & Ha2 & Hr2);
    [intros z [= <-]; rewrite Hr1, lookup_insert_eq; eauto|].
  eexists _, i. split.
  - eapply (respond_run _ _ _ (l ++ [c1]) c2); [by rewrite Hp, <-app_assoc| |].
    + exec_first H2 Hq1. erewrite M_bind_step by apply fetch_none_run.
      rewrite bool_decide_eq_false_2 by apply is_Some_None. run. simpl negb. run.
      exec_next Hq2. exec_next Hq3.
      erewrite M_bind_step by apply fetch_run. rewrite bool_decide_eq_true_2 by eauto. run.
      exec_next Hq4.
      etransitivity; [eapply (new_room_run _ sid id i k); exact Hs|].
      apply Send_run. by apply create_reply_size.
    + done.
  - simpl. split_and!; try done; [eapply pool_ok_after; eauto|by unfold db_rooms; simpl; rewrite Hr2|
      by unfold accts; simpl; rewrite Ha2, Ha1].
Qed.

(** For a user in the lobby. *)
Lemma create_run s sid id roomname :
  server_inv s → in_lobby s sid id → name_free s roomname →
  zlen (w roomname) ≤ 30 → zlen roomname ≤ 5900 →
  ∃ s' i, C_CREATE_ROOM_job sid id roomname s = Ret (tt, s') ∧ server_inv s' ∧
        sent s' = sent s ++ [(sid, create_reply true roomname)] ∧
        _rooms s' = <[i := next_room s]> (_rooms s) ∧ db_rooms s !! i = None ∧
        db_rooms s' = <[i := mkRow (w roomname) 1]> (db_rooms s) ∧
        heap s' = <[next_room s := mkRoom i 1 {[id := sid]}]> (heap s) ∧
        accts s' = alter (with_room (Some i)) (ukey id) (accts s) ∧
        sessions s' = <[sid := mkSession (Some (next_room s)) id]> (sessions s).
Proof.
  intros [Hpool Hinv] [Hs (a & Ha & Har)] Hfree Hlen Hsz.
  destruct (create_any_run s sid id roomname _ Hpool Hs Hfree Hlen Hsz)
    as (s' & i & E & Hp & Hsent & H1 & H2 & H3 & H4 & H5 & H6 & H7 & H8).
  exists s', i. split_and!; try done. split; [done|]. rewrite H1, H3, H4, H5, H6, H8. by eapply create_inv.
Qed.

(** C12: creating a room.  A user in the lobby who asks for a free name gets a
    new room: a fresh row with one user in the database, a fresh object with
    that user in memory, both under the same id, and a positive reply; memory
    and database still agree. *)
Theorem create_room_creates s sid id roomname :
  server_inv s → in_lobby s sid id → name_free s roomname →
  zlen (w roomname) ≤ 30 → zlen roomname ≤ 5900 →
  ∃ s' i, C_CREATE_ROOM_job sid id roomname s = Ret (tt, s') ∧ server_inv s' ∧
        sent s' = sent s ++ [(sid, create_reply true roomname)] ∧
        _rooms s' = <[i := next_room s]> (_rooms s) ∧ db_rooms s !! i = None ∧
        db_rooms s' = <[i := mkRow (w roomname) 1]> (db_rooms s) ∧
        heap s' = <[next_room s := mkRoom i 1 {[id := sid]}]> (heap s).
Proof. intros. edestruct create_run as (s' & i & ?); [done..|]. exists s', i. naive_solver. Qed.

End inv.

(** ** A lobby for the witnesses: amy and bob are logged in, no room exists. *)

Definition online_account (u : str) : account := mkAccount (byte_val <$> u) (byte_val <$> secret) 1 None.

Definition lobby_accounts : gmap wstr account :=
  {[byte_val <$> amy := online_account amy; byte_val <$> bob := online_account bob]}.
Definition lobby_sessions : gmap nat ClientSession := {[7%nat := mkSession None amy; 8%nat := mkSession None bob]}.

Definition lobby_demo : st mem :=
  mk (mkSt (mkMem lobby_accounts ∅ 0 [Log_; Account_; Room_] []) {[0%nat := new; 1%nat := new]} [0%nat; 1%nat])
     ∅ 0 ∅ lobby_sessions [].

Definition talk : str := [x74; x61; x6c; x6b].

Lemma lobby_demo_inv : server_inv (WT := ascii_text) lobby_demo.
Proof. split; [by exists [], 0%nat, 1%nat, new, new|]. split; try done. by intros ? [? ?]. Qed.

Lemma amy_in_lobby : in_lobby (WT := ascii_text) lobby_demo 7 amy.
Proof. split; [reflexivity|]. by exists (online_account amy). Qed.

Lemma create_room_creates_witness : ∃ s' i,
  C_CREATE_ROOM_job (WT := ascii_text) 7 amy talk lobby_demo = Ret (tt, s') ∧ server_inv (WT := ascii_text) s' ∧
  heap s' = {[0%nat := mkRoom i 1 {[amy := 7%nat]}]}.
Proof.
  destruct (create_room_creates (WT := ascii_text) lobby_demo 7 amy talk) as (s' & i & H1 & H2 & _ & _ & _ & _ & H7).
  - exact lobby_demo_inv.
  - exact amy_in_lobby.
  - intros j row Hj. done.
  - vm_compute. discriminate.
  - vm_compute. discriminate.
  - exists s', i. auto.
Defined.


End ChatRooms.
