(* ===== verification/ChatFlow.v ===== *)
(** * ChatFlow: what joining, leaving and chatting do
      (Server/LobbyRespondent.h, RoomRepondent.h, RoomHandler.cpp, ClientSession.cpp)

    The respondents run on a store that satisfies [server_inv]: they return,
    keep it, and deliver their packets to the sessions of the room. *)

From S2P Require Import Prelude PacketHandler Wire Protocol Database ChatDb ChatServer ChatRooms.
#[local] Open Scope Z_scope.

Module ChatFlow.
Import Wire DBConnection ChatServer ChatRooms.

Section flow.
Context {D : Type} `{!Odbc D} {WT : WinText} {WL : WinTextLen} `{!ChatDb D}.
Implicit Types s : st D.

(** ** The list of users in a packet *)

(** The name a client sees for an account: it went through [WCHAR outId[14]]. *)
Definition shown (a : account) : str := WCHARToUTF8 (take 13 (a_id a)).

Definition members_of (A : gmap wstr account) (i : Z) : list account :=
  (map_to_list (filter (λ p : wstr * account, a_room p.2 = Some i) A)).*2.

Definition refresh_of (names : list str) : Msg.t :=
  Msg.S_REFRESH_ROOM (foldl (λ m n, S_REFRESH_ROOM.add_userids n m) S_REFRESH_ROOM.new names).

Definition join_of (canJoin : bool) (roomname : str) (names : list str) : Msg.t :=
  Msg.S_JOIN_ROOM (S_JOIN_ROOM.set_issuccess canJoin
    (foldl (λ m n, S_JOIN_ROOM.add_userids n m) (S_JOIN_ROOM.set_roomname roomname S_JOIN_ROOM.new) names)).

Definition names_in (rows : list (list value)) : list str :=
  (λ row, WCHARToUTF8 (out_str 1 (stored [name_col] row))) <$> rows.

Lemma refresh_room_names rows : refresh_room (stored [name_col] <$> rows) = refresh_of (names_in rows).
Proof.
  unfold refresh_room, refresh_of, names_in. f_equal. generalize S_REFRESH_ROOM.new.
  induction rows; intros m; simpl; auto.
Qed.

Lemma join_packet_names ok roomname rows :
  join_packet ok roomname (stored [name_col] <$> rows) = join_of ok roomname (names_in rows).
Proof.
  unfold join_packet, join_of, names_in. do 2 f_equal. generalize (S_JOIN_ROOM.set_roomname roomname S_JOIN_ROOM.new).
  induction rows; intros m; simpl; auto.
Qed.

Lemma refresh_of_fields names m :
  S_REFRESH_ROOM.userids (foldl (λ m n, S_REFRESH_ROOM.add_userids n m) m names) = S_REFRESH_ROOM.userids m ++ names.
Proof.
  revert m. induction names as [|n names IH]; intros m; simpl; [by rewrite app_nil_r|].
  rewrite IH. simpl. by rewrite <-app_assoc.
Qed.

Lemma join_of_fields names m :
  S_JOIN_ROOM.userids (foldl (λ m n, S_JOIN_ROOM.add_userids n m) m names) = S_JOIN_ROOM.userids m ++ names ∧
  S_JOIN_ROOM.roomname (foldl (λ m n, S_JOIN_ROOM.add_userids n m) m names) = S_JOIN_ROOM.roomname m.
Proof.
  revert m. induction names as [|n names IH]; intros m; simpl; [by rewrite app_nil_r|].
  destruct (IH (S_JOIN_ROOM.add_userids n m)) as [-> ->]. simpl. by rewrite <-app_assoc.
Qed.

Lemma names_size (names : list str) :
  Forall (λ n : str, zlen n ≤ 39) names →
  zlen names + foldr Z.add 0 (StringSize <$> names) ≤ 42 * zlen names.
Proof.
  induction 1 as [|n names Hn _ IH]; csimpl; [done|]. rewrite !zlen_cons.
  pose proof (StringSize_short n ltac:(lia)). lia.
Qed.

Lemma names_size_nonneg (names : list str) : 0 ≤ zlen names + foldr Z.add 0 (StringSize <$> names).
Proof.
  induction names as [|n names IH]; csimpl; [done|]. rewrite zlen_cons.
  assert (0 ≤ StringSize n); [|lia]. unfold StringSize, VarintSize. pose proof (zlen_nonneg n).
  pose proof (Z.log2_nonneg (zlen n)). pose proof (Z.div_pos (Z.log2 (zlen n)) 7). lia.
Qed.

Lemma refresh_of_size (names : list str) :
  Forall (λ n : str, zlen n ≤ 39) names → 42 * zlen names ≤ 5900 →
  Msg.ByteSizeLong (refresh_of names) ≤ PacketHandler.max_message.
Proof.
  intros Hn Hs. change PacketHandler.max_message with 5996. unfold refresh_of; simpl.
  unfold S_REFRESH_ROOM.ByteSizeLong; cbv zeta. rewrite !refresh_of_fields; simpl.
  pose proof (names_size names Hn). unfold str in *. repeat case_match; lia.
Qed.

Lemma join_of_size ok roomname (names : list str) :
  Forall (λ n : str, zlen n ≤ 39) names → 42 * zlen names + zlen roomname ≤ 5900 →
  Msg.ByteSizeLong (join_of ok roomname names) ≤ PacketHandler.max_message.
Proof.
  intros Hn Hs. change PacketHandler.max_message with 5996. unfold join_of; simpl.
  unfold S_JOIN_ROOM.ByteSizeLong; cbv zeta. simpl.
  destruct (join_of_fields names (S_JOIN_ROOM.set_roomname roomname S_JOIN_ROOM.new)) as [-> ->]; simpl.
  pose proof (names_size names Hn). pose proof (names_size_nonneg names).
  pose proof (zlen_nonneg names). pose proof (zlen_nonneg roomname).
  pose proof (StringSize_short roomname ltac:(lia)). unfold str in *. repeat case_match; lia.
Qed.

Lemma shown_len a : zlen (shown a) ≤ 39.
Proof.
  unfold shown, WCHARToUTF8. pose proof (WideCharToMultiByte_len (c_wstr (take 13 (a_id a)))).
  assert (zlen (c_wstr (take 13 (a_id a))) ≤ 13); [|lia].
  assert (∀ l : wstr, (length (c_wstr l) ≤ length l)%nat) as Hc
    by (induction l; simpl; [lia|]; case_match; simpl; lia).
  specialize (Hc (take 13 (a_id a))). rewrite length_take in Hc. unfold zlen. lia.
Qed.

(** The answer to the query for the users of room [i]. *)
Lemma users_rows i (d : D) : ∃ rows,
  SQLExecDirectW Sql.users_in (<[1:=VInt i]> ∅) d = SqlOk rows d ∧
  names_in rows ≡ₚ shown <$> members_of (accounts d) i.
Proof.
  destruct (users_in_law i d) as (rows & Hq & Hrows). exists rows. split; [done|].
  unfold names_in, members_of. rewrite Hrows, <-!list_fmap_compose. done.
Qed.

(** A room has as many users as member accounts. *)
Lemma members_count A S i p r row :
  room_ok A S i p r row → length (members_of A i) = size (_users r).
Proof.
  intros [_ _ _ _ Hinj Hm _]. unfold members_of. rewrite length_fmap, length_map_to_list, <-!size_dom.
  assert (dom (filter (λ p : wstr * account, a_room p.2 = Some i) A) = set_map ukey (dom (_users r))) as ->.
  { apply leibniz_equiv. intros k. rewrite elem_of_dom, elem_of_map. split.
    - intros [a Ha]. apply map_lookup_filter_Some in Ha as [Ha Hi].
      destruct (proj1 (Hm k)) as (u & Hu & <-); [by exists a|]. exists u. by rewrite elem_of_dom.
    - intros (u & -> & Hu). apply elem_of_dom in Hu. destruct (proj2 (Hm (ukey u))) as (a & Ha & Hi); [eauto|].
      exists a. by apply map_lookup_filter_Some. }
  assert (∀ X : gset str, (∀ u v, u ∈ X → v ∈ X → ukey u = ukey v → u = v) →
    size (set_map ukey X : gset wstr) = size X) as Hsize.
  { induction X as [|u X Hu IH] using set_ind_L; intros HX.
    { by rewrite set_map_empty, !size_empty. }
    assert (ukey u ∉ (set_map ukey X : gset wstr)) as Hk.
    { intros (v & Hk & Hv)%elem_of_map. apply HX in Hk as ->; [done| |]; apply elem_of_union;
        [left; by apply elem_of_singleton|by right]. }
    rewrite set_map_union_L, set_map_singleton_L, !size_union_alt, !size_singleton.
    rewrite !difference_disjoint_L by set_solver.
    rewrite (size_union_alt {[u]} X), size_singleton, difference_disjoint_L by set_solver. rewrite IH; [done|].
    intros v v' Hv Hv'. apply HX; apply elem_of_union; by right. }
  apply Hsize. intros u v Hu Hv. apply elem_of_dom in Hu, Hv. by apply Hinj.
Qed.

(** ** Broadcasts *)

Definition add_sent (l : list (nat * Msg.t)) (s : st D) : st D :=
  mk (dbs s) (heap s) (next_room s) (_rooms s) (sessions s) (sent s ++ l).

Definition to_all (l : list nat) (pkt : Msg.t) : list (nat * Msg.t) := (λ x, (x, pkt)) <$> l.

Lemma send_each_run l pkt exclu s :
  Msg.ByteSizeLong pkt ≤ PacketHandler.max_message →
  send_each l pkt exclu s = Ret (tt, add_sent (to_all (filter (λ x, exclu ≠ Some x) l) pkt) s).
Proof.
  intros Hs. revert s. induction l as [|x l IH]; intros s; simpl.
  { unfold add_sent. simpl. rewrite app_nil_r. by destruct s. }
  unfold to_all. rewrite filter_cons. destruct exclu as [e|]; cbn beta iota.
  - destruct (decide (e = x)) as [->|Hne].
    + autorewrite with run. rewrite (decide_False (P := Some x ≠ Some x)), IH by naive_solver. done.
    + erewrite M_bind_step by by apply Send_run. rewrite (decide_True (P := Some e ≠ Some x)) by congruence.
      rewrite IH. unfold add_sent; simpl. by rewrite <-app_assoc.
  - erewrite M_bind_step by by apply Send_run. rewrite (decide_True (P := None ≠ Some x)) by done.
    rewrite IH. unfold add_sent; simpl. by rewrite <-app_assoc.
Qed.

Lemma BroadCast_run p r pkt exclu s :
  heap s !! p = Some r → Msg.ByteSizeLong pkt ≤ PacketHandler.max_message →
  BroadCast p pkt exclu s =
  Ret (tt, add_sent (to_all (filter (λ x, exclu ≠ Some x) ((map_to_list (_users r)).*2)) pkt) s).
Proof.
  intros Hp Hs. unfold BroadCast, room_at. autorewrite with run. rewrite Hp. autorewrite with run.
  by apply send_each_run.
Qed.

Lemma filter_keeps {B} (P : B → Prop) `{!∀ x, Decision (P x)} (l : list B) :
  (∀ x, x ∈ l → P x) → filter P l = l.
Proof.
  induction l as [|x l IH]; intros HP; [done|]. rewrite filter_cons, decide_True by (apply HP; left).
  f_equal. apply IH. intros y Hy. apply HP. by right.
Qed.

(** Without exclusion everyone gets the packet. *)
Lemma everyone (l : list nat) exclu : exclu = None → filter (λ x, exclu ≠ Some x) l = l.
Proof. intros ->. by apply filter_keeps. Qed.

(** The sessions of a room after user [id] joined, without the new one. *)
Lemma others (users : gmap str nat) id sid :
  users !! id = None → (∀ u x, users !! u = Some x → x ≠ sid) →
  filter (λ x, Some sid ≠ Some x) ((map_to_list (<[id := sid]> users)).*2) ≡ₚ (map_to_list users).*2.
Proof.
  intros Hid Hne. rewrite map_to_list_insert by done. simpl. rewrite filter_cons, decide_False by (intros H; by apply H).
  rewrite filter_keeps; [done|]. intros x ([u y] & -> & Hu)%list_elem_of_fmap [= ->].
  apply elem_of_map_to_list in Hu. by eapply Hne.
Qed.

(** ** Joining *)

(** Room [i] in memory and in the database. *)
Definition room_is (s : st D) (i : Z) (p : nat) (r : Room) (row : room_row) : Prop :=
  _rooms s !! i = Some p ∧ heap s !! p = Some r ∧ db_rooms s !! i = Some row.

Definition AddUser_run_to (s : st D) (p : nat) (r : Room) (id : str) (sid : nat) : st D :=
  mk (dbs s) (<[p := mkRoom (_roomId r) (roomState r) (<[id := sid]> (_users r))]> (heap s)) (next_room s)
    (_rooms s) (<[sid := mkSession (Some p) id]> (sessions s)) (sent s).

Lemma AddUser_run s p r id sid c :
  heap s !! p = Some r → _users r ≠ ∅ → sessions s !! sid = Some (mkSession c id) →
  AddUser p id sid s = Ret (true, AddUser_run_to s p r id sid).
Proof.
  intros Hp Hne Hs. unfold AddUser, room_at, SetRoom, session_at, set_room, set_session.
  autorewrite with run. rewrite Hp. autorewrite with run. rewrite decide_False by done.
  autorewrite with run. simpl. rewrite Hs. autorewrite with run. done.
Qed.

(** The one row the query for a room name finds. *)
Lemma room_row_found s i row roomname :
  server_inv s → db_rooms s !! i = Some row → collate (r_name row) = ukey roomname →
  SQLExecDirectW Sql.room_and_name (<[1:=VStr (w roomname)]> ∅) (db (dbs s)) =
  SqlOk [[VInt i; VStr (r_name row)]] (db (dbs s)).
Proof.
  intros [_ Hinv] Hrow Hc. destruct (room_and_name_law (w roomname) (db (dbs s))) as (rows & Hq & Hrows).
  rewrite (filter_one _ _ i row) in Hrows; [|done..|].
  - by apply Permutation_one in Hrows as ->.
  - intros j row' Hj Hc'. eapply (li_names _ _ _ _ _ _ Hinv); eauto. rewrite Hc. exact Hc'.
Qed.

Lemma room_is_found s i row :
  server_inv s → db_rooms s !! i = Some row →
  ∃ p r, room_is s i p r row ∧ room_ok (accts s) (sessions s) i p r row.
Proof.
  intros [_ Hinv] Hrow. destruct (li_dom _ _ _ _ _ _ Hinv i) as [p Hi]; [eauto|].
  destruct (li_rooms _ _ _ _ _ _ Hinv i p Hi) as (r & row' & Hp & Hrow' & Hok).
  rewrite Hrow in Hrow'. simplify_eq. exists p, r. done.
Qed.

Lemma claim_seat_run s p r :
  heap s !! p = Some r → roomState r ≠ Destruction →
  claim_seat p s = Ret (true, mk (dbs s) (<[p := mkRoom (_roomId r) (roomState r + 1) (_users r)]> (heap s))
    (next_room s) (_rooms s) (sessions s) (sent s)).
Proof.
  intros Hp Hst. unfold claim_seat, room_at, set_room. autorewrite with run. rewrite Hp.
  autorewrite with run. rewrite decide_False by done. by autorewrite with run.
Qed.

Lemma room_state_pos A S i p r row : room_ok A S i p r row → 1 ≤ roomState r.
Proof.
  intros [_ -> _ Hne _ _ _]. assert (size (_users r) ≠ 0%nat); [|lia].
  by intros ?%map_size_empty_iff.
Qed.

Lemma names_short (names : list str) A i : names ≡ₚ shown <$> members_of A i → Forall (λ n : str, zlen n ≤ 39) names.
Proof.
  intros ->. apply Forall_forall. intros n (a & -> & _)%list_elem_of_fmap. apply shown_len.
Qed.

(** What the job of [C_JOIN_ROOM] does for an existing room. *)
Lemma join_run s sid id roomname i p r row :
  server_inv s → in_lobby s sid id → room_is s i p r row → collate (r_name row) = ukey roomname →
  42 * (roomState r + 1) + zlen roomname ≤ 5900 →
  ∃ s' names l, C_JOIN_ROOM_job sid id roomname s = Ret (tt, s') ∧ server_inv s' ∧
    names ≡ₚ shown <$> members_of (accts s') i ∧ l ≡ₚ (map_to_list (_users r)).*2 ∧
    sent s' = sent s ++ to_all l (refresh_of names) ++ [(sid, join_of true roomname names)] ∧
    heap s' = <[p := mkRoom i (roomState r + 1) (<[id := sid]> (_users r))]> (heap s) ∧
    accts s' = alter (with_room (Some i)) (ukey id) (accts s) ∧
    db_rooms s' = alter (add_count 1) i (db_rooms s) ∧ _rooms s' = _rooms s ∧
    sessions s' = <[sid := mkSession (Some p) id]> (sessions s).
Proof.
  intros Hsi [Hs (a & Ha & Har)] (Hi & Hp & Hrow) Hc Hsz.
  pose proof (room_row_found s i row roomname Hsi Hrow Hc) as Hq1.
  destruct Hsi as [(l & c1 & c2 & k1 & k2 & Hpool & Hne & H1 & H2) Hinv].
  destruct (set_room_law (w id) (Some i) (db (dbs s))) as (d1 & Hq2 & Ha1 & Hr1); [intros ? [= <-]; eauto|].
  destruct (inc_count_law i d1) as (d2 & Hq3 & Hr2 & Ha2).
  destruct (users_rows i d2) as (rows & Hq4 & Hnames).
  pose proof (join_inv _ _ _ _ _ _ _ _ _ _ _ _ _ Hinv Hi Hp Hrow Hs Ha Har) as Hinv'.
  rewrite Hr1 in Hr2. rewrite Ha1 in Ha2.
  destruct (li_rooms _ _ _ _ _ _ Hinv' i p Hi) as (r' & row' & Hp' & _ & Hok').
  rewrite lookup_insert_eq in Hp'. injection Hp' as <-.
  destruct (li_rooms _ _ _ _ _ _ Hinv i p Hi) as (r0 & row0 & Hp0 & _ & Hok).
  rewrite Hp in Hp0. injection Hp0 as <-.
  assert (zlen (names_in rows) = roomState r + 1) as Hlen.
  { transitivity (zlen (members_of (accounts d2) i)).
    - unfold zlen. by rewrite Hnames, length_fmap.
    - unfold zlen. rewrite Ha2. setoid_rewrite (members_count _ _ _ _ _ _ Hok').
      by rewrite <-(ro_state _ _ _ _ _ _ Hok'). }
  pose proof (names_short _ _ _ Hnames) as Hshort. pose proof (zlen_nonneg roomname).
  pose proof (room_state_pos _ _ _ _ _ _ Hok).
  eexists _, (names_in rows), (filter (λ x, Some sid ≠ Some x) ((map_to_list (<[id := sid]> (_users r))).*2)).
  split; [|split].
  - eapply (respond_run _ _ _ (l ++ [c1]) c2); [by rewrite Hpool, <-app_assoc| |].
    + exec_first H2 Hq1. erewrite M_bind_step by apply fetch_run. run.
      unfold GetRoom at 1. run. change (out_int 1 _) with i. simpl. rewrite Hi. run.
      erewrite M_bind_step by (apply claim_seat_run; [exact Hp|unfold Destruction; lia]).
      exec_next Hq2. exec_next Hq3. exec_next Hq4.
      erewrite M_bind_step by apply fetch_all_run. run.
      erewrite M_bind_step by (eapply AddUser_run; [apply lookup_insert_eq|by apply Hok|exact Hs]). run.
      erewrite M_bind_step by (eapply BroadCast_run;
        [apply lookup_insert_eq|rewrite refresh_room_names; apply refresh_of_size; [done|lia]]). run.
      rewrite refresh_room_names, join_packet_names. apply Send_run, join_of_size; [done|lia].
    + done.
  - simpl. split; [eapply pool_ok_after; [done|eauto|apply insert_insert_eq|done]|].
    unfold accts, db_rooms. simpl. rewrite Ha2, Hr2, insert_insert_eq, (ro_id _ _ _ _ _ _ Hok). done.
  - split_and!; [exact Hnames| |by simpl; rewrite <-app_assoc| |exact Ha2|exact Hr2|done|done].
    2: by simpl; rewrite insert_insert_eq, (ro_id _ _ _ _ _ _ Hok).
    apply others.
    + apply eq_None_not_Some. intros (b & Hb & Hbi)%(user_account _ _ _ _ _ _ _ Hok). congruence.
    + intros u x Hu ->. apply (ro_sessions _ _ _ _ _ _ Hok) in Hu. congruence.
Qed.

(** C11: joining a room.  A user in the lobby who names an existing room is
    added to it: the seat counter, the user map and the database count the new
    user and memory and database still agree; the sessions that were in the room
    get the new list of users, the newcomer is answered with the same list, and
    nobody else is sent anything. *)
Theorem join_room_joins s sid id roomname i p r row :
  server_inv s → in_lobby s sid id → room_is s i p r row → collate (r_name row) = ukey roomname →
  42 * (roomState r + 1) + zlen roomname ≤ 5900 →
  ∃ s' names l, C_JOIN_ROOM_job sid id roomname s = Ret (tt, s') ∧ server_inv s' ∧
    names ≡ₚ shown <$> members_of (accts s') i ∧ l ≡ₚ (map_to_list (_users r)).*2 ∧
    sent s' = sent s ++ to_all l (refresh_of names) ++ [(sid, join_of true roomname names)] ∧
    heap s' = <[p := mkRoom i (roomState r + 1) (<[id := sid]> (_users r))]> (heap s) ∧
    accts s' = alter (with_room (Some i)) (ukey id) (accts s) ∧
    db_rooms s' = alter (add_count 1) i (db_rooms s) ∧ _rooms s' = _rooms s.
Proof.
  intros. edestruct join_run as (s' & names & l & ?); [done..|]. exists s', names, l. naive_solver.
Qed.

(** ** Leaving *)

Definition null_params (id : str) : gmap Z value :=
  <[2:=VStr (w id)]> (<[1:=VNull]> ∅).

(** The statement with the null parameter. *)
Lemma clear_room_run {B} s c k id d (m : M (st D) B) :
  conns (dbs s) !! c = Some k →
  SQLExecDirectW Sql.set_room (<[2:=VStr (w id)]> (<[1:=VNull]> ∅)) (db (dbs s)) = SqlOk [] d →
  (b ← on_db (DBBind.new 2 0 c Sql.set_room);
   b ← on_db (DBBind.BindParam 0 (CInt32 0) b);
   b ← on_db (DBBind.SetParamNull 0 b);
   b ← on_db (DBBind.BindParam 1 (wide id) b);
   ok ← on_db (DBBind.Execute b true);
   assert_crash ok;;
   m) s = m (ran d c (mkConn (null_params id) ∅ []) s).
Proof.
  intros Hc Hq. unfold DBBind.new, Unbind, DBBind.BindParam, DBBind.SetParamNull, BindParam.
  rewrite !bind_parameter_law. unfold set_param.
  erewrite M_bind_step.
  2: { apply on_db_run. rewrite !bind_assoc, (get_conn_run _ k) by done. unfold set_conn. autorewrite with run. reflexivity. }
  do 3 (erewrite M_bind_step;
    [|apply on_db_run; rewrite !bind_assoc; erewrite get_conn_run by apply lookup_insert_eq;
      unfold set_conn; autorewrite with run; reflexivity]).
  erewrite M_bind_step.
  2: { apply on_db_run. unfold DBBind.Execute. rewrite assert_crash_true. autorewrite with run.
       unfold Execute. erewrite get_conn_run by apply lookup_insert_eq. autorewrite with run.
       simpl. fold (w id). change (1 + 1) with 2. change (0 + 1) with 1.
       rewrite insert_insert_eq, Hq. unfold set_db, set_conn. autorewrite with run. reflexivity. }
  autorewrite with run. f_equal. unfold ran, with_dbs, null_params. simpl. by rewrite !insert_insert_eq.
Qed.

Definition lobby (s : st D) : Prop :=
  lobby_inv (accts s) (db_rooms s) (_rooms s) (heap s) (sessions s) (next_room s).

(** Connection [c] is the next one of the pool; what lies below it is [l]. *)
Definition top_conn (s : st D) (l : list nat) (c : nat) : Prop :=
  _connections (dbs s) = l ++ [c] ∧ is_Some (conns (dbs s) !! c).

(** The pool is back, and only connection [c] was used. *)
Definition pool_kept (s s' : st D) (c : nat) : Prop :=
  _connections (dbs s') = _connections (dbs s) ∧ ∃ k, conns (dbs s') = <[c := k]> (conns (dbs s)).

(** A call of [RemoveUser] up to the point where [roomState] is known. *)
Definition leave_rest (c p : nat) (u : str) (r : Room) : M (st D) unit :=
  (if decide (roomState r - 1 = Empty) then
    set_room p (mkRoom (_roomId r) Destruction (delete u (_users r)));;
    execute 1 0 c Sql.delete_room [CInt32 (_roomId r)] [];;
    RemoveRoom (_roomId r)
  else
    set_room p (mkRoom (_roomId r) (roomState r - 1) (delete u (_users r)));;
    b ← execute 1 1 c Sql.users_in [CInt32 (_roomId r)] [name_col];
    rows ← fetch_all b;
    match rows with
    | [] => mret tt
    | _ => BroadCast p (refresh_room rows) None
    end);;
  on_db (DBConnectionPool.Push c).

Lemma RemoveUser_start s l c i p r row u sid :
  top_conn s l c → lobby s → room_is s i p r row → _users r !! u = Some sid →
  ∃ d k, RemoveUser p u s =
    leave_rest c p u r (let s1 := ran d c k (with_pool l s) in
      mk (dbs s1) (heap s) (next_room s) (_rooms s) (<[sid := mkSession None u]> (sessions s)) (sent s)) ∧
    accounts d = alter (with_room None) (ukey u) (accts s) ∧
    rooms d = alter (add_count (-1)) i (db_rooms s).
Proof.
  intros [Hpool [k Hc]] Hinv (Hi & Hp & Hrow) Hu.
  destruct (li_rooms _ _ _ _ _ _ Hinv i p Hi) as (r0 & row0 & Hp0 & _ & Hok).
  rewrite Hp in Hp0. injection Hp0 as <-.
  destruct (set_room_law (w u) None (db (dbs s))) as (d1 & Hq1 & Ha1 & Hr1); [done|].
  destruct (dec_count_law i d1) as (d2 & Hq2 & Hr2 & Ha2).
  eexists d2, _. split_and!; [|by rewrite Ha2, Ha1|by rewrite Hr2, Hr1].
  unfold RemoveUser. erewrite M_bind_step by by apply pop_run. run.
  erewrite clear_room_run by (exact Hc || exact Hq1). run.
  unfold room_at at 1. run. simpl heap. rewrite Hp. run. rewrite (ro_id _ _ _ _ _ _ Hok).
  exec_next Hq2. rewrite Hu, bool_decide_eq_true_2 by eauto. run.
  unfold SetRoom, session_at, set_session. run. simpl sessions.
  rewrite (ro_sessions _ _ _ _ _ _ Hok u sid Hu). run. unfold leave_rest. rewrite (ro_id _ _ _ _ _ _ Hok). done.
Qed.

Lemma leave_run s l c i p r row u sid :
  top_conn s l c → lobby s → room_is s i p r row → _users r !! u = Some sid →
  size (_users r) ≠ 1%nat → 42 * roomState r ≤ 5900 →
  ∃ s' names, RemoveUser p u s = Ret (tt, s') ∧ lobby s' ∧ pool_kept s s' c ∧
    names ≡ₚ shown <$> members_of (accts s') i ∧
    sent s' = sent s ++ to_all ((map_to_list (delete u (_users r))).*2) (refresh_of names) ∧
    heap s' = <[p := mkRoom i (roomState r - 1) (delete u (_users r))]> (heap s) ∧
    sessions s' = <[sid := mkSession None u]> (sessions s) ∧
    accts s' = alter (with_room None) (ukey u) (accts s) ∧
    db_rooms s' = alter (add_count (-1)) i (db_rooms s) ∧ _rooms s' = _rooms s.
Proof.
  intros Htop Hinv Hroom Hu Hone Hsz. pose proof Hroom as (Hi & Hp & Hrow).
  destruct (RemoveUser_start s l c i p r row u sid) as (d & k & -> & Ha & Hr); try done.
  pose proof (leave_inv _ _ _ _ _ _ _ _ _ _ _ _ Hinv Hi Hp Hrow Hu Hone) as Hinv'.
  destruct (li_rooms _ _ _ _ _ _ Hinv' i p Hi) as (r' & row' & Hp' & _ & Hok').
  rewrite lookup_insert_eq in Hp'. injection Hp' as <-.
  destruct (li_rooms _ _ _ _ _ _ Hinv i p Hi) as (r0 & row0 & Hp0 & _ & Hok).
  rewrite Hp in Hp0. injection Hp0 as <-.
  destruct (users_rows i d) as (rows & Hq & Hnames).
  pose proof (names_short _ _ _ Hnames) as Hshort.
  assert (zlen (names_in rows) = roomState r - 1) as Hlen.
  { transitivity (zlen (members_of (accounts d) i)); unfold zlen; [by rewrite Hnames, length_fmap|].
    rewrite Ha. setoid_rewrite (members_count _ _ _ _ _ _ Hok'). by rewrite <-(ro_state _ _ _ _ _ _ Hok'). }
  pose proof (room_state_pos _ _ _ _ _ _ Hok'). simpl in *.
  destruct rows as [|row1 rows]; [change (zlen (names_in [])) with 0 in Hlen; lia|].
  destruct Htop as [Hpool [k0 Hc]].
  eexists _, (names_in (row1 :: rows)). split; [|split].
  - unfold leave_rest. rewrite decide_False by (unfold Empty; lia). run.
    rewrite (ro_id _ _ _ _ _ _ Hok). unfold set_room. run.
    erewrite M_bind_step by (eapply execute_run; [apply lookup_insert_eq|done|exact Hq]). run.
    erewrite M_bind_step by apply fetch_all_run. cbv beta iota. rewrite fmap_cons. cbv beta iota.
    rewrite <-fmap_cons, refresh_room_names.
    erewrite M_bind_step by (eapply BroadCast_run; [apply lookup_insert_eq|apply refresh_of_size; [done|lia]]).
    rewrite everyone by done. apply push_run.
  - unfold lobby, accts, db_rooms. simpl. by rewrite Ha, Hr.
  - split_and!; try done. split; [by simpl; rewrite Hpool|].
    eexists. simpl. rewrite !insert_insert_eq. done.
Qed.

Lemma leave_last_run s l c i p r row u sid :
  top_conn s l c → lobby s → room_is s i p r row → _users r !! u = Some sid →
  size (_users r) = 1%nat →
  ∃ s', RemoveUser p u s = Ret (tt, s') ∧ lobby s' ∧ pool_kept s s' c ∧
    sent s' = sent s ∧
    heap s' = <[p := mkRoom i Destruction ∅]> (heap s) ∧
    sessions s' = <[sid := mkSession None u]> (sessions s) ∧
    accts s' = leave_deleted i <$> alter (with_room None) (ukey u) (accts s) ∧
    db_rooms s' = delete i (db_rooms s) ∧ _rooms s' = delete i (_rooms s).
Proof.
  intros Htop Hinv Hroom Hu Hone. pose proof Hroom as (Hi & Hp & Hrow).
  destruct (RemoveUser_start s l c i p r row u sid) as (d & k & -> & Ha & Hr); try done.
  pose proof (leave_last_inv _ _ _ _ _ _ _ _ _ _ _ _ Hinv Hi Hp Hrow Hu Hone) as Hinv'.
  destruct (li_rooms _ _ _ _ _ _ Hinv i p Hi) as (r0 & row0 & Hp0 & Hrow0 & Hok).
  rewrite Hp in Hp0. injection Hp0 as <-. rewrite Hrow in Hrow0. injection Hrow0 as <-.
  assert (delete u (_users r) = ∅) as Hempty.
  { apply map_size_empty_iff. rewrite map_size_delete, Hu, Hone. done. }
  destruct (delete_room_law i d) as (d' & Hq & Hd).
  rewrite Hr in Hd. unfold db_rooms in Hrow, Hd. rewrite lookup_alter_eq, Hrow in Hd. simpl in Hd.
  rewrite decide_True in Hd by (rewrite (ro_count _ _ _ _ _ _ Hok), Hone; done). destruct Hd as [Hr' Ha'].
  destruct Htop as [Hpool [k0 Hc]]. eexists. split; [|split].
  - unfold leave_rest.
    rewrite decide_True by (unfold Empty; rewrite (ro_state _ _ _ _ _ _ Hok), Hone; done). run.
    rewrite (ro_id _ _ _ _ _ _ Hok). unfold set_room. run.
    erewrite M_bind_step by (eapply execute_run; [apply lookup_insert_eq|done|exact Hq]). run.
    unfold RemoveRoom, set_rooms. run. simpl _rooms. rewrite Hi, bool_decide_eq_true_2 by eauto. run.
    apply push_run.
  - unfold lobby, accts, db_rooms. simpl. by rewrite Ha', Hr', Ha.
  - split_and!; try done; try (by simpl; rewrite Hempty).
    + split; [by simpl; rewrite Hpool|]. eexists. simpl. rewrite !insert_insert_eq. done.
    + unfold accts. simpl. by rewrite Ha', Ha.
    + unfold db_rooms. simpl. rewrite Hr'. apply delete_alter_eq.
Qed.

(** What a user's departure leaves behind: the room is gone when the user was
    alone, otherwise the others are told who is left.  [last] is what the
    leaving session is sent. *)
Definition departed (s s' : st D) (i : Z) (r : Room) (u : str) (last : list (nat * Msg.t)) : Prop :=
  if decide (size (_users r) = 1%nat) then
    _rooms s' = delete i (_rooms s) ∧ db_rooms s' = delete i (db_rooms s) ∧ sent s' = sent s ++ last
  else ∃ names, names ≡ₚ shown <$> members_of (accts s') i ∧
    _rooms s' = _rooms s ∧ db_rooms s' = alter (add_count (-1)) i (db_rooms s) ∧
    sent s' = sent s ++ to_all ((map_to_list (delete u (_users r))).*2) (refresh_of names) ++ last.

(** The objects and the account after the departure of [u]. *)
Record left_room (s s' : st D) (i : Z) (p : nat) (r : Room) (u : str) (sid : nat) : Prop := {
  lr_heap : ∃ state, heap s' = <[p := mkRoom i state (delete u (_users r))]> (heap s);
  lr_sessions : sessions s' = <[sid := mkSession None u]> (sessions s);
  lr_accts : accts s' = alter (with_room None) (ukey u) (accts s)
}.

(** Deleting the row of a room nobody else is in changes no account. *)
Lemma leave_deleted_none (A : gmap wstr account) k i :
  (∀ k', member A k' i → k' = k) →
  leave_deleted i <$> alter (with_room None) k A = alter (with_room None) k A.
Proof.
  intros Hm. apply map_eq. intros k'. rewrite lookup_fmap. destruct (decide (k' = k)) as [->|Hne].
  - rewrite lookup_alter_eq. destruct (A !! k); [|done]. simpl. unfold leave_deleted. by case_decide.
  - rewrite lookup_alter_ne by done. destruct (A !! k') as [a|] eqn:Ha; [|done]. simpl. unfold leave_deleted.
    case_decide; [|done]. exfalso. apply Hne, Hm. by exists a.
Qed.

(** The only user of a room. *)
Lemma alone A S i p r row u sid :
  room_ok A S i p r row → _users r !! u = Some sid → size (_users r) = 1%nat → ∀ k, member A k i → k = ukey u.
Proof.
  intros Hok Hu Hone k (v & [x Hv] & <-)%(ro_members _ _ _ _ _ _ Hok). f_equal.
  destruct (decide (v = u)) as [|Hne]; [done|]. assert (delete u (_users r) = ∅) as He.
  { apply map_size_empty_iff. rewrite map_size_delete, Hu, Hone. done. }
  assert (delete u (_users r) !! v = Some x) as H by by rewrite lookup_delete_ne. by rewrite He, lookup_empty in H.
Qed.

Lemma RemoveUser_run s l c i p r row u sid :
  top_conn s l c → lobby s → room_is s i p r row → _users r !! u = Some sid → 42 * roomState r ≤ 5900 →
  ∃ s', RemoveUser p u s = Ret (tt, s') ∧ lobby s' ∧ pool_kept s s' c ∧
    in_lobby s' sid u ∧ departed s s' i r u [] ∧ left_room s s' i p r u sid.
Proof.
  intros Htop Hinv Hroom Hu Hsz. pose proof Hroom as (Hi & Hp & Hrow).
  destruct (li_rooms _ _ _ _ _ _ Hinv i p Hi) as (r0 & row0 & Hp0 & _ & Hok).
  rewrite Hp in Hp0. injection Hp0 as <-.
  destruct (user_account _ _ _ _ _ _ u Hok ltac:(eauto)) as (a & Ha & Hai).
  unfold departed, in_lobby. destruct (decide (size (_users r) = 1%nat)) as [Hone|Hone].
  - edestruct leave_last_run as (s' & Hrun & Hl & Hk & Hsent & Hhp & Hse & Hacc & Hdr & Hro); [done..|].
    rewrite (leave_deleted_none _ _ i) in Hacc by by eapply alone.
    exists s'. rewrite Hse, Hacc, lookup_insert_eq, lookup_alter_eq, Ha, app_nil_r. simpl.
    split_and!; try done; [by eexists|]. split; try done. exists Destruction.
    rewrite Hhp. do 2 f_equal. symmetry. apply map_size_empty_iff. rewrite map_size_delete, Hu, Hone. done.
  - edestruct leave_run as (s' & names & Hrun & Hl & Hk & Hn & Hsent & Hhp & Hse & Hacc & Hdr & Hro); [done..|].
    exists s'. rewrite Hse, lookup_insert_eq, !Hacc, lookup_alter_eq, Ha. simpl.
    split_and!; try done; [by eexists| |].
    + exists names. by rewrite <-Hacc, app_nil_r.
    + split; try done. by eexists.
Qed.

(** What the job of [C_ROOM_OUT] does. *)
Lemma room_out_run s sid id i p r row :
  server_inv s → room_is s i p r row → _users r !! id = Some sid → 42 * roomState r ≤ 5900 →
  ∃ s', C_ROOM_OUT_job sid id s = Ret (tt, s') ∧ server_inv s' ∧ in_lobby s' sid id ∧
    departed s s' i r id [(sid, Msg.S_ROOM_OUT)] ∧ left_room s s' i p r id sid.
Proof.
  intros [(l & c1 & c2 & k1 & k2 & Hpool & Hne & H1 & H2) Hinv] Hroom Hu Hsz. pose proof Hroom as (Hi & Hp & Hrow).
  destruct (li_rooms _ _ _ _ _ _ Hinv i p Hi) as (r0 & row0 & Hp0 & _ & Hok).
  rewrite Hp in Hp0. injection Hp0 as <-.
  destruct (user_account _ _ _ _ _ _ id Hok ltac:(eauto)) as (a & Ha & Hai).
  pose proof (room_of_law (w id) (db (dbs s))) as Hq. setoid_rewrite Ha in Hq. rewrite Hai in Hq.
  set (s1 := ran (db (dbs s)) c2 (executed [wide id] [ColInt32] []) (with_pool (l ++ [c1]) s)).
  destruct (RemoveUser_run s1 l c1 i p r row id sid) as (s' & Hrun & Hl & [Hpk [k Hck]] & Hin & Hdep & Hleft); try done.
  { split; [done|]. simpl. rewrite lookup_insert_ne by done. eauto. }
  eexists. split.
  - eapply (respond_run _ _ _ (l ++ [c1]) c2); [by rewrite Hpool, <-app_assoc| |].
    + exec_first H2 Hq. erewrite M_bind_step by apply fetch_run. rewrite bool_decide_eq_true_2 by eauto. run.
      change (DBBind.IsColNull _ _) with false. simpl negb. run. unfold GetRoom. run.
      change (out_int 1 _) with i. simpl _rooms. rewrite Hi. run.
      erewrite M_bind_step by exact Hrun. apply Send_run. done.
    + exact Hpk.
  - split_and!.
    + split; [|exact Hl]. exists l, c1, c2, k, (executed [wide id] [ColInt32] []). simpl. rewrite Hck. simpl.
      by rewrite lookup_insert_eq, lookup_insert_ne, lookup_insert_eq, <-app_assoc by done.
    + exact Hin.
    + unfold departed in *. case_decide; simpl in *.
      * destruct Hdep as (Hro & Hdr & ->). by rewrite app_nil_r.
      * destruct Hdep as (names & Hn & Hro & Hdr & ->). exists names.
        split_and!; [exact Hn|exact Hro|exact Hdr|by rewrite app_nil_r, <-app_assoc].
    + destruct Hleft as [L1 L2 L3]. split; [exact L1|exact L2|exact L3].
Qed.

(** C13: leaving a room.  A user of a room who asks to leave is taken out of
    it: the job returns, memory and database still agree, the session is in the
    lobby again.  If the user was alone the room disappears from the handler
    and from the database; otherwise exactly the sessions that stay get the
    list of the users left.  The leaver is answered last. *)
Theorem room_out_leaves s sid id i p r row :
  server_inv s → room_is s i p r row → _users r !! id = Some sid → 42 * roomState r ≤ 5900 →
  ∃ s', C_ROOM_OUT_job sid id s = Ret (tt, s') ∧ server_inv s' ∧ in_lobby s' sid id ∧
    departed s s' i r id [(sid, Msg.S_ROOM_OUT)].
Proof. intros. edestruct room_out_run as (s' & ?); [done..|]. exists s'. naive_solver. Qed.

(** Who is in room [i] does not depend on the accounts outside it. *)
Lemma members_of_offline A i k a o :
  A !! k = Some a → a_room a = None → members_of (alter (with_online o) k A) i = members_of A i.
Proof.
  intros Ha Hr. unfold members_of. do 2 f_equal. apply map_eq. intros j.
  apply option_eq. intros b. rewrite !map_lookup_filter_Some.
  destruct (decide (j = k)) as [->|Hne]; [rewrite lookup_alter_eq, Ha|by rewrite lookup_alter_ne].
  simpl. split; intros [[= <-] Hb]; simpl in Hb; congruence.
Qed.

(** What [OnDisconnected] does to a session in a room. *)
Lemma disconnect_leave_run s sid id i p r row :
  server_inv s → room_is s i p r row → _users r !! id = Some sid → 42 * roomState r ≤ 5900 →
  ∃ s', OnDisconnected sid s = Ret (tt, s') ∧ server_inv s' ∧ in_lobby s' sid id ∧
    departed s s' i r id [] ∧ a_online <$> accts s' !! ukey id = Some 0 ∧
    accts s' = alter (with_online 0) (ukey id) (alter (with_room None) (ukey id) (accts s)) ∧
    sessions s' = <[sid := mkSession None id]> (sessions s) ∧
    ∃ state, heap s' = <[p := mkRoom i state (delete id (_users r))]> (heap s).
Proof.
  intros [(l & c1 & c2 & k1 & k2 & Hpool & Hne & H1 & H2) Hinv] Hroom Hu Hsz. pose proof Hroom as (Hi & Hp & Hrow).
  destruct (li_rooms _ _ _ _ _ _ Hinv i p Hi) as (r0 & row0 & Hp0 & _ & Hok).
  rewrite Hp in Hp0. injection Hp0 as <-.
  destruct (RemoveUser_run s (l ++ [c1]) c2 i p r row id sid)
    as (s1 & Hrun & Hl & [Hpk [k Hck]] & [Hin (b & Hb & Hbr)] & Hdep & [Hh Hse Hac]); try done.
  { split; [by rewrite Hpool, <-app_assoc|eauto]. }
  destruct (set_online_law (w id) 0 (db (dbs s1))) as (d & Hq & Ha & Hr).
  assert (accounts d = alter (with_online 0) (ukey id) (accts s1)) as Ha' by done.
  eexists. split.
  - unfold OnDisconnected, session_at. run. rewrite (ro_sessions _ _ _ _ _ _ Hok id sid Hu). run. simpl _room. cbn beta iota.
    assert (expired s p = false) as ->.
    { unfold expired. rewrite Hp, (ro_id _ _ _ _ _ _ Hok), Hi. by rewrite bool_decide_eq_true_2. }
    cbn beta iota. erewrite M_bind_step by exact Hrun.
    erewrite M_bind_step by (apply (pop_run _ (l ++ [c1]) c2); by rewrite Hpk, Hpool, <-app_assoc). run.
    erewrite M_bind_step by (eapply execute_run; [by simpl; rewrite Hck; apply lookup_insert_eq|done|exact Hq]).
    apply push_run.
  - split_and!.
    + split.
      { eapply (pool_ok_after s1 _ l c1 c2); [done| |done|done]. rewrite Hck, lookup_insert_ne by done. eauto. }
      unfold accts, db_rooms; simpl. rewrite Ha', Hr. eapply lobby_inv_frame; [exact Hl|intros; apply member_online|done].
    + split; [exact Hin|]. exists (with_online 0 b). split; [|done]. unfold accts; simpl.
      by rewrite Ha', lookup_alter_eq, Hb.
    + unfold departed, db_rooms, accts in *. simpl. rewrite Hr, Ha', members_of_offline with (a := b) by done.
      exact Hdep.
    + unfold accts; simpl. rewrite Ha', lookup_alter_eq, Hb. done.
    + unfold accts; simpl. by rewrite Ha', Hac.
    + exact Hse.
    + exact Hh.
Qed.

(** C14: a lost connection.  When the session of a user of a room disconnects
    the user is taken out of the room as by leaving it and the account goes
    offline; memory and database still agree. *)
Theorem disconnect_leaves s sid id i p r row :
  server_inv s → room_is s i p r row → _users r !! id = Some sid → 42 * roomState r ≤ 5900 →
  ∃ s', OnDisconnected sid s = Ret (tt, s') ∧ server_inv s' ∧ in_lobby s' sid id ∧
    departed s s' i r id [] ∧ a_online <$> accts s' !! ukey id = Some 0.
Proof. intros. edestruct disconnect_leave_run as (s' & ?); [done..|]. exists s'. naive_solver. Qed.

(** ** Chatting *)

Definition chat_packet (id log : str) : Msg.t :=
  Msg.S_CHAT_LOG (S_CHAT_LOG.set_log log (S_CHAT_LOG.set_id id S_CHAT_LOG.new)).

Lemma chat_packet_size id log :
  zlen id + zlen log ≤ 5900 → Msg.ByteSizeLong (chat_packet id log) ≤ PacketHandler.max_message.
Proof.
  intros Hs. pose proof (zlen_nonneg id). pose proof (zlen_nonneg log).
  pose proof (StringSize_short id ltac:(lia)). pose proof (StringSize_short log ltac:(lia)).
  change PacketHandler.max_message with 5996. unfold chat_packet; simpl. unfold S_CHAT_LOG.ByteSizeLong; simpl.
  repeat case_match; lia.
Qed.

(** What the job of [C_CHAT_LOG] does. *)
Lemma chat_run s sid id log i p r row :
  server_inv s → room_is s i p r row → is_Some (_users r !! id) →
  zlen id + zlen log ≤ 5900 → zlen (w log) ≤ 16383 →
  ∃ s', C_CHAT_LOG_job sid id log s = Ret (tt, s') ∧ server_inv s' ∧
    sent s' = sent s ++ to_all ((map_to_list (_users r)).*2) (chat_packet id log) ∧
    accts s' = accts s ∧ db_rooms s' = db_rooms s ∧ _rooms s' = _rooms s ∧ heap s' = heap s ∧
    sessions s' = sessions s ∧ logs (db (dbs s')) = logs (db (dbs s)) ++ [mkLog (w id) i (w log)].
Proof.
  intros [(l & c1 & c2 & k1 & k2 & Hpool & Hne & H1 & H2) Hinv] (Hi & Hp & Hrow) Hu Hsz Htext.
  destruct (li_rooms _ _ _ _ _ _ Hinv i p Hi) as (r0 & row0 & Hp0 & Hrow0 & Hok).
  rewrite Hp in Hp0. injection Hp0 as <-. rewrite Hrow in Hrow0. injection Hrow0 as <-.
  destruct (user_account _ _ _ _ _ _ id Hok Hu) as (a & Ha & Hai).
  pose proof (join_of_law (w id) (db (dbs s))) as Hq1. setoid_rewrite Ha in Hq1. simpl in Hq1.
  rewrite Hai in Hq1. setoid_rewrite Hrow in Hq1.
  destruct (insert_log_law (w id) i (w log) (db (dbs s))) as (d & Hq2 & Hda & Hdr & Hdl); [by eexists|by eexists|done|].
  eexists. split.
  - eapply (respond_run _ _ _ (l ++ [c1]) c2); [by rewrite Hpool, <-app_assoc| |].
    + exec_first H2 Hq1. erewrite M_bind_step by apply fetch_run. rewrite bool_decide_eq_true_2 by eauto. run.
      exec_next Hq2. unfold GetRoom. run. change (out_int 1 _) with i. simpl _rooms. rewrite Hi. run.
      eapply BroadCast_run; [exact Hp|by apply chat_packet_size].
    + done.
  - rewrite everyone by done. unfold server_inv, accts, db_rooms. simpl. rewrite Hda, Hdr.
    split_and!; try done. eapply pool_ok_after; [done|eauto|done|done].
Qed.

(** C8: chat delivery.  A line from a user of a room is stored, as one more row of
    [chat.log] with the sender's id and the room's, and sent, with the sender's id, to
    every session of that room and to no other session; accounts, rooms and sessions do
    not change. *)
Theorem chat_delivers s sid id log i p r row :
  server_inv s → room_is s i p r row → is_Some (_users r !! id) →
  zlen id + zlen log ≤ 5900 → zlen (w log) ≤ 16383 →
  ∃ s', C_CHAT_LOG_job sid id log s = Ret (tt, s') ∧ server_inv s' ∧
    sent s' = sent s ++ to_all ((map_to_list (_users r)).*2) (chat_packet id log) ∧
    accts s' = accts s ∧ db_rooms s' = db_rooms s ∧ _rooms s' = _rooms s ∧ heap s' = heap s ∧
    sessions s' = sessions s ∧ logs (db (dbs s')) = logs (db (dbs s)) ++ [mkLog (w id) i (w log)].
Proof. apply chat_run. Qed.

(** Requests from outside a room.  A chat line or a leave request of a
    user whose account exists but is in no room fails an assertion: the whole
    server stops. *)
Theorem outside_room_crashes s sid id log :
  server_inv s → in_lobby s sid id →
  C_CHAT_LOG_job sid id log s = Crash AssertCrash ∧ C_ROOM_OUT_job sid id s = Crash AssertCrash.
Proof.
  intros [(l & c1 & c2 & k1 & k2 & Hpool & Hne & H1 & H2) Hinv] [Hs (a & Ha & Har)].
  pose proof (join_of_law (w id) (db (dbs s))) as Hq1. setoid_rewrite Ha in Hq1. simpl in Hq1. rewrite Har in Hq1.
  pose proof (room_of_law (w id) (db (dbs s))) as Hq2. setoid_rewrite Ha in Hq2. rewrite Har in Hq2.
  split; unfold C_CHAT_LOG_job, C_ROOM_OUT_job, respond;
    erewrite M_bind_step by (apply (pop_run _ (l ++ [c1]) c2); by rewrite Hpool, <-app_assoc); run.
  - exec_first H2 Hq1. erewrite M_bind_step by apply fetch_none_run.
    rewrite bool_decide_eq_false_2 by apply is_Some_None. run. done.
  - exec_first H2 Hq2. erewrite M_bind_step by apply fetch_run. rewrite bool_decide_eq_true_2 by eauto. run. done.
Qed.

(** The only effect is one packet to session [sid]. *)
Definition only_reply (s s' : st D) (sid : nat) (reply : Msg.t) : Prop :=
  server_inv s' ∧ sent s' = sent s ++ [(sid, reply)] ∧ accts s' = accts s ∧ db_rooms s' = db_rooms s ∧
  _rooms s' = _rooms s ∧ heap s' = heap s ∧ sessions s' = sessions s.

Lemma join_missing_run s sid id roomname :
  server_inv s → zlen roomname ≤ 5900 → name_free s roomname →
  ∃ s', C_JOIN_ROOM_job sid id roomname s = Ret (tt, s') ∧ only_reply s s' sid (join_of false roomname []).
Proof.
  intros [(l & c1 & c2 & k1 & k2 & Hpool & Hne & H1 & H2) Hinv] Hsz Hn.
  destruct (room_and_name_law (w roomname) (db (dbs s))) as (rows & Hq & Hrows).
  rewrite filter_none in Hrows by exact Hn. apply Permutation_nil_r in Hrows as ->. eexists. split.
  - eapply (respond_run _ _ _ (l ++ [c1]) c2); [by rewrite Hpool, <-app_assoc| |].
    + exec_first H2 Hq. erewrite M_bind_step by apply fetch_none_run. run.
      change (join_packet false roomname []) with (join_of false roomname []).
      apply Send_run, join_of_size; [constructor|]. change (zlen []) with 0. lia.
    + done.
  - unfold only_reply. simpl. split_and!; try done. split; [eapply pool_ok_after; [done|eauto|done|done]|done].
Qed.

(** Refused requests.  Creating a room whose name is taken and joining a
    room that does not exist are answered with [issuccess] false and change
    nothing. *)
Theorem refused_requests s sid id roomname :
  server_inv s → zlen roomname ≤ 5900 →
  (¬ name_free s roomname → ∃ s', C_CREATE_ROOM_job sid id roomname s = Ret (tt, s') ∧
     only_reply s s' sid (create_reply false roomname)) ∧
  (name_free s roomname → ∃ s', C_JOIN_ROOM_job sid id roomname s = Ret (tt, s') ∧
     only_reply s s' sid (join_of false roomname [])).
Proof.
  intros Hsi Hsz. split; intros Hn; [|by apply join_missing_run].
  destruct (create_taken_run s sid id roomname) as (s' & Hrun & H); try done. exists s'. split; [done|]. naive_solver.
Qed.

(** ** The list of rooms *)

(** The name the lobby shows for a room: it went through [WCHAR outRoomName[14]]. *)
Definition shown_room (row : room_row) : str := WCHARToUTF8 (take 13 (r_name row)).

Definition lobby_of (rooms : list (str * Z)) : Msg.t :=
  Msg.S_REFRESH_LOBBY
    (foldl (λ m r, S_REFRESH_LOBBY.add_usercounts r.2 (S_REFRESH_LOBBY.add_roomnames r.1 m))
       (S_REFRESH_LOBBY.set_issuccess true S_REFRESH_LOBBY.new) rooms).

Definition rooms_in (rows : list (list value)) : list (str * Z) :=
  (λ row, let r := stored [name_col; ColInt64] row in (WCHARToUTF8 (out_str 1 r), out_int 2 r)) <$> rows.

Lemma lobby_packet_rooms rows : lobby_packet (stored [name_col; ColInt64] <$> rows) = lobby_of (rooms_in rows).
Proof.
  unfold lobby_packet, lobby_of, rooms_in. f_equal.
  generalize (S_REFRESH_LOBBY.set_issuccess true S_REFRESH_LOBBY.new). induction rows; intros m; simpl; auto.
Qed.

Lemma lobby_of_fields rooms m :
  let m' := foldl (λ m r, S_REFRESH_LOBBY.add_usercounts r.2 (S_REFRESH_LOBBY.add_roomnames r.1 m)) m rooms in
  S_REFRESH_LOBBY.roomnames m' = S_REFRESH_LOBBY.roomnames m ++ rooms.*1 ∧
  S_REFRESH_LOBBY.usercounts m' = S_REFRESH_LOBBY.usercounts m ++ rooms.*2.
Proof.
  revert m. induction rooms as [|r rooms IH]; intros m; simpl; [by rewrite !app_nil_r|].
  destruct (IH (S_REFRESH_LOBBY.add_usercounts r.2 (S_REFRESH_LOBBY.add_roomnames r.1 m))) as [-> ->]. simpl.
  by rewrite <-!app_assoc.
Qed.

Lemma Int64Size_le z : Int64Size z ≤ 10.
Proof.
  unfold Int64Size, VarintSize. pose proof (u64_bounds z).
  assert (Z.log2 (u64 z) < 64).
  { destruct (Z.eq_dec (u64 z) 0) as [->|]; [done|]. apply Z.log2_lt_pow2; lia. }
  pose proof (Z.log2_nonneg (u64 z)). assert (Z.log2 (u64 z) / 7 < 10) by (apply Z.div_lt_upper_bound; lia). lia.
Qed.

Lemma counts_size l : 0 ≤ foldr Z.add 0 (Int64Size <$> l) ≤ 10 * zlen l.
Proof.
  induction l as [|z l IH]; csimpl; [done|]. rewrite zlen_cons.
  pose proof (Int64Size_le z). pose proof (Int64Size_pos z). lia.
Qed.

Lemma lobby_of_size rooms :
  Forall (λ r : str * Z, zlen r.1 ≤ 39) rooms → 52 * zlen rooms ≤ 5900 →
  Msg.ByteSizeLong (lobby_of rooms) ≤ PacketHandler.max_message.
Proof.
  intros Hn Hs. change PacketHandler.max_message with 5996. unfold lobby_of; simpl.
  unfold S_REFRESH_LOBBY.ByteSizeLong; cbv zeta.
  destruct (lobby_of_fields rooms (S_REFRESH_LOBBY.set_issuccess true S_REFRESH_LOBBY.new)) as [-> ->]; simpl.
  pose proof (names_size (rooms.*1)) as H1. pose proof (counts_size (rooms.*2)) as H2. pose proof (names_size_nonneg (rooms.*1)).
  assert (zlen (rooms.*1) = zlen rooms) as E1 by (unfold zlen; by rewrite length_fmap).
  assert (zlen (rooms.*2) = zlen rooms) as E2 by (unfold zlen; by rewrite length_fmap).
  specialize (H1 ltac:(by rewrite Forall_fmap)). rewrite E1 in *. rewrite E2 in H2. unfold str in *.
  pose proof (zlen_nonneg rooms).
  assert (0 ≤ Int64SizeWithPackedTagSize (rooms.*2) 1 ≤ 3 + 10 * zlen rooms).
  { unfold Int64SizeWithPackedTagSize. destruct (empty _); [lia|].
    set (n := foldr Z.add 0 (Int64Size <$> rooms.*2)) in *. clearbody n. cbv zeta.
    assert (0 ≤ n < 16384) as Hsmall by lia. pose proof (VarintSize_two n Hsmall).
    pose proof (Z.log2_nonneg n). pose proof (Z.div_pos (Z.log2 n) 7). unfold VarintSize in *. lia. }
  repeat case_match; lia.
Qed.

Lemma shown_room_len row : zlen (shown_room row) ≤ 39.
Proof. exact (shown_len (mkAccount (r_name row) [] 0 None)). Qed.

(** What the job of [C_REFRESH_LOBBY] does. *)
Lemma refresh_run s sid :
  server_inv s → 52 * Z.of_nat (size (db_rooms s)) ≤ 5900 →
  ∃ s' l, C_REFRESH_LOBBY_job sid s = Ret (tt, s') ∧
    l ≡ₚ (λ p, (shown_room p.2, r_count p.2)) <$> map_to_list (db_rooms s) ∧
    only_reply s s' sid (lobby_of l).
Proof.
  intros [(pl & c1 & c2 & k1 & k2 & Hpool & Hne & H1 & H2) Hinv] Hsz.
  destruct (all_rooms_law (db (dbs s))) as (rows & Hq & Hrows).
  assert (rooms_in rows ≡ₚ (λ p, (shown_room p.2, r_count p.2)) <$> map_to_list (db_rooms s)) as Hl.
  { unfold rooms_in. rewrite Hrows, <-list_fmap_compose. done. }
  eexists _, (rooms_in rows). split; [|split; [exact Hl|]].
  - eapply (respond_run _ _ _ (pl ++ [c1]) c2); [by rewrite Hpool, <-app_assoc| |].
    + exec_first H2 Hq. erewrite M_bind_step by apply fetch_all_run. rewrite lobby_packet_rooms.
      apply Send_run, lobby_of_size.
      * rewrite Hl. apply Forall_fmap, Forall_forall. intros [j row] _. apply shown_room_len.
      * unfold zlen. rewrite Hl, length_fmap, length_map_to_list. done.
    + done.
  - unfold only_reply. simpl. split_and!; try done. split; [eapply pool_ok_after; [done|eauto|done|done]|done].
Qed.

(** The lobby.  The answer to a refresh request lists every room of the
    database once, with its number of users; nothing changes. *)
Theorem refresh_lobby_lists s sid :
  server_inv s → 52 * Z.of_nat (size (db_rooms s)) ≤ 5900 →
  ∃ s' l, C_REFRESH_LOBBY_job sid s = Ret (tt, s') ∧
    l ≡ₚ (λ p, (shown_room p.2, r_count p.2)) <$> map_to_list (db_rooms s) ∧
    only_reply s s' sid (lobby_of l).
Proof. apply refresh_run. Qed.

(** Long room names.  The lobby shows at most thirteen characters of a
    room's name, while names of up to thirty are accepted.  A client that asks
    to join a room by the name it was shown is refused when that name was cut
    and no room has the cut name. *)
Theorem cut_room_name_refused s sid id i row :
  server_inv s → db_rooms s !! i = Some row →
  w (shown_room row) = take 13 (r_name row) →
  (∀ j row', db_rooms s !! j = Some row' → collate (r_name row') ≠ collate (take 13 (r_name row))) →
  ∃ s', C_JOIN_ROOM_job sid id (shown_room row) s = Ret (tt, s') ∧
    only_reply s s' sid (join_of false (shown_room row) []).
Proof.
  intros Hsi Hrow Hw Hcut. pose proof (shown_room_len row). apply join_missing_run; [done|lia|].
  intros j row' Hj. unfold ukey. rewrite Hw. by apply (Hcut j).
Qed.

End flow.
(** ** Witnesses: amy is alone in room 1, bob is in the lobby. *)

Lemma ascii_text_len : WinTextLen (H := ascii_text).
Proof. split. intros ws. pose proof (zlen_nonneg ws). simpl. unfold zlen in *. rewrite length_fmap. lia. Qed.

Definition talk_row : room_row := mkRow (byte_val <$> talk) 1.
Definition amys_room : Room := mkRoom 1 1 {[amy := 7%nat]}.

Definition room_demo : st mem :=
  mk (mkSt (mkMem (alter (with_room (Some 1)) (byte_val <$> amy) lobby_accounts) {[1 := talk_row]} 1 [Log_; Account_; Room_] [])
        {[0%nat := new; 1%nat := new]} [0%nat; 1%nat])
     {[0%nat := amys_room]} 1 {[1 := 0%nat]} (<[7%nat := mkSession (Some 0%nat) amy]> lobby_sessions) [].

Lemma lobby_accounts_free k a : lobby_accounts !! k = Some a → a_room a ≠ Some 1.
Proof.
  intros Ha. unfold lobby_accounts in Ha.
  apply lookup_insert_Some in Ha as [[_ <-]|[_ Ha]]; [done|]. by apply lookup_singleton_Some in Ha as [_ <-].
Qed.

Lemma room_demo_inv : server_inv (WT := ascii_text) room_demo.
Proof.
  split; [by exists [], 0%nat, 1%nat, new, new|].
  destruct (lobby_demo_inv) as [_ Hinv].
  refine (create_inv (WT := ascii_text) lobby_accounts ∅ ∅ ∅ lobby_sessions 0 1 (byte_val <$> talk) 7 amy
    (online_account amy) Hinv _ _ _ _ _ _); try reflexivity.
  - exact lobby_accounts_free.
  - intros j row Hj. done.
Qed.

Lemma bob_in_lobby : in_lobby (WT := ascii_text) room_demo 8 bob.
Proof. split; [reflexivity|]. by exists (online_account bob). Qed.

Lemma room_demo_is : room_is room_demo 1 0 amys_room talk_row.
Proof. done. Qed.

Lemma join_room_joins_witness : ∃ s',
  C_JOIN_ROOM_job (WT := ascii_text) 8 bob talk room_demo = Ret (tt, s') ∧ server_inv (WT := ascii_text) s' ∧
  heap s' !! 0%nat = Some (mkRoom 1 2 {[bob := 8%nat; amy := 7%nat]}).
Proof.
  destruct (join_room_joins (WT := ascii_text) (WL := ascii_text_len) room_demo 8 bob talk 1 0 amys_room talk_row)
    as (s' & names & l & H1 & H2 & _ & _ & _ & H6 & _).
  - exact room_demo_inv.
  - exact bob_in_lobby.
  - exact room_demo_is.
  - reflexivity.
  - vm_compute. discriminate.
  - exists s'. rewrite H6. auto.
Defined.

Lemma room_out_leaves_witness : ∃ s',
  C_ROOM_OUT_job (WT := ascii_text) 7 amy room_demo = Ret (tt, s') ∧
  _rooms s' = ∅ ∧ sent s' = [(7%nat, Msg.S_ROOM_OUT)].
Proof.
  destruct (room_out_leaves (WT := ascii_text) (WL := ascii_text_len) room_demo 7 amy 1 0 amys_room talk_row)
    as (s' & H1 & _ & _ & H4).
  - exact room_demo_inv.
  - exact room_demo_is.
  - reflexivity.
  - vm_compute. discriminate.
  - unfold departed in H4. rewrite decide_True in H4 by reflexivity. destruct H4 as (H4 & _ & H5).
    exists s'. rewrite H4, H5. auto.
Defined.

Lemma disconnect_leaves_witness : ∃ s',
  OnDisconnected (WT := ascii_text) 7 room_demo = Ret (tt, s') ∧
  a_online <$> accts s' !! (byte_val <$> amy) = Some 0.
Proof.
  destruct (disconnect_leaves (WT := ascii_text) (WL := ascii_text_len) room_demo 7 amy 1 0 amys_room talk_row)
    as (s' & H1 & _ & _ & _ & H5).
  - exact room_demo_inv.
  - exact room_demo_is.
  - reflexivity.
  - vm_compute. discriminate.
  - exists s'. auto.
Defined.

Lemma chat_delivers_witness : ∃ s',
  C_CHAT_LOG_job (WT := ascii_text) 7 amy talk room_demo = Ret (tt, s') ∧
  sent s' = [(7%nat, chat_packet amy talk)] ∧ logs (db (dbs s')) = [mkLog (byte_val <$> amy) 1 (byte_val <$> talk)].
Proof.
  destruct (chat_delivers (WT := ascii_text) room_demo 7 amy talk 1 0 amys_room talk_row)
    as (s' & H1 & _ & H3 & _ & _ & _ & _ & _ & H9).
  - exact room_demo_inv.
  - exact room_demo_is.
  - eexists. reflexivity.
  - vm_compute. discriminate.
  - vm_compute. discriminate.
  - exists s'. rewrite H3, H9. auto.
Defined.

Lemma outside_room_crashes_witness :
  C_CHAT_LOG_job (WT := ascii_text) 8 bob talk room_demo = Crash AssertCrash.
Proof.
  exact (proj1 (outside_room_crashes (WT := ascii_text) room_demo 8 bob talk room_demo_inv bob_in_lobby)).
Defined.

Lemma refused_requests_witness : ∃ s',
  C_JOIN_ROOM_job (WT := ascii_text) 7 amy talk lobby_demo = Ret (tt, s') ∧
  sent s' = [(7%nat, join_of false talk [])].
Proof.
  destruct (proj2 (refused_requests (WT := ascii_text) lobby_demo 7 amy talk
    lobby_demo_inv ltac:(vm_compute; discriminate)) ltac:(intros j row Hj; done)) as (s' & H1 & _ & H2 & _).
  exists s'. auto.
Defined.

Lemma refresh_lobby_lists_witness : ∃ s',
  C_REFRESH_LOBBY_job (WT := ascii_text) 8 room_demo = Ret (tt, s') ∧
  sent s' = [(8%nat, lobby_of [(talk, 1)])].
Proof.
  destruct (refresh_lobby_lists (WT := ascii_text) (WL := ascii_text_len) room_demo 8) as (s' & l & H1 & H2 & H3).
  - exact room_demo_inv.
  - vm_compute. discriminate.
  - apply Permutation_one in H2 as ->. exists s'. split; [exact H1|]. apply H3.
Defined.

(** Room 1 has a name of fourteen letters. *)
Definition long_row : room_row := mkRow (repeat 97 14) 1.

Definition long_demo : st mem :=
  mk (mkSt (mkMem (alter (with_room (Some 1)) (byte_val <$> amy) lobby_accounts) {[1 := long_row]} 1 [Log_; Account_; Room_] [])
        {[0%nat := new; 1%nat := new]} [0%nat; 1%nat])
     {[0%nat := amys_room]} 1 {[1 := 0%nat]} (<[7%nat := mkSession (Some 0%nat) amy]> lobby_sessions) [].

Lemma long_demo_inv : server_inv (WT := ascii_text) long_demo.
Proof.
  split; [by exists [], 0%nat, 1%nat, new, new|].
  destruct (lobby_demo_inv) as [_ Hinv].
  refine (create_inv (WT := ascii_text) lobby_accounts ∅ ∅ ∅ lobby_sessions 0 1 (repeat 97 14) 7 amy
    (online_account amy) Hinv _ _ _ _ _ _); try reflexivity.
  - exact lobby_accounts_free.
  - intros j row Hj. done.
Qed.

Lemma cut_room_name_refused_witness : ∃ s',
  C_JOIN_ROOM_job (WT := ascii_text) 8 bob (repeat x61 13) long_demo = Ret (tt, s') ∧
  sent s' = [(8%nat, join_of false (repeat x61 13) [])].
Proof.
  destruct (cut_room_name_refused (WT := ascii_text) (WL := ascii_text_len) long_demo 8 bob 1 long_row)
    as (s' & H1 & _ & H2 & _).
  - exact long_demo_inv.
  - reflexivity.
  - reflexivity.
  - intros j row' Hj. change (({[1 := long_row]} : gmap Z room_row) !! j = Some row') in Hj.
    apply lookup_singleton_Some in Hj as [_ <-]. vm_compute. discriminate.
  - exists s'. auto.
Defined.

End ChatFlow.
