(* ===== verification/ChatSpec.v ===== *)
(** * ChatSpec: what the chat service promises

    The service as its users see it: the registered users, the open rooms with
    who is in them, the connections.  No room ids, objects, counters or database
    connections.  [next] is the state after an event and [answers] what is sent
    to whom; lists of users and of rooms come in any order.  [allowed] are the
    events of clients that log in before they use a room, use a room only while
    they are in it, and stay within the sizes a packet can hold.  [ChatRefine]
    proves that the server's handlers implement this service. *)

From S2P Require Import Prelude PacketHandler Wire Protocol Database ChatDb ChatServer ChatAuth ChatRooms ChatFlow.
#[local] Open Scope Z_scope.

Module ChatSpec.
Import Wire ChatServer.

Record user : Type := mkUser {
  u_name : wstr;
  u_password : wstr;
  u_online : bool;
  u_place : option wstr
}.

Record chatroom : Type := mkChatroom {
  title : wstr;
  present : gmap str nat
}.

Record chat : Type := mkChat {
  registered : gmap wstr user;
  open_rooms : gmap wstr chatroom;
  connected : gmap nat str
}.

Definition empty_chat : chat := mkChat ∅ ∅ ∅.

Definition set_place (o : option wstr) (u : user) : user := mkUser (u_name u) (u_password u) (u_online u) o.
Definition set_online (b : bool) (u : user) : user := mkUser (u_name u) (u_password u) b (u_place u).

(** A connection is accepted, a message arrives on it, it is lost. *)
Inductive event : Type :=
| Accepted (sid : nat)
| Received (sid : nat) (m : Msg.t)
| Lost (sid : nat).

Section spec.
Context {WT : WinText} (key : wstr → wstr).

Definition text (u : str) : wstr := c_wstr (Utf8ToWstring u).
Definition tkey (u : str) : wstr := key (text u).

(** What others see of a text: thirteen characters of it. *)
Definition display (t : wstr) : str := WCHARToUTF8 (take 13 t).

Definition can_log_in (c : chat) (id pssd : str) : bool :=
  match registered c !! tkey id with
  | Some u => bool_decide (key (u_password u) = tkey pssd) && negb (u_online u)
  | None => false
  end.

(** The room session [sid] is in, and the id it is in it under. *)
Definition seat (c : chat) (sid : nat) : option (wstr * str * chatroom) :=
  id ← connected c !! sid;
  u ← registered c !! tkey id;
  n ← u_place u;
  rm ← open_rooms c !! n;
  if decide (present rm !! id = Some sid) then Some (n, id, rm) else None.

(** The names of those in a room. *)
Definition roster (c : chat) (users : gmap str nat) : list str :=
  omap (λ v, display ∘ u_name <$> registered c !! tkey v) ((map_to_list users).*1).

Definition sessions_in (users : gmap str nat) : list nat := (map_to_list users).*2.

Definition on_registered (f : gmap wstr user → gmap wstr user) (c : chat) : chat :=
  mkChat (f (registered c)) (open_rooms c) (connected c).
Definition on_rooms (f : gmap wstr chatroom → gmap wstr chatroom) (c : chat) : chat :=
  mkChat (registered c) (f (open_rooms c)) (connected c).
Definition on_connected (f : gmap nat str → gmap nat str) (c : chat) : chat :=
  mkChat (registered c) (open_rooms c) (f (connected c)).

(** [id] moves into room [n], whose users are then [rm]. *)
Definition enter (n : wstr) (id : str) (rm : chatroom) (c : chat) : chat :=
  on_registered (alter (set_place (Some n)) (tkey id)) (on_rooms <[n := rm]> c).

(** [id] leaves room [n]; the last user closes it. *)
Definition leave (n : wstr) (id : str) (rm : chatroom) (c : chat) : chat :=
  on_registered (alter (set_place None) (tkey id))
    (on_rooms (if decide (size (present rm) = 1%nat) then delete n
               else <[n := mkChatroom (title rm) (delete id (present rm))]>) c).

(** ** The state after an event *)

Definition request (sid : nat) (m : Msg.t) (c : chat) : chat :=
  match m with
  | Msg.C_LOGIN m =>
    if can_log_in c (C_LOGIN.id m) (C_LOGIN.pssd m)
    then on_connected <[sid := C_LOGIN.id m]> (on_registered (alter (set_online true) (tkey (C_LOGIN.id m))) c)
    else c
  | Msg.C_REGISTER m =>
    match registered c !! tkey (C_REGISTER.id m) with
    | Some _ => c
    | None => on_registered <[tkey (C_REGISTER.id m) :=
                mkUser (text (C_REGISTER.id m)) (text (C_REGISTER.pssd m)) false None]> c
    end
  | Msg.C_CREATE_ROOM m =>
    let n := tkey (C_CREATE_ROOM.roomname m) in
    match open_rooms c !! n with
    | Some _ => c
    | None => enter n (C_CREATE_ROOM.id m)
                (mkChatroom (text (C_CREATE_ROOM.roomname m)) {[C_CREATE_ROOM.id m := sid]}) c
    end
  | Msg.C_JOIN_ROOM m =>
    let n := tkey (C_JOIN_ROOM.roomname m) in
    match open_rooms c !! n with
    | Some rm => enter n (C_JOIN_ROOM.id m)
                   (mkChatroom (title rm) (<[C_JOIN_ROOM.id m := sid]> (present rm))) c
    | None => c
    end
  | Msg.C_ROOM_OUT _ => match seat c sid with Some (n, id, rm) => leave n id rm c | None => c end
  | _ => c
  end.

Definition next (e : event) (c : chat) : chat :=
  match e with
  | Accepted sid => on_connected <[sid := []]> c
  | Received sid m => request sid m c
  | Lost sid =>
    match connected c !! sid with
    | Some id =>
      let c := match seat c sid with Some (n, id, rm) => leave n id rm c | None => c end in
      on_connected (delete sid) (on_registered (alter (set_online false) (tkey id)) c)
    | None => c
    end
  end.

(** ** What is sent *)

(** Everybody in a room is sent [pkt]. *)
Definition broadcast (users : gmap str nat) (pkt : Msg.t) (out : list (nat * Msg.t)) : Prop :=
  ∃ l, l ≡ₚ sessions_in users ∧ out = ChatFlow.to_all l pkt.

(** Those who stay in a room are told who is left. *)
Definition farewell (id : str) (rm : chatroom) (c' : chat) (out : list (nat * Msg.t)) : Prop :=
  if decide (size (present rm) = 1%nat) then out = []
  else ∃ names, names ≡ₚ roster c' (delete id (present rm)) ∧
         broadcast (delete id (present rm)) (ChatFlow.refresh_of names) out.

Definition replies (c : chat) (sid : nat) (m : Msg.t) (out : list (nat * Msg.t)) : Prop :=
  let c' := request sid m c in
  match m with
  | Msg.C_LOGIN m =>
    let '(id, pssd) := (C_LOGIN.id m, C_LOGIN.pssd m) in
    out = [(sid, ChatAuth.login_reply (can_log_in c id pssd) id pssd)]
  | Msg.C_REGISTER m =>
    let '(id, pssd) := (C_REGISTER.id m, C_REGISTER.pssd m) in
    out = [(sid, ChatAuth.register_reply (bool_decide (registered c !! tkey id = None)) id pssd)]
  | Msg.C_REFRESH_LOBBY => ∃ l,
    l ≡ₚ (λ rm, (display (title rm), Z.of_nat (size (present rm)))) <$> (map_to_list (open_rooms c)).*2 ∧
    out = [(sid, ChatFlow.lobby_of l)]
  | Msg.C_CREATE_ROOM m =>
    let n := C_CREATE_ROOM.roomname m in
    out = [(sid, ChatRooms.create_reply (bool_decide (open_rooms c !! tkey n = None)) n)]
  | Msg.C_JOIN_ROOM m =>
    let '(id, n) := (C_JOIN_ROOM.id m, C_JOIN_ROOM.roomname m) in
    match open_rooms c !! tkey n with
    | Some rm => ∃ names l, names ≡ₚ roster c' (<[id := sid]> (present rm)) ∧
        broadcast (present rm) (ChatFlow.refresh_of names) l ∧
        out = l ++ [(sid, ChatFlow.join_of true n names)]
    | None => out = [(sid, ChatFlow.join_of false n [])]
    end
  | Msg.C_CHAT_LOG m =>
    match seat c sid with
    | Some (_, id, rm) => broadcast (present rm) (ChatFlow.chat_packet id (C_CHAT_LOG.log m)) out
    | None => False
    end
  | Msg.C_ROOM_OUT _ =>
    match seat c sid with
    | Some (_, id, rm) => ∃ l, farewell id rm c' l ∧ out = l ++ [(sid, Msg.S_ROOM_OUT)]
    | None => False
    end
  | _ => False
  end.

Definition answers (c : chat) (e : event) (out : list (nat * Msg.t)) : Prop :=
  match e with
  | Accepted _ => out = []
  | Received sid m => replies c sid m out
  | Lost sid =>
    match seat c sid with
    | Some (_, id, rm) => farewell id rm (next e c) out
    | None => out = []
    end
  end.

(** ** Who may ask for what *)

(** Session [sid] is logged in as [id], who is in no room. *)
Definition in_the_lobby (c : chat) (sid : nat) (id : str) : Prop :=
  connected c !! sid = Some id ∧ u_place <$> registered c !! tkey id = Some None.

Definition may_ask (c : chat) (sid : nat) (m : Msg.t) : Prop :=
  match m with
  | Msg.C_LOGIN m => is_Some (connected c !! sid) ∧ seat c sid = None ∧ ChatAuth.short (C_LOGIN.id m) (C_LOGIN.pssd m)
  | Msg.C_REGISTER m =>
    ChatAuth.short (C_REGISTER.id m) (C_REGISTER.pssd m) ∧
    zlen (text (C_REGISTER.id m)) ≤ 30 ∧ zlen (text (C_REGISTER.pssd m)) ≤ 255
  | Msg.C_REFRESH_LOBBY => 52 * Z.of_nat (size (open_rooms c)) ≤ 5900
  | Msg.C_CREATE_ROOM m =>
    in_the_lobby c sid (C_CREATE_ROOM.id m) ∧ zlen (C_CREATE_ROOM.roomname m) ≤ 5900 ∧
    zlen (text (C_CREATE_ROOM.roomname m)) ≤ 30
  | Msg.C_JOIN_ROOM m =>
    in_the_lobby c sid (C_JOIN_ROOM.id m) ∧
    42 * (default 0 ((λ rm, Z.of_nat (size (present rm))) <$> open_rooms c !! tkey (C_JOIN_ROOM.roomname m)) + 1) +
      zlen (C_JOIN_ROOM.roomname m) ≤ 5900
  | Msg.C_CHAT_LOG m =>
    (∃ n rm, seat c sid = Some (n, C_CHAT_LOG.id m, rm)) ∧
    zlen (C_CHAT_LOG.id m) + zlen (C_CHAT_LOG.log m) ≤ 5900 ∧ zlen (text (C_CHAT_LOG.log m)) ≤ 16383
  | Msg.C_ROOM_OUT m => ∃ n rm, seat c sid = Some (n, C_ROOM_OUT.id m, rm) ∧ 42 * Z.of_nat (size (present rm)) ≤ 5900
  | _ => False
  end.

Definition allowed (c : chat) (e : event) : Prop :=
  match e with
  | Accepted sid => connected c !! sid = None
  | Received sid m => may_ask c sid m ∧ Msg.wf m ∧ Msg.small m ∧ Msg.utf8 m
  | Lost sid => is_Some (connected c !! sid) ∧
    match seat c sid with Some (_, _, rm) => 42 * Z.of_nat (size (present rm)) ≤ 5900 | None => True end
  end.

(** Rooms are never empty; whoever is in one is connected under that id and
    registered as being there, so nobody is in two rooms and no connection is; and
    whoever is registered as being in a room is in it. *)
Definition seated_well (c : chat) : Prop :=
  (∀ n rm, open_rooms c !! n = Some rm → present rm ≠ ∅ ∧
     ∀ v sid, present rm !! v = Some sid →
       connected c !! sid = Some v ∧ u_place <$> registered c !! tkey v = Some (Some n)) ∧
  (∀ k u n, registered c !! k = Some u → u_place u = Some n →
     ∃ rm v, open_rooms c !! n = Some rm ∧ is_Some (present rm !! v) ∧ tkey v = k).

(** A run of the service: events with what was sent for each. *)
Inductive run : chat → list (event * list (nat * Msg.t)) → chat → Prop :=
| run_nil c : run c [] c
| run_cons c e out tr c' :
    allowed c e → answers c e out → run (next e c) tr c' → run c ((e, out) :: tr) c'.

End spec.
End ChatSpec.
