(* ===== verification/Dispatch.v ===== *)
(** * Dispatch: from packets to respondents
      (Server/ClientPacketHandler.h, ClientPacketHandler.cpp, ClientSession.cpp OnRecvPacket,
       PacketRespondent.h)

    The handler table, its initialisation, and what the server does with a
    packet the framing layer delivers.  A receive completion is handled outside
    of any job, so the [Push] of [RESPONSE_END] executes the job at once and
    the queue it then gives to [GlobalPush] has no job left. *)

From S2P Require Import Prelude PacketSession SendBuffer PacketHandler Wire Protocol Database ChatDb ChatServer.
#[local] Open Scope Z_scope.

Module Dispatch.
Import ChatServer.

(** An entry of [GPacketHandler]; an index without entry is an empty
    [std::function]. *)
Inductive handler : Type :=
| Handle_INVALD
| HandlePacketOf (k : Msg.kind).

Notation table := (gmap Z handler).

(** The loop of [Init]: it writes index 0 every time. *)
Fixpoint Init_loop (n : nat) (t : table) : table :=
  match n with
  | O => t
  | S n => Init_loop n (<[0 := Handle_INVALD]> t)
  end.

Definition client_kinds : list Msg.kind :=
  [Msg.K_C_LOGIN; Msg.K_C_REGISTER; Msg.K_C_REFRESH_LOBBY; Msg.K_C_CREATE_ROOM; Msg.K_C_JOIN_ROOM;
   Msg.K_C_CHAT_LOG; Msg.K_C_ROOM_OUT].

(** The assignments after the loop, one per class. *)
Definition register (kinds : list Msg.kind) (t : table) : table :=
  foldl (λ t k, <[Msg.pkt_id k := HandlePacketOf k]> t) t kinds.

Definition Init (GPacketHandler : table) : table :=
  register client_kinds (Init_loop (Z.to_nat UINT16_MAX) GPacketHandler).

Lemma Init_loop_run n t : Init_loop (S n) t = <[0 := Handle_INVALD]> t.
Proof.
  revert t. induction n as [|n IH]; intros t; [done|].
  change (Init_loop (S (S n)) t) with (Init_loop (S n) (<[0 := Handle_INVALD]> t)).
  by rewrite IH, insert_insert_eq.
Qed.

Lemma Init_loop_max t : Init_loop (Z.to_nat UINT16_MAX) t = <[0 := Handle_INVALD]> t.
Proof.
  replace (Z.to_nat UINT16_MAX) with (S (Z.to_nat (UINT16_MAX - 1))) by (unfold UINT16_MAX; lia). apply Init_loop_run.
Qed.

Lemma register_other kinds t i : (∀ k, k ∈ kinds → i ≠ Msg.pkt_id k) → register kinds t !! i = t !! i.
Proof.
  unfold register. revert t. induction kinds as [|k kinds IH]; intros t Hi; [done|]. simpl. rewrite IH.
  - rewrite lookup_insert_ne; [done|]. intros E. apply (Hi k); [left|done].
  - intros k' Hk'. apply Hi. by right.
Qed.

#[global] Instance kind_eq_dec : EqDecision Msg.kind.
Proof. solve_decision. Defined.

#[global] Instance pkt_id_inj : Inj (=) (=) Msg.pkt_id.
Proof. by intros [] []. Qed.

Lemma register_lookup kinds t k : k ∈ kinds → register kinds t !! Msg.pkt_id k = Some (HandlePacketOf k).
Proof.
  revert t. induction kinds as [|k' kinds IH]; intros t Hk; [by apply not_elem_of_nil in Hk|].
  change (register (k' :: kinds) t) with (register kinds (<[Msg.pkt_id k' := HandlePacketOf k']> t)).
  destruct (decide (k ∈ kinds)) as [Hin|Hin]; [by apply IH|]. apply elem_of_cons in Hk as [->|Hk]; [|done].
  rewrite register_other; [apply lookup_insert_eq|]. intros k2 Hk2 E%(inj Msg.pkt_id). by subst.
Qed.

Section dispatch.
Context {D : Type} `{!Odbc D} {WT : WinText} `{!ChatDb D} {P : Msg.Parser}.

(** The server and the queues that wait in [JobQueue::GJobQueues]. *)
Record world : Type := mkWorld {
  server : st D;
  GJobQueues : list (list unit)
}.

Definition on_server (m : M (st D) unit) : M world unit := λ x,
  match m (server x) with
  | Ret (_, s) => Ret (tt, mkWorld s (GJobQueues x))
  | Crash f => Crash f
  end.

(** [RESPONSE_START] and [RESPONSE_END] around a job. *)
Definition PacketRespondent (job : M (st D) unit) : M world bool :=
  on_server job;;
  modify (λ x, mkWorld (server x) (GJobQueues x ++ [[]]));;
  mret true.

(** [Handle_C_*]: the respondent of the packet's class. *)
Definition Handle (session : nat) (pkt : Msg.t) : option (M world bool) :=
  match pkt with
  | Msg.C_LOGIN m => Some (PacketRespondent (C_LOGIN_job session (C_LOGIN.id m) (C_LOGIN.pssd m)))
  | Msg.C_REGISTER m => Some (PacketRespondent (C_REGISTER_job session (C_REGISTER.id m) (C_REGISTER.pssd m)))
  | Msg.C_REFRESH_LOBBY => Some (PacketRespondent (C_REFRESH_LOBBY_job session))
  | Msg.C_CREATE_ROOM m =>
    Some (PacketRespondent (C_CREATE_ROOM_job session (C_CREATE_ROOM.id m) (C_CREATE_ROOM.roomname m)))
  | Msg.C_JOIN_ROOM m =>
    Some (PacketRespondent (C_JOIN_ROOM_job session (C_JOIN_ROOM.id m) (C_JOIN_ROOM.roomname m)))
  | Msg.C_CHAT_LOG m => Some (PacketRespondent (C_CHAT_LOG_job session (C_CHAT_LOG.id m) (C_CHAT_LOG.log m)))
  | Msg.C_ROOM_OUT m => Some (PacketRespondent (C_ROOM_OUT_job session (C_ROOM_OUT.id m)))
  | _ => None
  end.

(** [HandlePacket<PacketType>]. *)
Definition HandlePacket_typed (k : Msg.kind) (session : nat) (buffer : list byte) : M world bool :=
  match Msg.ParseFromArray k (drop (Z.to_nat PacketSession.sizeof_PacketHeader) buffer) with
  | None => mret false
  | Some pkt => match Handle session pkt with Some m => m | None => crash BadFunctionCall end
  end.

(** [ClientPacketHandler::HandlePacket], with the packet [OnRecv] cut out. *)
Definition HandlePacket (GPacketHandler : table) (session : nat) (buffer : list byte) : M world bool :=
  let id := PacketSession.packet_id buffer in
  if UINT16_MAX <=? id then crash OutOfBounds
  else match GPacketHandler !! id with
  | None => crash BadFunctionCall
  | Some Handle_INVALD => mret false
  | Some (HandlePacketOf k) => HandlePacket_typed k session buffer
  end.

(** [ClientSession::OnRecvPacket]: the handler's result is dropped. *)
Definition OnRecvPacket (GPacketHandler : table) (session : nat) (buffer : list byte) : M world unit :=
  HandlePacket GPacketHandler session buffer;; mret tt.

(** What the sender framed is parsed to a message with the same values. *)
Lemma parse_packet i p :
  Msg.wf p → Msg.small p → Msg.utf8 p →
  ∃ p', Msg.ParseFromArray (Msg.kind_of p)
          (drop (Z.to_nat PacketSession.sizeof_PacketHeader) (PacketHandler.packet_of i (Msg.InternalSerialize p))) = Some p' ∧
        Msg.strip p' = Msg.strip p.
Proof.
  intros Hwf Hs Hu. change (drop _ (PacketHandler.packet_of i ?bs)) with bs.
  rewrite Msg.fields_ok, Msg.ParseFromArray_fields by (done || by apply Msg.wf_fields_ok || by apply Msg.known_ok).
  eexists. split; [done|]. by apply Msg.parse_ok.
Qed.

(** A respondent uses the values of the fields only. *)
Lemma Handle_strip session p q : Msg.strip p = Msg.strip q → Handle session p = Handle session q.
Proof.
  intros E. destruct p, q; simpl in E; try discriminate E; cbn [Handle];
    (try (injection E; clear E; intros)); subst;
    repeat match goal with H : _ = _ |- _ => rewrite ?H; clear H end; reflexivity.
Qed.

(** The packet of a client message runs the respondent of its class. *)
Lemma dispatch_run session p :
  Msg.kind_of p ∈ client_kinds → Msg.wf p → Msg.small p → Msg.utf8 p →
  ∃ m, Handle session p = Some m ∧
    HandlePacket (Init ∅) session
      (PacketHandler.packet_of (Msg.pkt_id (Msg.kind_of p)) (Msg.InternalSerialize p)) = m.
Proof.
  intros Hk Hwf Hs Hu.
  assert (0 ≤ Msg.pkt_id (Msg.kind_of p) < UINT16_MAX) by (by destruct p).
  unfold HandlePacket. rewrite PacketHandler.packet_of_id by (unfold UINT16_MAX in *; lia).
  case_test; [lia|]. unfold Init. rewrite register_lookup by done. unfold HandlePacket_typed.
  destruct (parse_packet (Msg.pkt_id (Msg.kind_of p)) p Hwf Hs Hu) as (p' & -> & Hp').
  rewrite (Handle_strip session p' p Hp').
  destruct p; simpl in *; try (eexists; split; reflexivity);
    exfalso; unfold client_kinds in Hk; set_solver.
Qed.

(** A client's packet reaches its respondent.  The packet that carries a
    client message is recognised by its id, parsed, and the job of its class
    runs with the values the client put in; the handler's result is true. *)
Theorem dispatch_runs_respondent session p :
  Msg.kind_of p ∈ client_kinds → Msg.wf p → Msg.small p → Msg.utf8 p →
  ∃ m, Handle session p = Some m ∧
    HandlePacket (Init ∅) session
      (PacketHandler.packet_of (Msg.pkt_id (Msg.kind_of p)) (Msg.InternalSerialize p)) = m.
Proof. apply dispatch_run. Qed.

(** Other packet ids.  Only id 0 was given [Handle_INVALD]: a packet with
    any other id that is not a client message calls an empty [std::function],
    and id 65535 is outside of the table; both stop the server. *)
Theorem dispatch_unknown_id_crashes session buffer x :
  PacketSession.packet_id buffer ≠ 0 →
  (∀ k, k ∈ client_kinds → PacketSession.packet_id buffer ≠ Msg.pkt_id k) →
  HandlePacket (Init ∅) session buffer x =
  Crash (if UINT16_MAX <=? PacketSession.packet_id buffer then OutOfBounds else BadFunctionCall).
Proof.
  intros H0 Hi. unfold HandlePacket. case_test; [done|].
  unfold Init. by rewrite register_other, Init_loop_max, lookup_insert_ne by done.
Qed.

(** Id 0 is [Handle_INVALD]'s, which only returns. *)
Lemma invalid_returns session buffer x :
  PacketSession.packet_id buffer = 0 → OnRecvPacket (Init ∅) session buffer x = Ret (tt, x).
Proof.
  intros H0. unfold OnRecvPacket, HandlePacket. rewrite H0. change (UINT16_MAX <=? 0) with false. cbn beta iota.
  unfold Init. rewrite register_other by (intros []; discriminate). rewrite Init_loop_max, lookup_insert_eq. done.
Qed.

(** C36: four zero bytes hang a worker thread of the server.  When the packets that came
    before them in the receive buffer are handled and return, [OnRecv] reads a header of
    size 0 and id 0; the handler of id 0 returns, and the loop goes on at the same place
    with the same header: no number of passes ends it. *)
Theorem zero_packet_hangs session ps rest x x' :
  Forall PacketSession.wf_packet ps → take 4 rest = [x00; x00; x00; x00] → zlen (concat ps ++ rest) < 2 ^ 31 →
  PacketSession.handle_packets (OnRecvPacket (Init ∅) session) ps x = Ret (tt, x') →
  ∀ fuel, PacketSession.OnRecv_loop (OnRecvPacket (Init ∅) session) fuel (concat ps ++ rest)
            (zlen (concat ps ++ rest)) 0 x = None.
Proof.
  intros Hps Hr Hb Hx. assert (∃ tl, rest = x00 :: x00 :: x00 :: x00 :: tl) as [tl ->].
  { destruct rest as [|b0 [|b1 [|b2 [|b3 tl]]]]; try discriminate Hr. injection Hr as -> -> -> ->. by exists tl. }
  apply (PacketSession.OnRecv_zero_size_diverges _ _ _ _ x'); try done.
  - rewrite !zlen_cons. pose proof (zlen_nonneg tl). lia.
  - intros y. exists y. by apply invalid_returns.
Qed.

End dispatch.
(** ** Witnesses *)

(** A packet of id 0 without contents, and then four zero bytes and one more. *)
Lemma zero_packet_hangs_witness :
  zlen [x04; x00; x00; x00; x00; x00; x00; x00; x2a] = 9 ∧
  ∀ fuel, PacketSession.OnRecv_loop (OnRecvPacket (WT := ascii_text) (P := Msg.reference_parser) (Init ∅) 7) fuel
    [x04; x00; x00; x00; x00; x00; x00; x00; x2a] 9 0 (mkWorld demo []) = None.
Proof.
  split; [reflexivity|]. apply (zero_packet_hangs (WT := ascii_text) (P := Msg.reference_parser) 7 [[x04; x00; x00; x00]] [x00; x00; x00; x00; x2a]
    (mkWorld demo []) (mkWorld demo [])).
  - repeat constructor; vm_compute; discriminate.
  - reflexivity.
  - vm_compute. reflexivity.
  - change (PacketSession.handle_packets ?cb [?p]) with (cb p;; mret tt).
    rewrite (M_bind_step _ _ _ tt (mkWorld demo [])); [reflexivity|]. by apply invalid_returns.
Defined.

Definition line : Msg.t := Msg.C_CHAT_LOG (C_CHAT_LOG.set_log secret (C_CHAT_LOG.set_id amy C_CHAT_LOG.new)).

Lemma dispatch_runs_respondent_witness :
  ∃ m, Handle (D := mem) (WT := ascii_text) 7 line = Some m ∧
    HandlePacket (WT := ascii_text) (P := Msg.reference_parser) (Init ∅) 7
      (PacketHandler.packet_of 1011 (Msg.InternalSerialize line)) = m.
Proof.
  apply (dispatch_runs_respondent (D := mem) (WT := ascii_text) (P := Msg.reference_parser) 7 line).
  - unfold client_kinds. simpl. set_solver.
  - split_and!; done.
  - split_and!; done.
  - split_and!; reflexivity.
Defined.

Lemma dispatch_unknown_id_crashes_witness :
  HandlePacket (WT := ascii_text) (P := Msg.reference_parser) (Init ∅) 7 [x04; x00; x05; x00]
    (mkWorld demo []) = Crash BadFunctionCall.
Proof.
  apply (dispatch_unknown_id_crashes (WT := ascii_text) (P := Msg.reference_parser) 7
    [x04; x00; x05; x00] (mkWorld demo [])).
  - discriminate.
  - intros k _. by destruct k.
Defined.

End Dispatch.
