(* ===== verification/ChatRefine.v ===== *)
(** * ChatRefine: the server implements the service of ChatSpec
      (Server/ClientPacketHandler.h, AuthRespondent.h, LobbyRespondent.h, RoomRepondent.h,
       RoomHandler.cpp, ClientSession.cpp)

    [represents] relates the server's store, with its room objects, room ids,
    counters, tables and pool, to a state of the abstract service.  For every
    event that [ChatSpec.allowed] admits, the handler of the server returns, what
    it sends is an answer of the service, and the states stay related. *)

From S2P Require Import Prelude PacketHandler Wire Protocol Database ChatDb ChatServer ChatAuth ChatRooms ChatFlow ChatSpec Dispatch.
#[local] Open Scope Z_scope.

Module ChatRefine.
Import Wire DBConnection ChatServer ChatRooms ChatFlow ChatSpec.

Section refine.
Context {D : Type} `{!Odbc D} {WT : WinText} {WL : WinTextLen} `{!ChatDb D}.
Implicit Types (A : gmap wstr account) (R : gmap Z room_row) (Hd : gmap Z nat)
  (hp : gmap nat Room) (S : gmap nat ClientSession).

(** ** The relation *)

Definition r_key (row : room_row) : wstr := collate (r_name row).

(** The room of an account, by name. *)
Definition place_in R (o : option Z) : option wstr := i ← o; r_key <$> R !! i.

Definition abs_user R (a : account) : user :=
  mkUser (a_id a) (a_password a) (bool_decide (a_online a ≠ 0)) (place_in R (a_room a)).

Definition is_room Hd hp R (i : Z) (p : nat) (r : Room) (row : room_row) : Prop :=
  Hd !! i = Some p ∧ hp !! p = Some r ∧ R !! i = Some row.

Definition abs_rooms Hd hp R (rms : gmap wstr chatroom) : Prop :=
  ∀ n rm, rms !! n = Some rm ↔
    ∃ i p r row, is_room Hd hp R i p r row ∧ r_key row = n ∧ rm = mkChatroom (r_name row) (_users r).

Record rep A R Hd hp S (c : chat) : Prop := {
  rp_fk : ∀ k i, member A k i → is_Some (R !! i);
  rp_seats : ∀ sid k p, S !! sid = Some k → _room k = Some p →
    ∃ i r row, is_room Hd hp R i p r row ∧ _users r !! _id k = Some sid;
  rp_registered : registered c = abs_user R <$> A;
  rp_rooms : abs_rooms Hd hp R (open_rooms c);
  rp_connected : ∀ sid id, connected c !! sid = Some id → ∃ k, S !! sid = Some k ∧ _id k = id;
  rp_present : ∀ i p r row u sid,
    is_room Hd hp R i p r row → _users r !! u = Some sid → connected c !! sid = Some u
}.

Definition represents (s : st D) (c : chat) : Prop :=
  server_inv s ∧ rep (accts s) (db_rooms s) (_rooms s) (heap s) (sessions s) c.

(** ** Accounts *)

Lemma abs_user_ext R R' (a : account) :
  (∀ j, a_room a = Some j → r_key <$> R' !! j = r_key <$> R !! j) → abs_user R' a = abs_user R a.
Proof. intros H. unfold abs_user, place_in. f_equal. destruct (a_room a); simpl; auto. Qed.

Lemma abs_move A R R' k o n :
  (∀ k' a j, k' ≠ k → A !! k' = Some a → a_room a = Some j → r_key <$> R' !! j = r_key <$> R !! j) →
  place_in R' o = n →
  abs_user R' <$> alter (with_room o) k A = alter (set_place n) k (abs_user R <$> A).
Proof.
  intros HR <-. apply map_eq. intros k'. rewrite lookup_fmap. destruct (decide (k' = k)) as [->|Hne].
  - rewrite !lookup_alter_eq, lookup_fmap. by destruct (A !! k).
  - rewrite !lookup_alter_ne, lookup_fmap by done. destruct (A !! k') as [a|] eqn:Ha; [|done]. simpl. f_equal.
    apply abs_user_ext. eauto.
Qed.

Lemma abs_online A R k o :
  abs_user R <$> alter (with_online o) k A = alter (set_online (bool_decide (o ≠ 0))) k (abs_user R <$> A).
Proof.
  apply map_eq. intros k'. rewrite lookup_fmap. destruct (decide (k' = k)) as [->|Hne].
  - rewrite !lookup_alter_eq, lookup_fmap. by destruct (A !! k).
  - by rewrite !lookup_alter_ne, lookup_fmap by done.
Qed.

Lemma key_alter R i j z : r_key <$> alter (add_count z) i R !! j = r_key <$> R !! j.
Proof.
  destruct (decide (j = i)) as [->|]; [rewrite lookup_alter_eq|by rewrite lookup_alter_ne].
  by destruct (R !! i).
Qed.

(** ** Rooms *)

Lemma is_room_key A R Hd hp S nx i p r row j q r' row' :
  lobby_inv A R Hd hp S nx → is_room Hd hp R i p r row → is_room Hd hp R j q r' row' →
  r_key row = r_key row' → i = j ∧ p = q ∧ r = r' ∧ row = row'.
Proof.
  intros Hinv (H1 & H2 & H3) (H4 & H5 & H6) E.
  assert (i = j) as <- by by eapply (li_names _ _ _ _ _ _ Hinv). split_and!; congruence.
Qed.

(** The rooms after one was opened, changed, closed. *)
Lemma is_room_new A R Hd hp S nx i p r row j q rj rowj :
  lobby_inv A R Hd hp S nx → R !! i = None → hp !! p = None →
  is_room (<[i := p]> Hd) (<[p := r]> hp) (<[i := row]> R) j q rj rowj ↔
  (j = i ∧ q = p ∧ rj = r ∧ rowj = row) ∨ (j ≠ i ∧ is_room Hd hp R j q rj rowj).
Proof.
  intros Hinv HR Hp. unfold is_room. destruct (decide (j = i)) as [->|Hne].
  - rewrite (lookup_insert_eq Hd), (lookup_insert_eq R). split; [|intros [(_ & -> & -> & ->)|[? _]]; [by rewrite lookup_insert_eq|done]].
    intros ([= <-] & Hq & [= <-]). rewrite lookup_insert_eq in Hq. injection Hq as <-. by left.
  - rewrite (lookup_insert_ne Hd), (lookup_insert_ne R) by done. split.
    + intros (Hj & Hq & Hrow). right. destruct (li_rooms _ _ _ _ _ _ Hinv j q Hj) as (r0 & ? & Hq0 & _).
      rewrite lookup_insert_ne in Hq by congruence. by split_and!.
    + intros [(? & _)|(_ & Hj & Hq & Hrow)]; [done|]. rewrite lookup_insert_ne by congruence. done.
Qed.

Lemma is_room_changed A R Hd hp S nx i p r row r' z j q rj rowj :
  lobby_inv A R Hd hp S nx → is_room Hd hp R i p r row →
  is_room Hd (<[p := r']> hp) (alter (add_count z) i R) j q rj rowj ↔
  (j = i ∧ q = p ∧ rj = r' ∧ rowj = add_count z row) ∨ (j ≠ i ∧ is_room Hd hp R j q rj rowj).
Proof.
  intros Hinv (Hi & Hp & Hrow). unfold is_room. destruct (decide (j = i)) as [->|Hne].
  - rewrite Hi, lookup_alter_eq, Hrow. split; [|intros [(_ & -> & -> & ->)|[? _]]; [by rewrite lookup_insert_eq|done]].
    intros ([= <-] & Hq & [= <-]). rewrite lookup_insert_eq in Hq. injection Hq as <-. by left.
  - rewrite lookup_alter_ne by done. assert (Hd !! j = Some q → p ≠ q) as Hpq.
    { intros Hj <-. by eapply Hne, room_pointers. }
    split; [|intros [(? & _)|(_ & Hj & ? & ?)]; [done|]; by rewrite lookup_insert_ne by auto].
    intros (Hj & Hq & ?). rewrite lookup_insert_ne in Hq by auto. by right.
Qed.

Lemma is_room_closed A R Hd hp S nx i p r row r' j q rj rowj :
  lobby_inv A R Hd hp S nx → is_room Hd hp R i p r row →
  is_room (delete i Hd) (<[p := r']> hp) (delete i R) j q rj rowj ↔ j ≠ i ∧ is_room Hd hp R j q rj rowj.
Proof.
  intros Hinv (Hi & Hp & Hrow). unfold is_room. rewrite !lookup_delete_Some.
  destruct (decide (j = i)) as [->|Hne]; [naive_solver|]. assert (Hd !! j = Some q → p ≠ q) as Hpq.
  { intros Hj <-. by eapply Hne, room_pointers. }
  split; [intros ([_ Hj] & Hq & _ & ?)|intros (_ & Hj & ? & ?)].
  - rewrite lookup_insert_ne in Hq by auto. done.
  - by rewrite lookup_insert_ne by auto.
Qed.

Lemma rooms_new A R Hd hp S nx i p r row rms :
  lobby_inv A R Hd hp S nx → R !! i = None → hp !! p = None → rms !! r_key row = None → abs_rooms Hd hp R rms →
  abs_rooms (<[i := p]> Hd) (<[p := r]> hp) (<[i := row]> R) (<[r_key row := mkChatroom (r_name row) (_users r)]> rms).
Proof.
  intros Hinv HR Hp Hn Habs n rm. rewrite lookup_insert_Some.
  setoid_rewrite (is_room_new _ _ _ _ _ _ i p r row _ _ _ _ Hinv HR Hp). split.
  - intros [[<- <-]|[Hne (j & q & r' & row' & Hr & <- & ->)%Habs]]; [exists i, p, r, row; naive_solver|].
    exists j, q, r', row'. split_and!; [right; split; [|done]|done..]. intros ->. destruct Hr as (_ & _ & Hrow). congruence.
  - intros (j & q & r' & row' & [(-> & -> & -> & ->)|[Hne Hr]] & <- & ->); [by left|right].
    assert (rms !! r_key row' = Some (mkChatroom (r_name row') (_users r'))) as E by (apply Habs; by exists j, q, r', row').
    split; [congruence|done].
Qed.

Lemma rooms_changed A R Hd hp S nx i p r row rms r' z :
  lobby_inv A R Hd hp S nx → is_room Hd hp R i p r row → abs_rooms Hd hp R rms →
  abs_rooms Hd (<[p := r']> hp) (alter (add_count z) i R) (<[r_key row := mkChatroom (r_name row) (_users r')]> rms).
Proof.
  intros Hinv Hr Habs n rm. rewrite lookup_insert_Some.
  setoid_rewrite (is_room_changed _ _ _ _ _ _ i p r row r' z _ _ _ _ Hinv Hr). split.
  - intros [[<- <-]|[Hne (j & q & rj & rowj & Hj & <- & ->)%Habs]].
    + exists i, p, r', (add_count z row). naive_solver.
    + exists j, q, rj, rowj. split_and!; [right; split; [|done]|done..]. intros ->. destruct Hr as (_ & _ & ?), Hj as (_ & _ & ?). congruence.
  - intros (j & q & rj & rowj & [(-> & -> & -> & ->)|[Hne Hj]] & <- & ->); [by left|right].
    split; [|apply Habs; by exists j, q, rj, rowj]. intros E. apply Hne.
    symmetry. by destruct (is_room_key _ _ _ _ _ _ _ _ _ _ _ _ _ _ Hinv Hr Hj E).
Qed.

Lemma rooms_closed A R Hd hp S nx i p r row rms r' :
  lobby_inv A R Hd hp S nx → is_room Hd hp R i p r row → abs_rooms Hd hp R rms →
  abs_rooms (delete i Hd) (<[p := r']> hp) (delete i R) (delete (r_key row) rms).
Proof.
  intros Hinv Hr Habs n rm. rewrite lookup_delete_Some.
  setoid_rewrite (is_room_closed _ _ _ _ _ _ i p r row r' _ _ _ _ Hinv Hr). split.
  - intros [Hne (j & q & rj & rowj & Hj & <- & ->)%Habs]. exists j, q, rj, rowj. split_and!; [|done..].
    intros ->. destruct Hr as (_ & _ & ?), Hj as (_ & _ & ?). congruence.
  - intros (j & q & rj & rowj & [Hne Hj] & <- & ->). split; [|apply Habs; by exists j, q, rj, rowj].
    intros E. apply Hne. symmetry. by destruct (is_room_key _ _ _ _ _ _ _ _ _ _ _ _ _ _ Hinv Hr Hj E).
Qed.

(** ** Who sits where *)

Lemma room_of_rep A R Hd hp S nx i p r row :
  lobby_inv A R Hd hp S nx → is_room Hd hp R i p r row → room_ok A S i p r row.
Proof.
  intros Hinv (Hi & Hp & Hrow). destruct (li_rooms _ _ _ _ _ _ Hinv i p Hi) as (r0 & row0 & Hp0 & Hrow0 & Hok).
  rewrite Hp in Hp0. rewrite Hrow in Hrow0. by simplify_eq.
Qed.

(** A session in no room is nobody's seat. *)
Lemma idle_session A R Hd hp S nx i p r row u sid sid' k :
  lobby_inv A R Hd hp S nx → is_room Hd hp R i p r row → _users r !! u = Some sid' →
  S !! sid = Some k → _room k = None → sid' ≠ sid.
Proof.
  intros Hinv Hr Hu Hs Hk ->. apply (ro_sessions _ _ _ _ _ _ (room_of_rep _ _ _ _ _ _ _ _ _ _ Hinv Hr)) in Hu.
  rewrite Hs in Hu. by simplify_eq.
Qed.

Lemma seat_of_room A R Hd hp S nx c i p r row u sid :
  lobby_inv A R Hd hp S nx → rep A R Hd hp S c → is_room Hd hp R i p r row → _users r !! u = Some sid →
  seat collate c sid = Some (r_key row, u, mkChatroom (r_name row) (_users r)).
Proof.
  intros Hinv Hrep Hr Hu. unfold seat. rewrite (rp_present _ _ _ _ _ _ Hrep _ _ _ _ _ _ Hr Hu). simpl.
  destruct (user_account _ _ _ _ _ _ u (room_of_rep _ _ _ _ _ _ _ _ _ _ Hinv Hr)) as (a & Ha & Hai); [eauto|].
  rewrite (rp_registered _ _ _ _ _ _ Hrep), lookup_fmap.
  change (tkey collate u) with (ukey u). rewrite Ha. simpl. rewrite Hai. simpl.
  pose proof Hr as (_ & _ & Hrow). rewrite Hrow. simpl.
  assert (open_rooms c !! r_key row = Some (mkChatroom (r_name row) (_users r))) as ->
    by (apply (rp_rooms _ _ _ _ _ _ Hrep); by exists i, p, r, row). simpl. by rewrite decide_True.
Qed.

Lemma seat_room A R Hd hp S c sid n id rm :
  rep A R Hd hp S c → seat collate c sid = Some (n, id, rm) →
  ∃ i p r row, is_room Hd hp R i p r row ∧ n = r_key row ∧ rm = mkChatroom (r_name row) (_users r) ∧
    _users r !! id = Some sid ∧ connected c !! sid = Some id.
Proof.
  intros Hrep. unfold seat. intros Hs.
  apply bind_Some in Hs as (id' & Hc & Hs). apply bind_Some in Hs as (u & Hu & Hs).
  apply bind_Some in Hs as (n' & Hn & Hs). apply bind_Some in Hs as (rm' & Hrm & Hs).
  case_decide as Hp; [|done]. simplify_eq.
  apply (rp_rooms _ _ _ _ _ _ Hrep) in Hrm as (i & p & r & row & Hr & <- & ->). by exists i, p, r, row.
Qed.

(** A session without a seat is in no room. *)
Lemma unseated A R Hd hp S nx c sid id :
  lobby_inv A R Hd hp S nx → rep A R Hd hp S c → connected c !! sid = Some id → seat collate c sid = None →
  S !! sid = Some (mkSession None id).
Proof.
  intros Hinv Hrep Hc Hn. destruct (rp_connected _ _ _ _ _ _ Hrep sid id Hc) as ([[p|] id'] & Hs & Hid); simpl in *; subst.
  - destruct (rp_seats _ _ _ _ _ _ Hrep _ _ _ Hs eq_refl) as (i & r & row & Hr & Hu).
    by rewrite (seat_of_room _ _ _ _ _ _ _ _ _ _ _ _ _ Hinv Hrep Hr Hu) in Hn.
  - done.
Qed.

Lemma lobby_unseated c sid id : in_the_lobby collate c sid id → seat collate c sid = None.
Proof.
  intros [Hc Hp]. unfold seat. rewrite Hc. simpl. destruct (registered c !! tkey collate id) as [u|]; [|done].
  simpl in *. by injection Hp as ->.
Qed.

Lemma in_lobby_of A R Hd hp S nx c sid id :
  lobby_inv A R Hd hp S nx → rep A R Hd hp S c → in_the_lobby collate c sid id →
  S !! sid = Some (mkSession None id) ∧ ∃ a, A !! ukey id = Some a ∧ a_room a = None.
Proof.
  intros Hinv Hrep Hl. pose proof Hl as [Hc Hp]. split; [eapply unseated; eauto using lobby_unseated|].
  rewrite (rp_registered _ _ _ _ _ _ Hrep), lookup_fmap in Hp. change (tkey collate id) with (ukey id) in Hp.
  destruct (A !! ukey id) as [a|] eqn:Ha; [|done]. exists a. split; [done|]. simpl in Hp.
  destruct (a_room a) as [i|] eqn:Hi; [|done]. simpl in Hp.
  destruct (rp_fk _ _ _ _ _ _ Hrep (ukey id) i) as [row Hrow]; [by exists a|]. by rewrite Hrow in Hp.
Qed.

(** ** Steps that move nobody *)

Lemma rep_accounts A A' R Hd hp S c :
  rep A R Hd hp S c → (∀ k i, member A' k i ↔ member A k i) →
  rep A' R Hd hp S (mkChat (abs_user R <$> A') (open_rooms c) (connected c)).
Proof. intros [H1 H2 H3 H4 H5 H6] HA. split; try done. intros k i Hm. eapply H1, HA, Hm. Qed.

(** Nobody sits on session [sid]. *)
Definition vacant Hd hp R (sid : nat) : Prop :=
  ∀ i p r row u, is_room Hd hp R i p r row → _users r !! u ≠ Some sid.

Lemma vacant_idle A R Hd hp S nx sid k :
  lobby_inv A R Hd hp S nx → S !! sid = Some k → _room k = None → vacant Hd hp R sid.
Proof. intros Hinv Hs Hk i p r row u Hr Hu. by eapply idle_session. Qed.

Lemma rep_session A R Hd hp S c sid id :
  rep A R Hd hp S c → vacant Hd hp R sid →
  rep A R Hd hp (<[sid := mkSession None id]> S) (on_connected <[sid := id]> c).
Proof.
  intros [H1 H2 H3 H4 H5 H6] Hv. split; try done; simpl.
  - intros x k p. rewrite lookup_insert_Some. intros [[<- <-]|[_ Hx]] Hk; [done|by eapply H2].
  - intros x u. rewrite lookup_insert_Some. intros [[<- <-]|[Hne Hx]].
    + eexists. by rewrite lookup_insert_eq.
    + rewrite lookup_insert_ne by done. by apply H5.
  - intros i p r row u x Hr Hu. rewrite lookup_insert_ne; [by eapply H6|]. intros <-. by eapply Hv.
Qed.

Lemma rep_gone A R Hd hp S c sid :
  rep A R Hd hp S c → vacant Hd hp R sid → rep A R Hd hp S (on_connected (delete sid) c).
Proof.
  intros [H1 H2 H3 H4 H5 H6] Hv. split; try done; simpl.
  - intros x u. rewrite lookup_delete_Some. intros [_ Hx]. by apply H5.
  - intros i p r row u x Hr Hu. rewrite lookup_delete_ne; [by eapply H6|]. intros <-. by eapply Hv.
Qed.

(** ** Steps that move a user *)

(** An account that moves into room [j], of name [n]. *)
Lemma enter_registered A R R' k j n :
  (∀ k' a i, k' ≠ k → A !! k' = Some a → a_room a = Some i → r_key <$> R' !! i = r_key <$> R !! i) →
  r_key <$> R' !! j = Some n →
  abs_user R' <$> alter (with_room (Some j)) k A = alter (set_place (Some n)) k (abs_user R <$> A).
Proof. intros H1 H2. by apply abs_move. Qed.

Lemma rep_create A R Hd hp S nx c i name sid id :
  lobby_inv A R Hd hp S nx → rep A R Hd hp S c →
  R !! i = None → open_rooms c !! collate name = None →
  S !! sid = Some (mkSession None id) → connected c !! sid = Some id →
  rep (alter (with_room (Some i)) (ukey id) A) (<[i := mkRow name 1]> R) (<[i := nx]> Hd)
    (<[nx := mkRoom i 1 {[id := sid]}]> hp) (<[sid := mkSession (Some nx) id]> S)
    (enter collate (collate name) id (mkChatroom name {[id := sid]}) c).
Proof.
  intros Hinv Hrep HR Hn Hs Hc. assert (hp !! nx = None) as Hnx by by apply (li_fresh _ _ _ _ _ _ Hinv).
  assert (∀ j q rj rowj, _ ↔ _) as Hroom
    by (intros; apply (is_room_new A R Hd hp S nx i nx (mkRoom i 1 {[id := sid]}) (mkRow name 1) j q rj rowj Hinv HR Hnx)).
  pose proof (vacant_idle _ _ _ _ _ _ _ _ Hinv Hs eq_refl) as Hv.
  destruct Hrep as [H1 H2 H3 H4 H5 H6]. split; simpl.
  - intros k j. rewrite member_alter, lookup_insert_is_Some. intros [(_ & _ & [= ->])|[_ Hm]]; [by left|].
    destruct (decide (i = j)); [by left|right]. split; [done|by eapply H1].
  - intros x k p. rewrite lookup_insert_Some. intros [[<- <-]|[_ Hx]] Hk.
    + injection Hk as <-. exists i, (mkRoom i 1 {[id := sid]}), (mkRow name 1). split; [apply Hroom; by left|]. apply lookup_singleton_eq.
    + destruct (H2 x k p Hx Hk) as (j & r & row & Hr & Hu). exists j, r, row. split; [|done]. apply Hroom. right. split; [|done].
      intros ->. destruct Hr as (_ & _ & ?). congruence.
  - rewrite H3. symmetry. apply enter_registered; [|by rewrite lookup_insert_eq].
    intros k' a j _ Ha Hj. rewrite lookup_insert_ne; [done|]. intros <-. destruct (H1 k' i) as [row Hrow]; [by exists a|congruence].
  - exact (rooms_new A R Hd hp S nx i nx (mkRoom i 1 {[id := sid]}) (mkRow name 1) _ Hinv HR Hnx Hn H4).
  - intros x u Hx. destruct (decide (x = sid)) as [->|Hne]; [|rewrite lookup_insert_ne by done; by apply H5].
    rewrite lookup_insert_eq. eexists. split; [done|]. simpl. congruence.
  - intros j q r row u x [(-> & -> & -> & ->)|[_ Hr]]%Hroom Hu; [|by eapply H6].
    simpl in Hu. by apply lookup_singleton_Some in Hu as [<- <-].
Qed.

Lemma rep_join A R Hd hp S nx c i p r row sid id :
  lobby_inv A R Hd hp S nx → rep A R Hd hp S c → is_room Hd hp R i p r row →
  S !! sid = Some (mkSession None id) → connected c !! sid = Some id → _users r !! id = None →
  rep (alter (with_room (Some i)) (ukey id) A) (alter (add_count 1) i R) Hd
    (<[p := mkRoom i (roomState r + 1) (<[id := sid]> (_users r))]> hp) (<[sid := mkSession (Some p) id]> S)
    (enter collate (r_key row) id (mkChatroom (r_name row) (<[id := sid]> (_users r))) c).
Proof.
  intros Hinv Hrep Hr Hs Hc Hnew. set (r' := mkRoom i (roomState r + 1) (<[id := sid]> (_users r))).
  assert (∀ j q rj rowj, _ ↔ _) as Hroom
    by (intros; apply (is_room_changed A R Hd hp S nx i p r row r' 1 j q rj rowj Hinv Hr)).
  pose proof Hr as (Hi & Hp & Hrow). pose proof Hrep as [H1 H2 H3 H4 H5 H6]. split; simpl.
  - intros k j. rewrite member_alter, lookup_alter_is_Some. intros [(_ & _ & [= ->])|[_ Hm]]; [by eexists|by eapply H1].
  - intros x k q. rewrite lookup_insert_Some. intros [[<- <-]|[Hne Hx]] Hk.
    + injection Hk as <-. exists i, r', (add_count 1 row). split; [apply Hroom; by left|]. apply lookup_insert_eq.
    + destruct (H2 x k q Hx Hk) as (j & rj & rowj & Hj & Hu). destruct (decide (j = i)) as [->|Hji].
      * assert (q = p ∧ rj = r ∧ rowj = row) as (-> & -> & ->) by (destruct Hj as (? & ? & ?); split_and!; congruence).
        exists i, r', (add_count 1 row). split; [apply Hroom; by left|]. simpl. rewrite lookup_insert_ne; [done|]. congruence.
      * exists j, rj, rowj. split; [|done]. apply Hroom. by right.
  - rewrite H3. symmetry. apply enter_registered; [intros; apply key_alter|]. by rewrite key_alter, Hrow.
  - exact (rooms_changed A R Hd hp S nx i p r row _ r' 1 Hinv Hr H4).
  - intros x u Hx. destruct (decide (x = sid)) as [->|Hne]; [|rewrite lookup_insert_ne by done; by apply H5].
    rewrite lookup_insert_eq. eexists. split; [done|]. simpl. congruence.
  - intros j q rj rowj u x [(-> & -> & -> & ->)|[_ Hj]]%Hroom Hu; [|by eapply H6].
    simpl in Hu. apply lookup_insert_Some in Hu as [[<- <-]|[_ Hu]]; [done|by eapply H6].
Qed.

(** Where the sessions sit that do not leave with [id]. *)
Lemma seat_kept A R Hd hp S c i p r row sid id x k q :
  rep A R Hd hp S c → is_room Hd hp R i p r row → _users r !! id = Some sid →
  S !! x = Some k → _room k = Some q → x ≠ sid →
  ∃ j rj rowj, is_room Hd hp R j q rj rowj ∧ _users rj !! _id k = Some x ∧ (j = i → q = p ∧ rj = r ∧ _id k ≠ id).
Proof.
  intros Hrep (Hr1 & Hr2 & _) Hu Hx Hk Hne. destruct (rp_seats _ _ _ _ _ _ Hrep x k q Hx Hk) as (j & rj & rowj & Hj & Hjx).
  exists j, rj, rowj. split_and!; [done..|]. intros ->. destruct Hj as (Hj1 & Hj2 & _).
  rewrite Hr1 in Hj1. injection Hj1 as <-. rewrite Hr2 in Hj2. injection Hj2 as <-. split_and!; [done..|]. congruence.
Qed.

(** The connections after [id] left. *)
Lemma connected_kept A R Hd hp S c i p r row sid id x u :
  rep A R Hd hp S c → is_room Hd hp R i p r row → _users r !! id = Some sid → connected c !! x = Some u →
  ∃ k, <[sid := mkSession None id]> S !! x = Some k ∧ _id k = u.
Proof.
  intros Hrep Hr Hu Hx. destruct (decide (x = sid)) as [->|Hne].
  - rewrite lookup_insert_eq. eexists. split; [done|]. rewrite (rp_present _ _ _ _ _ _ Hrep _ _ _ _ _ _ Hr Hu) in Hx. by injection Hx.
  - rewrite lookup_insert_ne by done. by apply (rp_connected _ _ _ _ _ _ Hrep).
Qed.

(** The last user leaves: the room is closed. *)
Lemma rep_leave_last A R Hd hp S nx c i p r row sid id state :
  lobby_inv A R Hd hp S nx → rep A R Hd hp S c → is_room Hd hp R i p r row → _users r !! id = Some sid →
  size (_users r) = 1%nat →
  rep (alter (with_room None) (ukey id) A) (delete i R) (delete i Hd)
    (<[p := mkRoom i state (delete id (_users r))]> hp) (<[sid := mkSession None id]> S)
    (leave collate (r_key row) id (mkChatroom (r_name row) (_users r)) c).
Proof.
  intros Hinv Hrep Hr Hu Hone. set (r' := mkRoom i state (delete id (_users r))).
  pose proof (room_of_rep _ _ _ _ _ _ _ _ _ _ Hinv Hr) as Hok.
  assert (∀ k, k ≠ ukey id → ¬ member A k i) as Hlast by (intros k Hk Hm; by eapply Hk, alone).
  assert (∀ j q rj rowj, _ ↔ _) as Hroom
    by (intros; apply (is_room_closed A R Hd hp S nx i p r row r' j q rj rowj Hinv Hr)).
  pose proof Hrep as [H1 H2 H3 H4 H5 H6]. unfold leave. simpl. rewrite decide_True by done. split; simpl.
  - intros k j. rewrite member_alter. intros [(_ & _ & ?)|[Hk Hm]]; [done|]. rewrite lookup_delete_ne; [by eapply H1|].
    intros <-. by eapply Hlast.
  - intros x k q. rewrite lookup_insert_Some. intros [[<- <-]|[Hne Hx]] Hk; [done|].
    destruct (seat_kept _ _ _ _ _ _ _ _ _ _ _ _ _ _ _ Hrep Hr Hu Hx Hk) as (j & rj & rowj & Hj & Hjx & Hji); [done|].
    exists j, rj, rowj. split; [|done]. apply Hroom. split; [|done]. intros ->. destruct (Hji eq_refl) as (-> & -> & Hid).
    eapply (Hlast (ukey (_id k))); [|eapply user_account; eauto]. intros E. apply Hid. eapply (ro_inj _ _ _ _ _ _ Hok); eauto.
  - rewrite H3. symmetry. apply abs_move; [|done]. intros k' a j Hk Ha Hj. rewrite lookup_delete_ne; [done|].
    intros <-. eapply Hlast; [done|by exists a].
  - exact (rooms_closed A R Hd hp S nx i p r row _ r' Hinv Hr H4).
  - intros x u. by eapply connected_kept.
  - intros j q rj rowj u x [Hne Hj]%Hroom Hx. by eapply H6.
Qed.

(** Others stay. *)
Lemma rep_leave A R Hd hp S nx c i p r row sid id state :
  lobby_inv A R Hd hp S nx → rep A R Hd hp S c → is_room Hd hp R i p r row → _users r !! id = Some sid →
  size (_users r) ≠ 1%nat →
  rep (alter (with_room None) (ukey id) A) (alter (add_count (-1)) i R) Hd
    (<[p := mkRoom i state (delete id (_users r))]> hp) (<[sid := mkSession None id]> S)
    (leave collate (r_key row) id (mkChatroom (r_name row) (_users r)) c).
Proof.
  intros Hinv Hrep Hr Hu Hone. set (r' := mkRoom i state (delete id (_users r))).
  assert (∀ j q rj rowj, _ ↔ _) as Hroom
    by (intros; apply (is_room_changed A R Hd hp S nx i p r row r' (-1) j q rj rowj Hinv Hr)).
  pose proof Hrep as [H1 H2 H3 H4 H5 H6]. unfold leave. simpl. rewrite decide_False by done. split; simpl.
  - intros k j. rewrite member_alter, lookup_alter_is_Some. intros [(_ & _ & ?)|[Hk Hm]]; [done|by eapply H1].
  - intros x k q. rewrite lookup_insert_Some. intros [[<- <-]|[Hne Hx]] Hk; [done|].
    destruct (seat_kept _ _ _ _ _ _ _ _ _ _ _ _ _ _ _ Hrep Hr Hu Hx Hk) as (j & rj & rowj & Hj & Hjx & Hji); [done|].
    destruct (decide (j = i)) as [->|Hne']; [|exists j, rj, rowj; split; [apply Hroom; by right|done]].
    destruct (Hji eq_refl) as (-> & -> & Hid). exists i, r', (add_count (-1) row). split; [apply Hroom; by left|].
    simpl. by rewrite lookup_delete_ne.
  - rewrite H3. symmetry. apply abs_move; [|done]. intros. apply key_alter.
  - exact (rooms_changed A R Hd hp S nx i p r row _ r' (-1) Hinv Hr H4).
  - intros x u. by eapply connected_kept.
  - intros j q rj rowj u x [(-> & -> & -> & ->)|[_ Hj]]%Hroom Hx; [|by eapply H6].
    simpl in Hx. apply lookup_delete_Some in Hx as [_ Hx]. by eapply H6.
Qed.

(** ** Lists of users and of rooms *)

Lemma omap_lookup_pairs {K V W} `{Countable K} (m : gmap K V) (f : V → W) (l : list (K * V)) :
  (∀ k v, (k, v) ∈ l → m !! k = Some v) → omap (λ k, f <$> m !! k) l.*1 = f <$> l.*2.
Proof.
  induction l as [|[k v] l IH]; intros Hl; [done|]. csimpl. rewrite (Hl k v) by left. simpl. f_equal.
  apply IH. intros k' v' Hin. apply Hl. by right.
Qed.

Lemma roster_members A R S i p r row c :
  room_ok A S i p r row → registered c = abs_user R <$> A →
  shown <$> members_of A i ≡ₚ roster collate c (_users r).
Proof.
  intros Hok Hreg. unfold roster. rewrite Hreg.
  set (L := map_to_list (filter (λ p : wstr * account, a_room p.2 = Some i) A)).
  assert (∀ k a, (k, a) ∈ L ↔ A !! k = Some a ∧ a_room a = Some i) as HL.
  { intros k a. unfold L. by rewrite elem_of_map_to_list, map_lookup_filter_Some. }
  transitivity (omap (λ k, shown <$> A !! k) (L.*1)).
  { rewrite omap_lookup_pairs; [done|]. intros k a Ha. by apply HL. }
  assert (L.*1 ≡ₚ ukey <$> (map_to_list (_users r)).*1) as ->.
  { apply NoDup_Permutation.
    - apply NoDup_fst_map_to_list.
    - apply NoDup_fmap_2_strong; [|apply NoDup_fst_map_to_list].
      intros u v ([? x] & -> & Hu%elem_of_map_to_list)%list_elem_of_fmap ([? y] & -> & Hv%elem_of_map_to_list)%list_elem_of_fmap E.
      eapply (ro_inj _ _ _ _ _ _ Hok); eauto.
    - intros k. transitivity (member A k i); [|rewrite (ro_members _ _ _ _ _ _ Hok)].
      + rewrite list_elem_of_fmap. split; [intros ([? a] & -> & Ha%HL); by exists a|].
        intros (a & Ha). exists (k, a). split; [done|]. by apply HL.
      + rewrite list_elem_of_fmap. split.
        * intros (u & [x Hu] & <-). exists u. split; [done|]. apply list_elem_of_fmap. exists (u, x). split; [done|].
          by apply elem_of_map_to_list.
        * intros (u & -> & ([? x] & -> & Hu%elem_of_map_to_list)%list_elem_of_fmap). eauto. }
  apply reflexive_eq. induction ((map_to_list (_users r)).*1) as [|u l IH]; [done|]. csimpl. rewrite IH.
  change (tkey collate u) with (ukey u). rewrite lookup_fmap. by destruct (A !! ukey u).
Qed.

(** The rooms of the table are the open rooms. *)
Lemma room_list A R Hd hp S nx c :
  lobby_inv A R Hd hp S nx → rep A R Hd hp S c →
  (λ p, (shown_room p.2, r_count p.2)) <$> map_to_list R ≡ₚ
  (λ rm, (display (title rm), Z.of_nat (size (present rm)))) <$> (map_to_list (open_rooms c)).*2.
Proof.
  intros Hinv Hrep.
  set (room_of := λ e : Z * room_row, mkChatroom (r_name e.2) (default ∅ (_users <$> (Hd !! e.1 ≫= (hp !!.))))).
  assert (∀ i row, R !! i = Some row → ∃ p r, is_room Hd hp R i p r row ∧ room_of (i, row) = mkChatroom (r_name row) (_users r)) as Hof.
  { intros i row Hi. destruct (li_dom _ _ _ _ _ _ Hinv i) as [p Hp]; [eauto|].
    destruct (li_rooms _ _ _ _ _ _ Hinv i p Hp) as (r & row' & Hr & Hrow & _). exists p, r. split; [done|].
    unfold room_of. simpl. by rewrite Hp; simpl; rewrite Hr. }
  assert ((λ e, (r_key e.2, room_of e)) <$> map_to_list R ≡ₚ map_to_list (open_rooms c)) as HP.
  { apply NoDup_Permutation; [|apply NoDup_map_to_list|].
    - apply NoDup_fmap_2_strong; [|apply NoDup_map_to_list].
      intros [i ri] [j rj] Hi%elem_of_map_to_list Hj%elem_of_map_to_list [= E _ _]. simpl in E.
      assert (i = j) as <- by by eapply (li_names _ _ _ _ _ _ Hinv). congruence.
    - intros [n rm]. rewrite list_elem_of_fmap, elem_of_map_to_list, (rp_rooms _ _ _ _ _ _ Hrep n rm). split.
      + intros ([i row] & [= -> ->] & Hi%elem_of_map_to_list). destruct (Hof i row Hi) as (p & r & Hr & E).
        exists i, p, r, row. by rewrite E.
      + intros (i & p & r & row & Hr & <- & ->). exists (i, row). pose proof Hr as (H1 & H2 & H3).
        rewrite elem_of_map_to_list. split; [|done]. unfold room_of. simpl. by rewrite H1; simpl; rewrite H2. }
  rewrite <-HP, <-!list_fmap_compose. apply reflexive_eq. apply list_fmap_ext. intros k [i row] Hk.
  assert (R !! i = Some row) as Hi by (apply elem_of_map_to_list; by eapply list_elem_of_lookup_2).
  destruct (Hof i row Hi) as (p & r & Hr & E). unfold compose. cbn [snd fst].
  rewrite E. simpl. f_equal. apply (ro_count _ _ _ _ _ _ (room_of_rep _ _ _ _ _ _ _ _ _ _ Hinv Hr)).
Qed.

(** What a server represents is well seated. *)
Lemma represents_seated (s : st D) c : represents s c → seated_well collate c.
Proof.
  intros [[_ Hinv] Hrep]. split.
  - intros n rm (i & p & r & row & Hr & <- & ->)%(rp_rooms _ _ _ _ _ _ Hrep). simpl.
    pose proof (room_of_rep _ _ _ _ _ _ _ _ _ _ Hinv Hr) as Hok. split; [apply (ro_nonempty _ _ _ _ _ _ Hok)|].
    intros v sid Hv. split; [by eapply (rp_present _ _ _ _ _ _ Hrep)|].
    destruct (user_account _ _ _ _ _ _ v Hok ltac:(eauto)) as (a & Ha & Hai).
    rewrite (rp_registered _ _ _ _ _ _ Hrep), lookup_fmap. change (tkey collate v) with (ukey v). rewrite Ha. simpl.
    rewrite Hai. simpl. destruct Hr as (_ & _ & Hrow). by rewrite Hrow.
  - intros k u n Hk Hn. rewrite (rp_registered _ _ _ _ _ _ Hrep), lookup_fmap in Hk.
    apply fmap_Some in Hk as (a & Ha & ->). apply bind_Some in Hn as (i & Hai & Hi). apply fmap_Some in Hi as (row & Hrow & ->).
    destruct (li_dom _ _ _ _ _ _ Hinv i) as [p Hp]; [eauto|].
    destruct (li_rooms _ _ _ _ _ _ Hinv i p Hp) as (r & row' & Hr & Hrow' & Hok). rewrite Hrow in Hrow'. injection Hrow' as <-.
    destruct (proj1 (ro_members _ _ _ _ _ _ Hok k)) as (v & Hv & Hvk); [by exists a|].
    exists (mkChatroom (r_name row) (_users r)), v. split_and!; [|done|done]. apply (rp_rooms _ _ _ _ _ _ Hrep). by exists i, p, r, row.
Qed.

(** ** The handlers *)

(** Handler [m] does what the service does at event [e]. *)
Definition refines (s : st D) (c : chat) (e : event) (m : M (st D) unit) : Prop :=
  ∃ s' out, m s = Ret (tt, s') ∧ represents s' (next collate e c) ∧ answers collate c e out ∧ sent s' = sent s ++ out.

(** The server makes the object of an accepted connection. *)
Definition new_ClientSession (sid : nat) : M (st D) unit := set_session sid (mkSession None []).

Lemma accept_refines s c sid :
  represents s c → connected c !! sid = None → refines s c (Accepted sid) (new_ClientSession sid).
Proof.
  intros [[Hpool Hinv] Hrep] Hc. eexists _, []. split; [reflexivity|]. split; [|split; [done|by rewrite app_nil_r]].
  assert (vacant (_rooms s) (heap s) (db_rooms s) sid) as Hv.
  { intros i p r row u Hr Hu. apply (rp_present _ _ _ _ _ _ Hrep _ _ _ _ _ _ Hr) in Hu. congruence. }
  split; [split; [exact Hpool|]|by apply rep_session]. eapply lobby_inv_frame; [exact Hinv|done|].
  intros x k Hx [p Hp]. simpl. rewrite lookup_insert_ne; [done|]. intros <-.
  destruct (rp_seats _ _ _ _ _ _ Hrep _ _ _ Hx Hp) as (i & r & row & Hr & Hu). by eapply Hv.
Qed.

Lemma can_log_in_abs s c id pssd :
  represents s c → can_log_in collate c id pssd = ChatAuth.can_login s id pssd.
Proof.
  intros [_ Hrep]. unfold can_log_in, ChatAuth.can_login. rewrite (rp_registered _ _ _ _ _ _ Hrep), lookup_fmap.
  change (tkey collate ?u) with (ukey u). destruct (accts s !! ukey id) as [a|]; [|done]. simpl.
  unfold tkey. change (collate (text pssd)) with (ukey pssd).
  repeat case_bool_decide; simpl; naive_solver.
Qed.

Lemma login_refines s c sid m :
  represents s c → may_ask collate c sid (Msg.C_LOGIN m) →
  refines s c (Received sid (Msg.C_LOGIN m)) (C_LOGIN_job sid (C_LOGIN.id m) (C_LOGIN.pssd m)).
Proof.
  set (id := C_LOGIN.id m). set (pssd := C_LOGIN.pssd m). intros Hr ([id0 Hc] & Hn & Hsh). pose proof Hr as [[Hpool Hinv] Hrep].
  pose proof (unseated _ _ _ _ _ _ _ _ _ Hinv Hrep Hc Hn) as Hs.
  destruct (ChatAuth.login_run s sid id pssd _ Hpool Hs) as (s' & E & [L1 L2 L3 L4 L5 L6 L7 L8]);
    [by intros; apply ChatAuth.login_reply_size|].
  exists s', [(sid, ChatAuth.login_reply (ChatAuth.can_login s id pssd) id pssd)]. split; [exact E|].
  cbn [next request answers replies]. fold id pssd. rewrite (can_log_in_abs s c) by done. split; [|by split].
  split; [split; [exact L1|]|]; rewrite L3, L4, L5, L6, L7, ?L8; destruct (ChatAuth.can_login s id pssd); try done.
  - eapply lobby_inv_frame; [exact Hinv|intros; apply member_online|]. intros x k Hx [p Hp]. rewrite lookup_insert_ne; [done|].
    intros <-. rewrite Hs in Hx. injection Hx as <-. done.
  - pose proof (rep_accounts _ _ _ _ _ _ _ Hrep (λ k i, member_online (accts s) (ukey id) k i 1)) as Hrep1.
    rewrite abs_online, <-(rp_registered _ _ _ _ _ _ Hrep) in Hrep1. apply (rep_session _ _ _ _ _ _ sid id) in Hrep1; [exact Hrep1|].
    by eapply vacant_idle.
Qed.

Lemma member_new (A : gmap wstr account) k a k' i :
  A !! k = None → a_room a = None → member (<[k := a]> A) k' i ↔ member A k' i.
Proof.
  intros Hk Ha. unfold member. destruct (decide (k' = k)) as [->|]; [|by rewrite lookup_insert_ne].
  rewrite lookup_insert_eq, Hk. naive_solver.
Qed.

Lemma register_refines s c sid m :
  represents s c → may_ask collate c sid (Msg.C_REGISTER m) →
  refines s c (Received sid (Msg.C_REGISTER m)) (C_REGISTER_job sid (C_REGISTER.id m) (C_REGISTER.pssd m)).
Proof.
  set (id := C_REGISTER.id m). set (pssd := C_REGISTER.pssd m). intros [[Hpool Hinv] Hrep] (Hsh & Hid & Hpw).
  destruct (ChatAuth.register_run s sid id pssd Hpool Hsh Hid Hpw) as (s' & E & [L1 L2 L3 L4 L5 L6 L7 L8]).
  exists s', [(sid, ChatAuth.register_reply (bool_decide (accts s !! ukey id = None)) id pssd)]. split; [exact E|].
  cbn [next request answers replies]. fold id pssd. rewrite (rp_registered _ _ _ _ _ _ Hrep), lookup_fmap.
  change (tkey collate id) with (ukey id).
  destruct (accts s !! ukey id) as [a|] eqn:Ha.
  - rewrite bool_decide_eq_false_2 in L2, L3 |- * by done. simpl. split; [|by split].
    split; [split; [exact L1|]|]; rewrite L3, L4, L5, L6, L7, ?L8; done.
  - rewrite bool_decide_eq_true_2 in L2, L3 |- * by done. simpl. split; [|by split].
    assert (∀ k i, _ ↔ _) as Hm by (intros; by apply (member_new (accts s) (ukey id) (mkAccount (w id) (w pssd) 0 None) k i)).
    split; [split; [exact L1|]|]; rewrite L3, L4, L5, L6, L7, ?L8; [by eapply lobby_inv_frame|].
    pose proof (rep_accounts _ _ _ _ _ _ _ Hrep Hm) as Hrep1. rewrite fmap_insert, <-(rp_registered _ _ _ _ _ _ Hrep) in Hrep1. done.
Qed.

Lemma lobby_refines s c sid :
  represents s c → may_ask collate c sid Msg.C_REFRESH_LOBBY →
  refines s c (Received sid Msg.C_REFRESH_LOBBY) (C_REFRESH_LOBBY_job sid).
Proof.
  intros [Hsi Hrep] Hsz. pose proof (room_list _ _ _ _ _ _ _ (proj2 Hsi) Hrep) as Hl.
  assert (size (db_rooms s) = size (open_rooms c)) as Hsize.
  { apply Permutation_length in Hl. by rewrite !length_fmap, !length_map_to_list in Hl. }
  destruct (refresh_run s sid Hsi) as (s' & l & E & Hp & Hi & Hs & H1 & H2 & H3 & H4 & H5); [by rewrite Hsize|].
  exists s', [(sid, lobby_of l)]. split_and!; [exact E| |exists l; split; [by etrans|done]|done].
  split; [done|]. by rewrite H1, H2, H3, H4, H5.
Qed.

(** A reply and nothing else. *)
Lemma reply_refines s s' c e m sid pkt :
  represents s c → next collate e c = c → answers collate c e [(sid, pkt)] →
  m s = Ret (tt, s') → only_reply s s' sid pkt → refines s c e m.
Proof.
  intros [_ Hrep] Hn Ha E (Hi & Hs & H1 & H2 & H3 & H4 & H5). exists s', [(sid, pkt)]. rewrite Hn.
  split_and!; [exact E| |exact Ha|exact Hs]. split; [done|]. by rewrite H1, H2, H3, H4, H5.
Qed.

(** A name is free in the table when the service has no such room. *)
Lemma name_free_abs s c roomname :
  represents s c → open_rooms c !! tkey collate roomname = None ↔ name_free s roomname.
Proof.
  intros [Hsi Hrep]. split.
  - intros Hn j row Hj E. destruct (room_is_found s j row Hsi Hj) as (p & r & Hr & _).
    assert (open_rooms c !! r_key row = Some (mkChatroom (r_name row) (_users r))) as E2
      by (apply (rp_rooms _ _ _ _ _ _ Hrep); by exists j, p, r, row).
    unfold r_key in E2. rewrite E in E2. change (tkey collate roomname) with (ukey roomname) in Hn. congruence.
  - intros Hf. apply eq_None_not_Some. intros [rm (i & p & r & row & (_ & _ & Hrow) & E & _)%(rp_rooms _ _ _ _ _ _ Hrep)].
    by apply (Hf i row Hrow).
Qed.

Lemma create_refines s c sid m :
  represents s c → may_ask collate c sid (Msg.C_CREATE_ROOM m) →
  refines s c (Received sid (Msg.C_CREATE_ROOM m)) (C_CREATE_ROOM_job sid (C_CREATE_ROOM.id m) (C_CREATE_ROOM.roomname m)).
Proof.
  set (id := C_CREATE_ROOM.id m). set (n := C_CREATE_ROOM.roomname m). intros Hr (Hl & Hsz & Hlen). pose proof Hr as [Hsi Hrep].
  destruct (open_rooms c !! tkey collate n) as [rm|] eqn:En.
  - destruct (create_taken_run s sid id n Hsi) as (s' & E & H); [|done|].
    { rewrite <-(name_free_abs s c) by done. by rewrite En. }
    eapply reply_refines; [done| | |exact E|exact H]; cbn [next request answers replies]; fold n; rewrite En; [done|].
    by rewrite bool_decide_eq_false_2.
  - pose proof (proj2 Hsi) as Hinv. pose proof (in_lobby_of _ _ _ _ _ _ _ _ _ Hinv Hrep Hl) as Hin.
    destruct (create_run s sid id n Hsi Hin) as (s' & i & E & Hi & Hs & H1 & H2 & H3 & H4 & H5 & H6); [|done..|].
    { by apply (name_free_abs s c). }
    exists s', [(sid, create_reply true n)]. cbn [next request answers replies]. fold id n. rewrite En.
    split_and!; [exact E| |by rewrite bool_decide_eq_true_2|exact Hs]. split; [done|]. rewrite H1, H3, H4, H5, H6.
    apply rep_create; [done..|apply Hin|apply Hl].
Qed.

(** The list of users a statement answers with. *)
Lemma roster_room s c i p r row users :
  represents s c → is_room (_rooms s) (heap s) (db_rooms s) i p r row → _users r = users →
  shown <$> members_of (accts s) i ≡ₚ roster collate c users.
Proof.
  intros [[_ Hinv] Hrep] Hr <-. eapply roster_members; [by eapply room_of_rep|exact (rp_registered _ _ _ _ _ _ Hrep)].
Qed.

Lemma join_refines s c sid m :
  represents s c → may_ask collate c sid (Msg.C_JOIN_ROOM m) →
  refines s c (Received sid (Msg.C_JOIN_ROOM m)) (C_JOIN_ROOM_job sid (C_JOIN_ROOM.id m) (C_JOIN_ROOM.roomname m)).
Proof.
  cbn [may_ask]. set (id := C_JOIN_ROOM.id m). set (n := C_JOIN_ROOM.roomname m). intros Hr (Hl & Hsz). pose proof Hr as [Hsi Hrep].
  destruct (open_rooms c !! tkey collate n) as [rm|] eqn:En; simpl in Hsz.
  - pose proof (proj2 Hsi) as Hinv. pose proof (in_lobby_of _ _ _ _ _ _ _ _ _ Hinv Hrep Hl) as Hin.
    pose proof En as (i & p & r & row & Hroom & Hk & ->)%(rp_rooms _ _ _ _ _ _ Hrep). simpl in Hsz.
    pose proof (room_of_rep _ _ _ _ _ _ _ _ _ _ Hinv Hroom) as Hok.
    destruct (join_run s sid id n i p r row Hsi Hin Hroom Hk) as (s' & names & l & E & Hi & Hn & Hll & Hs & H1 & H2 & H3 & H4 & H5);
      [by rewrite (ro_state _ _ _ _ _ _ Hok)|].
    assert (_users r !! id = None) as Hnew.
    { apply eq_None_not_Some. intros (b & Hb & Hbi)%(user_account _ _ _ _ _ _ _ Hok). destruct Hin as [_ (a & Ha & Har)]. congruence. }
    assert (represents s' (next collate (Received sid (Msg.C_JOIN_ROOM m)) c)) as Hr'.
    { cbn [next request]. fold id n. rewrite En, <-Hk. split; [done|]. rewrite H1, H2, H3, H4, H5. simpl.
      apply (rep_join _ _ _ _ _ (next_room s)); [done..|apply Hin|apply Hl|done]. }
    exists s', (to_all l (refresh_of names) ++ [(sid, join_of true n names)]). split_and!; [exact E|exact Hr'| |exact Hs].
    cbn [answers replies]. fold id n. rewrite En. exists names, (to_all l (refresh_of names)).
    split_and!; [|by exists l|done]. rewrite Hn. destruct Hroom as (Q1 & Q2 & Q3).
    refine (roster_room s' _ i p (mkRoom i (roomState r + 1) (<[id := sid]> (_users r))) (add_count 1 row) _ Hr' _ eq_refl). rewrite H1, H3, H4.
    split_and!; [done|apply lookup_insert_eq|by rewrite lookup_alter_eq, Q3].
  - destruct (join_missing_run s sid id n Hsi) as (s' & E & H); [lia|by apply (name_free_abs s c)|].
    eapply reply_refines; [done| | |exact E|exact H]; cbn [next request answers replies]; fold n; by rewrite En.
Qed.

Lemma chat_refines s c sid m :
  represents s c → may_ask collate c sid (Msg.C_CHAT_LOG m) →
  refines s c (Received sid (Msg.C_CHAT_LOG m)) (C_CHAT_LOG_job sid (C_CHAT_LOG.id m) (C_CHAT_LOG.log m)).
Proof.
  intros [Hsi Hrep] ((n & rm & Hseat) & Hsz & Hlen).
  destruct (seat_room _ _ _ _ _ _ _ _ _ _ Hrep Hseat) as (i & p & r & row & Hroom & -> & -> & Hu & Hc).
  destruct (chat_run s sid (C_CHAT_LOG.id m) (C_CHAT_LOG.log m) i p r row Hsi Hroom) as (s' & E & Hi & Hs & H1 & H2 & H3 & H4 & H5 & _);
    [eauto|done..|].
  eexists s', _. split_and!; [exact E| | |exact Hs].
  - split; [done|]. by rewrite H1, H2, H3, H4, H5.
  - cbn [answers replies]. rewrite Hseat. by eexists.
Qed.

(** A departure, seen by the service; the leaver is sent [last]. *)
Lemma departed_farewell s s' c c' i p r row id sid out :
  represents s c → is_room (_rooms s) (heap s) (db_rooms s) i p r row → _users r !! id = Some sid →
  represents s' c' → departed s s' i r id out →
  (∃ state, heap s' = <[p := mkRoom i state (delete id (_users r))]> (heap s)) →
  ∃ l, farewell collate id (mkChatroom (r_name row) (_users r)) c' l ∧ sent s' = sent s ++ l ++ out.
Proof.
  intros Hr (Q1 & Q2 & Q3) Hu Hr' Hd [state Hh]. unfold departed, farewell in *. simpl. case_decide.
  - destruct Hd as (_ & _ & ->). by exists [].
  - destruct Hd as (names & Hn & Hro & Hdr & ->). eexists. split; [|done]. exists names. split; [|by eexists].
    rewrite Hn. refine (roster_room s' c' i p (mkRoom i state _) (add_count (-1) row) _ Hr' _ eq_refl). rewrite Hh, Hro, Hdr.
    split_and!; [done|apply lookup_insert_eq|by rewrite lookup_alter_eq, Q3].
Qed.

(** The state of the service after a departure. *)
Lemma departed_rep s s' c i p r row id sid out :
  represents s c → is_room (_rooms s) (heap s) (db_rooms s) i p r row → _users r !! id = Some sid →
  departed s s' i r id out →
  (∃ state, heap s' = <[p := mkRoom i state (delete id (_users r))]> (heap s)) →
  rep (alter (with_room None) (ukey id) (accts s)) (db_rooms s') (_rooms s') (heap s') (<[sid := mkSession None id]> (sessions s))
    (leave collate (r_key row) id (mkChatroom (r_name row) (_users r)) c).
Proof.
  intros [[_ Hinv] Hrep] Hroom Hu Hd [state Hh]. unfold departed in Hd. rewrite Hh. destruct (decide (size (_users r) = 1%nat)).
  - destruct Hd as (-> & -> & _). by eapply rep_leave_last.
  - destruct Hd as (names & _ & -> & -> & _). by eapply rep_leave.
Qed.

Lemma leave_refines s c sid m :
  represents s c → may_ask collate c sid (Msg.C_ROOM_OUT m) →
  refines s c (Received sid (Msg.C_ROOM_OUT m)) (C_ROOM_OUT_job sid (C_ROOM_OUT.id m)).
Proof.
  intros Hr (n & rm & Hseat & Hsz). pose proof Hr as [Hsi Hrep].
  destruct (seat_room _ _ _ _ _ _ _ _ _ _ Hrep Hseat) as (i & p & r & row & Hroom & -> & -> & Hu & Hc).
  pose proof (room_of_rep _ _ _ _ _ _ _ _ _ _ (proj2 Hsi) Hroom) as Hok.
  destruct (room_out_run s sid (C_ROOM_OUT.id m) i p r row Hsi Hroom Hu) as (s' & E & Hi & _ & Hd & [Hh Hs Ha]);
    [by rewrite (ro_state _ _ _ _ _ _ Hok)|].
  assert (represents s' (next collate (Received sid (Msg.C_ROOM_OUT m)) c)) as Hr'.
  { cbn [next request]. rewrite Hseat. split; [done|]. rewrite Ha, Hs. by eapply departed_rep. }
  destruct (departed_farewell _ _ _ _ _ _ _ _ _ _ _ Hr Hroom Hu Hr' Hd Hh) as (l & Hf & Hsent).
  eexists s', _. split_and!; [exact E|exact Hr'| |exact Hsent]. cbn [answers replies]. rewrite Hseat. by exists l.
Qed.

Lemma lost_refines s c sid :
  represents s c → allowed collate c (Lost sid) → refines s c (Lost sid) (OnDisconnected sid).
Proof.
  intros Hr ([id Hc] & Hsz). pose proof Hr as [Hsi Hrep]. pose proof (proj2 Hsi) as Hinv.
  destruct (seat collate c sid) as [[[n id'] rm]|] eqn:Hseat.
  - destruct (seat_room _ _ _ _ _ _ _ _ _ _ Hrep Hseat) as (i & p & r & row & Hroom & -> & -> & Hu & Hc').
    rewrite Hc in Hc'. injection Hc' as <-. pose proof (room_of_rep _ _ _ _ _ _ _ _ _ _ Hinv Hroom) as Hok.
    destruct (disconnect_leave_run s sid id i p r row Hsi Hroom Hu) as (s' & E & Hi & [Hse _] & Hd & _ & Ha & Hs & Hh);
      [by rewrite (ro_state _ _ _ _ _ _ Hok)|].
    assert (represents s' (next collate (Lost sid) c)) as Hr'.
    { cbn [next]. rewrite Hc, Hseat. split; [done|]. rewrite Ha, Hs.
      pose proof (departed_rep _ _ _ _ _ _ _ _ _ _ Hr Hroom Hu Hd Hh) as Hrep1.
      pose proof (rep_accounts _ _ _ _ _ _ _ Hrep1 (λ k j, member_online (alter (with_room None) (ukey id) (accts s)) (ukey id) k j 0)) as Hrep2.
      rewrite abs_online, <-(rp_registered _ _ _ _ _ _ Hrep1) in Hrep2. apply (rep_gone _ _ _ _ _ _ sid) in Hrep2; [exact Hrep2|].
      exact (vacant_idle _ _ _ _ _ _ _ _ (proj2 Hi) Hse eq_refl). }
    destruct (departed_farewell _ _ _ _ _ _ _ _ _ _ _ Hr Hroom Hu Hr' Hd Hh) as (l & Hf & Hsent).
    eexists s', l. split_and!; [exact E|exact Hr'| |by rewrite Hsent, app_nil_r]. cbn [answers]. by rewrite Hseat.
  - pose proof (unseated _ _ _ _ _ _ _ _ _ Hinv Hrep Hc Hseat) as Hs.
    destruct (ChatAuth.disconnect_run s sid _ (proj1 Hsi) Hs eq_refl) as (s' & E & L1 & L2 & L3 & L4 & L5 & L6 & L7 & L8).
    exists s', []. split_and!; [exact E| |cbn [answers]; by rewrite Hseat|by rewrite L2, app_nil_r].
    cbn [next]. rewrite Hc, Hseat. simpl in L3. split; [split; [exact L1|]|]; rewrite L3, L4, L5, L6, L7, ?L8.
    + eapply lobby_inv_frame; [exact Hinv|intros; apply member_online|done].
    + pose proof (rep_accounts _ _ _ _ _ _ _ Hrep (λ k i, member_online (accts s) (ukey id) k i 0)) as Hrep1.
      rewrite abs_online, <-(rp_registered _ _ _ _ _ _ Hrep) in Hrep1. apply (rep_gone _ _ _ _ _ _ sid) in Hrep1; [exact Hrep1|].
      by eapply vacant_idle.
Qed.

End refine.
End ChatRefine.
