(* ===== verification/Client.v ===== *)
(** * Client: the user interface's requests, responses and events
      (Client/UIEvent.h, Model.h, ContentsService.h, ServerPacketHandler.cpp, LoginHandler.cpp,
       LobbyHandler.cpp, RoomHandler.cpp, CommandMapper.cpp, CMainDialog.cpp, the pages,
       ServerSession.cpp)

    The client as a state: the three pages with their control texts, the
    response queues, the callbacks of [RequestService], the posted messages and
    the packets sent.  A callback posts one event, so it is that event.  A
    message box is modal: the handler that opened it continues when the user
    closes it, while posted messages are still dispatched; [boxes] are the open
    boxes, innermost first, with what their handler has left to do.  The
    handlers of packets run in network threads, those of events in the window's
    thread; each is one step.  [entered], [arrived] and [shown] are history:
    whether a login completed, the chat lines received, and those displayed.
    [MakeSendBuffer] is used through what [PacketHandler] proves of it.  The
    positions and sizes of the windows are not kept. *)

From stdpp Require Import functions.
From S2P Require Import Prelude LockQueue PacketHandler Wire Protocol Database.
#[local] Open Scope Z_scope.

Module Client.

(** [UIEvent]. *)
Inductive UIEvent : Type :=
| None_
| LoginClicked_Login | LoginCompleted_Login | LoginCompleted_Lobby
| RegisterClicked_Register | RegisterCompleted_Register | RegisterCompleted_Lobby
| CreateRoomClicked_Lobby | CreateRoomCompleted_Lobby | CreateRoomCompleted_Room
| JoinRoomClicked_Lobby | JoinRoomCompleted_Lobby | JoinRoomCompleted_Room
| RefreshClicked_Lobby | RefreshCompleted_Lobby
| SendChatClicked_Room | SendChatCompleted_Room
| LeaveRoomClicked_Room | LeaveRoomCompleted_Room | LeaveRoomCompleted_Lobby
| RefreshRoomCompleted.

#[global] Instance UIEvent_eq_dec : EqDecision UIEvent.
Proof. solve_decision. Defined.

(** A [CString]. *)
Definition CString : Type := wstr.

Record AuthData : Type := mkAuth { auth_isSuccess : bool; auth_id : CString; auth_pasd : CString }.
Record CreateRoomData : Type := mkCreate { create_isSuccess : bool; create_roomName : CString }.
Record JoinRoomData : Type := mkJoin { join_isSuccess : bool; join_roomName : CString; join_userIds : list CString }.
Record RefreshLobbyData : Type := mkLobby {
  lobby_isSuccess : bool; lobby_roomNames : list CString; lobby_userCounts : list Z
}.
Record RefreshRoomData : Type := mkUsers { users_userIds : list CString }.
Record ChatLogData : Type := mkChat { chat_id : CString; chat_log : CString }.
Definition RoomOutData : Type := unit.

(** The values of an empty queue; [PopAll] is not instantiated for structures. *)
#[global] Instance auth_item : Item AuthData := { T_default := mkAuth false [] []; truthy _ := true }.
#[global] Instance create_item : Item CreateRoomData := { T_default := mkCreate false []; truthy _ := true }.
#[global] Instance join_item : Item JoinRoomData := { T_default := mkJoin false [] []; truthy _ := true }.
#[global] Instance lobby_item : Item RefreshLobbyData := { T_default := mkLobby false [] []; truthy _ := true }.
#[global] Instance users_item : Item RefreshRoomData := { T_default := mkUsers []; truthy _ := true }.
#[global] Instance chat_item : Item ChatLogData := { T_default := mkChat [] []; truthy _ := true }.
#[global] Instance out_item : Item RoomOutData := { T_default := tt; truthy _ := true }.

(** The instances of [RequestService]. *)
Inductive model : Type :=
| AuthModel | CreateRoomModel | JoinRoomModel | RefreshLobbyModel | RefreshRoomModel | ChatLogModel | RoomOutModel.

#[global] Instance model_eq_dec : EqDecision model.
Proof. solve_decision. Defined.

(** The pages; a row of the room list is its name, users and capacity. *)
Record CPageLogin : Type := mkLogin { login_shown : bool; _id : CString; _pw : CString; _status : CString }.
Record CPageLobby : Type := mkLobbyPg {
  lobby_shown : bool;
  _me : CString;
  _rooms : list (CString * Z * Z);
  lobby_roomName : CString;
  _selectedRoomName : CString
}.
Record CPageRoom : Type := mkRoomPg {
  room_shown : bool;
  _chatLog : list CString;
  _users : list CString;
  _chatText : CString;
  room_roomName : CString
}.

(** An open message box, and what its handler does after it. *)
Inductive box : Type :=
| LoginFailed     (* AuthModel::Pop *)
| RegisterFailed  (* AuthModel::Pop *)
| Registered      (* nothing *)
| CreateFailed    (* CreateRoomModel::Pop *)
| JoinFailed.     (* JoinRoomModel::Pop *)

Record st : Type := mk {
  GServerSession : bool;
  loginPg : CPageLogin;
  lobbyPg : CPageLobby;
  roomPg : CPageRoom;
  q_auth : LockQueue.t AuthData;
  q_create : LockQueue.t CreateRoomData;
  q_join : LockQueue.t JoinRoomData;
  q_lobby : LockQueue.t RefreshLobbyData;
  q_users : LockQueue.t RefreshRoomData;
  q_chat : LockQueue.t ChatLogData;
  q_out : LockQueue.t RoomOutData;
  _callback : model → option UIEvent;
  posted : list UIEvent;
  boxes : list box;
  sent : list Msg.t;
  entered : bool;
  arrived : list ChatLogData;
  shown : list ChatLogData
}.

Definition set_GServerSession v s : st :=
    mk v (loginPg s) (lobbyPg s) (roomPg s) (q_auth s) (q_create s) (q_join s) (q_lobby s) (q_users s)
     (q_chat s) (q_out s) (_callback s) (posted s) (boxes s) (sent s) (entered s) (arrived s) (shown s).
Definition set_loginPg v s : st :=
    mk (GServerSession s) v (lobbyPg s) (roomPg s) (q_auth s) (q_create s) (q_join s) (q_lobby s)
     (q_users s) (q_chat s) (q_out s) (_callback s) (posted s) (boxes s) (sent s) (entered s) (arrived
     s) (shown s).
Definition set_lobbyPg v s : st :=
    mk (GServerSession s) (loginPg s) v (roomPg s) (q_auth s) (q_create s) (q_join s) (q_lobby s)
     (q_users s) (q_chat s) (q_out s) (_callback s) (posted s) (boxes s) (sent s) (entered s) (arrived
     s) (shown s).
Definition set_roomPg v s : st :=
    mk (GServerSession s) (loginPg s) (lobbyPg s) v (q_auth s) (q_create s) (q_join s) (q_lobby s)
     (q_users s) (q_chat s) (q_out s) (_callback s) (posted s) (boxes s) (sent s) (entered s) (arrived
     s) (shown s).
Definition set_q_auth v s : st :=
    mk (GServerSession s) (loginPg s) (lobbyPg s) (roomPg s) v (q_create s) (q_join s) (q_lobby s)
     (q_users s) (q_chat s) (q_out s) (_callback s) (posted s) (boxes s) (sent s) (entered s) (arrived
     s) (shown s).
Definition set_q_create v s : st :=
    mk (GServerSession s) (loginPg s) (lobbyPg s) (roomPg s) (q_auth s) v (q_join s) (q_lobby s)
     (q_users s) (q_chat s) (q_out s) (_callback s) (posted s) (boxes s) (sent s) (entered s) (arrived
     s) (shown s).
Definition set_q_join v s : st :=
    mk (GServerSession s) (loginPg s) (lobbyPg s) (roomPg s) (q_auth s) (q_create s) v (q_lobby s)
     (q_users s) (q_chat s) (q_out s) (_callback s) (posted s) (boxes s) (sent s) (entered s) (arrived
     s) (shown s).
Definition set_q_lobby v s : st :=
    mk (GServerSession s) (loginPg s) (lobbyPg s) (roomPg s) (q_auth s) (q_create s) (q_join s) v
     (q_users s) (q_chat s) (q_out s) (_callback s) (posted s) (boxes s) (sent s) (entered s) (arrived
     s) (shown s).
Definition set_q_users v s : st :=
    mk (GServerSession s) (loginPg s) (lobbyPg s) (roomPg s) (q_auth s) (q_create s) (q_join s) (q_lobby
     s) v (q_chat s) (q_out s) (_callback s) (posted s) (boxes s) (sent s) (entered s) (arrived s)
     (shown s).
Definition set_q_chat v s : st :=
    mk (GServerSession s) (loginPg s) (lobbyPg s) (roomPg s) (q_auth s) (q_create s) (q_join s) (q_lobby
     s) (q_users s) v (q_out s) (_callback s) (posted s) (boxes s) (sent s) (entered s) (arrived s)
     (shown s).
Definition set_q_out v s : st :=
    mk (GServerSession s) (loginPg s) (lobbyPg s) (roomPg s) (q_auth s) (q_create s) (q_join s) (q_lobby
     s) (q_users s) (q_chat s) v (_callback s) (posted s) (boxes s) (sent s) (entered s) (arrived s)
     (shown s).
Definition set__callback v s : st :=
    mk (GServerSession s) (loginPg s) (lobbyPg s) (roomPg s) (q_auth s) (q_create s) (q_join s) (q_lobby
     s) (q_users s) (q_chat s) (q_out s) v (posted s) (boxes s) (sent s) (entered s) (arrived s) (shown
     s).
Definition set_posted v s : st :=
    mk (GServerSession s) (loginPg s) (lobbyPg s) (roomPg s) (q_auth s) (q_create s) (q_join s) (q_lobby
     s) (q_users s) (q_chat s) (q_out s) (_callback s) v (boxes s) (sent s) (entered s) (arrived s)
     (shown s).
Definition set_boxes v s : st :=
    mk (GServerSession s) (loginPg s) (lobbyPg s) (roomPg s) (q_auth s) (q_create s) (q_join s) (q_lobby
     s) (q_users s) (q_chat s) (q_out s) (_callback s) (posted s) v (sent s) (entered s) (arrived s)
     (shown s).
Definition set_sent v s : st :=
    mk (GServerSession s) (loginPg s) (lobbyPg s) (roomPg s) (q_auth s) (q_create s) (q_join s) (q_lobby
     s) (q_users s) (q_chat s) (q_out s) (_callback s) (posted s) (boxes s) v (entered s) (arrived s)
     (shown s).
Definition set_entered v s : st :=
    mk (GServerSession s) (loginPg s) (lobbyPg s) (roomPg s) (q_auth s) (q_create s) (q_join s) (q_lobby
     s) (q_users s) (q_chat s) (q_out s) (_callback s) (posted s) (boxes s) (sent s) v (arrived s)
     (shown s).
Definition set_arrived v s : st :=
    mk (GServerSession s) (loginPg s) (lobbyPg s) (roomPg s) (q_auth s) (q_create s) (q_join s) (q_lobby
     s) (q_users s) (q_chat s) (q_out s) (_callback s) (posted s) (boxes s) (sent s) (entered s) v
     (shown s).
Definition set_shown v s : st :=
    mk (GServerSession s) (loginPg s) (lobbyPg s) (roomPg s) (q_auth s) (q_create s) (q_join s) (q_lobby
     s) (q_users s) (q_chat s) (q_out s) (_callback s) (posted s) (boxes s) (sent s) (entered s)
     (arrived s) v.

Definition set_loginPg' (f : CPageLogin → CPageLogin) s : st := set_loginPg (f (loginPg s)) s.
Definition set_lobbyPg' (f : CPageLobby → CPageLobby) s : st := set_lobbyPg (f (lobbyPg s)) s.
Definition set_roomPg' (f : CPageRoom → CPageRoom) s : st := set_roomPg (f (roomPg s)) s.

(** ** Pages *)

Definition ShowLogin (b : bool) (p : CPageLogin) : CPageLogin := mkLogin b (_id p) (_pw p) (_status p).
Definition ShowLobby (b : bool) (p : CPageLobby) : CPageLobby :=
  mkLobbyPg b (_me p) (_rooms p) (lobby_roomName p) (_selectedRoomName p).
Definition ShowRoom (b : bool) (p : CPageRoom) : CPageRoom :=
  mkRoomPg b (_chatLog p) (_users p) (_chatText p) (room_roomName p).

Definition SetMeText (name : CString) (p : CPageLobby) : CPageLobby :=
  mkLobbyPg (lobby_shown p) name (_rooms p) (lobby_roomName p) (_selectedRoomName p).
Definition ClearRooms (p : CPageLobby) : CPageLobby :=
  mkLobbyPg (lobby_shown p) (_me p) [] (lobby_roomName p) (_selectedRoomName p).
Definition AddRoomRow (roomName : CString) (cur max : Z) (p : CPageLobby) : CPageLobby :=
  mkLobbyPg (lobby_shown p) (_me p) (_rooms p ++ [(roomName, cur, max)]) (lobby_roomName p) (_selectedRoomName p).
Definition SetRoomName_lobby (name : CString) (p : CPageLobby) : CPageLobby :=
  mkLobbyPg (lobby_shown p) (_me p) (_rooms p) name (_selectedRoomName p).

Definition AddCharLine (line : CString) (p : CPageRoom) : CPageRoom :=
  mkRoomPg (room_shown p) (_chatLog p ++ [line]) (_users p) (_chatText p) (room_roomName p).
Definition ClearChatLines (p : CPageRoom) : CPageRoom :=
  mkRoomPg (room_shown p) [] (_users p) (_chatText p) (room_roomName p).
Definition ClearUsers (p : CPageRoom) : CPageRoom :=
  mkRoomPg (room_shown p) (_chatLog p) [] (_chatText p) (room_roomName p).
Definition SetRoomName_room (name : CString) (p : CPageRoom) : CPageRoom :=
  mkRoomPg (room_shown p) (_chatLog p) (_users p) (_chatText p) name.

Definition empty_str (c : CString) : bool := match c with [] => true | _ => false end.

(** A list box with the style [LBS_SORT], as the list of users in Client.rc:
    whether Windows sorts a text before another. *)
Class SortedListBox : Type := { sorts_before : CString → CString → bool }.

(** [LB_ADDSTRING]. *)
Fixpoint AddString `{SortedListBox} (x : CString) (l : list CString) : list CString :=
  match l with
  | [] => [x]
  | y :: l' => if sorts_before x y then x :: l else y :: AddString x l'
  end.

Section client.
Context {WT : WinText} {LB : SortedListBox}.

Definition AddUser (name : CString) (p : CPageRoom) : CPageRoom :=
  mkRoomPg (room_shown p) (_chatLog p) (AddString name (_users p)) (_chatText p) (room_roomName p).

(** [CA2W(s.c_str(), CP_UTF8)] and [CT2A(c, CP_UTF8)]. *)
Fixpoint c_str (s : str) : str :=
  match s with
  | [] => []
  | b :: s => if byte_val b =? 0 then [] else b :: c_str s
  end.
Definition CA2W (s : str) : CString := MultiByteToWideChar (c_str s).
Definition CT2A (c : CString) : str := WideCharToMultiByte (c_wstr c).

Definition PostMessage (ev : UIEvent) : M st unit := modify (λ s, set_posted (posted s ++ [ev]) s).
Definition AfxMessageBox (b : box) : M st unit := modify (λ s, set_boxes (b :: boxes s) s).
Definition page_login f : M st unit := modify (set_loginPg' f).
Definition page_lobby f : M st unit := modify (set_lobbyPg' f).
Definition page_room f : M st unit := modify (set_roomPg' f).

(** ** RequestService *)

Definition Subscribe (m : model) (callback : UIEvent) : M st unit :=
  modify (λ s, set__callback (<[m := Some callback]> (_callback s)) s).

(** [ServerPacketHandler::MakeSendBuffer], then [GServerSession->Send];
    [GServerSession] is null until the connection is established. *)
Definition Send (pkt : Msg.t) : M st unit :=
  if Msg.ByteSizeLong pkt <=? PacketHandler.max_message then
    s ← get;
    (if GServerSession s then modify (λ s, set_sent (sent s ++ [pkt]) s) else crash NullDeref)
  else crash (PacketHandler.send_fault (Msg.ByteSizeLong pkt)).

(** The constructor with a packet. *)
Definition RequestService (m : model) (pkt : Msg.t) (callback : UIEvent) : M st unit :=
  Subscribe m callback;; Send pkt.

Definition Execute (m : model) (isClear : bool) : M st unit :=
  s ← get;
  (match _callback s m with Some ev => PostMessage ev | None => mret tt end);;
  when isClear (modify (λ s, set__callback (<[m := None]> (_callback s)) s)).

(** ** ServerPacketHandler.cpp: constructing a model pushes its data *)

Definition Handle_S_LOGIN (pkt : S_LOGIN.t) : M st bool :=
  let data := mkAuth (S_LOGIN.issuccess pkt) (CA2W (S_LOGIN.id pkt)) (CA2W (S_LOGIN.pssd pkt)) in
  modify (λ s, set_q_auth (LockQueue.Push data (q_auth s)) s);;
  Execute AuthModel true;;
  mret true.

Definition Handle_S_REGISTER (pkt : S_REGISTER.t) : M st bool :=
  let data := mkAuth (S_REGISTER.issuccess pkt) (CA2W (S_REGISTER.id pkt)) (CA2W (S_REGISTER.pssd pkt)) in
  modify (λ s, set_q_auth (LockQueue.Push data (q_auth s)) s);;
  Execute AuthModel true;;
  mret true.

(** The loop over the room names; [usercounts().Get(i)] needs an [i]-th count. *)
Fixpoint lobby_rows (names : list str) (counts : list Z) : result (list CString * list Z) :=
  match names, counts with
  | [], _ => Ret ([], [])
  | _ :: _, [] => Crash OutOfBounds
  | n :: names, c :: counts =>
    '(ns, cs) ← lobby_rows names counts; Ret (CA2W n :: ns, i32 c :: cs)
  end.

Definition Handle_S_REFRESH_LOBBY (pkt : S_REFRESH_LOBBY.t) : M st bool :=
  '(ns, cs) ← lift (lobby_rows (S_REFRESH_LOBBY.roomnames pkt) (S_REFRESH_LOBBY.usercounts pkt));
  let data := mkLobby (S_REFRESH_LOBBY.issuccess pkt) ns cs in
  modify (λ s, set_q_lobby (LockQueue.Push data (q_lobby s)) s);;
  Execute RefreshLobbyModel true;;
  mret true.

Definition Handle_S_CREATE_ROOM (pkt : S_CREATE_ROOM.t) : M st bool :=
  let data := mkCreate (S_CREATE_ROOM.issuccess pkt) (CA2W (S_CREATE_ROOM.roomname pkt)) in
  modify (λ s, set_q_create (LockQueue.Push data (q_create s)) s);;
  Execute CreateRoomModel true;;
  mret true.

Definition Handle_S_JOIN_ROOM (pkt : S_JOIN_ROOM.t) : M st bool :=
  let data := mkJoin (S_JOIN_ROOM.issuccess pkt) (CA2W (S_JOIN_ROOM.roomname pkt)) (CA2W <$> S_JOIN_ROOM.userids pkt) in
  modify (λ s, set_q_join (LockQueue.Push data (q_join s)) s);;
  Execute JoinRoomModel true;;
  mret true.

Definition Handle_S_REFRESH_ROOM (pkt : S_REFRESH_ROOM.t) : M st bool :=
  let data := mkUsers (CA2W <$> S_REFRESH_ROOM.userids pkt) in
  modify (λ s, set_q_users (LockQueue.Push data (q_users s)) s);;
  Execute RefreshRoomModel false;;
  mret true.

Definition Handle_S_CHAT_LOG (pkt : S_CHAT_LOG.t) : M st bool :=
  let data := mkChat (CA2W (S_CHAT_LOG.id pkt)) (CA2W (S_CHAT_LOG.log pkt)) in
  modify (λ s, set_q_chat (LockQueue.Push data (q_chat s)) (set_arrived (arrived s ++ [data]) s));;
  Execute ChatLogModel false;;
  mret true.

Definition Handle_S_ROOM_OUT : M st bool :=
  modify (λ s, set_q_out (LockQueue.Push tt (q_out s)) s);;
  Execute RoomOutModel true;;
  mret true.

(** The handler [ServerPacketHandler] finds for a packet of the server. *)
Definition HandlePacket (pkt : Msg.t) : option (M st bool) :=
  match pkt with
  | Msg.S_LOGIN p => Some (Handle_S_LOGIN p)
  | Msg.S_REGISTER p => Some (Handle_S_REGISTER p)
  | Msg.S_REFRESH_LOBBY p => Some (Handle_S_REFRESH_LOBBY p)
  | Msg.S_CREATE_ROOM p => Some (Handle_S_CREATE_ROOM p)
  | Msg.S_JOIN_ROOM p => Some (Handle_S_JOIN_ROOM p)
  | Msg.S_REFRESH_ROOM p => Some (Handle_S_REFRESH_ROOM p)
  | Msg.S_CHAT_LOG p => Some (Handle_S_CHAT_LOG p)
  | Msg.S_ROOM_OUT => Some Handle_S_ROOM_OUT
  | _ => None
  end.

(** ** Queue access of the handlers: [Front] and [Pop] with [isEmpty] *)

Definition AuthFront : M st (AuthData * bool) := gets (λ s, LockQueue.Front (q_auth s)).
Definition AuthPop : M st (AuthData * bool) := λ s,
  let '(r, q) := LockQueue.Pop_out (q_auth s) in Ret (r, set_q_auth q s).
Definition CreateFront : M st (CreateRoomData * bool) := gets (λ s, LockQueue.Front (q_create s)).
Definition CreatePop : M st (CreateRoomData * bool) := λ s,
  let '(r, q) := LockQueue.Pop_out (q_create s) in Ret (r, set_q_create q s).
Definition JoinFront : M st (JoinRoomData * bool) := gets (λ s, LockQueue.Front (q_join s)).
Definition JoinPop : M st (JoinRoomData * bool) := λ s,
  let '(r, q) := LockQueue.Pop_out (q_join s) in Ret (r, set_q_join q s).
Definition LobbyPop : M st (RefreshLobbyData * bool) := λ s,
  let '(r, q) := LockQueue.Pop_out (q_lobby s) in Ret (r, set_q_lobby q s).
Definition UsersPop : M st (RefreshRoomData * bool) := λ s,
  let '(r, q) := LockQueue.Pop_out (q_users s) in Ret (r, set_q_users q s).
Definition ChatPop : M st (ChatLogData * bool) := λ s,
  let '(r, q) := LockQueue.Pop_out (q_chat s) in Ret (r, set_q_chat q s).

(** ** LoginHandler *)

Definition OnClickedLogin : M st unit :=
  s ← get;
  let pkt := C_LOGIN.set_pssd (CT2A (_pw (loginPg s))) (C_LOGIN.set_id (CT2A (_id (loginPg s))) C_LOGIN.new) in
  RequestService AuthModel (Msg.C_LOGIN pkt) LoginCompleted_Login.

Definition OnLoginCompleted_login : M st unit :=
  '(data, isEmpty) ← AuthFront;
  assert_crash (negb isEmpty);;
  if negb (auth_isSuccess data) then AfxMessageBox LoginFailed
  else
    page_login (ShowLogin false);;
    modify (set_entered true);;
    PostMessage LoginCompleted_Lobby.

Definition OnClickedRegister : M st unit :=
  s ← get;
  let pkt := C_REGISTER.set_pssd (CT2A (_pw (loginPg s)))
               (C_REGISTER.set_id (CT2A (_id (loginPg s))) C_REGISTER.new) in
  RequestService AuthModel (Msg.C_REGISTER pkt) RegisterCompleted_Register.

Definition OnRegisterCompleted : M st unit :=
  '(data, isEmpty) ← AuthFront;
  assert_crash (negb isEmpty);;
  if negb (auth_isSuccess data) then AfxMessageBox RegisterFailed
  else AuthPop;; AfxMessageBox Registered.

(** ** LobbyHandler *)

Definition refresh_request : M st unit :=
  RequestService RefreshLobbyModel Msg.C_REFRESH_LOBBY RefreshCompleted_Lobby.

Definition OnLoginCompleted_lobby : M st unit :=
  page_lobby (ShowLobby true);;
  '(data, isEmpty) ← AuthFront;
  when (negb isEmpty) (page_lobby (λ p, ClearRooms (SetMeText (auth_id data) p)));;
  refresh_request.

Definition OnRefreshClicked : M st unit := refresh_request.

(** [while (!data.roomNames.empty())]. *)
Fixpoint add_rooms (names : list CString) (counts : list Z) (p : CPageLobby) : CPageLobby :=
  match names, counts with
  | n :: names, c :: counts => add_rooms names counts (AddRoomRow n c 100 p)
  | _, _ => p
  end.

Definition OnRefreshCompleted_lobby : M st unit :=
  '(data, isEmpty) ← LobbyPop;
  assert_crash (negb isEmpty);;
  when (lobby_isSuccess data)
    (page_lobby (λ p, add_rooms (lobby_roomNames data) (lobby_userCounts data) (ClearRooms p))).

Definition OnCreateRoomClicked : M st unit :=
  s ← get;
  let pkt := C_CREATE_ROOM.set_id (CT2A (_me (lobbyPg s)))
               (C_CREATE_ROOM.set_roomname (CT2A (lobby_roomName (lobbyPg s))) C_CREATE_ROOM.new) in
  RequestService CreateRoomModel (Msg.C_CREATE_ROOM pkt) CreateRoomCompleted_Lobby.

Definition OnCreateRoomCompleted_lobby : M st unit :=
  '(data, isEmpty) ← CreateFront;
  assert_crash (negb isEmpty);;
  if negb (create_isSuccess data) then AfxMessageBox CreateFailed
  else
    page_lobby (λ p, ShowLobby false (SetRoomName_lobby (create_roomName data) p));;
    PostMessage CreateRoomCompleted_Room.

Definition OnJoinRoomClicked : M st unit :=
  s ← get;
  let pkt := C_JOIN_ROOM.set_id (CT2A (_me (lobbyPg s)))
               (C_JOIN_ROOM.set_roomname (CT2A (_selectedRoomName (lobbyPg s))) C_JOIN_ROOM.new) in
  RequestService JoinRoomModel (Msg.C_JOIN_ROOM pkt) JoinRoomCompleted_Lobby.

Definition OnJoinRoomCompleted_lobby : M st unit :=
  '(data, isEmpty) ← JoinFront;
  assert_crash (negb isEmpty);;
  if negb (join_isSuccess data) then AfxMessageBox JoinFailed
  else
    page_lobby (ShowLobby false);;
    PostMessage JoinRoomCompleted_Room.

Definition OnLeaveRoomCompleted_lobby : M st unit :=
  page_lobby (λ p, ClearRooms (ShowLobby true p));;
  '(data, isEmpty) ← AuthFront;
  assert_crash (negb isEmpty);;
  page_lobby (SetMeText (auth_id data));;
  refresh_request.

(** ** RoomHandler *)

Definition OnCreateRoomCompleted_room : M st unit :=
  '(data, _) ← CreatePop;
  page_room (λ p, ClearChatLines (ClearUsers (ShowRoom true (SetRoomName_room (create_roomName data) p))));;
  '(authData, isEmpty) ← AuthFront;
  assert_crash (negb isEmpty);;
  page_room (AddUser (auth_id authData)).

Definition add_users (ids : list CString) (p : CPageRoom) : CPageRoom := foldl (λ p id, AddUser id p) p ids.

Definition OnJoinRoomCompleted_room : M st unit :=
  '(data, _) ← JoinPop;
  page_room (λ p, add_users (join_userIds data) (ClearChatLines (ClearUsers (ShowRoom true p)))).

Definition OnSendChatClicked : M st unit :=
  '(data, isEmpty) ← AuthFront;
  assert_crash (negb isEmpty);;
  s ← get;
  let pkt := C_CHAT_LOG.set_log (CT2A (_chatText (roomPg s))) (C_CHAT_LOG.set_id (CT2A (auth_id data)) C_CHAT_LOG.new) in
  RequestService ChatLogModel (Msg.C_CHAT_LOG pkt) SendChatCompleted_Room.

(** ["%s : %s"]. *)
Definition bindLog (data : ChatLogData) : CString := c_wstr (chat_id data) ++ [32; 58; 32] ++ c_wstr (chat_log data).

Definition OnSendChatCompleted : M st unit :=
  '(data, isEmpty) ← ChatPop;
  assert_crash (negb isEmpty);;
  modify (λ s, set_shown (shown s ++ [data]) s);;
  page_room (AddCharLine (bindLog data)).

Definition OnRefreshCompleted_room : M st unit :=
  '(data, _) ← UsersPop;
  page_room (λ p, add_users (users_userIds data) (ClearUsers p)).

Definition OnLeaveRoomClicked : M st unit :=
  '(data, isEmpty) ← AuthFront;
  assert_crash (negb isEmpty);;
  s ← get;
  let pkt := C_ROOM_OUT.set_roomname (CT2A (room_roomName (roomPg s)))
               (C_ROOM_OUT.set_id (CT2A (auth_id data)) C_ROOM_OUT.new) in
  RequestService RoomOutModel (Msg.C_ROOM_OUT pkt) LeaveRoomCompleted_Room.

Definition OnLeaveRoomCompleted_room : M st unit :=
  page_room (λ p, ShowRoom false (ClearUsers (ClearChatLines p)));;
  PostMessage LeaveRoomCompleted_Lobby.

(** ** The event map and its dispatch *)

Inductive page : Type := PLogin | PLobby | PRoom.
Inductive handler : Type := HLogin | HLobby | HRoom.

#[global] Instance page_eq_dec : EqDecision page.
Proof. solve_decision. Defined.
#[global] Instance handler_eq_dec : EqDecision handler.
Proof. solve_decision. Defined.

(** [Execute] of a handler: a page of another type is ignored, an event the
    handler does not know is a [CRASH]. *)
Definition LoginHandler (ev : UIEvent) : M st unit :=
  match ev with
  | LoginClicked_Login => OnClickedLogin
  | LoginCompleted_Login => OnLoginCompleted_login
  | RegisterClicked_Register => OnClickedRegister
  | RegisterCompleted_Register => OnRegisterCompleted
  | _ => crash AssertCrash
  end.

Definition LobbyHandler (ev : UIEvent) : M st unit :=
  match ev with
  | LoginCompleted_Lobby => OnLoginCompleted_lobby
  | RefreshClicked_Lobby => OnRefreshClicked
  | RefreshCompleted_Lobby => OnRefreshCompleted_lobby
  | CreateRoomClicked_Lobby => OnCreateRoomClicked
  | CreateRoomCompleted_Lobby => OnCreateRoomCompleted_lobby
  | JoinRoomClicked_Lobby => OnJoinRoomClicked
  | JoinRoomCompleted_Lobby => OnJoinRoomCompleted_lobby
  | LeaveRoomCompleted_Lobby => OnLeaveRoomCompleted_lobby
  | _ => crash AssertCrash
  end.

Definition RoomHandler (ev : UIEvent) : M st unit :=
  match ev with
  | CreateRoomCompleted_Room => OnCreateRoomCompleted_room
  | JoinRoomCompleted_Room => OnJoinRoomCompleted_room
  | SendChatClicked_Room => OnSendChatClicked
  | SendChatCompleted_Room => OnSendChatCompleted
  | RefreshRoomCompleted => OnRefreshCompleted_room
  | LeaveRoomClicked_Room => OnLeaveRoomClicked
  | LeaveRoomCompleted_Room => OnLeaveRoomCompleted_room
  | _ => crash AssertCrash
  end.

Definition HandlerExecute (h : handler) (ev : UIEvent) (p : page) : M st unit :=
  match h, p with
  | HLogin, PLogin => LoginHandler ev
  | HLobby, PLobby => LobbyHandler ev
  | HRoom, PRoom => RoomHandler ev
  | _, _ => mret tt
  end.

(** [EventMapper::Mapping]: the assignments to the map. *)
Definition eventMap : list (UIEvent * (page * handler)) :=
  [(LoginClicked_Login, (PLogin, HLogin)); (LoginCompleted_Login, (PLogin, HLogin));
   (LoginCompleted_Lobby, (PLobby, HLobby));
   (RegisterClicked_Register, (PLogin, HLogin)); (RegisterCompleted_Register, (PLogin, HLogin));
   (CreateRoomClicked_Lobby, (PLobby, HLobby)); (CreateRoomCompleted_Lobby, (PLobby, HLobby));
   (CreateRoomCompleted_Room, (PRoom, HRoom));
   (JoinRoomClicked_Lobby, (PLobby, HLobby)); (JoinRoomCompleted_Lobby, (PLobby, HLobby));
   (JoinRoomCompleted_Room, (PRoom, HRoom));
   (RefreshClicked_Lobby, (PLobby, HLobby)); (RefreshCompleted_Lobby, (PLobby, HLobby));
   (SendChatClicked_Room, (PRoom, HRoom)); (SendChatCompleted_Room, (PRoom, HRoom));
   (RefreshRoomCompleted, (PRoom, HRoom));
   (LeaveRoomClicked_Room, (PRoom, HRoom)); (LeaveRoomCompleted_Room, (PRoom, HRoom));
   (LeaveRoomCompleted_Lobby, (PLobby, HLobby))].

Fixpoint find_event (ev : UIEvent) (l : list (UIEvent * (page * handler))) : option (page * handler) :=
  match l with
  | [] => None
  | (e, ph) :: l => if decide (e = ev) then Some ph else find_event ev l
  end.

(** [CMainDialog::OnUIEvent]. *)
Definition OnUIEvent (ev : UIEvent) : M st Z :=
  match find_event ev eventMap with
  | None => mret (-1)
  | Some (sender, h) => HandlerExecute h ev sender;; mret 0
  end.

(** ** The dialog's start and end *)

(** The pages after their [OnInitDialog]. *)
Definition CreateLogin : CPageLogin := mkLogin false [] [] (wlit "connected").
Definition CreateLobby : CPageLobby := SetMeText (wlit "Me : (none)") (mkLobbyPg false [] [] [] []).
Definition CreateRoom : CPageRoom := mkRoomPg false [] [] [] [].

(** [EventMapper::Mapping]: the pages, which [PlacePage] all shows, and the
    subscriptions. *)
Definition Mapping : M st unit :=
  page_login (λ _, CreateLogin);;
  page_lobby (λ _, CreateLobby);;
  page_room (λ _, CreateRoom);;
  page_login (ShowLogin true);;
  page_lobby (ShowLobby true);;
  page_room (ShowRoom true);;
  page_login (ShowLogin true);;
  page_lobby (ShowLobby false);;
  page_room (ShowRoom false);;
  Subscribe ChatLogModel SendChatCompleted_Room;;
  Subscribe RefreshRoomModel RefreshRoomCompleted.

Definition OnInitDialog : M st bool := Mapping;; mret true.

(** Before [OnInitDialog]. *)
Definition blank : st :=
  mk false (mkLogin false [] [] []) (mkLobbyPg false [] [] [] []) (mkRoomPg false [] [] [] [])
    [] [] [] [] [] [] [] (λ _, None) [] [] [] false [] [].

(** [mustDeleteSet] of [~CMainDialog]. *)
Definition mustDeleteSet : list (page + handler) :=
  remove_dups (flat_map (λ e, [inl e.2.1; inr e.2.2]) eventMap).

(** [ServerSession::OnConnected]. *)
Definition OnConnected : M st unit :=
  s ← get; when (negb (GServerSession s)) (modify (set_GServerSession true)).

(** ** Buttons; the texts of the controls and the selection are arguments *)

Inductive click : Type :=
| BtnLogin (id pw : CString) | BtnRegister (id pw : CString)
| BtnCreateRoom (roomName : CString) | BtnJoinRoom (selected : option nat) | BtnRefresh
| BtnSend (chatText : CString) | BtnLeave.

Definition OnBnClickedLogin (id pw : CString) : M st unit :=
  page_login (λ p, mkLogin (login_shown p) id pw (_status p));;
  if empty_str id || empty_str pw then mret tt else PostMessage LoginClicked_Login.

Definition OnBnClickedLegister (id pw : CString) : M st unit :=
  page_login (λ p, mkLogin (login_shown p) id pw (_status p));;
  if empty_str id || empty_str pw then mret tt else PostMessage RegisterClicked_Register.

Definition OnBnClickedCreateRoom (roomName : CString) : M st unit :=
  page_lobby (SetRoomName_lobby roomName);;
  if empty_str roomName then mret tt else PostMessage CreateRoomClicked_Lobby.

(** The row of the first selected item. *)
Definition GetSelectedRoomIndex (selected : option nat) : Z :=
  match selected with None => -1 | Some i => Z.of_nat i end.

Definition GetItemText (index : Z) (rooms : list (CString * Z * Z)) : CString :=
  match rooms !! Z.to_nat index with Some (n, _, _) => n | None => [] end.

Definition OnBnClickedJoinRoom (selected : option nat) : M st unit :=
  let index := GetSelectedRoomIndex selected in
  if index <? 0 then mret tt
  else
    page_lobby (λ p, mkLobbyPg (lobby_shown p) (_me p) (_rooms p) (lobby_roomName p) (GetItemText index (_rooms p)));;
    PostMessage JoinRoomClicked_Lobby.

Definition OnBnClickedRefresh : M st unit := PostMessage RefreshClicked_Lobby.

Definition OnBnClickedSend (chatText : CString) : M st unit :=
  page_room (λ p, mkRoomPg (room_shown p) (_chatLog p) (_users p) chatText (room_roomName p));;
  if empty_str chatText then mret tt else PostMessage SendChatClicked_Room.

Definition OnBnClickedLeave : M st unit := PostMessage LeaveRoomClicked_Room.

Definition OnClick (c : click) : M st unit :=
  match c with
  | BtnLogin id pw => OnBnClickedLogin id pw
  | BtnRegister id pw => OnBnClickedLegister id pw
  | BtnCreateRoom n => OnBnClickedCreateRoom n
  | BtnJoinRoom i => OnBnClickedJoinRoom i
  | BtnRefresh => OnBnClickedRefresh
  | BtnSend t => OnBnClickedSend t
  | BtnLeave => OnBnClickedLeave
  end.

(** The page a button is on is shown. *)
Definition on_shown_page (c : click) (s : st) : bool :=
  match c with
  | BtnLogin _ _ | BtnRegister _ _ => login_shown (loginPg s)
  | BtnCreateRoom _ | BtnJoinRoom _ | BtnRefresh => lobby_shown (lobbyPg s)
  | BtnSend _ | BtnLeave => room_shown (roomPg s)
  end.

(** The user closes the innermost box: its handler goes on. *)
Definition after_box (b : box) : M st unit :=
  match b with
  | LoginFailed | RegisterFailed => AuthPop;; mret tt
  | Registered => mret tt
  | CreateFailed => CreatePop;; mret tt
  | JoinFailed => JoinPop;; mret tt
  end.

(** What can happen to a client: the connection is established, a click while no
    box is open, a packet that was parsed to a message, the dispatch of the oldest
    message, a box is closed. *)
Inductive event : Type :=
| Connected
| Click (c : click)
| Packet (pkt : Msg.t)
| Message
| Dismiss.

(** [None] when the event cannot happen. *)
Definition handle (e : event) (s : st) : option (result st) :=
  match e with
  | Connected => Some ('(_, s') ← OnConnected s; Ret s')
  | Click c =>
    if on_shown_page c s && match boxes s with [] => true | _ => false end
    then Some ('(_, s') ← OnClick c s; Ret s') else None
  | Packet pkt =>
    Some (match HandlePacket pkt with
          | Some m => '(_, s') ← m s; Ret s'
          | None => Crash BadFunctionCall
          end)
  | Message =>
    match posted s with
    | ev :: rest => Some ('(_, s') ← OnUIEvent ev (set_posted rest s); Ret s')
    | [] => None
    end
  | Dismiss =>
    match boxes s with
    | b :: rest => Some ('(_, s') ← after_box b (set_boxes rest s); Ret s')
    | [] => None
    end
  end.

Fixpoint handle_all (es : list event) (s : st) : option (result st) :=
  match es with
  | [] => Some (Ret s)
  | e :: es =>
    match handle e s with
    | Some (Ret s') => handle_all es s'
    | r => r
    end
  end.

End client.
End Client.
