(* ===== verification/ClientProps.v ===== *)
(** * ClientProps: what the client does with any sequence of events

    The invariant of the client's queues, callbacks and messages under every
    interleaving of clicks, packets, messages and closed boxes: for every
    posted completion and every open box there is an entry in the queue its
    handler will read. *)

From stdpp Require Import functions.
From S2P Require Import Prelude LockQueue PacketHandler Wire Protocol Database ChatDb ChatServer Client.
#[local] Open Scope Z_scope.

Module ClientProps.
Import Client.

(** ** The entries that posted events and open boxes will read *)

Definition auth_ev (ev : UIEvent) : nat :=
  match ev with LoginCompleted_Login | RegisterCompleted_Register => 1 | _ => 0 end.
Definition create_ev (ev : UIEvent) : nat :=
  match ev with CreateRoomCompleted_Lobby | CreateRoomCompleted_Room => 1 | _ => 0 end.
Definition join_ev (ev : UIEvent) : nat :=
  match ev with JoinRoomCompleted_Lobby | JoinRoomCompleted_Room => 1 | _ => 0 end.
Definition lobby_ev (ev : UIEvent) : nat := match ev with RefreshCompleted_Lobby => 1 | _ => 0 end.
Definition chat_ev (ev : UIEvent) : nat := match ev with SendChatCompleted_Room => 1 | _ => 0 end.

Definition auth_box (b : box) : nat := match b with LoginFailed | RegisterFailed => 1 | _ => 0 end.
Definition create_box (b : box) : nat := match b with CreateFailed => 1 | _ => 0 end.
Definition join_box (b : box) : nat := match b with JoinFailed => 1 | _ => 0 end.

(** The events that can be posted before a login completed. *)
Definition early (ev : UIEvent) : bool :=
  match ev with
  | LoginClicked_Login | LoginCompleted_Login | RegisterClicked_Register | RegisterCompleted_Register
  | SendChatCompleted_Room | RefreshRoomCompleted => true
  | _ => false
  end.

(** The events the callbacks of a model post. *)
Definition answers (m : model) (ev : UIEvent) : bool :=
  match m, ev with
  | AuthModel, (LoginCompleted_Login | RegisterCompleted_Register)
  | CreateRoomModel, CreateRoomCompleted_Lobby | JoinRoomModel, JoinRoomCompleted_Lobby
  | RefreshLobbyModel, RefreshCompleted_Lobby | RefreshRoomModel, RefreshRoomCompleted
  | ChatLogModel, SendChatCompleted_Room | RoomOutModel, LeaveRoomCompleted_Room => true
  | _, _ => false
  end.

Record inv (s : st) : Prop := {
  i_conn : GServerSession s = true;
  i_auth : (sum_list_with auth_ev (posted s) + sum_list_with auth_box (boxes s) +
            (if entered s then 1 else 0) ≤ length (q_auth s))%nat;
  i_create : (sum_list_with create_ev (posted s) + sum_list_with create_box (boxes s) ≤ length (q_create s))%nat;
  i_join : (sum_list_with join_ev (posted s) + sum_list_with join_box (boxes s) ≤ length (q_join s))%nat;
  i_lobby : (sum_list_with lobby_ev (posted s) ≤ length (q_lobby s))%nat;
  i_chat : sum_list_with chat_ev (posted s) = length (q_chat s);
  i_hist : shown s ++ q_chat s = arrived s;
  i_log : _chatLog (roomPg s) `suffix_of` (bindLog <$> shown s);
  i_cb : ∀ m ev, _callback s m = Some ev → answers m ev = true;
  i_cb_chat : _callback s ChatLogModel = Some SendChatCompleted_Room;
  i_early : entered s = false →
    lobby_shown (lobbyPg s) = false ∧ room_shown (roomPg s) = false ∧ Forall (λ ev, early ev = true) (posted s) ∧
    ∀ m ev, _callback s m = Some ev → early ev = true
}.

(** ** Rules for the primitives *)

Lemma sum_posted {A} (f : A → nat) l x : sum_list_with f (l ++ [x]) = (sum_list_with f l + f x)%nat.
Proof. rewrite sum_list_with_app. simpl. lia. Qed.

Lemma Forall_snoc {A} (P : A → Prop) l x : Forall P l → P x → Forall P (l ++ [x]).
Proof. intros. apply Forall_app. auto. Qed.

Section cb.
Context (P : model → UIEvent → Prop) (m : model) (cb : model → option UIEvent).
Hypothesis Hcb : ∀ m ev, cb m = Some ev → P m ev.

Lemma cb_subscribe ev : P m ev → ∀ m' ev', (<[m := Some ev]> cb) m' = Some ev' → P m' ev'.
Proof.
  intros Hp m' ev'. destruct (decide (m = m')) as [<-|Hm].
  - rewrite fn_lookup_insert. naive_solver.
  - rewrite fn_lookup_insert_ne by done. apply Hcb.
Qed.

Lemma cb_clear m' ev' : (<[m := None]> cb) m' = Some ev' → P m' ev'.
Proof.
  destruct (decide (m = m')) as [<-|Hm].
  - by rewrite fn_lookup_insert.
  - rewrite fn_lookup_insert_ne by done. apply Hcb.
Qed.
End cb.

Section props.
Context {WT : WinText} {LB : SortedListBox}.

(** The packet that the handler of an event sends; the requests for the list of rooms,
    which are empty, apart. *)
Definition request (ev : UIEvent) (s : st) : option Msg.t :=
  match ev with
  | LoginClicked_Login =>
    Some (Msg.C_LOGIN (C_LOGIN.set_pssd (CT2A (_pw (loginPg s))) (C_LOGIN.set_id (CT2A (_id (loginPg s))) C_LOGIN.new)))
  | RegisterClicked_Register =>
    Some (Msg.C_REGISTER (C_REGISTER.set_pssd (CT2A (_pw (loginPg s))) (C_REGISTER.set_id (CT2A (_id (loginPg s))) C_REGISTER.new)))
  | CreateRoomClicked_Lobby =>
    Some (Msg.C_CREATE_ROOM (C_CREATE_ROOM.set_id (CT2A (_me (lobbyPg s)))
            (C_CREATE_ROOM.set_roomname (CT2A (lobby_roomName (lobbyPg s))) C_CREATE_ROOM.new)))
  | JoinRoomClicked_Lobby =>
    Some (Msg.C_JOIN_ROOM (C_JOIN_ROOM.set_id (CT2A (_me (lobbyPg s)))
            (C_JOIN_ROOM.set_roomname (CT2A (_selectedRoomName (lobbyPg s))) C_JOIN_ROOM.new)))
  | SendChatClicked_Room =>
    Some (Msg.C_CHAT_LOG (C_CHAT_LOG.set_log (CT2A (_chatText (roomPg s)))
            (C_CHAT_LOG.set_id (CT2A (auth_id (LockQueue.Front (q_auth s)).1)) C_CHAT_LOG.new)))
  | LeaveRoomClicked_Room =>
    Some (Msg.C_ROOM_OUT (C_ROOM_OUT.set_roomname (CT2A (room_roomName (roomPg s)))
            (C_ROOM_OUT.set_id (CT2A (auth_id (LockQueue.Front (q_auth s)).1)) C_ROOM_OUT.new)))
  | _ => None
  end.

(** The handler of [ev] stops over a request that does not fit. *)
Definition oversized (ev : UIEvent) (s : st) (f : fault) : Prop :=
  ∃ pkt, request ev s = Some pkt ∧ PacketHandler.max_message < Msg.ByteSizeLong pkt ∧
    f = PacketHandler.send_fault (Msg.ByteSizeLong pkt).

Lemma wp_Send (E : fault → Prop) pkt s Q :
  GServerSession s = true →
  (PacketHandler.max_message < Msg.ByteSizeLong pkt → E (PacketHandler.send_fault (Msg.ByteSizeLong pkt))) →
  Q tt (set_sent (sent s ++ [pkt]) s) → wp E (Send pkt) s Q.
Proof.
  intros Hg HE HQ. unfold Send. apply wp_if; intros Hn.
  - wp_run; [done|congruence].
  - apply wp_crash, HE. by apply Z.leb_gt.
Qed.

Lemma wp_RequestService (E : fault → Prop) m pkt ev s Q :
  GServerSession s = true →
  (PacketHandler.max_message < Msg.ByteSizeLong pkt → E (PacketHandler.send_fault (Msg.ByteSizeLong pkt))) →
  Q tt (set_sent (sent s ++ [pkt]) (set__callback (<[m := Some ev]> (_callback s)) s)) →
  wp E (RequestService m pkt ev) s Q.
Proof. intros Hg HE HQ. unfold RequestService, Subscribe. wp_run. by apply wp_Send. Qed.

Definition cleared (m : model) (isClear : bool) (s : st) : st :=
  if isClear then set__callback (<[m := None]> (_callback s)) s else s.

Lemma wp_Execute E m isClear s Q :
  match _callback s m with
  | Some ev => Q tt (cleared m isClear (set_posted (posted s ++ [ev]) s))
  | None => Q tt (cleared m isClear s)
  end → wp E (Execute m isClear) s Q.
Proof. unfold Execute, PostMessage. intros H. wp_run; destruct (_callback s m); wp_run; by subst. Qed.

(** ** The invariant is kept *)

(** The fields of the invariant for an updated state. *)
Ltac inv_upd :=
  match goal with H : inv _ |- _ => destruct H end;
  split; simpl in *; rewrite ?length_app, ?sum_posted; simpl; try lia; try done; try congruence.

(** Posting the event of a button of a shown page. *)
Lemma inv_post s ev :
  inv s → (entered s = false → early ev = true) →
  (auth_ev ev + create_ev ev + join_ev ev + lobby_ev ev + chat_ev ev = 0)%nat →
  inv (set_posted (posted s ++ [ev]) s).
Proof. intros H He Hz. inv_upd. intros E. destruct i_early0 as (? & ? & ? & ?); [done|].
  split_and!; try done. apply Forall_snoc; [done|by apply He].
Qed.

Lemma inv_login s p : inv s → inv (set_loginPg p s).
Proof. intros H. inv_upd. Qed.

Lemma inv_lobby s p : inv s → (entered s = false → lobby_shown p = false) → inv (set_lobbyPg p s).
Proof. intros H Hp. inv_upd. intros E. destruct i_early0 as (? & ? & ? & ?); auto. Qed.

Lemma inv_room s p :
  inv s → (entered s = false → room_shown p = false) → _chatLog p `suffix_of` _chatLog (roomPg s) →
  inv (set_roomPg p s).
Proof.
  intros H Hp Hl. inv_upd; [by etrans|]. intros E. destruct i_early0 as (? & ? & ? & ?); auto.
Qed.

(** Updates that keep the invariant by themselves. *)
Ltac inv_frame :=
  repeat lazymatch goal with
  | |- inv (set_posted _ _) => apply inv_post
  | |- inv (set_loginPg _ _) => apply inv_login
  | |- inv (set_lobbyPg _ _) => apply inv_lobby
  | |- inv (set_roomPg _ _) => apply inv_room
  end.

Lemma inv_click s c : inv s → on_shown_page c s = true → wp (λ _, False) (OnClick c) s (λ _ s', inv s').
Proof.
  intros H Hc.
  assert (lobby_shown (lobbyPg s) = true → entered s = true) as Hlob.
  { intros. destruct (entered s) eqn:E; [done|]. by destruct (i_early s H E) as (? & _); congruence. }
  assert (room_shown (roomPg s) = true → entered s = true) as Hroom.
  { intros. destruct (entered s) eqn:E; [done|]. by destruct (i_early s H E) as (_ & ? & _); congruence. }
  destruct c; simpl in Hc; cbn [OnClick]; unfold OnBnClickedLogin, OnBnClickedLegister, OnBnClickedCreateRoom,
    OnBnClickedJoinRoom, OnBnClickedRefresh, OnBnClickedSend, OnBnClickedLeave, page_login, page_lobby, page_room,
    PostMessage; wp_run; try done;
    unfold set_loginPg', set_lobbyPg', set_roomPg';
    inv_frame; simpl; try done;
    intros He; first [by rewrite Hlob in He|by rewrite Hroom in He].
Qed.

Lemma inv_after_box s b rest :
  inv s → boxes s = b :: rest → wp (λ _, False) (after_box b) (set_boxes rest s) (λ _ s', inv s').
Proof.
  intros H Hb. destruct s as [? ? ? ? qa qc qj]; simpl in *; subst.
  destruct b; cbn [after_box]; unfold AuthPop, CreatePop, JoinPop; wp_run; unfold wp; simpl;
    try (destruct qa); try (destruct qc); try (destruct qj); simpl; inv_upd.
Qed.

(** ** Packets *)

(** A lobby packet has a count for every room. *)
Definition sane (e : event) : Prop :=
  match e with
  | Packet (Msg.S_REFRESH_LOBBY p) =>
    (length (S_REFRESH_LOBBY.roomnames p) ≤ length (S_REFRESH_LOBBY.usercounts p))%nat
  | _ => True
  end.

Lemma lobby_rows_ret names counts :
  (length names ≤ length counts)%nat → ∃ r, lobby_rows names counts = Ret r.
Proof.
  revert counts. induction names as [|n names IH]; intros [|c counts] Hl; simpl in *; [eauto..|lia|].
  destruct (IH counts) as [[ns cs] ->]; [lia|]. simpl. eauto.
Qed.

(** The callbacks after a message of the server: cleared or kept. *)
Lemma inv_clear s m :
  inv s → m ≠ ChatLogModel → inv (set__callback (<[m := None]> (_callback s)) s).
Proof.
  intros H Hm. inv_upd.
  - by apply cb_clear.
  - by rewrite fn_lookup_insert_ne.
  - intros E. destruct i_early0 as (? & ? & ? & Hc); [done|]. split_and!; try done.
    by apply (cb_clear (λ _ ev, early ev = true)).
Qed.

Lemma inv_cleared s m isClear : inv s → (m = ChatLogModel → isClear = false) → inv (cleared m isClear s).
Proof. intros H Hm. destruct isClear; [|done]. apply inv_clear; [done|]. intros E. by specialize (Hm E). Qed.

(** A server message: its data is queued and its callback, if there is one,
    posts the event that will read it. *)
Lemma inv_Execute E s s0 m isClear :
  inv s0 → _callback s = _callback s0 → (m = ChatLogModel → isClear = false) →
  (∀ ev, _callback s m = Some ev → answers m ev = true → (entered s0 = false → early ev = true) →
         inv (set_posted (posted s ++ [ev]) s)) →
  (_callback s m = None → inv s) →
  wp E (Execute m isClear) s (λ _ s', inv s').
Proof.
  intros H0 Ecb Hm Hs Hn. apply wp_Execute. destruct (_callback s m) as [ev|] eqn:Ev.
  - apply inv_cleared; [|done]. rewrite Ecb in Ev. apply (Hs ev); [done|by apply (i_cb _ H0)|].
    intros He. by destruct (i_early _ H0 He) as (_ & _ & _ & Hc); apply (Hc m).
  - apply inv_cleared; [|done]. by apply Hn.
Qed.

Lemma inv_packet s pkt m :
  inv s → sane (Packet pkt) → HandlePacket pkt = Some m → wp (λ _, False) m s (λ _ s', inv s').
Proof.
  intros H Hsane Hm. pose proof (i_cb_chat s H) as Hcc.
  destruct pkt as [| | | | |p| | | | | | | | |]; simpl in *; simplify_eq/=;
    unfold Handle_S_LOGIN, Handle_S_REGISTER, Handle_S_REFRESH_LOBBY, Handle_S_CREATE_ROOM, Handle_S_JOIN_ROOM,
      Handle_S_REFRESH_ROOM, Handle_S_CHAT_LOG, Handle_S_ROOM_OUT;
    try (destruct (lobby_rows_ret (S_REFRESH_LOBBY.roomnames p) (S_REFRESH_LOBBY.usercounts p)) as [[ns cs] E];
         [done|]; wp_step; apply (wp_lift _ _ (ns, cs)); [done|]);
    wp_run; (eapply wp_mono; [eapply (inv_Execute _ _ s)|]; [done|done|done| | |by intros; wp_run]);
    intros; try match goal with E : answers _ ?ev = true |- _ => destruct ev; try discriminate E; clear E end;
    simpl in *; unfold LockQueue.Push in *; try congruence; inv_upd; rewrite ?app_assoc; try congruence;
    (intros He; destruct i_early0 as (? & ? & ? & ?); [done|]; split_and!; try done; apply Forall_snoc; auto).
Qed.

(** ** Messages *)

(** The state in which the message [ev] has just been taken. *)
Definition taken (ev : UIEvent) (t : st) : Prop := inv (set_posted (ev :: posted t) t).

Lemma taken_drop ev t : taken ev t → chat_ev ev = 0%nat → inv t.
Proof.
  intros [] Hc. split; simpl in *; try done; try lia.
  intros He. destruct (i_early0 He) as (? & ? & Hf & ?). apply Forall_cons in Hf as [_ ?]. done.
Qed.

Lemma taken_entered ev t : taken ev t → early ev = false → entered t = true.
Proof.
  intros H E. destruct (entered t) eqn:Ee; [done|]. destruct (i_early _ H Ee) as (_ & _ & Hf & _).
  apply Forall_cons in Hf as [Hf _]. congruence.
Qed.

Lemma auth_front t : inv t → entered t = true → ∃ x q, q_auth t = x :: q.
Proof. intros H E. pose proof (i_auth _ H) as Ha. rewrite E in Ha. destruct (q_auth t); simpl in *; [lia|eauto]. Qed.

Lemma inv_request (E : fault → Prop) m pkt ev t :
  inv t → answers m ev = true → (entered t = false → early ev = true) →
  (PacketHandler.max_message < Msg.ByteSizeLong pkt → E (PacketHandler.send_fault (Msg.ByteSizeLong pkt))) →
  wp E (RequestService m pkt ev) t (λ _ s', inv s').
Proof.
  intros H Ha He HE. apply wp_RequestService; [apply H|done|]. inv_upd.
  - by apply (cb_subscribe (λ m ev, answers m ev = true)).
  - destruct (decide (m = ChatLogModel)) as [->|]; [|by rewrite fn_lookup_insert_ne].
    rewrite fn_lookup_insert. by destruct ev.
  - intros Hent. destruct i_early0 as (? & ? & ? & ?); [done|]. split_and!; try done.
    apply (cb_subscribe (λ _ ev, early ev = true)); [done|auto].
Qed.

(** A request that does not fit is the one of the event; an empty one fits. *)
Ltac too_large :=
  let Hn := fresh in intros Hn;
  first [by vm_compute in Hn|eexists; split_and!; [|exact Hn|reflexivity]; cbn [request];
         try match goal with Ea : q_auth _ = _ |- _ => rewrite Ea end; reflexivity].


Lemma add_rooms_shown ns cs p : lobby_shown (add_rooms ns cs p) = lobby_shown p.
Proof. revert cs p. induction ns as [|n ns IH]; intros [|c cs] p; simpl; try done. by rewrite IH. Qed.

Lemma add_users_frame ids p :
  room_shown (add_users ids p) = room_shown p ∧ _chatLog (add_users ids p) = _chatLog p.
Proof. revert p. induction ids as [|i ids IH]; intros p; [done|]. apply (IH (AddUser i p)). Qed.

(** The queue a handler reads is not empty, by the credit of its event. *)
Ltac credit q :=
  match goal with H : taken _ ?t |- _ =>
    let x := fresh "x" in let l := fresh "l" in let Eq := fresh "Eq" in
    pose proof (i_auth _ H); pose proof (i_create _ H); pose proof (i_join _ H); pose proof (i_lobby _ H);
    pose proof (i_chat _ H); simpl in *;
    destruct (q t) as [|x l] eqn:Eq; simpl in *; [lia|]; wp_run; try done
  end.

(** The fields after a handler that has used its event. *)
Ltac use_event :=
  match goal with H : taken _ _ |- _ => destruct H end;
  unfold set_loginPg', set_lobbyPg', set_roomPg', AfxMessageBox, PostMessage, page_login, page_lobby, page_room in *;
  wp_run; split; simpl in *; rewrite ?length_app, ?sum_posted; simpl;
  try lia; try done; try congruence;
  try match goal with He : entered _ = false → _ |- _ =>
    let E := fresh in let Hf := fresh in
    intros E; specialize (He E) as (? & ? & Hf & ?); apply Forall_cons in Hf as [_ Hf]; done
  end.

Lemma inv_LoginHandler ev t :
  taken ev t → (∃ h, find_event ev eventMap = Some (PLogin, h)) → wp (oversized ev t) (LoginHandler ev) t (λ _ s', inv s').
Proof.
  intros H [h Hh]. destruct ev; simpl in Hh; try discriminate Hh; clear h Hh; cbn [LoginHandler];
    unfold OnClickedLogin, OnLoginCompleted_login, OnClickedRegister, OnRegisterCompleted, AuthFront; wp_run.
  - apply inv_request; [by eapply taken_drop|done|done|too_large].
  - credit q_auth.
    + use_event.
    + use_event.
  - apply inv_request; [by eapply taken_drop|done|done|too_large].
  - credit q_auth.
    + use_event.
    + unfold AuthPop, wp. rewrite Eq. simpl. use_event.
Qed.

Lemma inv_LobbyHandler ev t :
  taken ev t → (∃ h, find_event ev eventMap = Some (PLobby, h)) → wp (oversized ev t) (LobbyHandler ev) t (λ _ s', inv s').
Proof.
  intros H [h Hh]. assert (entered t = true) as Hent.
  { apply (taken_entered ev); [done|]. by destruct ev. }
  assert (inv t) as Hi by (apply (taken_drop ev); [done|by destruct ev]).
  destruct (auth_front t Hi Hent) as (a & qa & Ea).
  destruct ev; simpl in Hh; try discriminate Hh; clear h Hh; cbn [LobbyHandler];
    unfold OnLoginCompleted_lobby, OnRefreshClicked, OnRefreshCompleted_lobby, OnCreateRoomClicked,
      OnCreateRoomCompleted_lobby, OnJoinRoomClicked, OnJoinRoomCompleted_lobby, OnLeaveRoomCompleted_lobby,
      refresh_request, AuthFront, CreateFront, JoinFront, page_lobby; wp_run.
  all: try (simpl; rewrite Ea; simpl; wp_run; try done; apply inv_request; simpl;
            [unfold set_lobbyPg'; inv_frame; simpl; try done; congruence|done|congruence|too_large]).
  all: try (apply inv_request; [done|done|congruence|too_large]).
  - credit q_create; use_event.
  - credit q_join; use_event.
  - credit q_lobby. unfold LobbyPop, wp at 1. rewrite Eq. simpl. wp_run; [done|use_event..].
Qed.

Lemma inv_RoomHandler ev t :
  taken ev t → (∃ h, find_event ev eventMap = Some (PRoom, h)) → wp (oversized ev t) (RoomHandler ev) t (λ _ s', inv s').
Proof.
  intros H [h Hh].
  assert (early ev = false → entered t = true) as Hent by (by apply taken_entered).
  assert (chat_ev ev = 0%nat → inv t) as Hi by (by apply taken_drop).
  assert (early ev = false → ∃ a qa, q_auth t = a :: qa) as Hq.
  { intros E. apply auth_front; [apply Hi; by destruct ev|by apply Hent]. }
  destruct ev; simpl in Hh; try discriminate Hh; clear h Hh; simpl in Hent, Hi, Hq; cbn [RoomHandler];
    try (destruct Hq as (a & qa & Ea); [done|]; specialize (Hent eq_refl));
    unfold OnCreateRoomCompleted_room, OnJoinRoomCompleted_room, OnSendChatClicked, OnSendChatCompleted,
      OnRefreshCompleted_room, OnLeaveRoomClicked, OnLeaveRoomCompleted_room, AuthFront, page_room, PostMessage; wp_run.
  - credit q_create. unfold CreatePop, wp at 1. rewrite Eq. simpl. wp_run. simpl. rewrite Ea. simpl. wp_run; [done|].
    use_event. apply suffix_nil.
  - credit q_join. unfold JoinPop, wp at 1. rewrite Eq. simpl. wp_run.
    destruct (add_users_frame (join_userIds x) (ClearChatLines (ClearUsers (ShowRoom true (roomPg t))))) as [_ El].
    use_event. rewrite El. apply suffix_nil.
  - rewrite Ea. simpl. wp_run; [done|]. apply inv_request; [by apply Hi|done|done|too_large].
  - credit q_chat. unfold ChatPop, wp at 1. rewrite Eq. simpl. wp_run; [done|].
    use_event.
    + rewrite <-app_assoc. simpl. congruence.
    + rewrite fmap_app. simpl. by apply suffix_app.
  - rewrite Ea. simpl. wp_run; [done|]. apply inv_request; [by apply Hi|done|congruence|too_large].
  - unfold set_roomPg'. inv_frame; simpl; try done; [by apply Hi|apply suffix_nil|].
    intros. congruence.
  - unfold UsersPop, wp at 1. specialize (Hi eq_refl). destruct (LockQueue.Pop_out (q_users t)) as [r q] eqn:Eq.
    destruct r as [data b]. wp_run. unfold set_roomPg'.
    destruct (add_users_frame (users_userIds data) (ClearUsers (roomPg t))) as [Es El].
    apply inv_room; [inv_upd|..]; cbn [roomPg set_q_users].
    + rewrite Es. intros He. by destruct (i_early _ Hi He) as (_ & ? & _).
    + by rewrite El.
Qed.

Lemma inv_message s ev rest :
  inv s → posted s = ev :: rest → wp (oversized ev s) (OnUIEvent ev) (set_posted rest s) (λ _ s', inv s').
Proof.
  intros H Hp. assert (taken ev (set_posted rest s)) as Ht.
  { unfold taken. destruct s; simpl in *. by subst. }
  change (oversized ev s) with (oversized ev (set_posted rest s)).
  unfold OnUIEvent. destruct (find_event ev eventMap) as [[p h]|] eqn:E.
  - wp_run. apply (wp_mono _ _ _ (λ _ s', inv s')); [|by intros; wp_run].
    destruct p; destruct ev; simpl in E; try discriminate E; injection E as <-;
      first [apply inv_LoginHandler|apply inv_LobbyHandler|apply inv_RoomHandler]; by eauto.
  - wp_run. apply (taken_drop ev); [done|by destruct ev].
Qed.

(** What stops the client: the dispatch of a message whose handler makes a request that
    does not fit, a packet of a class the client has no handler for, and a lobby packet
    with fewer counts than rooms. *)
Inductive stops (s : st) : event → fault → Prop :=
| stops_request ev rest f : posted s = ev :: rest → oversized ev s f → stops s Message f
| stops_unhandled pkt : HandlePacket pkt = None → stops s (Packet pkt) BadFunctionCall
| stops_counts pkt : ¬ sane (Packet pkt) → stops s (Packet pkt) OutOfBounds.

Lemma lobby_rows_crash names counts : (length counts < length names)%nat → lobby_rows names counts = Crash OutOfBounds.
Proof.
  revert counts. induction names as [|n names IH]; intros [|c counts] Hl; simpl in *; [lia..|done|].
  rewrite IH by lia. done.
Qed.

#[global] Instance sane_dec e : Decision (sane e).
Proof. destruct e as [| |[]| |]; apply _. Defined.

(** A lobby packet with fewer counts than rooms stops the client. *)
Lemma insane_stops e s : ¬ sane e → handle e s = Some (Crash OutOfBounds).
Proof.
  intros Hs. destruct e as [| |[| | | | |p| | | | | | | | |]| |]; try (exfalso; by apply Hs). cbn [handle HandlePacket].
  unfold Handle_S_REFRESH_LOBBY, mbind at 1 2, M_bind, lift. rewrite lobby_rows_crash; [done|]. by apply Nat.nle_gt.
Qed.

(** Every possible event keeps the invariant, or stops the client for one of the causes. *)
Lemma inv_handle e s r :
  inv s → handle e s = Some r → (∃ s', r = Ret s' ∧ inv s') ∨ ∃ f, r = Crash f ∧ stops s e f.
Proof.
  intros H Hr. destruct (decide (sane e)) as [Hs|Hs]; last first.
  { rewrite insane_stops in Hr by done. injection Hr as <-. right. eexists. split; [done|].
    destruct e; try (exfalso; by apply Hs). by apply stops_counts. }
  assert (∀ E A (m : M st A) s', wp E m s' (λ _ s', inv s') → r = ('(_, s') ← m s'; Ret s') →
    (∀ f, E f → stops s e f) → (∃ s', r = Ret s' ∧ inv s') ∨ ∃ f, r = Crash f ∧ stops s e f) as K.
  { intros E A m s0 Hw -> HE. unfold wp in Hw. destruct (m s0) as [[a s']|f]; simpl; eauto. }
  destruct e as [|c|pkt| |]; simpl in Hr.
  - injection Hr as <-. eapply (K (λ _, False)); [|done|done]. unfold OnConnected. wp_run; inv_upd.
  - destruct (on_shown_page c s) eqn:Ec; [|done]. destruct (boxes s); [|done]. simpl in Hr. injection Hr as <-.
    eapply K; [by apply inv_click|done|done].
  - injection Hr as <-. destruct (HandlePacket pkt) as [m|] eqn:Ep; [eapply K; [by eapply inv_packet|done|done]|].
    right. eexists. split; [done|]. by apply stops_unhandled.
  - destruct (posted s) as [|ev rest] eqn:Ep; [done|]. injection Hr as <-. eapply K; [by eapply inv_message|done|].
    intros f. by apply (stops_request _ ev rest).
  - destruct (boxes s) as [|b rest] eqn:Ep; [done|]. injection Hr as <-. eapply K; [by eapply inv_after_box|done|done].
Qed.

(** ** Properties *)

(** The client when [OnInitDialog] is done. *)
Definition opened : st :=
  mk false (ShowLogin true CreateLogin) CreateLobby CreateRoom [] [] [] [] [] [] []
    (<[RefreshRoomModel := Some RefreshRoomCompleted]> (<[ChatLogModel := Some SendChatCompleted_Room]> (λ _, None)))
    [] [] [] false [] [].

Lemma OnInitDialog_opened : OnInitDialog blank = Ret (true, opened).
Proof. vm_compute. reflexivity. Qed.

Lemma connected_inv : inv (set_GServerSession true opened).
Proof.
  split; simpl; try done; try lia.
  - intros m ev. unfold insert, fn_insert. repeat case_decide; naive_solver.
  - intros _. split_and!; [done..|]. intros m ev. unfold insert, fn_insert. repeat case_decide; naive_solver.
Qed.

(** The states of a client that has connected and lived through [es]. *)
Definition reaches (es : list event) (s : st) : Prop :=
  ∃ s0, OnInitDialog blank = Ret (true, s0) ∧ handle_all (Connected :: es) s0 = Some (Ret s).

Lemma handle_all_inv es s s' : inv s → handle_all es s = Some (Ret s') → inv s'.
Proof.
  revert s. induction es as [|e es IH]; intros s H E; simpl in E; [by injection E as <-|].
  destruct (handle e s) as [r|] eqn:Er; [|done].
  destruct (inv_handle e s r H Er) as [(s1 & -> & H1)|(f & -> & _)]; [|done]. by apply (IH s1).
Qed.

Lemma reaches_inv es s : reaches es s → inv s.
Proof.
  intros (s0 & E0 & E). rewrite OnInitDialog_opened in E0. injection E0 as <-. cbn [handle_all] in E.
  change (handle Connected opened) with (Some (Ret (set_GServerSession true opened))) in E. cbv beta iota in E.
  by apply (handle_all_inv es (set_GServerSession true opened)); [apply connected_inv|..].
Qed.

(** Chat lines are displayed once each and in the order of their arrival.
    The lines displayed so far, followed by those still queued, are the lines
    that arrived; when no message is waiting, all of them have been displayed;
    the chat window shows the latest of them. *)
Theorem chat_lines_in_order es s :
  reaches es s →
  shown s ++ q_chat s = arrived s ∧ (posted s = [] → shown s = arrived s) ∧
  _chatLog (roomPg s) `suffix_of` (bindLog <$> shown s).
Proof.
  intros Hr. destruct (reaches_inv es s Hr). split_and!; try done.
  intros Hp. rewrite Hp in i_chat0. destruct (q_chat s); [|done]. by rewrite app_nil_r in i_hist0.
Qed.

Definition login_packet (id pw : CString) : C_LOGIN.t :=
  C_LOGIN.set_pssd (CT2A pw) (C_LOGIN.set_id (CT2A id) C_LOGIN.new).
Definition login_answer (ok : bool) (id pssd : str) : S_LOGIN.t :=
  S_LOGIN.set_pssd pssd (S_LOGIN.set_id id (S_LOGIN.set_issuccess ok S_LOGIN.new)).

Lemma Send_fits pkt s :
  Msg.ByteSizeLong pkt ≤ PacketHandler.max_message → GServerSession s = true →
  Send pkt s = Ret (tt, set_sent (sent s ++ [pkt]) s).
Proof. intros Hn Hg. unfold Send. rewrite (proj2 (Z.leb_le _ _) Hn). unfold mbind, M_bind, get. by rewrite Hg. Qed.

Lemma Send_unconnected pkt s :
  Msg.ByteSizeLong pkt ≤ PacketHandler.max_message → GServerSession s = false → Send pkt s = Crash NullDeref.
Proof. intros Hn Hg. unfold Send. rewrite (proj2 (Z.leb_le _ _) Hn). unfold mbind, M_bind, get. by rewrite Hg. Qed.

Lemma RequestService_fits m pkt ev s :
  Msg.ByteSizeLong pkt ≤ PacketHandler.max_message → GServerSession s = true →
  RequestService m pkt ev s =
    Ret (tt, set_sent (sent s ++ [pkt]) (set__callback (<[m := Some ev]> (_callback s)) s)).
Proof. intros Hn Hg. unfold RequestService, Subscribe. autorewrite with run. rewrite Send_fits; [done|done|exact Hg]. Qed.

Lemma handle_all_step e es s s' :
  handle e s = Some (Ret s') → handle_all (e :: es) s = handle_all es s'.
Proof. cbn [handle_all]. by intros ->. Qed.

Lemma handle_Message s ev rest z s' :
  posted s = ev :: rest → OnUIEvent ev (set_posted rest s) = Ret (z, s') → handle Message s = Some (Ret s').
Proof. cbn [handle]. intros -> E. by rewrite E. Qed.

(** A handler that sends one packet. *)
Lemma OnUIEvent_request ev p h m pkt ev' t :
  find_event ev eventMap = Some (p, h) → HandlerExecute h ev p t = RequestService m pkt ev' t →
  Msg.ByteSizeLong pkt ≤ PacketHandler.max_message → GServerSession t = true →
  OnUIEvent ev t = Ret (0, set_sent (sent t ++ [pkt]) (set__callback (<[m := Some ev']> (_callback t)) t)).
Proof.
  intros Ef Eh Hn Hg. unfold OnUIEvent. rewrite Ef. unfold mbind, M_bind. rewrite Eh, RequestService_fits by done. done.
Qed.

Lemma handle_all_app es es' s s' :
  handle_all es s = Some (Ret s') → handle_all (es ++ es') s = handle_all es' s'.
Proof.
  revert s. induction es as [|e es IH]; intros s; cbn [handle_all app]; [by intros [= ->]|].
  destruct (handle e s) as [[s1|]|]; [apply IH|done..].
Qed.

(** The lobby is entered. *)
Lemma enter_lobby t a q :
  q_auth t = a :: q → GServerSession t = true →
  ∃ s', OnUIEvent LoginCompleted_Lobby t = Ret (0, s') ∧ sent s' = sent t ++ [Msg.C_REFRESH_LOBBY] ∧
    lobbyPg s' = ClearRooms (SetMeText (auth_id a) (ShowLobby true (lobbyPg t))) ∧ loginPg s' = loginPg t ∧
    posted s' = posted t ∧ boxes s' = boxes t.
Proof.
  intros Eq Hg. eexists. split.
  - unfold OnUIEvent. cbn [find_event eventMap HandlerExecute LobbyHandler]. simpl.
    unfold OnLoginCompleted_lobby, page_lobby, AuthFront, refresh_request. autorewrite with run. simpl.
    rewrite Eq. simpl. autorewrite with run. unfold mbind, M_bind. rewrite RequestService_fits; [done|done|exact Hg].
  - split_and!; reflexivity.
Qed.

(** The user enters [id] and [pw], the server agrees. *)
Definition login_run (id pw : CString) (u p : str) : list event :=
  [Click (BtnLogin id pw); Message; Packet (Msg.S_LOGIN (login_answer true u p)); Message].

Lemma login_run_returns id pw u p :
  id ≠ [] → pw ≠ [] → Msg.ByteSizeLong (Msg.C_LOGIN (login_packet id pw)) ≤ PacketHandler.max_message →
  ∃ t, handle_all (login_run id pw u p) (set_GServerSession true opened) = Some (Ret t) ∧
    posted t = [LoginCompleted_Lobby] ∧ q_auth t = [mkAuth true (CA2W u) (CA2W p)] ∧ GServerSession t = true ∧
    sent t = [Msg.C_LOGIN (login_packet id pw)] ∧ login_shown (loginPg t) = false ∧ boxes t = [].
Proof.
  intros Hid Hpw Hn. destruct id as [|c id]; [done|]. destruct pw as [|d pw]; [done|].
  eexists. split.
  - unfold login_run. erewrite handle_all_step by reflexivity. erewrite handle_all_step; last first.
    { eapply handle_Message; [reflexivity|].
      eapply (OnUIEvent_request _ _ _ AuthModel (Msg.C_LOGIN (login_packet (c :: id) (d :: pw)))); [reflexivity..|done|reflexivity]. }
    erewrite handle_all_step by reflexivity. by erewrite handle_all_step by reflexivity.
  - split_and!; reflexivity.
Qed.

(** Logging in.  When the user has entered an id and a password and the
    server accepts them, the client has sent the credentials and then asked
    for the rooms, and shows the lobby with the user's name. *)
Theorem login_flow id pw u p :
  id ≠ [] → pw ≠ [] → Msg.ByteSizeLong (Msg.C_LOGIN (login_packet id pw)) ≤ PacketHandler.max_message →
  ∃ s, reaches (login_run id pw u p ++ [Message]) s ∧
    sent s = [Msg.C_LOGIN (login_packet id pw); Msg.C_REFRESH_LOBBY] ∧
    login_shown (loginPg s) = false ∧ lobby_shown (lobbyPg s) = true ∧ _me (lobbyPg s) = CA2W u ∧
    posted s = [] ∧ boxes s = [].
Proof.
  intros Hid Hpw Hn. destruct (login_run_returns id pw u p Hid Hpw Hn) as (t & Et & Hp & Hq & Hg & Hs & Hl & Hb).
  destruct (enter_lobby (set_posted [] t) _ _ Hq Hg) as (s & Es & Hs' & Hlob & Hlog & Hp' & Hb').
  exists s. split_and!.
  - exists opened. split; [apply OnInitDialog_opened|]. erewrite handle_all_step by reflexivity.
    rewrite (handle_all_app _ _ _ t Et). erewrite handle_all_step; [done|]. by eapply handle_Message.
  - rewrite Hs'. simpl. by rewrite Hs.
  - by rewrite Hlog.
  - by rewrite Hlob.
  - by rewrite Hlob.
  - done.
  - by rewrite Hb'.
Qed.

(** A click before the connection.  Until the server has accepted the
    connection there is no session: the first request the user makes
    dereferences a null pointer. *)
Theorem unconnected_request_crashes id pw :
  id ≠ [] → pw ≠ [] → Msg.ByteSizeLong (Msg.C_LOGIN (login_packet id pw)) ≤ PacketHandler.max_message →
  handle_all [Click (BtnLogin id pw); Message] opened = Some (Crash NullDeref).
Proof.
  intros Hid Hpw Hn. destruct id as [|c id]; [done|]. destruct pw as [|d pw]; [done|].
  erewrite handle_all_step by reflexivity. cbn [handle_all handle]. simpl.
  unfold OnUIEvent. simpl. unfold OnClickedLogin, RequestService, Subscribe. autorewrite with run.
  unfold mbind, M_bind. rewrite Send_unconnected; [done|exact Hn|reflexivity].
Qed.

End props.

(** ** Runs *)

#[local] Existing Instance ChatServer.ascii_text.

(** Texts ordered by their codes. *)
Fixpoint code_before (a b : CString) : bool :=
  match a, b with
  | x :: a, y :: b => (x <? y) || ((x =? y) && code_before a b)
  | [], _ :: _ => true
  | _, [] => false
  end.
Definition by_code : SortedListBox := {| sorts_before := code_before |}.
#[local] Existing Instance by_code.

Definition amy_w : CString := wlit "amy".
Definition pw_w : CString := wlit "pw".

(** The state after [es]. *)
Definition after (es : list event) : st :=
  match handle_all (Connected :: es) opened with Some (Ret s) => s | _ => opened end.

(** amy has logged in and created a room. *)
Definition amy_in_room : list event :=
  login_run amy_w pw_w ChatServer.amy ChatServer.secret ++
  [Message; Click (BtnCreateRoom (wlit "room")); Message;
   Packet (Msg.S_CREATE_ROOM (S_CREATE_ROOM.set_roomname [x72] (S_CREATE_ROOM.set_issuccess true S_CREATE_ROOM.new)));
   Message; Message].

Definition chat_line : S_CHAT_LOG.t := S_CHAT_LOG.set_log [x68; x69] (S_CHAT_LOG.set_id ChatServer.bob S_CHAT_LOG.new).

Lemma amy_in_room_reached : reaches amy_in_room (after amy_in_room).
Proof. exists opened. split; [apply OnInitDialog_opened|]. vm_compute. reflexivity. Qed.

Lemma chat_lines_in_order_witness :
  length (shown (after (amy_in_room ++ [Packet (Msg.S_CHAT_LOG chat_line); Message]))) = 1%nat ∧
  shown (after (amy_in_room ++ [Packet (Msg.S_CHAT_LOG chat_line); Message])) =
  arrived (after (amy_in_room ++ [Packet (Msg.S_CHAT_LOG chat_line); Message])).
Proof.
  split; [reflexivity|].
  apply (chat_lines_in_order (amy_in_room ++ [Packet (Msg.S_CHAT_LOG chat_line); Message])); [|reflexivity].
  exists opened. split; [apply OnInitDialog_opened|]. vm_compute. reflexivity.
Defined.

Lemma login_flow_witness :
  ∃ s, reaches (login_run amy_w pw_w ChatServer.amy ChatServer.secret ++ [Message]) s ∧
    lobby_shown (lobbyPg s) = true ∧ _me (lobbyPg s) = amy_w.
Proof.
  destruct (login_flow amy_w pw_w ChatServer.amy ChatServer.secret) as (s & ? & _ & _ & ? & Hm & _);
    [done|done|vm_compute; discriminate|]. exists s. split_and!; [done|done|by rewrite Hm].
Defined.

Lemma unconnected_request_crashes_witness :
  handle_all [Click (BtnLogin amy_w pw_w); Message] opened = Some (Crash NullDeref).
Proof. apply (unconnected_request_crashes amy_w pw_w); [done|done|vm_compute; discriminate]. Defined.

(** The user clicks twice before the answer. *)
Definition impatient : list event :=
  [Click (BtnLogin amy_w pw_w); Message; Click (BtnLogin amy_w pw_w); Message;
   Packet (Msg.S_LOGIN (login_answer false ChatServer.amy ChatServer.secret));
   Packet (Msg.S_LOGIN (login_answer false ChatServer.amy ChatServer.secret)); Message; Dismiss].

(** Another attempt, with the server's answer. *)
Definition attempt (ok : bool) : list event :=
  [Click (BtnLogin amy_w pw_w); Message; Packet (Msg.S_LOGIN (login_answer ok ChatServer.amy ChatServer.secret)); Message].

(** Answers are not matched to requests.  After two clicks whose answers
    were both negative, the second answer is still queued: the next login,
    which the server accepts, is reported as failed; and the attempt after it,
    which the server refuses, opens the lobby. *)
Theorem stale_login_answers :
  ∃ s1 s2, reaches (impatient ++ attempt true) s1 ∧ boxes s1 = [LoginFailed] ∧ lobby_shown (lobbyPg s1) = false ∧
    handle_all (Dismiss :: attempt false ++ [Message]) s1 = Some (Ret s2) ∧
    lobby_shown (lobbyPg s2) = true ∧ boxes s2 = [].
Proof.
  exists (after (impatient ++ attempt true)),
         (after (impatient ++ attempt true ++ Dismiss :: attempt false ++ [Message])).
  split; [exists opened; split; [apply OnInitDialog_opened|]|split_and!]; vm_compute; reflexivity.
Qed.

End ClientProps.
