(* ===== verification/ChatMisuse.v ===== *)
(** * ChatMisuse: requests of a user who is already in a room
      (Server/LobbyRespondent.h, Client/CPageLobby.cpp)

    The respondents of [C_CREATE_ROOM] and [C_JOIN_ROOM] do not ask where the user
    is.  A user of a room who creates another one is in both: the account and the
    session move to the new room, the user map, the seat counter and the row of the
    first room keep the user.  A user who joins a room twice is counted twice, and
    the room then outlives its last user.  The pages of the client do not prevent it: the
    buttons work until the answer has come. *)

From S2P Require Import Prelude PacketHandler Wire Protocol Database ChatDb ChatServer ChatRooms ChatFlow Client ClientProps.
#[local] Open Scope Z_scope.

Module ChatMisuse.
Import Wire DBConnection ChatServer ChatRooms ChatFlow.

Section misuse.
Context {D : Type} `{!Odbc D} {WT : WinText} {WL : WinTextLen} `{!ChatDb D}.

(** A second room.  When a user of a room asks for a new room under a free name
    the server answers yes; the first room is as before, with the user in it and
    counted, although the account is now in the second room: memory and database no
    longer agree. *)
Theorem second_room_strands_first (s : st D) sid id i p r row roomname :
  server_inv s → room_is s i p r row → _users r !! id = Some sid → name_free s roomname →
  zlen (w roomname) ≤ 30 → zlen roomname ≤ 5900 →
  ∃ s' j q, C_CREATE_ROOM_job sid id roomname s = Ret (tt, s') ∧ sent s' = sent s ++ [(sid, create_reply true roomname)] ∧
    j ≠ i ∧ room_is s' i p r row ∧ room_is s' j q (mkRoom j 1 {[id := sid]}) (mkRow (w roomname) 1) ∧
    sessions s' !! sid = Some (mkSession (Some q) id) ∧
    member (accts s') (ukey id) j ∧ ¬ member (accts s') (ukey id) i ∧ ¬ server_inv s'.
Proof.
  intros [Hpool Hinv] (Hi & Hp & Hrow) Hu Hfree Hlen Hsz.
  destruct (li_rooms _ _ _ _ _ _ Hinv i p Hi) as (r0 & row0 & Hp0 & _ & Hok). rewrite Hp in Hp0. injection Hp0 as <-.
  pose proof (ro_sessions _ _ _ _ _ _ Hok id sid Hu) as Hs.
  destruct (user_account _ _ _ _ _ _ id Hok ltac:(eauto)) as (a & Ha & Hai).
  destruct (create_any_run s sid id roomname _ Hpool Hs Hfree Hlen Hsz)
    as (s' & j & E & Hp' & Hsent & H1 & H2 & H3 & H4 & H5 & H6 & H7 & H8).
  assert (j ≠ i) as Hji by congruence.
  assert (next_room s ≠ p) as Hnp by (intros E'; rewrite <-E', (li_fresh _ _ _ _ _ _ Hinv) in Hp; done).
  assert (room_is s' i p r row) as Hroom.
  { unfold room_is. rewrite H1, H3, H4, (lookup_insert_ne (_rooms s)), (lookup_insert_ne (heap s)), (lookup_insert_ne (db_rooms s)) by done. done. }
  assert (¬ member (accts s') (ukey id) i) as Hout.
  { rewrite H5, member_alter. intros [(_ & _ & [= E'])|[? _]]; done. }
  exists s', j, (next_room s). split_and!; [exact E|exact Hsent|exact Hji|exact Hroom| | | |exact Hout|].
  - unfold room_is. rewrite H1, H3, H4. by rewrite !lookup_insert_eq.
  - by rewrite H6, lookup_insert_eq.
  - rewrite H5. apply member_alter. left. eauto.
  - intros [_ Hinv']. destruct Hroom as (Q1 & Q2 & Q3).
    destruct (li_rooms _ _ _ _ _ _ Hinv' i p Q1) as (r1 & row1 & R1 & _ & Hok'). rewrite Q2 in R1. injection R1 as <-.
    apply Hout. eapply user_account; eauto.
Qed.

(** What the job of [C_JOIN_ROOM] does for a user of the room. *)
Lemma second_join_run (s : st D) sid id roomname i p r row :
  server_inv s → room_is s i p r row → _users r !! id = Some sid → collate (r_name row) = ukey roomname →
  42 * roomState r + zlen roomname ≤ 5900 →
  ∃ s' l names, C_JOIN_ROOM_job sid id roomname s = Ret (tt, s') ∧
    sent s' = sent s ++ l ++ [(sid, join_of true roomname names)] ∧
    room_is s' i p (mkRoom i (roomState r + 1) (_users r)) (add_count 1 row) ∧ accts s' = accts s ∧
    pool_ok s' ∧ sessions s' !! sid = Some (mkSession (Some p) id) ∧ ¬ server_inv s'.
Proof.
  intros Hsi (Hi & Hp & Hrow) Hu Hc Hsz. pose proof (room_row_found s i row roomname Hsi Hrow Hc) as Hq1.
  destruct Hsi as [(l & c1 & c2 & k1 & k2 & Hpool & Hne & H1 & H2) Hinv].
  destruct (li_rooms _ _ _ _ _ _ Hinv i p Hi) as (r0 & row0 & Hp0 & Hrow0 & Hok).
  rewrite Hp in Hp0. injection Hp0 as <-. rewrite Hrow in Hrow0. injection Hrow0 as <-.
  destruct (user_account _ _ _ _ _ _ id Hok ltac:(eauto)) as (a & Ha & Hai).
  pose proof (ro_sessions _ _ _ _ _ _ Hok id sid Hu) as Hs. pose proof (room_state_pos _ _ _ _ _ _ Hok) as Hpos.
  destruct (set_room_law (w id) (Some i) (db (dbs s))) as (d1 & Hq2 & Ha1 & Hr1); [intros ? [= <-]; eauto|].
  destruct (inc_count_law i d1) as (d2 & Hq3 & Hr2 & Ha2).
  assert (accounts d2 = accts s) as Hacc.
  { rewrite Ha2, Ha1. apply alter_id. intros b Hb. setoid_rewrite Ha in Hb. injection Hb as <-. by destruct a; simpl in *; subst. }
  destruct (users_rows i d2) as (rows & Hq4 & Hnames). rewrite Hacc in Hnames.
  assert (zlen (names_in rows) = roomState r) as Hlen.
  { unfold zlen. rewrite Hnames, length_fmap, (members_count _ _ _ _ _ _ Hok). by rewrite <-(ro_state _ _ _ _ _ _ Hok). }
  pose proof (names_short _ _ _ Hnames) as Hshort. pose proof (zlen_nonneg roomname).
  assert (_users r ≠ ∅) as Hnonempty by apply Hok.
  eexists _, _, (names_in rows). split; [|split].
  - eapply (respond_run _ _ _ (l ++ [c1]) c2); [by rewrite Hpool, <-app_assoc| |].
    + exec_first H2 Hq1. erewrite M_bind_step by apply fetch_run. run.
      unfold GetRoom at 1. run. change (out_int 1 _) with i. simpl. rewrite Hi. run.
      erewrite M_bind_step by (apply claim_seat_run; [exact Hp|unfold Destruction; lia]).
      exec_next Hq2. exec_next Hq3. exec_next Hq4.
      erewrite M_bind_step by apply fetch_all_run. run.
      erewrite M_bind_step by (eapply AddUser_run; [apply lookup_insert_eq|done|exact Hs]). run.
      erewrite M_bind_step by (eapply BroadCast_run;
        [apply lookup_insert_eq|rewrite refresh_room_names; apply refresh_of_size; [done|lia]]). run.
      rewrite refresh_room_names, join_packet_names. apply Send_run, join_of_size; [done|lia].
    + done.
  - simpl. by rewrite <-app_assoc.
  - assert (room_is (mk (mkSt d2 ∅ []) (<[p := mkRoom i (roomState r + 1) (_users r)]> (heap s)) 0 (_rooms s) ∅ [])
      i p (mkRoom i (roomState r + 1) (_users r)) (add_count 1 row)) as Hroom.
    { split_and!; [done|apply lookup_insert_eq|]. unfold db_rooms. simpl. rewrite Hr2, Hr1, lookup_alter_eq. by setoid_rewrite Hrow. }
    unfold room_is, db_rooms, accts in *. simpl in *. rewrite (insert_id (_users r)) by done.
    rewrite insert_insert_eq, (ro_id _ _ _ _ _ _ Hok).
    split_and!; [apply Hroom..|exact Hacc|eapply (pool_ok_after s _ l c1 c2); [done|eauto|simpl; by rewrite ?insert_insert_eq|done]|apply lookup_insert_eq|].
    intros [_ Hinv'].
    destruct (li_rooms _ _ _ _ _ _ Hinv' i p Hi) as (r1 & row1 & R1 & _ & Hok').
    simpl in R1. rewrite ?lookup_insert_eq in R1. injection R1 as <-. pose proof (ro_state _ _ _ _ _ _ Hok') as E.
    simpl in E. rewrite (ro_state _ _ _ _ _ _ Hok) in E. lia.
Qed.

(** The job of [C_ROOM_OUT] for a user who is alone in the room and counted twice: the
    counter does not reach [Empty] and the room is not destroyed. *)
Lemma counted_twice_out_run (s : st D) sid id i p row sess :
  pool_ok s → room_is s i p (mkRoom i 2 {[id := sid]}) row → sessions s !! sid = Some sess →
  member (accts s) (ukey id) i → (∀ k, member (accts s) k i → k = ukey id) →
  ∃ s', C_ROOM_OUT_job sid id s = Ret (tt, s') ∧ sent s' = sent s ++ [(sid, Msg.S_ROOM_OUT)] ∧
    room_is s' i p (mkRoom i 1 ∅) (add_count (-1) row) ∧ ∀ k, ¬ member (accts s') k i.
Proof.
  intros (l & c1 & c2 & k1 & k2 & Hpool & Hne & H1 & H2) (Hi & Hp & Hrow) Hs (a & Ha & Hai) Halone.
  pose proof (room_of_law (w id) (db (dbs s))) as Hq0. setoid_rewrite Ha in Hq0. rewrite Hai in Hq0.
  destruct (set_room_law (w id) None (db (dbs s))) as (d1 & Hq1 & Ha1 & Hr1); [done|].
  destruct (dec_count_law i d1) as (d2 & Hq2 & Hr2 & Ha2).
  assert (accounts d2 = alter (with_room None) (ukey id) (accts s)) as Hacc by (by rewrite Ha2, Ha1).
  assert (∀ k, ¬ member (accounts d2) k i) as Hnone.
  { intros k. rewrite Hacc, member_alter. intros [(_ & _ & [=])|[Hk Hm]]. by apply Hk, Halone. }
  destruct (users_in_law i d2) as (rows & Hq3 & Hrows).
  assert (filter (λ p : wstr * account, a_room p.2 = Some i) (accounts d2) = ∅) as Hf.
  { apply map_eq. intros k. rewrite lookup_empty. apply map_lookup_filter_None. right. intros b Hb Hbr. by apply (Hnone k); exists b. }
  rewrite Hf, map_to_list_empty in Hrows. apply Permutation_nil_r in Hrows as ->.
  eexists. split; [|split].
  - eapply (respond_run _ _ _ (l ++ [c1]) c2); [by rewrite Hpool, <-app_assoc| |].
    + exec_first H2 Hq0. erewrite M_bind_step by apply fetch_run. rewrite bool_decide_eq_true_2 by eauto. run.
      change (DBBind.IsColNull _ _) with false. simpl negb. run. unfold GetRoom. run.
      change (out_int 1 _) with i. simpl _rooms. rewrite Hi. run.
      erewrite M_bind_step; last first.
      { unfold RemoveUser. erewrite M_bind_step by (apply (pop_run _ l c1); done). run.
        erewrite clear_room_run; [|simpl; rewrite lookup_insert_ne by done; exact H1|exact Hq1]. run.
        unfold room_at at 1. run. simpl heap. rewrite Hp. run. simpl _roomId. exec_next Hq2.
        simpl _users. rewrite lookup_singleton_eq, bool_decide_eq_true_2 by eauto. run.
        unfold SetRoom, session_at, set_session. run. simpl sessions. rewrite Hs. run. simpl roomState.
        rewrite decide_False by (unfold Empty; lia). unfold set_room. run. exec_next Hq3.
        erewrite M_bind_step by apply fetch_all_run. run. apply push_run. }
      run. apply Send_run. done.
    + done.
  - done.
  - unfold room_is, db_rooms, accts. simpl. rewrite delete_singleton_eq, Hr2, Hr1, lookup_alter_eq.
    split_and!; [done|apply lookup_insert_eq|by setoid_rewrite Hrow|exact Hnone].
Qed.

(** C37: a second join.  When a user of a room asks to join it again the server answers
    yes and counts the user twice: the seat counter and the row say one more than there
    are users, and memory and database no longer agree.  If the user was alone in the
    room, leaving it does not close it any more: the server answers the leave request, and
    the room is still listed, in memory and in the database, with a count of one, although
    nobody is in it. *)
Theorem second_join_counts_twice (s : st D) sid id roomname i p r row :
  server_inv s → room_is s i p r row → _users r !! id = Some sid → collate (r_name row) = ukey roomname →
  42 * roomState r + zlen roomname ≤ 5900 →
  ∃ s' l names, C_JOIN_ROOM_job sid id roomname s = Ret (tt, s') ∧
    sent s' = sent s ++ l ++ [(sid, join_of true roomname names)] ∧
    room_is s' i p (mkRoom i (roomState r + 1) (_users r)) (add_count 1 row) ∧ accts s' = accts s ∧ ¬ server_inv s' ∧
    (size (_users r) = 1%nat → ∃ s'', C_ROOM_OUT_job sid id s' = Ret (tt, s'') ∧
       sent s'' = sent s' ++ [(sid, Msg.S_ROOM_OUT)] ∧ room_is s'' i p (mkRoom i 1 ∅) (mkRow (r_name row) 1) ∧
       ∀ k, ¬ member (accts s'') k i).
Proof.
  intros Hsi Hroom Hu Hc Hsz. pose proof Hroom as (Hi & Hp & Hrow).
  destruct (second_join_run s sid id roomname i p r row Hsi Hroom Hu Hc Hsz)
    as (s' & l & names & E & Hs & Hr' & Hacc & Hpool & Hsess & Hn).
  exists s', l, names. split_and!; try done. intros Hone. destruct Hsi as [_ Hinv].
  destruct (li_rooms _ _ _ _ _ _ Hinv i p Hi) as (r0 & row0 & Hp0 & Hrow0 & Hok).
  rewrite Hp in Hp0. injection Hp0 as <-. rewrite Hrow in Hrow0. injection Hrow0 as <-.
  assert (_users r = {[id := sid]}) as Hus.
  { apply map_eq. intros v. destruct (decide (v = id)) as [->|Hv]; [by rewrite lookup_singleton_eq|].
    rewrite lookup_singleton_ne by done. assert (delete id (_users r) = ∅) as He.
    { apply map_size_empty_iff. rewrite map_size_delete, Hu, Hone. done. }
    by rewrite <-(lookup_delete_ne _ id), He, lookup_empty by done. }
  rewrite (ro_state _ _ _ _ _ _ Hok), Hone, Hus in Hr'.
  destruct (counted_twice_out_run s' sid id i p (add_count 1 row) _ Hpool Hr' Hsess) as (s'' & E' & Hs' & Hr'' & Hm).
  - rewrite Hacc. eapply user_account; [exact Hok|eauto].
  - rewrite Hacc. by eapply alone.
  - exists s''. split_and!; [done|done| |done]. unfold add_count in Hr''. simpl in Hr''.
    rewrite (ro_count _ _ _ _ _ _ Hok), Hone in Hr''. exact Hr''.
Qed.

End misuse.

(** Amy of room "talk" opens a second one and loses her connection. *)

Definition pub : str := [x70; x75; x62].

Lemma pub_free : name_free (WT := ascii_text) room_demo pub.
Proof.
  intros j row Hj. change (({[1 := talk_row]} : gmap Z room_row) !! j = Some row) in Hj.
  apply lookup_singleton_Some in Hj as [_ <-]. vm_compute. discriminate.
Qed.

Lemma second_room_strands_first_witness : ∃ s' j,
  C_CREATE_ROOM_job (WT := ascii_text) 7 amy pub room_demo = Ret (tt, s') ∧ j ≠ 1 ∧
  room_is s' 1 0 amys_room talk_row ∧ member (accts s') (ukey (WT := ascii_text) amy) j.
Proof.
  destruct (second_room_strands_first (WT := ascii_text) room_demo 7 amy 1 0 amys_room talk_row pub)
    as (s' & j & q & H1 & _ & H3 & H4 & _ & _ & H7 & _).
  - exact room_demo_inv.
  - exact room_demo_is.
  - reflexivity.
  - exact pub_free.
  - vm_compute. discriminate.
  - vm_compute. discriminate.
  - exists s', j. exact (conj H1 (conj H3 (conj H4 H7))).
Defined.

(** When she is gone the second room is closed and the first is still listed, with
    one user; a line of a user who joins it is still sent to her session. *)
Example stranded_room_stays :
  match (C_CREATE_ROOM_job (WT := ascii_text) 7 amy pub;; OnDisconnected (WT := ascii_text) 7;;
         C_JOIN_ROOM_job (WT := ascii_text) 8 bob talk;; C_CHAT_LOG_job (WT := ascii_text) 8 bob secret) room_demo with
  | Ret (_, s) => map_to_list (r_count <$> db_rooms s) = [(1, 2)] ∧ map_to_list (_rooms s) = [(1, 0%nat)] ∧
                  ((7%nat, chat_packet bob secret) ∈ sent s)
  | Crash _ => False
  end.
Proof. vm_compute. split_and!; [reflexivity|reflexivity|]. set_solver. Qed.

Lemma second_join_counts_twice_witness : ∃ s' s'',
  C_JOIN_ROOM_job (WT := ascii_text) 7 amy talk room_demo = Ret (tt, s') ∧
  heap s' !! 0%nat = Some (mkRoom 1 2 {[amy := 7%nat]}) ∧
  C_ROOM_OUT_job (WT := ascii_text) 7 amy s' = Ret (tt, s'') ∧ heap s'' !! 0%nat = Some (mkRoom 1 1 ∅).
Proof.
  destruct (second_join_counts_twice (WT := ascii_text) (WL := ascii_text_len) room_demo 7 amy talk 1 0 amys_room talk_row)
    as (s' & l & names & H1 & _ & (_ & H3 & _) & _ & _ & H6).
  - exact room_demo_inv.
  - exact room_demo_is.
  - reflexivity.
  - reflexivity.
  - vm_compute. discriminate.
  - destruct H6 as (s'' & H7 & _ & (_ & H8 & _) & _); [reflexivity|].
    exists s', s''. exact (conj H1 (conj H3 (conj H7 H8))).
Defined.

(** After a second join the room outlives its user: amy leaves it and it stays, with
    a count of one and nobody in it; bob is told that he has joined, is not among
    its users, and does not get his own line. *)
Example ghost_room :
  match (C_JOIN_ROOM_job (WT := ascii_text) 7 amy talk;; C_ROOM_OUT_job (WT := ascii_text) 7 amy;;
         C_JOIN_ROOM_job (WT := ascii_text) 8 bob talk;; C_CHAT_LOG_job (WT := ascii_text) 8 bob secret) room_demo with
  | Ret (_, s) => map_to_list (r_count <$> db_rooms s) = [(1, 2)] ∧ _users <$> heap s !! 0%nat = Some ∅ ∧
                  last (sent s) = Some (8%nat, join_of true talk [bob])
  | Crash _ => False
  end.
Proof. vm_compute. split_and!; reflexivity. Qed.

(** A client whose lobby lists the room: two clicks on the join button, with the
    dialog's messages between them, send two requests. *)
Definition lobby_open : list Client.event :=
  ClientProps.login_run ClientProps.amy_w ClientProps.pw_w amy secret ++
  [Client.Message; Client.Packet (lobby_of [(talk, 1)]); Client.Message].

Example two_clicks_two_joins :
  match Client.handle_all (WT := ascii_text) (LB := ClientProps.by_code)
          (Client.Connected :: lobby_open ++
           [Client.Click (Client.BtnJoinRoom (Some 0%nat)); Client.Message;
            Client.Click (Client.BtnJoinRoom (Some 0%nat)); Client.Message]) ClientProps.opened with
  | Some (Ret s) => drop 2 (Client.sent s) =
      let m := Msg.C_JOIN_ROOM (C_JOIN_ROOM.set_id amy (C_JOIN_ROOM.set_roomname talk C_JOIN_ROOM.new)) in [m; m]
  | _ => False
  end.
Proof. vm_compute. reflexivity. Qed.

End ChatMisuse.
