(* ===== verification/ClientDispatch.v ===== *)
(** * ClientDispatch: from the server's packets to the client's handlers
      (Client/ServerPacketHandler.h, ServerSession.cpp)

    The client's handler table and the way of a packet from the framing layer
    to the handler of its class, and from there to the screen. *)

From S2P Require Import Prelude PacketSession PacketHandler LockQueue Wire Protocol Database ChatDb ChatServer Dispatch Client ClientProps.
#[local] Open Scope Z_scope.

Module ClientDispatch.
Import Client.

(** The classes [ServerPacketHandler::Init] registers. *)
Definition server_kinds : list Msg.kind :=
  [Msg.K_S_LOGIN; Msg.K_S_REGISTER; Msg.K_S_REFRESH_LOBBY; Msg.K_S_CREATE_ROOM; Msg.K_S_JOIN_ROOM;
   Msg.K_S_REFRESH_ROOM; Msg.K_S_CHAT_LOG; Msg.K_S_ROOM_OUT].

Definition Init (GPacketHandler : Dispatch.table) : Dispatch.table :=
  Dispatch.register server_kinds (Dispatch.Init_loop (Z.to_nat UINT16_MAX) GPacketHandler).

Section dispatch.
Context {WT : WinText} {LB : SortedListBox} {P : Msg.Parser}.

(** [HandlePacket<PacketType>]. *)
Definition HandlePacket_typed (k : Msg.kind) (buffer : list byte) : M st bool :=
  match Msg.ParseFromArray k (drop (Z.to_nat PacketSession.sizeof_PacketHeader) buffer) with
  | None => mret false
  | Some pkt => match Client.HandlePacket pkt with Some m => m | None => crash BadFunctionCall end
  end.

(** [ServerPacketHandler::HandlePacket], with the packet [OnRecv] cut out. *)
Definition HandlePacket (GPacketHandler : Dispatch.table) (buffer : list byte) : M st bool :=
  let id := PacketSession.packet_id buffer in
  if UINT16_MAX <=? id then crash OutOfBounds
  else match GPacketHandler !! id with
  | None => crash BadFunctionCall
  | Some Dispatch.Handle_INVALD => mret false
  | Some (Dispatch.HandlePacketOf k) => HandlePacket_typed k buffer
  end.

(** [ServerSession::OnRecvPacket] ignores the handler's result. *)
Definition OnRecvPacket (buffer : list byte) : M st unit :=
  HandlePacket (Init ∅) buffer;; mret tt.

(** A handler uses the values of the fields only. *)
Lemma HandlePacket_strip p q : Msg.strip p = Msg.strip q → Client.HandlePacket p = Client.HandlePacket q.
Proof.
  intros E. destruct p, q; simpl in E; try discriminate E; cbn [Client.HandlePacket];
    (try (injection E; clear E; intros)); subst;
    unfold Handle_S_LOGIN, Handle_S_REGISTER, Handle_S_REFRESH_LOBBY, Handle_S_CREATE_ROOM, Handle_S_JOIN_ROOM,
      Handle_S_REFRESH_ROOM, Handle_S_CHAT_LOG;
    repeat match goal with H : _ = _ |- _ => rewrite ?H; clear H end; reflexivity.
Qed.

(** A packet of the server reaches the handler of its class. *)
Lemma server_packet_handled p :
  Msg.kind_of p ∈ server_kinds → Msg.wf p → Msg.small p → Msg.utf8 p →
  ∃ m, Client.HandlePacket p = Some m ∧
    HandlePacket (Init ∅) (PacketHandler.packet_of (Msg.pkt_id (Msg.kind_of p)) (Msg.InternalSerialize p)) = m.
Proof.
  intros Hk Hwf Hs Hu. assert (0 ≤ Msg.pkt_id (Msg.kind_of p) < UINT16_MAX) by (by destruct p).
  unfold HandlePacket. rewrite PacketHandler.packet_of_id by (unfold UINT16_MAX in *; lia).
  case_test; [lia|]. unfold Init. rewrite Dispatch.register_lookup by done. unfold HandlePacket_typed.
  destruct (Dispatch.parse_packet (Msg.pkt_id (Msg.kind_of p)) p Hwf Hs Hu) as (p' & -> & Hp').
  rewrite (HandlePacket_strip p' p Hp').
  destruct p; simpl in *; try (eexists; split; reflexivity); exfalso; unfold server_kinds in Hk; set_solver.
Qed.

(** A client with no waiting message receives a chat line and dispatches its event. *)
Lemma chat_line_shown s m :
  ClientProps.inv s → posted s = [] → S_CHAT_LOG.wf m → S_CHAT_LOG.small m → S_CHAT_LOG.utf8 m →
  ∃ s1 s2, OnRecvPacket (PacketHandler.packet_of 1012 (S_CHAT_LOG.InternalSerialize m)) s = Ret (tt, s1) ∧
    handle Message s1 = Some (Ret s2) ∧
    _chatLog (roomPg s2) = _chatLog (roomPg s) ++ [bindLog (mkChat (CA2W (S_CHAT_LOG.id m)) (CA2W (S_CHAT_LOG.log m)))] ∧
    sent s1 = sent s ∧ sent s2 = sent s.
Proof.
  intros Hi Hp Hwf Hsm Hu.
  destruct (server_packet_handled (Msg.S_CHAT_LOG m)) as (h & Eh & E); [unfold server_kinds; set_solver|done..|].
  simpl in Eh. injection Eh as <-. simpl in E. unfold OnRecvPacket, mbind, M_bind. rewrite E.
  assert (q_chat s = []) as Hq.
  { pose proof (ClientProps.i_chat s Hi) as Hc. rewrite Hp in Hc. by destruct (q_chat s). }
  unfold Handle_S_CHAT_LOG, Execute. autorewrite with run. simpl.
  rewrite (ClientProps.i_cb_chat s Hi). unfold PostMessage. simpl. eexists _, _. split; [reflexivity|]. simpl.
  rewrite Hp. simpl. unfold OnUIEvent. simpl. unfold OnSendChatCompleted, ChatPop. simpl.
  unfold mbind, M_bind, LockQueue.Push. simpl. rewrite Hq. simpl. split_and!; reflexivity.
Qed.

(** From the wire to the screen.  When a client with no waiting message
    receives the packet of a chat line, whatever happened before, the line's
    event is posted and, when it is dispatched, the chat window shows the line
    with the sender's name below the lines it showed before. *)
Theorem chat_packet_displayed es s m :
  ClientProps.reaches es s → posted s = [] →
  S_CHAT_LOG.wf m → S_CHAT_LOG.small m → S_CHAT_LOG.utf8 m →
  ∃ s1 s2, OnRecvPacket (PacketHandler.packet_of 1012 (S_CHAT_LOG.InternalSerialize m)) s = Ret (tt, s1) ∧
    handle Message s1 = Some (Ret s2) ∧
    _chatLog (roomPg s2) = _chatLog (roomPg s) ++ [bindLog (mkChat (CA2W (S_CHAT_LOG.id m)) (CA2W (S_CHAT_LOG.log m)))].
Proof.
  intros Hr Hp Hwf Hsm Hu.
  destruct (chat_line_shown s m (ClientProps.reaches_inv es s Hr) Hp Hwf Hsm Hu) as (s1 & s2 & ? & ? & ? & _). eauto.
Qed.

(** ** Everything that can stop the client *)














End dispatch.




Lemma chat_packet_displayed_witness :
  ∃ s1 s2, OnRecvPacket (WT := ChatServer.ascii_text) (P := Msg.reference_parser)
      (PacketHandler.packet_of 1012 (S_CHAT_LOG.InternalSerialize ClientProps.chat_line))
      (ClientProps.after ClientProps.amy_in_room) = Ret (tt, s1) ∧
    handle (WT := ChatServer.ascii_text) (LB := ClientProps.by_code) Message s1 = Some (Ret s2) ∧
    _chatLog (roomPg s2) = [wlit "bob : hi"].
Proof.
  apply (chat_packet_displayed (WT := ChatServer.ascii_text) (LB := ClientProps.by_code) (P := Msg.reference_parser)
    ClientProps.amy_in_room (ClientProps.after ClientProps.amy_in_room) ClientProps.chat_line).
  - apply ClientProps.amy_in_room_reached.
  - reflexivity.
  - split; done.
  - split; done.
  - split; reflexivity.
Defined.

End ClientDispatch.
