(* ===== verification/System.v ===== *)
(** * System: the server, its clients and the packets between them
      (Server/, Client/ through their packet handlers)

    The whole program at the level of packets: one server and any number of
    clients, each with the packets on their way to and from it.  A packet is the
    bytes that [MakeSendBuffer] frames.  By the theorems on the receive and the
    send path a connection delivers the packets of a sender in order, so a
    direction of a connection is a queue.  One step is a user's action or a posted
    message at a client, a packet handled by the server, or one handled by a
    client. *)

From stdpp Require Import functions.
From S2P Require Import Prelude PacketHandler LockQueue Wire Protocol Database ChatDb ChatServer ChatRooms ChatFlow Dispatch Client ClientProps ClientDispatch.
#[local] Open Scope Z_scope.

Module System.
Section system.
Context {D : Type} `{!Odbc D} {WT : WinText} `{!ChatDb D} {LB : Client.SortedListBox} {P : Msg.Parser}.

Record st : Type := mk {
  world : Dispatch.world (D := D);
  clients : nat → Client.st;
  up : nat → list (list byte);
  down : nat → list (list byte)
}.

(** The packet of a message. *)
Definition wire (m : Msg.t) : list byte := PacketHandler.packet_of (Msg.pkt_id (Msg.kind_of m)) (Msg.InternalSerialize m).

(** What has been sent since [old]. *)
Definition news {A} (old new : list A) : list A := drop (length old) new.

(** The messages for session [u]. *)
Definition to_session (u : nat) (l : list (nat * Msg.t)) : list Msg.t := snd <$> filter (λ e, fst e = u) l.

Definition server_sent (x : st) : list (nat * Msg.t) := ChatServer.sent (Dispatch.server (world x)).

(** Everything but the arrival of a packet. *)
Definition user_event (e : Client.event) : bool := match e with Client.Packet _ => false | _ => true end.

Inductive step : st → st → Prop :=
| s_user c e a w f U Dn :
    user_event e = true → Client.handle e (f c) = Some (Ret a) →
    step (mk w f U Dn)
         (mk w (<[c := a]> f) (<[c := U c ++ (wire <$> news (Client.sent (f c)) (Client.sent a))]> U) Dn)
| s_server c bytes rest r w w' f U Dn :
    U c = bytes :: rest → Dispatch.HandlePacket (Dispatch.Init ∅) c bytes w = Ret (r, w') →
    step (mk w f U Dn)
         (mk w' f (<[c := rest]> U)
            (λ u, Dn u ++ (wire <$> to_session u
                     (news (ChatServer.sent (Dispatch.server w)) (ChatServer.sent (Dispatch.server w'))))))
| s_client c bytes rest a w f U Dn :
    Dn c = bytes :: rest → ClientDispatch.OnRecvPacket bytes (f c) = Ret (tt, a) →
    step (mk w f U Dn) (mk w (<[c := a]> f) U (<[c := rest]> Dn)).

(** ** The server only adds to what it has sent *)

(** A message of the server that its generated code can have made. *)
Definition good (m : Msg.t) : Prop := Msg.kind_of m ∈ ClientDispatch.server_kinds ∧ Msg.wf m.

Definition sends (s s' : ChatServer.st D) : Prop :=
  ∃ l, ChatServer.sent s' = ChatServer.sent s ++ l ∧ Forall (λ e, good (snd e)) l.

#[local] Instance sends_preorder : PreOrder sends.
Proof.
  split.
  - intros s. exists []. by rewrite app_nil_r.
  - intros s1 s2 s3 (l1 & E1 & H1) (l2 & E2 & H2). exists (l1 ++ l2). rewrite E2, E1, app_assoc. split; [done|by apply Forall_app].
Qed.

Lemma sends_same s s' : ChatServer.sent s' = ChatServer.sent s → sends s s'.
Proof. intros E. exists []. by rewrite app_nil_r. Qed.

Lemma on_db_sends {A} (m : M (DBConnection.st D) A) : moves sends (ChatServer.on_db m).
Proof. intros s a s'. unfold ChatServer.on_db. destruct (m (ChatServer.dbs s)) as [[b d]|]; [|done]. intros [= _ <-]. by apply sends_same. Qed.

Lemma modify_sends f : (∀ s, ChatServer.sent (f s) = ChatServer.sent s) → moves sends (modify f).
Proof. intros Hf. apply moves_modify. intros s. apply sends_same, Hf. Qed.

Lemma Send_sends sid pkt : good pkt → moves sends (ChatServer.Send sid pkt).
Proof.
  intros Hg. unfold ChatServer.Send. case_match; [|apply moves_crash]. apply moves_modify. intros s. exists [(sid, pkt)].
  split; [done|]. by constructor.
Qed.

#[local] Hint Resolve on_db_sends Send_sends : moves.
#[local] Hint Extern 2 (moves _ (modify _)) => apply modify_sends; done : moves.

Lemma execute_sends Pn Cn c q vs cs : moves sends (ChatServer.execute Pn Cn c q vs cs).
Proof. unfold ChatServer.execute. moves_run. Qed.

Lemma fetch_all_sends b : moves sends (ChatServer.fetch_all b).
Proof.
  unfold ChatServer.fetch_all. apply moves_bind; [apply _|apply on_db_sends|]. intros k.
  generalize (S (length (DBConnection.cursor k))). intros n. induction n as [|n IH]; simpl; [apply moves_crash|]. moves_run.
Qed.

Lemma room_at_sends p : moves sends (ChatServer.room_at p).
Proof. unfold ChatServer.room_at. moves_run. Qed.

Lemma session_at_sends p : moves sends (ChatServer.session_at p).
Proof. unfold ChatServer.session_at. moves_run. Qed.

Lemma set_room_sends p r : moves sends (ChatServer.set_room p r).
Proof. by apply modify_sends. Qed.

Lemma set_rooms_sends f : moves sends (ChatServer.set_rooms f).
Proof. by apply modify_sends. Qed.

Lemma set_session_sends sid c : moves sends (ChatServer.set_session sid c).
Proof. by apply modify_sends. Qed.

#[local] Hint Resolve set_room_sends set_rooms_sends set_session_sends execute_sends fetch_all_sends room_at_sends session_at_sends : moves.

Lemma BroadCast_sends p pkt exclu : good pkt → moves sends (ChatServer.BroadCast p pkt exclu).
Proof.
  intros Hg. unfold ChatServer.BroadCast. apply moves_bind; [apply _|apply room_at_sends|]. intros r.
  generalize ((map_to_list (ChatServer._users r)).*2). intros l. induction l as [|u l IH]; simpl; moves_run.
Qed.

Lemma SetRoom_sends sid room : moves sends (ChatServer.SetRoom sid room).
Proof. unfold ChatServer.SetRoom. moves_run. Qed.

Lemma SetId_sends sid id : moves sends (ChatServer.SetId sid id).
Proof. unfold ChatServer.SetId. moves_run. Qed.

#[local] Hint Resolve BroadCast_sends SetRoom_sends SetId_sends : moves.

(** The messages the respondents build have their presence bits. *)
Lemma bit_or a bit : CheckHasBit bit bit = true → CheckHasBit (Z.lor a bit) bit = true.
Proof. intros H. by rewrite CheckHasBit_lor, H, orb_true_r. Qed.

Ltac of_server := unfold ClientDispatch.server_kinds; simpl; set_solver.
Ltac bits := unfold CheckHasBit in *; simpl in *; try done.

Lemma refresh_room_good rows : good (ChatServer.refresh_room rows).
Proof.
  split; [of_server|]. unfold ChatServer.refresh_room. simpl.
  induction rows as [|row rows _] using rev_ind; [by intros H|]. rewrite foldl_app. simpl. intros _. by apply bit_or.
Qed.

Lemma lobby_packet_good rows : good (ChatServer.lobby_packet rows).
Proof.
  split; [of_server|]. unfold ChatServer.lobby_packet. simpl.
  set (m0 := S_REFRESH_LOBBY.set_issuccess true S_REFRESH_LOBBY.new). assert (S_REFRESH_LOBBY.wf m0) as H0 by done.
  generalize dependent m0. induction rows as [|row rows IH]; intros m Hm; [done|]. simpl. apply IH.
  destruct m as [b s ns cs], Hm as (H1 & H2 & H3). unfold S_REFRESH_LOBBY.wf. simpl in *.
  rewrite !CheckHasBit_lor. split_and!.
  - intros H%H1. by rewrite H.
  - intros _. by rewrite orb_true_r.
  - intros _. by rewrite orb_true_r.
Qed.

Lemma join_packet_good ok name rows : good (ChatServer.join_packet ok name rows).
Proof.
  split; [of_server|]. unfold ChatServer.join_packet. simpl.
  set (m0 := S_JOIN_ROOM.set_roomname name S_JOIN_ROOM.new). assert (S_JOIN_ROOM.wf m0) as H0 by done.
  generalize dependent m0. induction rows as [|row rows IH]; intros m Hm; simpl.
  - destruct m as [b s n us], Hm as (H1 & H2 & H3). unfold S_JOIN_ROOM.wf. simpl in *. rewrite !CheckHasBit_lor. split_and!.
    + intros _. by rewrite orb_true_r.
    + intros H%H2. by rewrite H.
    + intros H%H3. by rewrite H.
  - apply IH. destruct m as [b s n us], Hm as (H1 & H2 & H3). unfold S_JOIN_ROOM.wf. simpl in *. rewrite !CheckHasBit_lor. split_and!.
    + intros H%H1. by rewrite H.
    + intros H%H2. by rewrite H.
    + intros _. by rewrite orb_true_r.
Qed.

#[local] Hint Resolve refresh_room_good lobby_packet_good join_packet_good : moves.

(** Messages made of setters only. *)
Ltac set_good := split; [of_server|first [exact I|split_and!; intros; done]].

Lemma RemoveUser_sends p u : moves sends (ChatServer.RemoveUser p u).
Proof.
  unfold ChatServer.RemoveUser, ChatServer.RemoveRoom. moves_run.
Qed.

#[local] Hint Resolve RemoveUser_sends : moves.

Lemma respond_sends job : (∀ c, moves sends (job c)) → moves sends (ChatServer.respond job).
Proof. intros Hj. unfold ChatServer.respond. moves_run; try apply Hj. Qed.

Lemma Handle_sends session pkt m : Dispatch.Handle session pkt = Some m →
  moves (λ x y, sends (Dispatch.server x) (Dispatch.server y)) m.
Proof.
  assert (∀ job, moves sends job → moves (λ x y, sends (Dispatch.server x) (Dispatch.server y)) (Dispatch.PacketRespondent job)) as K.
  { intros job Hj x b y. unfold Dispatch.PacketRespondent, Dispatch.on_server, mbind, M_bind. destruct (job (Dispatch.server x)) as [[[] s]|] eqn:E; [|done].
    simpl. intros [= _ <-]. simpl. by eapply Hj. }
  destruct pkt; simpl; intros [= <-]; apply K, respond_sends; intros c.
  - moves_run. apply Send_sends. set_good.
  - moves_run. apply Send_sends. set_good.
  - moves_run.
  - unfold ChatServer.new_Room, ChatServer.AddRoom. moves_run. apply Send_sends. set_good.
  - unfold ChatServer.GetRoom, ChatServer.claim_seat, ChatServer.AddUser. moves_run.
  - unfold ChatServer.GetRoom. moves_run. apply BroadCast_sends. set_good.
  - unfold ChatServer.GetRoom. moves_run. apply Send_sends. set_good.
Qed.

(** ** What a client's handlers do to the lines it has received *)

(** The lines of a message. *)
Definition lines (m : Msg.t) : list Client.ChatLogData :=
  match m with
  | Msg.S_CHAT_LOG p => [Client.mkChat (Client.CA2W (S_CHAT_LOG.id p)) (Client.CA2W (S_CHAT_LOG.log p))]
  | _ => []
  end.

Definition in_order (s : Client.st) : Prop := Client.shown s ++ Client.q_chat s = Client.arrived s.

(** Nothing arrives, and what has arrived stays in order. *)
Definition quiet (s s' : Client.st) : Prop := Client.arrived s' = Client.arrived s ∧ (in_order s → in_order s').

#[local] Instance quiet_preorder : PreOrder quiet.
Proof. split; [done|]. intros s1 s2 s3 [E1 H1] [E2 H2]. split; [congruence|auto]. Qed.

Lemma modify_quiet f :
  (∀ s, Client.arrived (f s) = Client.arrived s ∧ Client.shown (f s) = Client.shown s ∧ Client.q_chat (f s) = Client.q_chat s) →
  moves quiet (modify f).
Proof.
  intros Hf. apply moves_modify. intros s. destruct (Hf s) as (E1 & E2 & E3). split; [done|]. unfold in_order. by rewrite E1, E2, E3.
Qed.

#[local] Hint Extern 2 (moves quiet (modify _)) => apply modify_quiet; done : moves.

Lemma pop_quiet {A} (m : M Client.st A) :
  (∀ s a s', m s = Ret (a, s') → Client.arrived s' = Client.arrived s ∧ Client.shown s' = Client.shown s ∧ Client.q_chat s' = Client.q_chat s) →
  moves quiet m.
Proof. intros Hm s a s' E. destruct (Hm s a s' E) as (E1 & E2 & E3). split; [done|]. unfold in_order. by rewrite E1, E2, E3. Qed.

Ltac queue_quiet := apply pop_quiet; intros s a s'; unfold LockQueue.Pop_out; case_match; by intros [= _ <-].

Lemma AuthPop_quiet : moves quiet Client.AuthPop.
Proof. unfold Client.AuthPop. queue_quiet. Qed.
Lemma CreatePop_quiet : moves quiet Client.CreatePop.
Proof. unfold Client.CreatePop. queue_quiet. Qed.
Lemma JoinPop_quiet : moves quiet Client.JoinPop.
Proof. unfold Client.JoinPop. queue_quiet. Qed.
Lemma LobbyPop_quiet : moves quiet Client.LobbyPop.
Proof. unfold Client.LobbyPop. queue_quiet. Qed.
Lemma UsersPop_quiet : moves quiet Client.UsersPop.
Proof. unfold Client.UsersPop. queue_quiet. Qed.

Lemma RequestService_quiet m pkt ev : moves quiet (Client.RequestService m pkt ev).
Proof. unfold Client.RequestService, Client.Subscribe, Client.Send. moves_run. Qed.

Lemma refresh_request_quiet : moves quiet Client.refresh_request.
Proof. apply RequestService_quiet. Qed.

Lemma PostMessage_quiet ev : moves quiet (Client.PostMessage ev).
Proof. by apply modify_quiet. Qed.
Lemma AfxMessageBox_quiet b : moves quiet (Client.AfxMessageBox b).
Proof. by apply modify_quiet. Qed.
Lemma page_login_quiet f : moves quiet (Client.page_login f).
Proof. by apply modify_quiet. Qed.
Lemma page_lobby_quiet f : moves quiet (Client.page_lobby f).
Proof. by apply modify_quiet. Qed.
Lemma page_room_quiet f : moves quiet (Client.page_room f).
Proof. by apply modify_quiet. Qed.

Lemma Execute_quiet m isClear : moves quiet (Client.Execute m isClear).
Proof. unfold Client.Execute. moves_run; by apply modify_quiet. Qed.

#[local] Hint Resolve AuthPop_quiet CreatePop_quiet JoinPop_quiet LobbyPop_quiet UsersPop_quiet RequestService_quiet refresh_request_quiet
  PostMessage_quiet AfxMessageBox_quiet page_login_quiet page_lobby_quiet page_room_quiet Execute_quiet : moves.

(** The handler that displays a line takes it from the queue. *)
Lemma OnSendChatCompleted_quiet : moves quiet Client.OnSendChatCompleted.
Proof.
  intros s [] s'. unfold Client.OnSendChatCompleted, Client.ChatPop, mbind, M_bind. destruct (Client.q_chat s) as [|d q] eqn:Eq; [done|].
  simpl. intros [= <-]. split; [done|]. unfold in_order. simpl. rewrite Eq. by rewrite <-app_assoc.
Qed.

#[local] Hint Resolve OnSendChatCompleted_quiet : moves.

Lemma OnUIEvent_quiet ev : moves quiet (Client.OnUIEvent ev).
Proof.
  unfold Client.OnUIEvent. destruct ev; simpl; unfold Client.LoginHandler, Client.LobbyHandler, Client.RoomHandler,
    Client.OnClickedLogin, Client.OnLoginCompleted_login, Client.OnClickedRegister, Client.OnRegisterCompleted,
    Client.OnLoginCompleted_lobby, Client.OnRefreshClicked, Client.refresh_request, Client.OnRefreshCompleted_lobby,
    Client.OnCreateRoomClicked, Client.OnCreateRoomCompleted_lobby, Client.OnJoinRoomClicked, Client.OnJoinRoomCompleted_lobby,
    Client.OnLeaveRoomCompleted_lobby, Client.OnCreateRoomCompleted_room, Client.OnJoinRoomCompleted_room,
    Client.OnSendChatClicked, Client.OnRefreshCompleted_room, Client.OnLeaveRoomClicked, Client.OnLeaveRoomCompleted_room,
    Client.AuthFront, Client.CreateFront, Client.JoinFront; moves_run.
Qed.

Lemma OnClick_quiet c : moves quiet (Client.OnClick c).
Proof.
  destruct c; simpl; unfold Client.OnBnClickedLogin, Client.OnBnClickedLegister, Client.OnBnClickedCreateRoom, Client.OnBnClickedJoinRoom,
    Client.OnBnClickedRefresh, Client.OnBnClickedSend, Client.OnBnClickedLeave; moves_run.
Qed.

Lemma after_box_quiet b : moves quiet (Client.after_box b).
Proof. destruct b; simpl; moves_run. Qed.

Lemma ret_quiet {A} (m : M Client.st A) s0 s s' :
  moves quiet m → quiet s s0 → ('(_, x) ← m s0; Ret x) = Ret s' → quiet s s'.
Proof. intros Hm H0. destruct (m s0) as [[a x]|] eqn:E; simpl; [|done]. intros [= <-]. etrans; [exact H0|by eapply Hm]. Qed.

(** No event but the arrival of a packet touches them. *)
Lemma user_event_quiet e s s' : user_event e = true → Client.handle e s = Some (Ret s') → quiet s s'.
Proof.
  destruct e as [|c|pkt| |]; simpl; intros He; [| |done| |].
  - intros [= E]. eapply ret_quiet; [|reflexivity|exact E]. unfold Client.OnConnected. moves_run.
  - case_match; [|done]. intros [= E]. eapply ret_quiet; [apply OnClick_quiet|reflexivity|exact E].
  - destruct (Client.posted s) as [|ev rest]; [done|]. intros [= E]. eapply ret_quiet; [apply OnUIEvent_quiet| |exact E]. done.
  - destruct (Client.boxes s) as [|b rest]; [done|]. intros [= E]. eapply ret_quiet; [apply after_box_quiet| |exact E]. done.
Qed.

(** A packet adds its lines, if it has any. *)
Lemma packet_lines pkt m s r s' :
  Client.HandlePacket pkt = Some m → m s = Ret (r, s') →
  Client.arrived s' = Client.arrived s ++ lines pkt ∧ (in_order s → in_order s').
Proof.
  intros Hm E. assert (moves quiet m ∧ lines pkt = [] ∨ ∃ p, pkt = Msg.S_CHAT_LOG p) as [[Hq ->]|[p ->]].
  { destruct pkt; simpl in Hm; injection Hm as <- || discriminate; try (by right; eauto); left; (split; [|done]).
    - unfold Client.Handle_S_LOGIN. moves_run.
    - unfold Client.Handle_S_REGISTER. moves_run.
    - unfold Client.Handle_S_REFRESH_LOBBY. moves_run.
    - unfold Client.Handle_S_CREATE_ROOM. moves_run.
    - unfold Client.Handle_S_JOIN_ROOM. moves_run.
    - unfold Client.Handle_S_REFRESH_ROOM. moves_run.
    - unfold Client.Handle_S_ROOM_OUT. moves_run. }
  - destruct (Hq s r s' E) as [E' H']. by rewrite app_nil_r.
  - injection Hm as <-. unfold Client.Handle_S_CHAT_LOG in E. autorewrite with run in E.
    set (s1 := Client.set_q_chat _ _) in E. apply M_bind_inv in E as (x & s2 & E1 & [= _ <-]).
    destruct (Execute_quiet _ _ _ _ _ E1) as [Ea Ho]. split; [by rewrite Ea|]. intros Hin. apply Ho. unfold in_order, s1. simpl.
    unfold LockQueue.Push. by rewrite app_assoc, Hin.
Qed.

(** ** The invariant of the connections *)

(** A message the receiver's parser accepts. *)
Definition deliverable (m : Msg.t) : Prop := Msg.small m ∧ Msg.utf8 m.

(** To every session, what was handled and what is on its way are what the server
    has sent to it. *)
Definition in_transit (x : st) : Prop :=
  ∀ u, ∃ done_ todo, to_session u (server_sent x) = done_ ++ todo ∧ down x u = wire <$> todo ∧
    Client.arrived (clients x u) = done_ ≫= lines ∧ in_order (clients x u).

Lemma HandlePacket_sends c bytes w r w' :
  Dispatch.HandlePacket (Dispatch.Init ∅) c bytes w = Ret (r, w') → sends (Dispatch.server w) (Dispatch.server w').
Proof.
  unfold Dispatch.HandlePacket. case_match; [done|]. destruct (_ !! _) as [[|k]|]; [intros [= _ <-]; reflexivity| |done].
  unfold Dispatch.HandlePacket_typed. destruct (Msg.ParseFromArray _ _) as [pkt|]; [|intros [= _ <-]; reflexivity].
  destruct (Dispatch.Handle c pkt) as [m|] eqn:E; [|done]. by apply (Handle_sends c pkt m E).
Qed.

Lemma step_sends x y : step x y → ∃ l, server_sent y = server_sent x ++ l ∧ Forall (λ e, good (snd e)) l.
Proof.
  intros Hs. destruct Hs; unfold server_sent; simpl.
  - exists []. by rewrite app_nil_r.
  - by eapply HandlePacket_sends.
  - exists []. by rewrite app_nil_r.
Qed.

Lemma news_app {A} (old l : list A) : news old (old ++ l) = l.
Proof. apply drop_app_length. Qed.

Lemma to_session_app u l l' : to_session u (l ++ l') = to_session u l ++ to_session u l'.
Proof. unfold to_session. by rewrite filter_app, fmap_app. Qed.

Lemma to_session_in u l m : m ∈ to_session u l → (u, m) ∈ l.
Proof. intros ([v m'] & -> & [E Hin]%list_elem_of_filter)%list_elem_of_fmap. simpl in E. by subst. Qed.

Lemma transit_step x y :
  step x y → Forall (λ e, good (snd e) ∧ deliverable (snd e)) (server_sent x) → in_transit x → in_transit y.
Proof.
  intros Hs Hgood Hx. destruct Hs as [c e a w f U Dn He Ha|c bytes rest r w w' f U Dn HU Hh|c bytes rest a w f U Dn HD Ha];
    unfold server_sent in *; simpl in *; intros u; destruct (Hx u) as (done_ & todo & Hto & Hdown & Harr & Hin); unfold server_sent in *; simpl in *.
  - exists done_, todo. split_and!; [done|done| |].
    + destruct (decide (u = c)) as [->|]; [rewrite fn_lookup_insert|by rewrite fn_lookup_insert_ne].
      by rewrite (proj1 (user_event_quiet e _ _ He Ha)).
    + destruct (decide (u = c)) as [->|]; [rewrite fn_lookup_insert|by rewrite fn_lookup_insert_ne].
      by apply (user_event_quiet e _ _ He Ha).
  - destruct (HandlePacket_sends _ _ _ _ _ Hh) as (l & El & _). exists done_, (todo ++ to_session u l). rewrite El, news_app.
    split_and!; [by rewrite to_session_app, Hto, app_assoc|by rewrite fmap_app, Hdown|done|done].
  - destruct (decide (u = c)) as [->|]; [|by exists done_, todo; rewrite !fn_lookup_insert_ne].
    rewrite !fn_lookup_insert. rewrite Hdown in HD. destruct todo as [|m todo]; [done|]. simpl in HD. injection HD as <- <-.
    assert ((c, m) ∈ ChatServer.sent (Dispatch.server w)) as Hm by (apply to_session_in; rewrite Hto; set_solver).
    rewrite Forall_forall in Hgood. destruct (Hgood _ Hm) as [[Hk Hwf] [Hsm Hu]]. simpl in *.
    destruct (ClientDispatch.server_packet_handled m Hk Hwf Hsm Hu) as (h & Eh & E).
    unfold ClientDispatch.OnRecvPacket in Ha. apply M_bind_inv in Ha as (b & s1 & E1 & [= <-]). unfold wire in E1. rewrite E in E1.
    destruct (packet_lines m h _ _ _ Eh E1) as [Earr Hord].
    exists (done_ ++ [m]), todo. split_and!; [by rewrite Hto, <-app_assoc|done| |by apply Hord].
    rewrite Earr, Harr, bind_app. simpl. by rewrite app_nil_r.
Qed.

(** The system before the first packet. *)
Definition starting (x : st) : Prop :=
  (∀ u, down x u = []) ∧ server_sent x = [] ∧ ∀ u, Client.arrived (clients x u) = [] ∧ in_order (clients x u).

Lemma starting_transit x : starting x → in_transit x.
Proof. intros (Hd & Hs & Hc) u. exists [], []. rewrite Hd, Hs. destruct (Hc u) as [-> ?]. done. Qed.

Lemma run_good x y : rtc step x y → Forall (λ e, good (snd e)) (server_sent x) → Forall (λ e, good (snd e)) (server_sent y).
Proof.
  induction 1 as [|x x1 y H1 _ IH]; [done|]. intros Hx. apply IH. destruct (step_sends x x1 H1) as (l & -> & Hl). by apply Forall_app.
Qed.

Lemma run_prefix x y : rtc step x y → server_sent x `prefix_of` server_sent y.
Proof.
  induction 1 as [|x x1 y H1 _ IH]; [done|]. destruct (step_sends x x1 H1) as (l & E & _). etrans; [|exact IH]. rewrite E. by apply prefix_app_r.
Qed.

Lemma run_transit x y :
  rtc step x y → Forall (λ e, good (snd e)) (server_sent x) → Forall (λ e, deliverable (snd e)) (server_sent y) →
  in_transit x → in_transit y.
Proof.
  induction 1 as [|x x1 y H1 Hr IH]; [done|]. intros Hg Hd Hx. pose proof (run_prefix x1 y Hr) as [l El].
  destruct (step_sends x x1 H1) as (l1 & E1 & Hl1). apply IH; [rewrite E1; by apply Forall_app|done|].
  eapply transit_step; [exact H1| |exact Hx]. apply Forall_and. split; [done|].
  rewrite El, E1 in Hd. by apply Forall_app in Hd as [[? _]%Forall_app _].
Qed.

(** C3: what a user sees is what the server sent to that user.  In every run of the
    server with any number of clients, whatever the users click and however the
    packets and messages interleave: the chat lines a client has displayed, then
    those in its queue, then those on their way to it, are exactly the lines the
    server has sent to its session, each once and in the order of sending. *)
Theorem lines_end_to_end x y u :
  starting x → rtc step x y → Forall (λ e, deliverable (snd e)) (server_sent y) →
  ∃ todo, down y u = wire <$> todo ∧
    Client.shown (clients y u) ++ Client.q_chat (clients y u) ++ (todo ≫= lines) =
    to_session u (server_sent y) ≫= lines.
Proof.
  intros Hx Hr Hd. assert (Forall (λ e, good (snd e)) (server_sent x)) as Hg by (by rewrite (proj1 (proj2 Hx))).
  destruct (run_transit x y Hr Hg Hd (starting_transit x Hx) u) as (done_ & todo & Hto & Hdown & Harr & Hin).
  exists todo. split; [done|]. rewrite app_assoc, Hin, Harr, Hto. by rewrite bind_app.
Qed.

(** ** Clients that receive *)

(** The client takes the packets of [ms] and dispatches messages, sending nothing. *)
Inductive reacts : list Msg.t → Client.st → Client.st → Prop :=
| re_done a : reacts [] a a
| re_recv m ms a a1 b : ClientDispatch.OnRecvPacket (wire m) a = Ret (tt, a1) → reacts ms a1 b → reacts (m :: ms) a b
| re_msg ms a a1 b :
    Client.handle Client.Message a = Some (Ret a1) → Client.sent a1 = Client.sent a → reacts ms a1 b → reacts ms a b.

Lemma deliver_reacts ms a b : reacts ms a b → ∀ (x : st) u rest,
  clients x u = a → down x u = (wire <$> ms) ++ rest →
  ∃ y, rtc step x y ∧ world y = world x ∧ (∀ v, up y v = up x v) ∧ clients y u = b ∧ down y u = rest ∧
    ∀ v, v ≠ u → clients y v = clients x v ∧ down y v = down x v.
Proof.
  induction 1 as [a|m ms a a1 b E _ IH|ms a a1 b E Es _ IH]; intros [w f U Dn] u rest Ha Hd; cbn [world clients up down] in *.
  - exists (mk w f U Dn). by split_and!.
  - destruct (IH (mk w (<[u := a1]> f) U (<[u := (wire <$> ms) ++ rest]> Dn)) u rest) as (y & R & Hw & HU & Hc & Hdn & Ho);
      [apply fn_lookup_insert|apply fn_lookup_insert|]. cbn [world clients up down] in *.
    exists y. split_and!; [|done..|].
    + eapply rtc_l; [|exact R]. apply (s_client u (wire m)); [by rewrite Hd|by rewrite Ha].
    + intros v Hv. destruct (Ho v Hv) as [-> ->]. by rewrite !fn_lookup_insert_ne.
  - destruct (IH (mk w (<[u := a1]> f) (<[u := U u ++ (wire <$> news (Client.sent (f u)) (Client.sent a1))]> U) Dn) u rest)
      as (y & R & Hw & HU & Hc & Hdn & Ho); [apply fn_lookup_insert|done|]. cbn [world clients up down] in *.
    exists y. split_and!; [|done| |done|done|].
    + eapply rtc_l; [|exact R]. apply (s_user u Client.Message); [done|by rewrite Ha].
    + intros v. rewrite HU. destruct (decide (v = u)) as [->|]; [|by rewrite fn_lookup_insert_ne].
      rewrite fn_lookup_insert, Ha, Es. unfold news. by rewrite drop_all, app_nil_r.
    + intros v Hv. destruct (Ho v Hv) as [-> ->]. by rewrite fn_lookup_insert_ne.
Qed.

(** All clients of [l] take what is on its way to them. *)
Lemma deliver_list (Q : Client.st → Client.st → Prop) (m : Msg.t) l : NoDup l → ∀ x : st,
  (∀ u, u ∈ l → down x u = [wire m] ∧ ∃ b, reacts [m] (clients x u) b ∧ Q (clients x u) b) →
  ∃ y, rtc step x y ∧ world y = world x ∧ (∀ v, up y v = up x v) ∧
    (∀ u, u ∈ l → down y u = [] ∧ Q (clients x u) (clients y u)) ∧
    ∀ v, v ∉ l → clients y v = clients x v ∧ down y v = down x v.
Proof.
  induction 1 as [|u l Hu Hnd IH]; intros x Hx.
  - exists x. split_and!; try done. intros u Hin. by apply not_elem_of_nil in Hin.
  - destruct (Hx u ltac:(left)) as [Hd (b & Hr & HQ)].
    destruct (deliver_reacts _ _ _ Hr x u [] eq_refl Hd) as (x1 & R1 & W1 & U1 & C1 & D1 & O1).
    destruct (IH x1) as (y & R2 & W2 & U2 & L2 & O2).
    { intros v Hv. assert (v ≠ u) by (intros ->; done). destruct (O1 v) as [-> ->]; [done|]. apply Hx. by right. }
    exists y. split_and!; [by etrans|congruence|congruence| |].
    + intros v Hv. destruct (decide (v = u)) as [->|Hne]; [destruct (O2 u Hu) as [-> ->]; by rewrite C1|].
      apply elem_of_cons in Hv as [?|Hv]; [done|]. destruct (L2 v Hv) as [-> HQ']. split; [done|].
      destruct (O1 v Hne) as [E _]. by rewrite <-E.
    + intros v Hv. apply not_elem_of_cons in Hv as [Hne Hv]. destruct (O2 v Hv) as [-> ->]. by apply O1.
Qed.

(** ** A chat line from one user to the others *)

(** The line as it is displayed. *)
Definition line_of (id log : str) : Client.CString := Client.bindLog (Client.mkChat (Client.CA2W id) (Client.CA2W log)).

Definition chatLog (x : st) (u : nat) : list Client.CString := Client._chatLog (Client.roomPg (clients x u)).

(** A client that waits for packets. *)
Definition at_rest (s : Client.st) : Prop := ClientProps.inv s ∧ Client.posted s = [].

Definition chat_ok (id log : str) : Prop :=
  zlen id + zlen log ≤ 5900 ∧ Wire.utf8_valid id = true ∧ Wire.utf8_valid log = true.

Lemma chat_deliverable id log : chat_ok id log → good (ChatFlow.chat_packet id log) ∧ deliverable (ChatFlow.chat_packet id log).
Proof.
  intros (Hz & Hi & Hl). pose proof (zlen_nonneg id). pose proof (zlen_nonneg log). split; [set_good|]. split; split; simpl; done || lia.
Qed.

Lemma chat_reacts id log a : chat_ok id log → at_rest a →
  ∃ b, reacts [ChatFlow.chat_packet id log] a b ∧ Client._chatLog (Client.roomPg b) = Client._chatLog (Client.roomPg a) ++ [line_of id log].
Proof.
  intros Hok [Hi Hp]. destruct (chat_deliverable id log Hok) as [[_ Hwf] [Hsm Hu]].
  destruct (ClientDispatch.chat_line_shown _ _ Hi Hp Hwf Hsm Hu) as (s1 & s2 & E1 & E2 & Elog & Es1 & Es2).
  exists s2. split; [|exact Elog]. eapply re_recv; [exact E1|]. eapply re_msg; [exact E2|congruence|apply re_done].
Qed.

(** All the clients that have the line on its way display it. *)
Lemma deliver_all id log l : chat_ok id log → NoDup l → ∀ x : st,
  (∀ u, u ∈ l → at_rest (clients x u) ∧ down x u = [wire (ChatFlow.chat_packet id log)]) →
  ∃ y, rtc step x y ∧ world y = world x ∧ (∀ v, up y v = up x v) ∧
    (∀ u, u ∈ l → down y u = [] ∧ chatLog y u = chatLog x u ++ [line_of id log]) ∧
    ∀ v, v ∉ l → clients y v = clients x v ∧ down y v = down x v.
Proof.
  intros Hok Hnd x Hx.
  apply (deliver_list (λ a b, Client._chatLog (Client.roomPg b) = Client._chatLog (Client.roomPg a) ++ [line_of id log]) (ChatFlow.chat_packet id log) l Hnd x).
  intros u Hu. destruct (Hx u Hu) as [Hr Hd]. split; [exact Hd|]. by apply chat_reacts.
Qed.

(** The packet of the sender. *)
Definition request (id log : str) : Msg.t := Msg.C_CHAT_LOG (C_CHAT_LOG.set_log log (C_CHAT_LOG.set_id id C_CHAT_LOG.new)).

Lemma request_size id log : zlen id + zlen log ≤ 5900 → Msg.ByteSizeLong (request id log) ≤ PacketHandler.max_message.
Proof.
  intros Hs. pose proof (zlen_nonneg id). pose proof (zlen_nonneg log).
  pose proof (ChatServer.StringSize_short id ltac:(lia)). pose proof (ChatServer.StringSize_short log ltac:(lia)).
  change PacketHandler.max_message with 5996. unfold request; simpl. unfold C_CHAT_LOG.ByteSizeLong; simpl.
  repeat case_match; lia.
Qed.

(** The sender types the line and clicks. *)
Lemma send_line a data q text :
  at_rest a → Client.boxes a = [] → Client.room_shown (Client.roomPg a) = true → Client.q_auth a = data :: q → text ≠ [] →
  zlen (Client.CT2A (Client.auth_id data)) + zlen (Client.CT2A text) ≤ 5900 →
  ∃ a1 a2, Client.handle (Client.Click (Client.BtnSend text)) a = Some (Ret a1) ∧ Client.handle Client.Message a1 = Some (Ret a2) ∧
    Client.sent a1 = Client.sent a ∧
    Client.sent a2 = Client.sent a ++ [request (Client.CT2A (Client.auth_id data)) (Client.CT2A text)] ∧
    at_rest a2 ∧ Client._chatLog (Client.roomPg a2) = Client._chatLog (Client.roomPg a).
Proof.
  intros [Hi Hp] Hb Hs Hq Ht Hsz. destruct text as [|ch text]; [done|].
  assert (Client.handle (Client.Click (Client.BtnSend (ch :: text))) a =
    Some (Ret (Client.set_posted [Client.SendChatClicked_Room]
      (Client.set_roomPg (Client.mkRoomPg true (Client._chatLog (Client.roomPg a)) (Client._users (Client.roomPg a)) (ch :: text)
         (Client.room_roomName (Client.roomPg a))) a)))) as E1.
  { simpl. rewrite Hs, Hb. simpl. unfold Client.OnBnClickedSend, Client.page_room, Client.PostMessage. autorewrite with run. simpl.
    unfold Client.set_roomPg'. rewrite Hs. unfold modify. simpl. rewrite Hp. done. }
  destruct (ClientProps.inv_handle (Client.Click (Client.BtnSend (ch :: text))) a _ Hi E1) as [(s1 & [= <-] & Hi1)|(f & ? & _)]; [|done].
  set (s1 := Client.set_posted _ _) in *.
  assert (∃ s2, Client.handle Client.Message s1 = Some (Ret s2) ∧
    Client.sent s2 = Client.sent a ++ [request (Client.CT2A (Client.auth_id data)) (Client.CT2A (ch :: text))] ∧
    Client.posted s2 = [] ∧ Client._chatLog (Client.roomPg s2) = Client._chatLog (Client.roomPg a)) as (s2 & E2 & Hs2 & Hp2 & Hl2).
  { eexists. split.
    - eapply ClientProps.handle_Message; [reflexivity|].
      eapply (ClientProps.OnUIEvent_request _ _ _ Client.ChatLogModel); [reflexivity| |by apply request_size|exact (ClientProps.i_conn a Hi)].
      simpl. unfold Client.OnSendChatClicked, Client.AuthFront. autorewrite with run. simpl. rewrite Hq. simpl. autorewrite with run. reflexivity.
    - split_and!; reflexivity. }
  exists s1, s2. destruct (ClientProps.inv_handle Client.Message s1 _ Hi1 E2) as [(s2' & [= <-] & Hi2)|(f & ? & _)]; [|done]. done.
Qed.

(** The sessions of a room. *)
Definition members (r : ChatServer.Room) : list nat := (map_to_list (ChatServer._users r)).*2.

Lemma members_NoDup A S i p r row : ChatRooms.room_ok A S i p r row → NoDup (members r).
Proof.
  intros Hok. unfold members. apply NoDup_fmap_2_strong; [|apply NoDup_map_to_list].
  intros [u x] [v y] Hu%elem_of_map_to_list Hv%elem_of_map_to_list E. simpl in E. subst y.
  apply (ChatRooms.ro_sessions _ _ _ _ _ _ Hok) in Hu, Hv. congruence.
Qed.

Lemma to_session_all u l pkt : NoDup l → to_session u (ChatFlow.to_all l pkt) = if decide (u ∈ l) then [pkt] else [].
Proof.
  unfold to_session, ChatFlow.to_all. induction 1 as [|v l Hv Hnd IH]; [done|]. rewrite fmap_cons. destruct (decide (v = u)) as [->|Hne].
  - rewrite filter_cons_True by done. rewrite fmap_cons, IH, decide_False, decide_True by (done || left). done.
  - rewrite filter_cons_False by done. rewrite IH. destruct (decide (u ∈ l)); [rewrite decide_True by (by right)|rewrite decide_False by set_solver]; done.
Qed.

(** The server handles the sender's packet. *)
Lemma serve_line w c id log i p r row :
  ChatRooms.server_inv (Dispatch.server w) → ChatFlow.room_is (Dispatch.server w) i p r row →
  is_Some (ChatServer._users r !! id) → chat_ok id log → zlen (ChatServer.w log) ≤ 16383 →
  ∃ w', Dispatch.HandlePacket (Dispatch.Init ∅) c (wire (request id log)) w = Ret (true, w') ∧
    ChatRooms.server_inv (Dispatch.server w') ∧
    ChatServer.sent (Dispatch.server w') = ChatServer.sent (Dispatch.server w) ++ ChatFlow.to_all (members r) (ChatFlow.chat_packet id log).
Proof.
  intros Hinv Hroom Hid (Hz & Hui & Hul) Htext.
  destruct (ChatFlow.chat_run (Dispatch.server w) c id log i p r row Hinv Hroom Hid Hz Htext) as (s' & E & Hinv' & Hs' & _).
  destruct (Dispatch.dispatch_run (D := D) c (request id log)) as (m & Em & Eh).
  - unfold Dispatch.client_kinds. simpl. set_solver.
  - by split_and!.
  - pose proof (zlen_nonneg id). pose proof (zlen_nonneg log). split_and!; simpl; done || lia.
  - by split_and!.
  - cbn [Dispatch.Handle request] in Em. injection Em as <-. unfold wire. rewrite Eh.
    exists (Dispatch.mkWorld s' (Dispatch.GJobQueues w ++ [[]])). split; [|split; [exact Hinv'|exact Hs']].
    unfold Dispatch.PacketRespondent, Dispatch.on_server, mbind, M_bind. rewrite E. reflexivity.
Qed.

(** The run from the click to the last screen. *)
Lemma chat_line_run x c data q text i p r row :
  let id := Client.CT2A (Client.auth_id data) in
  let log := Client.CT2A text in
  ChatRooms.server_inv (Dispatch.server (world x)) → ChatFlow.room_is (Dispatch.server (world x)) i p r row →
  ChatServer._users r !! id = Some c →
  (∀ u, u ∈ members r → at_rest (clients x u) ∧ down x u = []) → up x c = [] →
  Client.boxes (clients x c) = [] → Client.room_shown (Client.roomPg (clients x c)) = true →
  Client.q_auth (clients x c) = data :: q → text ≠ [] →
  chat_ok id log → zlen (ChatServer.w log) ≤ 16383 →
  ∃ y, rtc step x y ∧ ChatRooms.server_inv (Dispatch.server (world y)) ∧ up y c = [] ∧
    server_sent y = server_sent x ++ ChatFlow.to_all (members r) (ChatFlow.chat_packet id log) ∧
    (∀ u, u ∈ members r → down y u = [] ∧ chatLog y u = chatLog x u ++ [line_of id log]) ∧
    ∀ u, u ∉ members r → clients y u = clients x u ∧ down y u = down x u.
Proof.
  intros id log Hinv Hroom Hu Hrest Hup Hbox Hshown Hq Ht Hok Htext.
  assert (c ∈ members r) as Hc by (apply list_elem_of_fmap; exists (id, c); split; [done|by apply elem_of_map_to_list]).
  destruct (ChatRooms.li_rooms _ _ _ _ _ _ (proj2 Hinv) i p (proj1 Hroom)) as (r0 & row0 & Hp0 & _ & Hrok).
  assert (r0 = r) as -> by (destruct Hroom as (_ & E & _); congruence). pose proof (members_NoDup _ _ _ _ _ _ Hrok) as Hnd.
  destruct x as [w f U Dn]. cbn [world clients up down] in *.
  destruct (send_line (f c) data q text (proj1 (Hrest c Hc)) Hbox Hshown Hq Ht (proj1 Hok)) as (a1 & a2 & E1 & E2 & S1 & S2 & R2 & L2).
  destruct (serve_line w c id log i p r row Hinv Hroom ltac:(by exists c) Hok Htext) as (w' & Eh & Hinv' & Hs').
  set (f2 := <[c := a2]> (<[c := a1]> f)).
  set (U1 := <[c := U c ++ (wire <$> news (Client.sent (f c)) (Client.sent a1))]> U).
  set (U2 := <[c := U1 c ++ (wire <$> news (Client.sent ((<[c := a1]> f) c)) (Client.sent a2))]> U1).
  assert (U2 c = [wire (request id log)]) as HU.
  { unfold U2, U1. rewrite !fn_lookup_insert, Hup, S1, S2, news_app. unfold news. by rewrite drop_all. }
  set (D3 := λ u, Dn u ++ (wire <$> to_session u (news (ChatServer.sent (Dispatch.server w)) (ChatServer.sent (Dispatch.server w'))))).
  destruct (deliver_all id log (members r) Hok Hnd (mk w' f2 (<[c := []]> U2) D3)) as (y & R & Hw & HUy & Hl & Ho).
  { intros u Hin. cbn [clients down]. split.
    - unfold f2. destruct (decide (u = c)) as [->|]; [by rewrite fn_lookup_insert|]. rewrite 2 fn_lookup_insert_ne by done. by apply Hrest.
    - unfold D3. rewrite (proj2 (Hrest u Hin)), Hs', news_app, to_session_all, decide_True by done. done. }
  cbn [world clients up down] in *. exists y. split_and!.
  - eapply (rtc_l _ _ (mk w (<[c := a1]> f) U1 Dn)); [exact (s_user c (Client.Click (Client.BtnSend text)) a1 w f U Dn eq_refl E1)|].
    eapply (rtc_l _ _ (mk w f2 U2 Dn)).
    { apply (s_user c Client.Message a2 w (<[c := a1]> f) U1 Dn); [reflexivity|]. rewrite fn_lookup_insert. exact E2. }
    eapply rtc_l; [exact (s_server c _ _ _ w w' f2 U2 Dn HU Eh)|exact R].
  - by rewrite Hw.
  - by rewrite HUy, fn_lookup_insert.
  - unfold server_sent. by rewrite Hw, Hs'.
  - intros u Hin. destruct (Hl u Hin) as [-> ->]. split; [done|]. unfold chatLog. cbn [clients]. f_equal. unfold f2.
    destruct (decide (u = c)) as [->|]; [by rewrite fn_lookup_insert|]. by rewrite 2 fn_lookup_insert_ne.
  - intros u Hn. destruct (Ho u Hn) as [-> ->]. split.
    + unfold f2. assert (u ≠ c) by (intros E; apply Hn; rewrite E; exact Hc). rewrite 2 fn_lookup_insert_ne by (apply not_eq_sym; assumption). reflexivity.
    + unfold D3. rewrite Hs', news_app, to_session_all, decide_False by done. by rewrite app_nil_r.
Qed.

(** C2: a chat line reaches everybody in the room.  When a user of a room types a
    line and clicks, and the connections of the room are idle, then the packets and
    messages that follow can be delivered, and when they are, every client in the
    room, the sender's included, shows the line below its earlier lines, the other
    clients are unchanged, and nothing is left on the way. *)
Theorem chat_end_to_end x c data q text i p r row :
  let id := Client.CT2A (Client.auth_id data) in
  let log := Client.CT2A text in
  ChatRooms.server_inv (Dispatch.server (world x)) → ChatFlow.room_is (Dispatch.server (world x)) i p r row →
  ChatServer._users r !! id = Some c →
  (∀ u, u ∈ members r → at_rest (clients x u) ∧ down x u = []) → up x c = [] →
  Client.boxes (clients x c) = [] → Client.room_shown (Client.roomPg (clients x c)) = true →
  Client.q_auth (clients x c) = data :: q → text ≠ [] →
  chat_ok id log → zlen (ChatServer.w log) ≤ 16383 →
  ∃ y, rtc step x y ∧ ChatRooms.server_inv (Dispatch.server (world y)) ∧ up y c = [] ∧
    server_sent y = server_sent x ++ ChatFlow.to_all (members r) (ChatFlow.chat_packet id log) ∧
    (∀ u, u ∈ members r → down y u = [] ∧ chatLog y u = chatLog x u ++ [line_of id log]) ∧
    ∀ u, u ∉ members r → clients y u = clients x u ∧ down y u = down x u.
Proof. apply chat_line_run. Qed.

End system.

(** ** Witnesses *)

(** Amy is alone in her room. *)
Definition amy_online : st (D := mem) :=
  mk (Dispatch.mkWorld ChatFlow.room_demo []) (λ _, ClientProps.after ClientProps.amy_in_room) (λ _, []) (λ _, []).

Lemma amy_members : members ChatFlow.amys_room = [7%nat].
Proof. vm_compute. reflexivity. Qed.

Lemma amy_at_rest : at_rest (ClientProps.after ClientProps.amy_in_room).
Proof.
  split; [|reflexivity]. eapply (ClientProps.reaches_inv (WT := ChatServer.ascii_text) (LB := ClientProps.by_code)); apply ClientProps.amy_in_room_reached.
Qed.

Lemma chat_end_to_end_witness :
  ∃ y, rtc (step (WT := ChatServer.ascii_text) (LB := ClientProps.by_code) (P := Msg.reference_parser)) amy_online y ∧
    chatLog y 7 = [wlit "amy : hi"].
Proof.
  destruct (chat_end_to_end (WT := ChatServer.ascii_text) (LB := ClientProps.by_code) (P := Msg.reference_parser)
    amy_online 7 (Client.mkAuth true (wlit "amy") (wlit "pw")) [] (wlit "hi") 1 0 ChatFlow.amys_room ChatFlow.talk_row)
    as (y & Hr & _ & _ & _ & Hl & _).
  - apply ChatFlow.room_demo_inv.
  - apply ChatFlow.room_demo_is.
  - reflexivity.
  - intros u _. split; [apply amy_at_rest|reflexivity].
  - reflexivity.
  - reflexivity.
  - reflexivity.
  - reflexivity.
  - done.
  - split_and!; [vm_compute; congruence|reflexivity|reflexivity].
  - vm_compute. congruence.
  - exists y. split; [exact Hr|]. rewrite amy_members in Hl. destruct (Hl 7%nat) as [_ ->]; [left|]. reflexivity.
Defined.

Lemma amy_starts : starting amy_online.
Proof. split_and!; [done|reflexivity|]. intros u. split; [reflexivity|]. vm_compute. reflexivity. Qed.

Lemma amy_run :
  ∃ y, rtc (step (WT := ChatServer.ascii_text) (LB := ClientProps.by_code) (P := Msg.reference_parser)) amy_online y ∧
    server_sent y = [(7%nat, ChatFlow.chat_packet ChatServer.amy [x68; x69])].
Proof.
  destruct (chat_line_run (WT := ChatServer.ascii_text) (LB := ClientProps.by_code) (P := Msg.reference_parser)
    amy_online 7 (Client.mkAuth true (wlit "amy") (wlit "pw")) [] (wlit "hi") 1 0 ChatFlow.amys_room ChatFlow.talk_row)
    as (y & Hr & _ & _ & Hs & _).
  - apply ChatFlow.room_demo_inv.
  - apply ChatFlow.room_demo_is.
  - reflexivity.
  - intros u _. split; [apply amy_at_rest|reflexivity].
  - reflexivity.
  - reflexivity.
  - reflexivity.
  - reflexivity.
  - done.
  - split_and!; [vm_compute; congruence|reflexivity|reflexivity].
  - vm_compute. congruence.
  - exists y. split; [exact Hr|]. rewrite Hs, amy_members. reflexivity.
Qed.

Lemma lines_end_to_end_witness :
  ∃ y todo, rtc (step (WT := ChatServer.ascii_text) (LB := ClientProps.by_code) (P := Msg.reference_parser)) amy_online y ∧
    down y 7 = wire <$> todo ∧
    Client.shown (clients y 7%nat) ++ Client.q_chat (clients y 7%nat) ++ (todo ≫= lines (WT := ChatServer.ascii_text)) =
    [Client.mkChat (wlit "amy") (wlit "hi")].
Proof.
  destruct amy_run as (y & Hr & Hs).
  destruct (lines_end_to_end (WT := ChatServer.ascii_text) (LB := ClientProps.by_code) (P := Msg.reference_parser)
    amy_online y 7 amy_starts Hr) as (todo & Hd & Hl).
  - rewrite Hs. repeat constructor; vm_compute; congruence.
  - exists y, todo. split_and!; [exact Hr|exact Hd|]. rewrite Hl, Hs. reflexivity.
Defined.

End System.
