(* ===== verification/SystemLogin.v ===== *)
(** * SystemLogin: logging in, from the keyboard to the database and back
      (Client/LoginHandler.cpp, Server/AuthRespondent.h through the packet handlers)

    The run of [System] that follows a click on the login button of a client that
    has just connected, on both branches of the server's answer. *)

From stdpp Require Import functions.
From S2P Require Import Prelude PacketHandler LockQueue Wire Protocol Database ChatDb ChatServer ChatAuth ChatRooms ChatFlow Dispatch Client ClientProps ClientDispatch System.
#[local] Open Scope Z_scope.

Module SystemLogin.
Import System.
Section login.
Context {D : Type} `{!Odbc D} {WT : WinText} `{!ChatDb D} {LB : Client.SortedListBox} {P : Msg.Parser}.

(** A client that has opened its dialog and is connected. *)
Definition ready : Client.st := Client.set_GServerSession true ClientProps.opened.

(** The client's part, with the server's answer [ok] in the middle. *)
Lemma client_login id pw ok u p :
  id ≠ [] → pw ≠ [] → Msg.ByteSizeLong (Msg.C_LOGIN (ClientProps.login_packet id pw)) ≤ PacketHandler.max_message →
  ∃ a1 a2 m a3 a4,
    Client.handle (Client.Click (Client.BtnLogin id pw)) ready = Some (Ret a1) ∧ Client.sent a1 = [] ∧
    Client.handle Client.Message a1 = Some (Ret a2) ∧
    Client.sent a2 = [Msg.C_LOGIN (ClientProps.login_packet id pw)] ∧
    Client.HandlePacket (ChatAuth.login_reply ok u p) = Some m ∧ m a2 = Ret (true, a3) ∧ Client.sent a3 = Client.sent a2 ∧
    Client.handle Client.Message a3 = Some (Ret a4) ∧ Client.sent a4 = Client.sent a2 ∧
    if ok then Client.posted a4 = [Client.LoginCompleted_Lobby] ∧ Client.boxes a4 = [] ∧ Client.GServerSession a4 = true ∧
               Client.q_auth a4 = [Client.mkAuth true (Client.CA2W u) (Client.CA2W p)] ∧ Client.login_shown (Client.loginPg a4) = false
    else Client.posted a4 = [] ∧ Client.boxes a4 = [Client.LoginFailed] ∧ Client.login_shown (Client.loginPg a4) = true ∧
         Client.lobby_shown (Client.lobbyPg a4) = false.
Proof.
  intros Hid Hpw Hn. destruct id as [|c id]; [done|]. destruct pw as [|d pw]; [done|].
  destruct ok; (eexists _, _, _, _, _; split; [reflexivity|]; split; [reflexivity|]; split;
    [eapply ClientProps.handle_Message; [reflexivity|];
     eapply (ClientProps.OnUIEvent_request _ _ _ Client.AuthModel (Msg.C_LOGIN (ClientProps.login_packet (c :: id) (d :: pw))));
       [reflexivity..|done|reflexivity]
    |split; [reflexivity|]; split; [reflexivity|]; split; [reflexivity|]; split; [reflexivity|]; split; [reflexivity|];
     split_and!; reflexivity]).
Qed.
(** The server's part. *)
Lemma serve_login w c u p sess :
  ChatServer.pool_ok (Dispatch.server w) → ChatServer.sessions (Dispatch.server w) !! c = Some sess →
  zlen u + zlen p ≤ 5900 → Wire.utf8_valid u = true → Wire.utf8_valid p = true →
  ∃ w', Dispatch.HandlePacket (Dispatch.Init ∅) c (wire (Msg.C_LOGIN (C_LOGIN.set_pssd p (C_LOGIN.set_id u C_LOGIN.new)))) w = Ret (true, w') ∧
    ChatAuth.login_effect c u p sess (Dispatch.server w) (Dispatch.server w').
Proof.
  intros Hpool Hs Hz Hu Hp. pose proof (zlen_nonneg u). pose proof (zlen_nonneg p).
  destruct (ChatAuth.login_run (Dispatch.server w) c u p sess Hpool Hs) as (s' & E & He).
  { intros ok. apply ChatAuth.login_reply_size. unfold ChatAuth.short. lia. }
  set (req := Msg.C_LOGIN _). destruct (Dispatch.dispatch_run (D := D) c req) as (m & Em & Eh).
  - unfold Dispatch.client_kinds. simpl. set_solver.
  - by split_and!.
  - split_and!; simpl; done || lia.
  - by split_and!.
  - cbn [Dispatch.Handle req] in Em. injection Em as <-. unfold wire. rewrite Eh.
    exists (Dispatch.mkWorld s' (Dispatch.GJobQueues w ++ [[]])). split; [|exact He].
    unfold Dispatch.PacketRespondent, Dispatch.on_server, mbind, M_bind. simpl. rewrite E. reflexivity.
Qed.

(** The answer reaches the handler of the client. *)
Lemma receive_reply ok u p m a a' :
  zlen u + zlen p ≤ 5900 → Wire.utf8_valid u = true → Wire.utf8_valid p = true →
  Client.HandlePacket (ChatAuth.login_reply ok u p) = Some m → m a = Ret (true, a') →
  ClientDispatch.OnRecvPacket (wire (ChatAuth.login_reply ok u p)) a = Ret (tt, a').
Proof.
  intros Hz Hu Hp Em Ea. pose proof (zlen_nonneg u). pose proof (zlen_nonneg p).
  destruct (ClientDispatch.server_packet_handled (ChatAuth.login_reply ok u p)) as (m' & Em' & E).
  - unfold ClientDispatch.server_kinds. simpl. set_solver.
  - by split_and!.
  - split_and!; simpl; done || lia.
  - by split_and!.
  - rewrite Em in Em'. injection Em' as <-. unfold ClientDispatch.OnRecvPacket, wire, mbind, M_bind. rewrite E, Ea. reflexivity.
Qed.

(** The steps of one client, as states. *)
Lemma user_moves c e a l w (f : nat → Client.st) (U Dn : nat → list (list byte)) :
  user_event e = true → Client.handle e (f c) = Some (Ret a) → Client.sent a = Client.sent (f c) ++ l →
  step (mk w f U Dn) (mk w (<[c := a]> f) (<[c := U c ++ (wire <$> l)]> U) Dn).
Proof.
  intros He Eh Es. rewrite <-(news_app (Client.sent (f c)) l), <-Es. by apply (s_user c e).
Qed.

(** What the login leaves at client [c]. *)
Definition login_outcome (ok : bool) (u : str) (a : Client.st) : Prop :=
  if ok then Client.lobby_shown (Client.lobbyPg a) = true ∧ Client._me (Client.lobbyPg a) = Client.CA2W u ∧
             Client.login_shown (Client.loginPg a) = false ∧ Client.boxes a = []
  else Client.login_shown (Client.loginPg a) = true ∧ Client.lobby_shown (Client.lobbyPg a) = false ∧
       Client.boxes a = [Client.LoginFailed].

Lemma login_request_size u p :
  zlen u + zlen p ≤ 5900 → Msg.ByteSizeLong (Msg.C_LOGIN (C_LOGIN.set_pssd p (C_LOGIN.set_id u C_LOGIN.new))) ≤ PacketHandler.max_message.
Proof.
  intros Hz. pose proof (zlen_nonneg u). pose proof (zlen_nonneg p).
  pose proof (ChatServer.StringSize_short u ltac:(lia)). pose proof (ChatServer.StringSize_short p ltac:(lia)).
  change PacketHandler.max_message with 5996. simpl. unfold C_LOGIN.ByteSizeLong. simpl. repeat case_match; lia.
Qed.

(** The run until the client has dispatched the event of the answer. *)
Lemma login_answered w f U Dn c id pw sess :
  let u := Client.CT2A id in
  let p := Client.CT2A pw in
  let ok := ChatAuth.can_login (Dispatch.server w) u p in
  f c = ready → U c = [] → Dn c = [] →
  ChatServer.pool_ok (Dispatch.server w) → ChatServer.sessions (Dispatch.server w) !! c = Some sess →
  id ≠ [] → pw ≠ [] → zlen u + zlen p ≤ 5900 → Wire.utf8_valid u = true → Wire.utf8_valid p = true →
  ∃ w' f' U' D' a4, rtc step (mk w f U Dn) (mk w' f' U' D') ∧ ChatAuth.login_effect c u p sess (Dispatch.server w) (Dispatch.server w') ∧
    f' c = a4 ∧ U' c = [] ∧ D' c = [] ∧
    (if ok then Client.posted a4 = [Client.LoginCompleted_Lobby] ∧ Client.boxes a4 = [] ∧ Client.GServerSession a4 = true ∧
               Client.q_auth a4 = [Client.mkAuth true (Client.CA2W u) (Client.CA2W p)] ∧ Client.login_shown (Client.loginPg a4) = false
     else login_outcome false u a4) ∧
    ∀ v, v ≠ c → f' v = f v ∧ U' v = U v ∧ D' v = Dn v.
Proof.
  intros u p ok Hf HU HD Hpool Hs Hid Hpw Hz Hu Hp.
  assert (Msg.ByteSizeLong (Msg.C_LOGIN (ClientProps.login_packet id pw)) ≤ PacketHandler.max_message) as Hsz.
  { by apply login_request_size. }
  destruct (client_login id pw ok u p Hid Hpw Hsz) as (a1 & a2 & m & a3 & a4 & E1 & S1 & E2 & S2 & Em & E3 & S3 & E4 & S4 & Ho).
  destruct (serve_login w c u p sess Hpool Hs Hz Hu Hp) as (w' & Eh & He).
  pose proof (receive_reply ok u p m a2 a3 Hz Hu Hp Em E3) as Er.
  set (req := Msg.C_LOGIN (ClientProps.login_packet id pw)) in *.
  set (f1 := <[c := a1]> f). set (U1 := <[c := U c ++ (wire <$> [])]> U).
  set (f2 := <[c := a2]> f1). set (U2 := <[c := U1 c ++ (wire <$> [req])]> U1).
  set (D3 := λ v, Dn v ++ (wire <$> to_session v (news (ChatServer.sent (Dispatch.server w)) (ChatServer.sent (Dispatch.server w'))))).
  set (f4 := <[c := a3]> f2). set (U3 := <[c := []]> U2). set (D4 := <[c := []]> D3).
  assert (U2 c = [wire req]) as HU2 by (unfold U2, U1; by rewrite !fn_lookup_insert, HU).
  assert (∀ v, D3 v = Dn v ++ if decide (v = c) then [wire (ChatAuth.login_reply ok u p)] else []) as HD3.
  { intros v. unfold D3. rewrite (ChatAuth.le_sent _ _ _ _ _ _ He), news_app. unfold to_session. case_decide as E.
    - subst v. by rewrite filter_cons_True.
    - by rewrite filter_cons_False by (simpl; congruence). }
  exists w', (<[c := a4]> f4), (<[c := U3 c ++ (wire <$> [])]> U3), D4, a4. split_and!.
  - eapply (rtc_l _ _ (mk w f1 U1 Dn)).
    { apply (user_moves c (Client.Click (Client.BtnLogin id pw))); [reflexivity|by rewrite Hf|by rewrite Hf, S1]. }
    eapply (rtc_l _ _ (mk w f2 U2 Dn)).
    { apply (user_moves c Client.Message); [reflexivity|unfold f1; by rewrite fn_lookup_insert|unfold f1; by rewrite fn_lookup_insert, S1, S2]. }
    eapply (rtc_l _ _ (mk w' f2 U3 D3)); [by apply (s_server c (wire req) [] true)|].
    eapply (rtc_l _ _ (mk w' f4 U3 D4)).
    { apply (s_client c (wire (ChatAuth.login_reply ok u p))); [by rewrite HD3, HD, decide_True|]. unfold f2. by rewrite fn_lookup_insert. }
    eapply rtc_l; [|apply rtc_refl]. apply (user_moves c Client.Message); [reflexivity| |]; unfold f4; rewrite fn_lookup_insert; [done|].
    by rewrite S4, S3, app_nil_r.
  - done.
  - by rewrite fn_lookup_insert.
  - unfold U3. by rewrite !fn_lookup_insert.
  - unfold D4. by rewrite fn_lookup_insert.
  - destruct ok; [done|]. unfold login_outcome. destruct Ho as (_ & Hb & Hl & Hlob). by split_and!.
  - intros v Hv. assert (c ≠ v) as Hc by exact (not_eq_sym Hv). unfold f4, f2, f1, U3, U2, U1, D4.
    rewrite !fn_lookup_insert_ne by exact Hc. rewrite HD3, decide_False, app_nil_r by exact Hv. split_and!; reflexivity.
Qed.

(** C4: logging in, end to end.  A user of a client that has just connected types an
    id and a password and clicks.  The packets and messages that follow can be
    delivered, and when they are: if the account exists, has this password and is
    offline, the account is online, the session has its id, the client shows the
    lobby under the name that was typed and its request for the rooms is on the
    way; otherwise the database and the sessions are as before and the login page
    reports the failure.  Other clients are unchanged. *)
Theorem login_end_to_end x c id pw sess :
  let u := Client.CT2A id in
  let p := Client.CT2A pw in
  let s := Dispatch.server (world x) in
  let ok := ChatAuth.can_login s u p in
  clients x c = ready → up x c = [] → down x c = [] →
  ChatServer.pool_ok s → ChatServer.sessions s !! c = Some sess →
  id ≠ [] → pw ≠ [] → zlen u + zlen p ≤ 5900 → Wire.utf8_valid u = true → Wire.utf8_valid p = true →
  ∃ y, rtc step x y ∧ ChatAuth.login_effect c u p sess s (Dispatch.server (world y)) ∧ login_outcome ok u (clients y c) ∧
    up y c = (if ok then [wire Msg.C_REFRESH_LOBBY] else []) ∧ down y c = [] ∧
    ∀ v, v ≠ c → clients y v = clients x v ∧ up y v = up x v ∧ down y v = down x v.
Proof.
  intros u p s ok Hf HU HD Hpool Hs Hid Hpw Hz Hu Hp. destruct x as [w f U Dn]. cbn [world clients up down] in *.
  destruct (login_answered w f U Dn c id pw sess Hf HU HD Hpool Hs Hid Hpw Hz Hu Hp) as (w' & f' & U' & D' & a & R & He & Ea & HU' & HD' & Ho & Hv).
  fold u p s ok in He, Ho. destruct ok eqn:Eok; [|exists (mk w' f' U' D'); subst a; by split_and!].
  destruct Ho as (Hpost & Hb & Hg & Hq & Hl).
  destruct (ClientProps.enter_lobby (Client.set_posted [] a) _ _ Hq Hg) as (a5 & E5 & S5 & Hlob & Hlog & Hp5 & Hb5).
  exists (mk w' (<[c := a5]> f') (<[c := U' c ++ (wire <$> [Msg.C_REFRESH_LOBBY])]> U') D'). cbn [world clients up down]. split_and!.
  - etrans; [exact R|]. apply rtc_once. apply (user_moves c Client.Message); [reflexivity| |by rewrite Ea].
    rewrite Ea. by eapply ClientProps.handle_Message.
  - done.
  - rewrite fn_lookup_insert. unfold login_outcome. rewrite Hlob, Hlog, Hb5. split_and!; [reflexivity|reflexivity|exact Hl|exact Hb].
  - by rewrite fn_lookup_insert, HU'.
  - done.
  - intros v Hne. rewrite !fn_lookup_insert_ne by done. by apply Hv.
Qed.

End login.

(** Two accounts, and clients that have just connected. *)
Definition demo_system : st (D := mem) := mk (Dispatch.mkWorld ChatServer.demo []) (λ _, ready) (λ _, []) (λ _, []).

Lemma login_end_to_end_witness :
  ∃ y, rtc (step (WT := ChatServer.ascii_text) (LB := ClientProps.by_code) (P := Msg.reference_parser)) demo_system y ∧
    Client.lobby_shown (Client.lobbyPg (clients y 7%nat)) = true ∧ Client._me (Client.lobbyPg (clients y 7%nat)) = wlit "amy".
Proof.
  destruct (login_end_to_end (WT := ChatServer.ascii_text) (LB := ClientProps.by_code) (P := Msg.reference_parser)
    demo_system 7 (wlit "amy") (byte_val <$> ChatServer.secret) (ChatServer.mkSession None [])) as (y & Hr & _ & Ho & _).
  - reflexivity.
  - reflexivity.
  - reflexivity.
  - apply ChatServer.demo_pool.
  - reflexivity.
  - done.
  - done.
  - vm_compute. congruence.
  - reflexivity.
  - reflexivity.
  - exists y. split; [exact Hr|]. destruct Ho as (H1 & H2 & _). split; [exact H1|]. rewrite H2. reflexivity.
Defined.

End SystemLogin.
