(* ===== verification/SystemJoin.v ===== *)
(** * SystemJoin: joining a room, from the click to all the screens
      (Client/LobbyHandler.cpp, RoomHandler.cpp, Server/LobbyRespondent.h through the packet handlers)

    The run of [System] that follows a click on the join button: the request, the
    answer to the newcomer and the new list of users to those in the room. *)

From stdpp Require Import functions.
From S2P Require Import Prelude PacketHandler LockQueue Wire Protocol ProtocolOps Database ChatDb ChatServer ChatAuth ChatRooms ChatFlow Dispatch Client ClientProps ClientDispatch System SystemLogin.
#[local] Open Scope Z_scope.

Module SystemJoin.
Import System.
Section join.
Context {D : Type} `{!Odbc D} {WT : WinText} {WL : WinTextLen} `{!ChatDb D} {LB : Client.SortedListBox} {P : Msg.Parser}.

(** A packet of the server in the handler of its class. *)
Lemma receives p m a a' :
  Msg.kind_of p ∈ ClientDispatch.server_kinds → Msg.wf p → Msg.small p → Msg.utf8 p →
  Client.HandlePacket p = Some m → m a = Ret (true, a') → ClientDispatch.OnRecvPacket (wire p) a = Ret (tt, a').
Proof.
  intros Hk Hwf Hs Hu Em Ea. destruct (ClientDispatch.server_packet_handled p Hk Hwf Hs Hu) as (m' & Em' & E).
  rewrite Em in Em'. injection Em' as <-. unfold ClientDispatch.OnRecvPacket, wire, mbind, M_bind. by rewrite E, Ea.
Qed.

(** ** The lists of users *)

Definition readable (names : list str) : Prop := Forall (λ n : str, zlen n ≤ 39 ∧ Wire.utf8_valid n = true) names.

(** What a list box shows of them. *)
Definition listed (names : list str) : list Client.CString := foldl (λ l n, Client.AddString n l) [] (Client.CA2W <$> names).

Lemma add_users_listed ids p : Client._users (Client.add_users ids p) = foldl (λ l n, Client.AddString n l) (Client._users p) ids.
Proof. revert p. induction ids as [|i ids IH]; intros p; [done|]. apply (IH (Client.AddUser i p)). Qed.

Lemma refresh_built names : MsgOps.built (ChatFlow.refresh_of names).
Proof. apply (foldl_built S_REFRESH_ROOM_ops.built); [|constructor]. intros. by constructor. Qed.

Lemma join_built ok n names : MsgOps.built (ChatFlow.join_of ok n names).
Proof.
  simpl. constructor. apply (foldl_built S_JOIN_ROOM_ops.built); [|repeat constructor]. intros. by constructor.
Qed.

Lemma readable_small names : readable names → Forall (λ s : list byte, zlen s < 2 ^ 31) names.
Proof. intros H. eapply Forall_impl; [exact H|]. intros n [Hn _]. simpl. lia. Qed.

Lemma readable_utf8 names : readable names → Forall (λ s : list byte, Wire.utf8_valid s = true) names.
Proof. intros H. eapply Forall_impl; [exact H|]. by intros n [_ Hn]. Qed.

(** A client with nothing to do, which will hear of changes of its room. *)
Record waits (a : Client.st) : Prop := {
  wa_posted : Client.posted a = [];
  wa_users : Client.q_users a = [];
  wa_join : Client.q_join a = [];
  wa_callback : Client._callback a Client.RefreshRoomModel = Some Client.RefreshRoomCompleted
}.

(** The oldest message is dispatched, without a packet. *)
Lemma re_message ms ev rest z a a1 b :
  Client.posted a = ev :: rest → Client.OnUIEvent ev (Client.set_posted rest a) = Ret (z, a1) →
  Client.sent a1 = Client.sent a → reacts ms a1 b → reacts ms a b.
Proof. intros Hp E. apply re_msg. by eapply ClientProps.handle_Message. Qed.

(** It shows the new list and nothing else changes on its page. *)
Definition relisted (names : list str) (a b : Client.st) : Prop :=
  Client._users (Client.roomPg b) = listed names ∧ Client.room_shown (Client.roomPg b) = Client.room_shown (Client.roomPg a) ∧
  Client._chatLog (Client.roomPg b) = Client._chatLog (Client.roomPg a) ∧ waits b.

Lemma refresh_reacts names a : readable names → waits a → ∃ b, reacts [ChatFlow.refresh_of names] a b ∧ relisted names a b.
Proof.
  intros Hn [Hp Hq Hj Hcb].
  assert (S_REFRESH_ROOM.userids (foldl (λ m n, S_REFRESH_ROOM.add_userids n m) S_REFRESH_ROOM.new names) = names) as Hids
    by (by rewrite ChatFlow.refresh_of_fields).
  eexists. split.
  - eapply re_recv.
    + eapply receives; [by vm_compute; set_solver|apply MsgOps.built_wf, refresh_built| | |reflexivity|].
      * cbn. unfold S_REFRESH_ROOM.small. rewrite Hids. by apply readable_small.
      * cbn. unfold S_REFRESH_ROOM.utf8. rewrite Hids. by apply readable_utf8.
      * unfold Client.Handle_S_REFRESH_ROOM, Client.Execute. rewrite Hids. autorewrite with run. simpl. rewrite Hcb.
        unfold Client.PostMessage. autorewrite with run. simpl. rewrite Hp, Hq. reflexivity.
    + eapply re_message; [reflexivity|reflexivity|reflexivity|apply re_done].
  - unfold relisted. simpl. destruct (ClientProps.add_users_frame (Client.CA2W <$> names) (Client.ClearUsers (Client.roomPg a))) as [E1 E2].
    rewrite E1, E2, add_users_listed. split_and!; [done..|]. by split.
Qed.

(** The newcomer leaves the lobby for the room, with its users and no lines. *)
Definition joined (names : list str) (b : Client.st) : Prop :=
  Client.room_shown (Client.roomPg b) = true ∧ Client.lobby_shown (Client.lobbyPg b) = false ∧
  Client._users (Client.roomPg b) = listed names ∧ Client._chatLog (Client.roomPg b) = [] ∧ waits b.

Lemma join_received pkt a :
  waits a → Client._callback a Client.JoinRoomModel = Some Client.JoinRoomCompleted_Lobby →
  Client.Handle_S_JOIN_ROOM pkt a = Ret (true,
    Client.set__callback (<[Client.JoinRoomModel := None]> (Client._callback a)) (Client.set_posted [Client.JoinRoomCompleted_Lobby]
      (Client.set_q_join [Client.mkJoin (S_JOIN_ROOM.issuccess pkt) (Client.CA2W (S_JOIN_ROOM.roomname pkt)) (Client.CA2W <$> S_JOIN_ROOM.userids pkt)] a))).
Proof.
  intros [Hp Hq Hj Hcb] Hcj. unfold Client.Handle_S_JOIN_ROOM, Client.Execute. autorewrite with run. simpl. rewrite Hcj.
  unfold Client.PostMessage. autorewrite with run. simpl. by rewrite Hp, Hj.
Qed.

(** The two messages that follow. *)
Lemma join_shown n ids a :
  Client.posted a = [Client.JoinRoomCompleted_Lobby] → Client.q_join a = [Client.mkJoin true n ids] →
  ∃ b, reacts [] a b ∧ Client.posted b = [] ∧ Client.q_join b = [] ∧ Client.q_users b = Client.q_users a ∧
    Client._callback b = Client._callback a ∧ Client.lobby_shown (Client.lobbyPg b) = false ∧
    Client.roomPg b = Client.add_users ids (Client.ClearChatLines (Client.ClearUsers (Client.ShowRoom true (Client.roomPg a)))).
Proof.
  destruct a. simpl. intros -> ->. eexists. split.
  - eapply re_message; [reflexivity|reflexivity|reflexivity|].
    eapply re_message; [reflexivity|reflexivity|reflexivity|apply re_done].
  - by split_and!.
Qed.

Lemma join_reacts roomname names a :
  readable names → zlen roomname ≤ 5900 → Wire.utf8_valid roomname = true → waits a →
  Client._callback a Client.JoinRoomModel = Some Client.JoinRoomCompleted_Lobby →
  ∃ b, reacts [ChatFlow.join_of true roomname names] a b ∧ joined names b.
Proof.
  intros Hn Hz Hu Hw Hcj. unfold ChatFlow.join_of.
  pose proof (join_built true roomname names) as Hb. unfold ChatFlow.join_of in Hb.
  destruct (ChatFlow.join_of_fields names (S_JOIN_ROOM.set_roomname roomname S_JOIN_ROOM.new)) as [Hids Hname].
  set (pkt := S_JOIN_ROOM.set_issuccess _ _) in *.
  assert (S_JOIN_ROOM.userids pkt = names) as E1 by exact Hids. assert (S_JOIN_ROOM.roomname pkt = roomname) as E2 by exact Hname.
  assert (S_JOIN_ROOM.issuccess pkt = true) as E3 by reflexivity. clearbody pkt. clear Hids Hname.
  pose proof (join_received pkt a Hw Hcj) as Er. rewrite E1, E2, E3 in Er. set (a1 := Client.set__callback _ _) in Er.
  destruct (join_shown (Client.CA2W roomname) (Client.CA2W <$> names) a1) as (b & R & Hp & Hj & Hq & Hc & Hl & Hr); [done..|].
  exists b. split.
  - eapply re_recv; [|exact R]. eapply receives; [|by apply MsgOps.built_wf| | |reflexivity|exact Er].
    + unfold ClientDispatch.server_kinds. simpl. set_solver.
    + cbn. unfold S_JOIN_ROOM.small. rewrite E1, E2. split; [lia|by apply readable_small].
    + cbn. unfold S_JOIN_ROOM.utf8. rewrite E1, E2. split; [done|by apply readable_utf8].
  - destruct (ClientProps.add_users_frame (Client.CA2W <$> names) (Client.ClearChatLines (Client.ClearUsers (Client.ShowRoom true (Client.roomPg a1))))) as [F1 F2].
    unfold joined. rewrite Hr, Hl, F1, F2, add_users_listed. split_and!; [done..|]. destruct Hw as [Hp0 Hq0 Hj0 Hcb].
    split; [done|by rewrite Hq|done|]. rewrite Hc. unfold a1. simpl. by rewrite fn_lookup_insert_ne.
Qed.

(** The request of the newcomer. *)
Definition join_request (id roomname : str) : Msg.t :=
  Msg.C_JOIN_ROOM (C_JOIN_ROOM.set_id id (C_JOIN_ROOM.set_roomname roomname C_JOIN_ROOM.new)).

Lemma join_request_size id roomname : zlen id + zlen roomname ≤ 5900 → Msg.ByteSizeLong (join_request id roomname) ≤ PacketHandler.max_message.
Proof.
  intros Hz. pose proof (zlen_nonneg id). pose proof (zlen_nonneg roomname).
  pose proof (ChatServer.StringSize_short id ltac:(lia)). pose proof (ChatServer.StringSize_short roomname ltac:(lia)).
  change PacketHandler.max_message with 5996. simpl. unfold C_JOIN_ROOM.ByteSizeLong. simpl. repeat case_match; lia.
Qed.

(** A client in the lobby whose room list has [name] in row [k]. *)
Record chooses (a : Client.st) (k : nat) (name : Client.CString) : Prop := {
  ch_waits : waits a;
  ch_boxes : Client.boxes a = [];
  ch_conn : Client.GServerSession a = true;
  ch_lobby : Client.lobby_shown (Client.lobbyPg a) = true;
  ch_row : ∃ n m, Client._rooms (Client.lobbyPg a) !! k = Some (name, n, m)
}.

(** The click and the message it posts. *)
Lemma click_join a k name :
  let id := Client.CT2A (Client._me (Client.lobbyPg a)) in
  chooses a k name → zlen id + zlen (Client.CT2A name) ≤ 5900 →
  ∃ a1 a2, Client.handle (Client.Click (Client.BtnJoinRoom (Some k))) a = Some (Ret a1) ∧ Client.handle Client.Message a1 = Some (Ret a2) ∧
    Client.sent a1 = Client.sent a ∧ Client.sent a2 = Client.sent a ++ [join_request id (Client.CT2A name)] ∧ waits a2 ∧
    Client._callback a2 Client.JoinRoomModel = Some Client.JoinRoomCompleted_Lobby.
Proof.
  intros id [[Hp Hq Hj Hcb] Hb Hc Hl (n & m & Hk)] Hz. eexists _, _. split; [|split; [|split; [|split; [|split]]]].
  - simpl. rewrite Hl, Hb. simpl. unfold Client.OnBnClickedJoinRoom, Client.page_lobby, Client.PostMessage. cbn [Client.GetSelectedRoomIndex].
    rewrite (proj2 (Z.ltb_ge (Z.of_nat k) 0)) by lia. autorewrite with run. simpl. unfold Client.set_lobbyPg', Client.GetItemText, modify. simpl.
    rewrite Hp, Nat2Z.id, Hk. reflexivity.
  - eapply ClientProps.handle_Message; [reflexivity|].
    eapply (ClientProps.OnUIEvent_request _ _ _ Client.JoinRoomModel (join_request id (Client.CT2A name))); [reflexivity|reflexivity|by apply join_request_size|exact Hc].
  - reflexivity.
  - reflexivity.
  - split; simpl; [done..|]. by rewrite fn_lookup_insert_ne.
  - simpl. by rewrite fn_lookup_insert.
Qed.

(** The server's part. *)
Lemma serve_join w c id roomname i p r row :
  ChatRooms.server_inv (Dispatch.server w) → ChatRooms.in_lobby (Dispatch.server w) c id → ChatFlow.room_is (Dispatch.server w) i p r row →
  collate (r_name row) = ChatServer.ukey roomname → 42 * (ChatServer.roomState r + 1) + zlen roomname ≤ 5900 →
  zlen id ≤ 5900 → Wire.utf8_valid id = true → Wire.utf8_valid roomname = true →
  ∃ w' names l, Dispatch.HandlePacket (Dispatch.Init ∅) c (wire (join_request id roomname)) w = Ret (true, w') ∧
    ChatRooms.server_inv (Dispatch.server w') ∧
    names ≡ₚ ChatFlow.shown <$> ChatFlow.members_of (ChatServer.accts (Dispatch.server w')) i ∧ l ≡ₚ members r ∧
    ChatServer.sent (Dispatch.server w') =
      ChatServer.sent (Dispatch.server w) ++ ChatFlow.to_all l (ChatFlow.refresh_of names) ++ [(c, ChatFlow.join_of true roomname names)] ∧
    ChatServer.heap (Dispatch.server w') !! p = Some (ChatServer.mkRoom i (ChatServer.roomState r + 1) (<[id := c]> (ChatServer._users r))) ∧
    ChatServer.accts (Dispatch.server w') = alter (with_room (Some i)) (ChatServer.ukey id) (ChatServer.accts (Dispatch.server w)).
Proof.
  intros Hinv Hlob Hroom Hname Hsz Hid Hui Hur.
  destruct (ChatFlow.join_run (Dispatch.server w) c id roomname i p r row Hinv Hlob Hroom Hname Hsz)
    as (s' & names & l & E & Hinv' & Hn & Hl & Hs' & Hh & Ha & _).
  destruct (Dispatch.dispatch_run (D := D) c (join_request id roomname)) as (m & Em & Eh).
  - unfold Dispatch.client_kinds. simpl. set_solver.
  - by split_and!.
  - destruct (ChatRooms.li_rooms _ _ _ _ _ _ (proj2 Hinv) i p (proj1 Hroom)) as (r0 & row0 & Hp0 & _ & Hok).
    rewrite (proj1 (proj2 Hroom)) in Hp0. injection Hp0 as <-. pose proof (ChatFlow.room_state_pos _ _ _ _ _ _ Hok).
    split_and!; simpl; done || lia.
  - by split_and!.
  - cbn [Dispatch.Handle join_request] in Em. injection Em as <-. unfold wire. rewrite Eh.
    exists (Dispatch.mkWorld s' (Dispatch.GJobQueues w ++ [[]])), names, l. split_and!; [|exact Hinv'|exact Hn|exact Hl|exact Hs'| |exact Ha].
    + unfold Dispatch.PacketRespondent, Dispatch.on_server, mbind, M_bind. cbn [C_JOIN_ROOM.id C_JOIN_ROOM.roomname C_JOIN_ROOM.set_id C_JOIN_ROOM.set_roomname].
      rewrite E. reflexivity.
    + simpl. rewrite Hh. apply lookup_insert_eq.
Qed.

(** The names of the users who will be listed. *)
Lemma listed_readable A id i (names : list str) :
  map_Forall (λ _ a, Wire.utf8_valid (ChatFlow.shown a) = true) A →
  names ≡ₚ ChatFlow.shown <$> ChatFlow.members_of (alter (with_room (Some i)) (ChatServer.ukey id) A) i → readable names.
Proof.
  intros HA Hn. unfold readable. rewrite Hn. apply Forall_forall. intros n (a & -> & Ha)%list_elem_of_fmap. split; [apply ChatFlow.shown_len|].
  apply list_elem_of_fmap in Ha as ([k b] & -> & Hk%elem_of_map_to_list). apply map_lookup_filter_Some in Hk as [Hk _].
  apply lookup_alter_Some in Hk as [(<- & b' & Hb & ->)|[_ Hb]]; exact (HA _ _ Hb).
Qed.

Lemma newcomer_outside s c id i p r row :
  ChatRooms.server_inv (D := D) s → ChatRooms.in_lobby s c id → ChatFlow.room_is s i p r row → NoDup (members r) ∧ c ∉ members r.
Proof.
  intros Hinv [Hs _] Hroom. destruct (ChatRooms.li_rooms _ _ _ _ _ _ (proj2 Hinv) i p (proj1 Hroom)) as (r0 & row0 & Hp0 & _ & Hok).
  rewrite (proj1 (proj2 Hroom)) in Hp0. injection Hp0 as <-. split; [by eapply members_NoDup|].
  intros ([u v] & E & Hu%elem_of_map_to_list)%list_elem_of_fmap. simpl in E. subst v.
  apply (ChatRooms.ro_sessions _ _ _ _ _ _ Hok) in Hu. congruence.
Qed.

(** What the server's answers put on the way to each client. *)
Lemma to_session_answers u c l m m' : NoDup l → c ∉ l →
  to_session u (ChatFlow.to_all l m ++ [(c, m')]) = if decide (u = c) then [m'] else if decide (u ∈ l) then [m] else [].
Proof.
  intros Hnd Hc. unfold to_session. rewrite filter_app, fmap_app. fold (to_session u (ChatFlow.to_all l m)).
  rewrite to_session_all by done. destruct (decide (u = c)) as [->|E].
  - by rewrite decide_False, filter_cons_True by done.
  - rewrite filter_cons_False by (simpl; congruence). apply app_nil_r.
Qed.

(** Both kinds of answer are taken. *)
Lemma answers_delivered (x : st (D := D)) c roomname names l :
  readable names → zlen roomname ≤ 5900 → Wire.utf8_valid roomname = true → NoDup l → c ∉ l →
  waits (clients x c) → Client._callback (clients x c) Client.JoinRoomModel = Some Client.JoinRoomCompleted_Lobby →
  down x c = [wire (ChatFlow.join_of true roomname names)] →
  (∀ u, u ∈ l → waits (clients x u) ∧ down x u = [wire (ChatFlow.refresh_of names)]) →
  ∃ y, rtc step x y ∧ world y = world x ∧ (∀ v, up y v = up x v) ∧ down y c = [] ∧ joined names (clients y c) ∧
    (∀ u, u ∈ l → down y u = [] ∧ relisted names (clients x u) (clients y u)) ∧
    ∀ u, u ≠ c → u ∉ l → clients y u = clients x u ∧ down y u = down x u.
Proof.
  intros Hread Hz Hur Hnd Hc Hw Hcb HD Hl.
  destruct (join_reacts roomname names (clients x c) Hread Hz Hur Hw Hcb) as (b & Rb & Hb).
  destruct (deliver_reacts _ _ _ Rb x c [] eq_refl HD) as (x1 & R1 & W1 & V1 & C1 & D1 & O1).
  assert (∀ u, u ∈ l → u ≠ c) as Hne by (intros u Hu E; subst u; exact (Hc Hu)).
  destruct (deliver_list (relisted names) (ChatFlow.refresh_of names) l Hnd x1) as (y & R2 & W2 & V2 & L2 & O2).
  { intros u Hu. destruct (O1 u (Hne u Hu)) as [-> ->]. destruct (Hl u Hu) as [Hwu Hd]. split; [exact Hd|]. by apply refresh_reacts. }
  exists y. destruct (O2 c Hc) as [Cy Dy]. split_and!.
  - by etrans.
  - congruence.
  - congruence.
  - congruence.
  - by rewrite Cy, C1.
  - intros u Hu. destruct (L2 u Hu) as [-> HQ]. destruct (O1 u (Hne u Hu)) as [E _]. rewrite E in HQ. split; [reflexivity|exact HQ].
  - intros u Hu Hul. destruct (O2 u Hul) as [-> ->]. exact (O1 u Hu).
Qed.

Section run.
Context (w : Dispatch.world (D := D)) (f : nat → Client.st) (U Dn : nat → list (list byte)) (c k : nat) (name : Client.CString).
Context (i : Z) (p : nat) (r : ChatServer.Room) (row : room_row).
Let s := Dispatch.server w.
Let id := Client.CT2A (Client._me (Client.lobbyPg (f c))).
Let roomname := Client.CT2A name.
Hypothesis Hinv : ChatRooms.server_inv s.
Hypothesis Hlob : ChatRooms.in_lobby s c id.
Hypothesis Hroom : ChatFlow.room_is s i p r row.
Hypothesis Hname : collate (r_name row) = ChatServer.ukey roomname.
Hypothesis Hch : chooses (f c) k name.
Hypothesis HU : U c = [].
Hypothesis Hsz : 42 * (ChatServer.roomState r + 1) + zlen id + zlen roomname ≤ 5900.
Hypothesis Hui : Wire.utf8_valid id = true.
Hypothesis Hur : Wire.utf8_valid roomname = true.
Hypothesis HA : map_Forall (λ _ a, Wire.utf8_valid (ChatFlow.shown a) = true) (ChatServer.accts s).

Lemma join_fits : zlen id ≤ 5900 ∧ zlen roomname ≤ 5900 ∧ 42 * (ChatServer.roomState r + 1) + zlen roomname ≤ 5900 ∧ zlen id + zlen roomname ≤ 5900.
Proof.
  destruct (ChatRooms.li_rooms _ _ _ _ _ _ (proj2 Hinv) i p (proj1 Hroom)) as (r0 & row0 & Hp0 & _ & Hok).
  rewrite (proj1 (proj2 Hroom)) in Hp0. injection Hp0 as <-. pose proof (ChatFlow.room_state_pos _ _ _ _ _ _ Hok).
  pose proof (zlen_nonneg id). pose proof (zlen_nonneg roomname). lia.
Qed.

(** The run until the server has answered. *)
Lemma join_answered : ∃ w' f' U' D' names,
  rtc step (mk w f U Dn) (mk w' f' U' D') ∧ ChatRooms.server_inv (Dispatch.server w') ∧
  ChatServer.heap (Dispatch.server w') !! p = Some (ChatServer.mkRoom i (ChatServer.roomState r + 1) (<[id := c]> (ChatServer._users r))) ∧
  names ≡ₚ ChatFlow.shown <$> ChatFlow.members_of (ChatServer.accts (Dispatch.server w')) i ∧ readable names ∧ U' c = [] ∧
  waits (f' c) ∧ Client._callback (f' c) Client.JoinRoomModel = Some Client.JoinRoomCompleted_Lobby ∧ (∀ v, v ≠ c → f' v = f v) ∧
  ∀ v, D' v = Dn v ++ (wire <$> if decide (v = c) then [ChatFlow.join_of true roomname names]
                                else if decide (v ∈ members r) then [ChatFlow.refresh_of names] else []).
Proof.
  destruct (newcomer_outside _ _ _ _ _ _ _ Hinv Hlob Hroom) as [Hnd Hcm]. destruct join_fits as (Hz1 & Hz2 & Hz3 & Hz4).
  destruct (click_join (f c) k name Hch Hz4) as (a1 & a2 & E1 & E2 & S1 & S2 & Hw2 & Hc2).
  destruct (serve_join w c id roomname i p r row Hinv Hlob Hroom Hname Hz3 Hz1 Hui Hur) as (w' & names & l & Eh & Hinv' & Hn & Hl & Hs' & Hh & Ha).
  set (f1 := <[c := a1]> f). set (U1 := <[c := U c ++ (wire <$> [])]> U).
  set (f2 := <[c := a2]> f1). set (U2 := <[c := U1 c ++ (wire <$> [join_request id roomname])]> U1).
  exists w', f2, (<[c := []]> U2). eexists _, names. split_and!; [|exact Hinv'|exact Hh|exact Hn| |apply fn_lookup_insert| | | |].
  - eapply (rtc_l _ _ (mk w f1 U1 Dn)).
    { apply (SystemLogin.user_moves c (Client.Click (Client.BtnJoinRoom (Some k)))); [reflexivity|exact E1|by rewrite S1, app_nil_r]. }
    eapply (rtc_l _ _ (mk w f2 U2 Dn)).
    { apply (SystemLogin.user_moves c Client.Message); [reflexivity|unfold f1; by rewrite fn_lookup_insert|unfold f1; by rewrite fn_lookup_insert, S1, S2]. }
    apply rtc_once. apply (s_server c (wire (join_request id roomname)) [] true); [unfold U2, U1; rewrite !fn_lookup_insert, HU; reflexivity|exact Eh].
  - rewrite Ha in Hn. exact (listed_readable _ id i _ HA Hn).
  - unfold f2. by rewrite fn_lookup_insert.
  - unfold f2. by rewrite fn_lookup_insert.
  - intros v Hv. unfold f2, f1. by rewrite !fn_lookup_insert_ne.
  - intros v. cbv beta. rewrite Hs', news_app, to_session_answers by (rewrite ?Hl; done). do 2 f_equal.
    destruct (decide (v = c)); [reflexivity|]. by apply decide_ext; rewrite Hl.
Qed.
End run.

(** C5: joining a room, end to end.  A user in the lobby selects a row of the room
    list and clicks, and the connections of the room and of the user are idle.  The
    packets and messages that follow can be delivered, and when they are: the user is
    a member of the room in the server, the user's client has left the lobby and
    shows the room with no lines, its list of users and the lists of all the others
    in the room show the same names, those of the accounts the database now has in
    the room, the lines of the others are as before, and clients outside the room
    are unchanged. *)
Theorem join_end_to_end (x : st (D := D)) c k name i p r row :
  let s := Dispatch.server (world x) in
  let id := Client.CT2A (Client._me (Client.lobbyPg (clients x c))) in
  let roomname := Client.CT2A name in
  ChatRooms.server_inv s → ChatRooms.in_lobby s c id → ChatFlow.room_is s i p r row → collate (r_name row) = ChatServer.ukey roomname →
  chooses (clients x c) k name → up x c = [] → down x c = [] →
  (∀ u, u ∈ members r → waits (clients x u) ∧ down x u = []) →
  42 * (ChatServer.roomState r + 1) + zlen id + zlen roomname ≤ 5900 → Wire.utf8_valid id = true → Wire.utf8_valid roomname = true →
  map_Forall (λ _ a, Wire.utf8_valid (ChatFlow.shown a) = true) (ChatServer.accts s) →
  ∃ y names, rtc step x y ∧ ChatRooms.server_inv (Dispatch.server (world y)) ∧
    ChatServer.heap (Dispatch.server (world y)) !! p = Some (ChatServer.mkRoom i (ChatServer.roomState r + 1) (<[id := c]> (ChatServer._users r))) ∧
    names ≡ₚ ChatFlow.shown <$> ChatFlow.members_of (ChatServer.accts (Dispatch.server (world y))) i ∧
    up y c = [] ∧ down y c = [] ∧ joined names (clients y c) ∧
    (∀ u, u ∈ members r → down y u = [] ∧ relisted names (clients x u) (clients y u)) ∧
    ∀ u, u ≠ c → u ∉ members r → clients y u = clients x u ∧ down y u = down x u.
Proof.
  intros s id roomname Hinv Hlob Hroom Hname Hch HU HD Hrest Hsz Hui Hur HA. subst s. destruct x as [w f U Dn]. cbn [world clients up down] in *.
  destruct (newcomer_outside _ _ _ _ _ _ _ Hinv Hlob Hroom) as [Hnd Hcm]. assert (∀ u, u ∈ members r → u ≠ c) as Hne by (intros u Hu E; subst u; exact (Hcm Hu)).
  destruct (join_fits w f c name i p r row Hinv Hroom Hsz) as (_ & Hz & _).
  destruct (join_answered w f U Dn c k name i p r row Hinv Hlob Hroom Hname Hch HU Hsz Hui Hur HA)
    as (w' & f' & U' & D' & names & R0 & Hinv' & Hh & Hn & Hread & HU' & Hw & Hcb & Hf & HD').
  destruct (answers_delivered (mk w' f' U' D') c roomname names (members r)) as (y & R & W & V & Dy & Jy & Ly & Oy);
    [exact Hread|exact Hz|exact Hur|exact Hnd|exact Hcm|exact Hw|exact Hcb| | |]; cbn [world clients up down] in *.
  - rewrite HD', HD, (decide_True _ _ eq_refl). reflexivity.
  - intros u Hu. destruct (Hrest u Hu) as [Hwu Hd]. rewrite (Hf u (Hne u Hu)), HD', Hd, (decide_False _ _ (Hne u Hu)), (decide_True _ _ Hu).
    split; [exact Hwu|reflexivity].
  - exists y, names. rewrite W, V. split_and!; [by etrans|exact Hinv'|exact Hh|exact Hn|exact HU'|exact Dy|exact Jy| |].
    + intros u Hu. rewrite <-(Hf u (Hne u Hu)). exact (Ly u Hu).
    + intros u Hu Hm. destruct (Oy u Hu Hm) as [-> ->]. rewrite (Hf u Hu), HD', (decide_False _ _ Hu), (decide_False _ _ Hm).
      split; [reflexivity|apply app_nil_r].
Qed.

End join.

(** ** Witness: amy is in the room, bob has the list of rooms *)

Definition bob_choosing : Client.st :=
  ClientProps.after (ClientProps.login_run (wlit "bob") (wlit "pw") ChatServer.bob ChatServer.secret ++
    [Client.Message; Client.Packet (ChatFlow.lobby_of [(ChatRooms.talk, 1)]); Client.Message]).

Definition amy_and_bob : st (D := mem) :=
  mk (Dispatch.mkWorld ChatFlow.room_demo [])
    (λ u, if decide (u = 8%nat) then bob_choosing else ClientProps.after ClientProps.amy_in_room) (λ _, []) (λ _, []).

Lemma join_end_to_end_witness :
  ∃ y, rtc (step (WT := ChatServer.ascii_text) (LB := ClientProps.by_code) (P := Msg.reference_parser)) amy_and_bob y ∧
    Client.room_shown (Client.roomPg (clients y 8%nat)) = true ∧
    Client._users (Client.roomPg (clients y 7%nat)) = Client._users (Client.roomPg (clients y 8%nat)).
Proof.
  destruct (join_end_to_end (WT := ChatServer.ascii_text) (WL := ChatFlow.ascii_text_len) (LB := ClientProps.by_code) (P := Msg.reference_parser)
    amy_and_bob 8 0 (wlit "talk") 1 0 ChatFlow.amys_room ChatFlow.talk_row) as (y & names & Hr & _ & _ & _ & _ & _ & Hj & Hl & _).
  - apply ChatFlow.room_demo_inv.
  - apply ChatFlow.bob_in_lobby.
  - apply ChatFlow.room_demo_is.
  - reflexivity.
  - split; [split; reflexivity|reflexivity..|]. eexists _, _. reflexivity.
  - reflexivity.
  - reflexivity.
  - rewrite amy_members. intros u ->%list_elem_of_singleton. split; [split; reflexivity|reflexivity].
  - vm_compute. congruence.
  - reflexivity.
  - reflexivity.
  - apply map_Forall_to_list. vm_compute. repeat constructor.
  - exists y. split; [exact Hr|]. destruct Hj as (H1 & _ & H2 & _). split; [exact H1|]. rewrite H2.
    destruct (Hl 7%nat) as [_ (-> & _)]; [rewrite amy_members; left|reflexivity].
Defined.

End SystemJoin.
