(* ===== verification/Network.v ===== *)
(** * Network: addresses and sockets (ServerCore/NetAddress.h, NetAddress.cpp, SocketUtils.h, SocketUtils.cpp)

    A Winsock call is recorded in [calls] with its arguments; what it returns
    is read from [os]: the outcome of the [n]-th call, [None] for success or
    the error code.  A successful [WSASocket] returns a handle that is not in
    use.  Addresses are what the code stores: integers in network byte order. *)

From S2P Require Import Prelude Database.

(** ** NetAddress *)

(** The bytes of a 16-bit value swapped, as on a little-endian machine. *)
Definition htons (z : Z) : Z := (z mod 256) * 256 + (z / 256) mod 256.
Definition ntohs (z : Z) : Z := htons z.

Record SOCKADDR_IN : Type := mkAddr { sin_family : Z; sin_addr : Z; sin_port : Z }.

#[global] Instance SOCKADDR_IN_eq_dec : EqDecision SOCKADDR_IN.
Proof. solve_decision. Defined.

Definition AF_INET : Z := 2.

(** The conversions of ws2tcpip.h: [InetPtonW] fails on a text that is not an
    address. *)
Class InetText : Type := {
  InetPtonW : wstr → option Z;
  InetNtopW : Z → wstr
}.

(** The text of an address denotes it. *)
Class InetLaws `{InetText} : Prop := {
  InetPton_Ntop : ∀ a, 0 ≤ a < 2 ^ 32 → InetPtonW (InetNtopW a) = Some a;
  InetPton_bound : ∀ w a, InetPtonW w = Some a → 0 ≤ a < 2 ^ 32;
  InetNtop_text : ∀ a, c_wstr (InetNtopW a) = InetNtopW a
}.

Module NetAddress.

Record t : Type := mk { _sockAddr : SOCKADDR_IN }.

Definition new : t := mk (mkAddr 0 0 0).
Definition of_sockaddr (sockAddr : SOCKADDR_IN) : t := mk sockAddr.
Definition GetSockAddr (a : t) : SOCKADDR_IN := _sockAddr a.
Definition GetPort (a : t) : Z := ntohs (sin_port (_sockAddr a)).

Section text.
Context `{InetText}.

(** [address] is not initialised: [junk] is what the stack held. *)
Definition Ip2Address (junk : Z) (ip : wstr) : Z := default junk (InetPtonW ip).

Definition of_ip_port (junk : Z) (ip : wstr) (port : Z) : t :=
  mk (mkAddr AF_INET (Ip2Address junk (c_wstr ip)) (htons port)).

Definition GetIpAddress (a : t) : wstr := c_wstr (InetNtopW (sin_addr (_sockAddr a))).

End text.

Lemma ntohs_htons p : 0 ≤ p < 2 ^ 16 → ntohs (htons p) = p.
Proof. intros. unfold ntohs, htons. Z.to_euclidean_division_equations. lia. Qed.

Lemma htons_bound p : 0 ≤ htons p < 2 ^ 16.
Proof. unfold htons. pose proof (Z.mod_pos_bound p 256). pose proof (Z.mod_pos_bound (p / 256) 256). lia. Qed.

(** An address made of a text and a port gives the port back, and a text that
    denotes the same address. *)
Lemma net_address_roundtrip `{InetLaws} junk ip p a :
  0 ≤ p < 2 ^ 16 → InetPtonW (c_wstr ip) = Some a →
  GetPort (of_ip_port junk ip p) = p ∧ InetPtonW (GetIpAddress (of_ip_port junk ip p)) = Some a.
Proof.
  intros Hp Ha. split; [by apply ntohs_htons|]. unfold GetIpAddress, of_ip_port, Ip2Address. simpl.
  rewrite Ha, InetNtop_text. apply InetPton_Ntop. by eapply InetPton_bound.
Qed.

End NetAddress.

(** ** SocketUtils *)

Inductive extension : Type := WSAID_CONNECTEX | WSAID_DISCONNECTEX | WSAID_ACCEPTEX.

(** The calls; a socket is [None] for [INVALID_SOCKET]. *)
Inductive syscall : Type :=
| WSAStartup
| WSACleanup
| WSASocket
| closesocket (s : Z)
| WSAIoctl (s : option Z) (guid : extension)
| setsockopt (s : option Z) (level optName : Z) (optVal : list Z) (size : Z)
| bind (s : option Z) (addr : SOCKADDR_IN)
| listen (s : option Z) (backlog : Z)
| AcceptEx (listener s : option Z)
| getpeername (s : option Z)
| CreateIoCompletionPort (h : option Z).

#[global] Instance extension_eq_dec : EqDecision extension.
Proof. solve_decision. Defined.

Definition SOL_SOCKET : Z := 65535.
Definition SO_DEBUG : Z := 1.
Definition SO_REUSEADDR : Z := 4.
Definition SO_LINGER : Z := 128.
Definition SO_SNDBUF : Z := 4097.
Definition SO_RCVBUF : Z := 4098.
Definition SO_UPDATE_ACCEPT_CONTEXT : Z := 28683.
Definition IPPROTO_TCP : Z := 6.
Definition TCP_NODELAY : Z := 1.
Definition SOMAXCONN : Z := 2147483647.
Definition INVALID_SOCKET : Z := 2 ^ 64 - 1.

(** What the process shares: the number of calls made, the open sockets, the
    extension functions that were loaded, the handles of the completion port. *)
Record net : Type := mkNet {
  tick : nat;
  sockets : gset Z;
  loaded : list extension;
  port : list (option Z);
  calls : list syscall
}.

Definition net_init : net := mkNet 0 ∅ [] [] [].

Module SocketUtils.
Section sockets.
Variable os : nat → option Z.

(** A call: recorded, and its outcome. *)
Definition sys (c : syscall) : M net (option Z) := λ s,
  Ret (os (tick s), mkNet (S (tick s)) (sockets s) (loaded s) (port s) (calls s ++ [c])).

(** [SOCKET_ERROR != ...]. *)
Definition ok (c : syscall) : M net bool :=
  r ← sys c; mret (match r with None => true | Some _ => false end).

Definition set_sockets (f : gset Z → gset Z) : M net unit :=
  modify (λ s, mkNet (tick s) (f (sockets s)) (loaded s) (port s) (calls s)).

Definition fresh_socket (s : net) : Z := Z.of_nat (fresh (set_map Z.to_nat (sockets s) : gset nat)).

Definition CreateSocket : M net (option Z) :=
  h ← gets fresh_socket;
  r ← ok WSASocket;
  if (r : bool) then set_sockets (λ X, {[h]} ∪ X);; mret (Some h) else mret None.

(** [Close(SOCKET& socket)]: the new value of [socket]. *)
Definition Close (socket : option Z) : M net (option Z) :=
  match socket with
  | Some h => sys (closesocket h);; set_sockets (λ X, X ∖ {[h]});; mret None
  | None => mret None
  end.

(** The option's value and its size in bytes. *)
Definition SetSockOpt (s : option Z) (level optName : Z) (optVal : list Z) (size : Z) : M net bool :=
  ok (setsockopt s level optName optVal size).

Definition SetLinger (s : option Z) (onoff linger : Z) : M net bool :=
  SetSockOpt s SOL_SOCKET SO_LINGER [u16 onoff; u16 linger] 4.
Definition SetReuseAddress (s : option Z) (flag : bool) : M net bool :=
  SetSockOpt s SOL_SOCKET SO_REUSEADDR [Z.b2z flag] 1.
Definition SetRecvBufferSize (s : option Z) (size : Z) : M net bool := SetSockOpt s SOL_SOCKET SO_RCVBUF [size] 4.
Definition SetSendBufferSize (s : option Z) (size : Z) : M net bool := SetSockOpt s SOL_SOCKET SO_SNDBUF [size] 4.
Definition SetTcpNoDelay (s : option Z) (flag : bool) : M net bool :=
  SetSockOpt s SOL_SOCKET TCP_NODELAY [Z.b2z flag] 1.
Definition SetUpdateAcceptSocket (s listenSocket : option Z) : M net bool :=
  SetSockOpt s SOL_SOCKET SO_UPDATE_ACCEPT_CONTEXT [default INVALID_SOCKET listenSocket] 8.

Definition Bind (s : option Z) (netAddr : NetAddress.t) : M net bool := ok (bind s (NetAddress.GetSockAddr netAddr)).
Definition BindAnyAddress (s : option Z) (p : Z) : M net bool := ok (bind s (mkAddr AF_INET 0 (htons p))).
Definition Listen (s : option Z) (backlog : Z) : M net bool := ok (listen s backlog).

(** The function pointer is set when the call succeeds. *)
Definition BindWindowsFunction (s : option Z) (guid : extension) : M net bool :=
  r ← ok (WSAIoctl s guid);
  when r (modify (λ s, mkNet (tick s) (sockets s) (guid :: loaded s) (port s) (calls s)));;
  mret r.

Definition Init : M net unit :=
  r ← ok WSAStartup;
  assert_crash r;;
  dummySocket ← CreateSocket;
  r ← BindWindowsFunction dummySocket WSAID_CONNECTEX;
  assert_crash r;;
  r ← BindWindowsFunction dummySocket WSAID_DISCONNECTEX;
  assert_crash r;;
  r ← BindWindowsFunction dummySocket WSAID_ACCEPTEX;
  assert_crash r;;
  Close dummySocket;;
  mret tt.

Definition Clear : M net unit := sys WSACleanup;; mret tt.

(** Level [SOL_SOCKET] with the number of [TCP_NODELAY] is [SO_DEBUG]. *)
Lemma SetTcpNoDelay_sets_debug s flag :
  SetTcpNoDelay s flag = SetSockOpt s SOL_SOCKET SO_DEBUG [Z.b2z flag] 1.
Proof. reflexivity. Qed.

(** ** What the calls leave behind *)

Lemma fresh_socket_new s : (∀ h, h ∈ sockets s → 0 ≤ h) → fresh_socket s ∉ sockets s.
Proof.
  intros Hpos Hin. unfold fresh_socket in Hin.
  apply (is_fresh (set_map Z.to_nat (sockets s) : gset nat)). apply elem_of_map. eexists. split; [|done]. lia.
Qed.

Context (E : fault → Prop).

Lemma wp_ok c s Q :
  (∀ b, Q b (mkNet (S (tick s)) (sockets s) (loaded s) (port s) (calls s ++ [c]))) → wp E (ok c) s Q.
Proof. intros HQ. unfold ok, sys. apply wp_bind. unfold wp at 1. apply wp_ret, HQ. Qed.

Lemma wp_CreateSocket s Q :
  (∀ h s', loaded s' = loaded s → port s' = port s → fresh_socket s = h → sockets s' = {[h]} ∪ sockets s → Q (Some h) s') →
  (∀ s', loaded s' = loaded s → port s' = port s → sockets s' = sockets s → Q None s') →
  wp E CreateSocket s Q.
Proof.
  intros Hs Hn. unfold CreateSocket, set_sockets. wp_run. apply wp_ok. intros []; wp_run.
  - by apply Hs.
  - by apply Hn.
Qed.

Lemma wp_Close socket s Q :
  (∀ s', loaded s' = loaded s → port s' = port s →
         sockets s' = match socket with Some h => sockets s ∖ {[h]} | None => sockets s end → Q None s') →
  wp E (Close socket) s Q.
Proof. intros HQ. destruct socket as [h|]; [|by apply HQ]. unfold Close, sys, set_sockets. wp_run. unfold wp. simpl. by apply HQ. Qed.

(** A function is loaded or the assertion on it fails. *)
Lemma wp_load s0 g (k : M net unit) s Q :
  E AssertCrash → (∀ s', sockets s' = sockets s → loaded s' = g :: loaded s → wp E k s' Q) →
  wp E (r ← BindWindowsFunction s0 g; assert_crash r;; k) s Q.
Proof.
  intros HE HQ. unfold BindWindowsFunction. wp_step. wp_step. apply wp_ok. intros b.
  wp_step. wp_step; [wp_step|]; wp_step; wp_step; (apply wp_assert_or; [intros Hb|done]); [by apply HQ|congruence].
Qed.

End sockets.

(** Loading the socket functions.  [SocketUtils::Init] fails an assertion or
    returns with [ConnectEx], [DisconnectEx] and [AcceptEx] loaded and no
    socket left open. *)
Theorem socket_init os s :
  (∀ h, h ∈ sockets s → 0 ≤ h) →
  wp (λ f, f = AssertCrash) (Init os) s (λ _ s', sockets s' = sockets s ∧
    loaded s' = [WSAID_ACCEPTEX; WSAID_DISCONNECTEX; WSAID_CONNECTEX] ++ loaded s).
Proof.
  intros Hpos. unfold Init. wp_step. apply wp_ok. intros b. wp_step. apply wp_assert_or; [intros _|done].
  set (s0 := mkNet _ _ _ _ _). pose proof (fresh_socket_new s0 Hpos) as Hfresh. wp_step.
  apply wp_CreateSocket; [intros h s1 El _ <- Es|intros s1 El _ Es];
    do 3 (apply wp_load; [done|]; intros ? ? ?); wp_step; apply wp_Close; intros s5 E5 _ Es5; wp_step;
    (split; [rewrite Es5; simpl in *; set_solver|]);
    simpl in *; congruence.
Qed.

Lemma socket_init_witness :
  ∃ s', Init (λ _, None) net_init = Ret (tt, s') ∧ sockets s' = ∅ ∧
    loaded s' = [WSAID_ACCEPTEX; WSAID_DISCONNECTEX; WSAID_CONNECTEX].
Proof.
  pose proof (socket_init (λ _, None) net_init) as H. unfold wp in H.
  destruct (Init (λ _, None) net_init) as [[[] s']|f] eqn:E.
  - destruct H as [? ?]; [set_solver|]. by exists s'.
  - vm_compute in E. discriminate E.
Defined.

End SocketUtils.
