(* ===== verification/Service.v ===== *)
(** * Service: the service, its listener and the completion port
      (ServerCore/Service.h, Service.cpp, Listener.h, Listener.cpp, IocpCore.h,
       IocpCore.cpp, IocpEvent.h; Server/ClientSessionManager.cpp)

    The service object with its sessions, the listener with its accept events,
    and the dispatch of completions.  A session is a [Session.t] with the
    members the other files need.  The operations of [Session] record
    [AddSession] and [ReleaseSession] among their calls; [on_session] runs such
    an operation on the session's object and lets those calls act on the
    service.  Whole operations are atomic here; [Service::_lock] makes those of
    the service so. *)

From S2P Require Import Prelude RecvBuffer PacketSession Session Database Network.
#[local] Open Scope Z_scope.

Module Service.
Import SocketUtils.

(** [Service]; [_sessionFactory] is whether it is set. *)
Record service : Type := mkService {
  _type : Session.ServiceType;
  _netAddress : NetAddress.t;
  _sessions : gset nat;
  _sessionCount : Z;
  _maxSessionCount : Z;
  _sessionFactory : bool;
  _isRunning : bool
}.

(** The constructor. *)
Definition new (type : Session.ServiceType) (address : NetAddress.t) (factory : bool) (maxSessionCount : Z) : service :=
  mkService type address ∅ 0 maxSessionCount factory true.

Section service.
Context {B : Type}.

(** A session object. *)
Record session : Type := mkSession {
  ses : Session.t B;
  _socket : option Z;
  address : NetAddress.t
}.

(** [Listener]: its socket and the session of each accept event. *)
Record listener : Type := mkListener {
  listen_socket : option Z;
  _acceptEvents : list (option nat)
}.

Record st : Type := mk {
  srv : service;
  heap : gmap nat session;
  next : nat;
  lis : option listener;
  os_state : net
}.

Definition set_srv (f : service → service) (s : st) : st := mk (f (srv s)) (heap s) (next s) (lis s) (os_state s).
Definition set_heap (f : gmap nat session → gmap nat session) (s : st) : st :=
  mk (srv s) (f (heap s)) (next s) (lis s) (os_state s).
Definition set_lis (f : option listener → option listener) (s : st) : st :=
  mk (srv s) (heap s) (next s) (f (lis s)) (os_state s).

(** The outcomes of the calls, those inside an operation of [Session] apart. *)
Variable os : nat → option Z.
Variable session_os : nat → Session.os.
Context (OnConnected : M (Session.t B) unit).
Context (OnDisconnected : M (Session.t B) unit).
Context (OnSend : Z → M (Session.t B) unit).
Context (OnRecvPacket : list byte → M (Session.t B) unit).

Definition on_net {A} (m : M net A) : M st A := λ s,
  match m (os_state s) with
  | Ret (a, n) => Ret (a, mk (srv s) (heap s) (next s) (lis s) n)
  | Crash f => Crash f
  end.

(** *** Service *)

Definition CanStart : M st bool := gets (λ s, _sessionFactory (srv s)).
Definition IsRunning : M st bool := gets (λ s, _isRunning (srv s)).
Definition GetCurrentSessionCount : M st Z := gets (λ s, _sessionCount (srv s)).
Definition GetMaxSessionCount : M st Z := gets (λ s, _maxSessionCount (srv s)).

Definition SetSessionFactory (func : bool) : M st unit :=
  modify (set_srv (λ v, mkService (_type v) (_netAddress v) (_sessions v) (_sessionCount v) (_maxSessionCount v) func (_isRunning v))).

Definition CloseService : M st unit :=
  modify (set_srv (λ v, mkService (_type v) (_netAddress v) (_sessions v) (_sessionCount v) (_maxSessionCount v) (_sessionFactory v) false)).

Definition AddSession (p : nat) : M st unit :=
  modify (set_srv (λ v, mkService (_type v) (_netAddress v) ({[p]} ∪ _sessions v) (i32 (_sessionCount v + 1))
    (_maxSessionCount v) (_sessionFactory v) (_isRunning v))).

Definition ReleaseSession (p : nat) : M st unit :=
  s ← get;
  assert_crash (bool_decide (p ∈ _sessions (srv s)));;
  modify (set_srv (λ v, mkService (_type v) (_netAddress v) (_sessions v ∖ {[p]}) (i32 (_sessionCount v - 1))
    (_maxSessionCount v) (_sessionFactory v) (_isRunning v))).

(** *** Sessions *)

(** What a session's call does to the service. *)
Definition service_call (p : nat) (c : Session.call B) : M st unit :=
  match c with
  | Session.AddSession => AddSession p
  | Session.ReleaseSession => ReleaseSession p
  | _ => mret tt
  end.

Fixpoint service_calls (p : nat) (cs : list (Session.call B)) : M st unit :=
  match cs with
  | [] => mret tt
  | c :: cs => service_call p c;; service_calls p cs
  end.

Definition session_at (p : nat) : M st session := λ s,
  match heap s !! p with Some x => Ret (x, s) | None => Crash NullDeref end.

(** An operation of session [p]; its calls get the outcomes of this moment. *)
Definition on_session {A} (p : nat) (m : Session.os → M (Session.t B) A) : M st A :=
  x ← session_at p;
  s ← get;
  '(a, s') ← lift (m (session_os (tick (os_state s))) (ses x));
  modify (set_heap (<[p := mkSession s' (_socket x) (address x)]>));;
  service_calls p (drop (length (Session.calls (ses x))) (Session.calls s'));;
  mret a.

(** [_sessionFactory()]: the constructor of [Session] opens a socket. *)
Definition make_session : M st nat :=
  sock ← on_net (CreateSocket os);
  p ← gets next;
  modify (λ s, mk (srv s) (<[p := mkSession Session.new sock NetAddress.new]> (heap s)) (S p) (lis s) (os_state s));;
  mret p.

(** *** IocpCore *)

Definition Register (h : option Z) : M st bool :=
  r ← on_net (ok os (CreateIoCompletionPort h));
  when r (on_net (modify (λ n, mkNet (tick n) (sockets n) (loaded n) (port n ++ [h]) (calls n))));;
  mret r.

Definition GetHandle (p : nat) : M st (option Z) := x ← session_at p; mret (_socket x).

(** [None] is the null pointer. *)
Definition CreateSession : M st (option nat) :=
  p ← make_session;
  h ← GetHandle p;
  r ← Register h;
  if (r : bool) then mret (Some p) else mret None.

(** *** ClientService *)

Fixpoint connect_sessions (n : nat) : M st bool :=
  match n with
  | O => mret true
  | S n =>
    session ← CreateSession;
    p ← lift (deref session);
    t ← gets (λ s, _type (srv s));
    r ← on_session p (λ o, Session.Connect o t);
    if (r : bool) then connect_sessions n else mret false
  end.

Definition ClientService_Start : M st bool :=
  c ← CanStart;
  if negb c then mret false
  else
    n ← GetMaxSessionCount;
    connect_sessions (Z.to_nat n).

(** *** Listener *)

Definition set_event (i : nat) (o : option nat) : M st unit :=
  modify (set_lis (fmap (λ l, mkListener (listen_socket l) (<[i := o]> (_acceptEvents l))))).

Definition listener_socket : M st (option Z) := λ s,
  match lis s with Some l => Ret (listen_socket l, s) | None => Crash NullDeref end.

(** [RegisterAccept] of the [i]-th event calls itself until [AcceptEx] accepts
    the request; [fuel] is the stack. *)
Fixpoint RegisterAccept (fuel : nat) (i : nat) : M st unit :=
  match fuel with
  | O => crash Hang
  | S fuel =>
    session ← CreateSession;
    set_event i session;;
    p ← lift (deref session);
    h ← GetHandle p;
    l ← listener_socket;
    s ← get;
    (if decide (WSAID_ACCEPTEX ∈ loaded (os_state s)) then mret tt else crash NullDeref);;
    r ← on_net (sys os (AcceptEx l h));
    match r with
    | None => mret tt
    | Some errorCode => if errorCode =? Session.WSA_IO_PENDING then mret tt else RegisterAccept fuel i
    end
  end.

(** The address [getpeername] stores is [peer]. *)
Definition ProcessAccept (fuel : nat) (i : nat) (peer : SOCKADDR_IN) : M st unit :=
  s ← get;
  p ← lift (deref (l ← lis s; e ← _acceptEvents l !! i; e));
  h ← GetHandle p;
  l ← listener_socket;
  updated ← on_net (SetUpdateAcceptSocket os h l);
  if negb updated then RegisterAccept fuel i
  else
    named ← on_net (ok os (getpeername h));
    if negb named then RegisterAccept fuel i
    else
      modify (set_heap (alter (λ x, mkSession (ses x) (_socket x) (NetAddress.of_sockaddr peer)) p));;
      on_session p (λ o, Session.ProcessConnect OnConnected o);;
      RegisterAccept fuel i.

Definition Listener_Dispatch (fuel : nat) (i : nat) (type : Session.EEventType) (peer : SOCKADDR_IN) : M st unit :=
  match type with
  | Session.Accept_ => ProcessAccept fuel i peer
  | _ => crash AssertCrash
  end.

(** [for (i < acceptCount)]: a new event, registered. *)
Fixpoint accept_loop (fuel : nat) (n : nat) : M st unit :=
  match n with
  | O => mret tt
  | S n =>
    s ← get;
    let i := match lis s with Some l => length (_acceptEvents l) | None => 0%nat end in
    modify (set_lis (fmap (λ l, mkListener (listen_socket l) (_acceptEvents l ++ [None]))));;
    RegisterAccept fuel i;;
    accept_loop fuel n
  end.

Definition StartAccept (fuel : nat) : M st bool :=
  sock ← on_net (CreateSocket os);
  modify (set_lis (fmap (λ l, mkListener sock (_acceptEvents l))));;
  match sock with
  | None => mret false
  | Some _ =>
    r ← Register sock;
    if negb r then mret false else
    r ← on_net (SetReuseAddress os sock true);
    if negb r then mret false else
    r ← on_net (SetLinger os sock 0 0);
    if negb r then mret false else
    s ← get;
    r ← on_net (Bind os sock (_netAddress (srv s)));
    if negb r then mret false else
    r ← on_net (Listen os sock SOMAXCONN);
    if negb r then mret false else
    acceptCount ← GetMaxSessionCount;
    accept_loop fuel (Z.to_nat acceptCount);;
    mret true
  end.

(** [Listener::CloseSocket]. *)
Definition CloseSocket : M st unit :=
  l ← listener_socket;
  sock ← on_net (Close os l);
  modify (set_lis (fmap (λ l, mkListener sock (_acceptEvents l)))).

(** *** ServerService *)

Definition ServerService_Start (fuel : nat) : M st bool :=
  c ← CanStart;
  if negb c then mret false
  else
    modify (set_lis (λ _, Some (mkListener None [])));;
    StartAccept fuel.

(** *** Broadcast *)

Fixpoint send_all (l : list nat) (sendBuffer : B) : M st unit :=
  match l with
  | [] => mret tt
  | p :: l => on_session p (λ o, Session.Send o sendBuffer);; send_all l sendBuffer
  end.

Definition Broadcast (sendBuffer : B) : M st unit :=
  s ← get; send_all (elements (_sessions (srv s))) sendBuffer.

(** *** ClientSessionManager

    [GSessionManager]: its set of sessions. *)

Definition manager_Add (session : nat) (_sessions : gset nat) : gset nat := {[session]} ∪ _sessions.
Definition manager_Remove (session : nat) (_sessions : gset nat) : gset nat := _sessions ∖ {[session]}.
Definition manager_Broadcast (_sessions : gset nat) (sendBuffer : B) : M st unit := send_all (elements _sessions) sendBuffer.

(** *** The dispatch of a completion *)

(** The event of a completion: of the listener or of a session. *)
Inductive iocp_event : Type :=
| AcceptEvent (i : nat) (peer : SOCKADDR_IN)
| SessionEvent (p : nat) (type : Session.EEventType).

(** What [GetQueuedCompletionStatus] delivers: an event, with the number of
    bytes, and the error if its operation failed, or no event and an error. *)
Inductive completion : Type :=
| Completed (e : iocp_event) (numOfBytes : Z)
| Failed (e : iocp_event) (numOfBytes : Z) (errCode : Z)
| NoEvent (errCode : Z).

Definition WAIT_TIMEOUT : Z := 258.

Definition object_Dispatch (fuel : nat) (e : iocp_event) (numOfBytes : Z) : M st unit :=
  match e with
  | AcceptEvent i peer => Listener_Dispatch fuel i Session.Accept_ peer
  | SessionEvent p type =>
    on_session p (λ o, Session.Dispatch OnConnected OnDisconnected OnSend OnRecvPacket o type numOfBytes)
  end.

(** [IocpCore::Dispatch]. *)
Definition Dispatch (fuel : nat) (c : completion) : M st bool :=
  match c with
  | Completed e n => object_Dispatch fuel e n;; mret true
  | Failed e n errCode => if errCode =? WAIT_TIMEOUT then mret false else object_Dispatch fuel e n;; mret true
  | NoEvent errCode => if errCode =? WAIT_TIMEOUT then mret false else crash NullDeref
  end.

End service.
End Service.
