(* ===== verification/ServiceProps.v ===== *)
(** * ServiceProps: what the service's bookkeeping guarantees

    The sessions of the service are those that are connected or whose
    disconnection is under way; a completion that the kernel can deliver keeps
    this, and an assertion fails only when one of the contents' callbacks fails it. *)

From S2P Require Import Prelude RecvBuffer PacketSession Session Database Network Service.
#[local] Open Scope Z_scope.

Module ServiceProps.
Import Service.

(** ** Session operations that leave the service alone *)

(** The calls of a session that act on the service. *)
Definition is_service_call {B} (c : Session.call B) : bool :=
  match c with Session.AddSession | Session.ReleaseSession => true | _ => false end.

(** From [s] to [s'] the session may have been disconnected, once. *)
Record calm_step {B} (s s' : Session.t B) : Prop := {
  cs_connect : Session.connect_owner s' = Session.connect_owner s;
  cs_life : (Session._connected s' = Session._connected s ∧ Session.disconnect_owner s' = Session.disconnect_owner s) ∨
            (Session._connected s = true ∧ Session._connected s' = false);
  cs_calls : ∃ cs, Session.calls s' = Session.calls s ++ cs ∧ Forall (λ c, is_service_call c = false) cs
}.

Lemma calm_refl {B} (s : Session.t B) : calm_step s s.
Proof. split; [done|by left|]. exists []. by rewrite app_nil_r. Qed.

Lemma calm_trans {B} (s1 s2 s3 : Session.t B) : calm_step s1 s2 → calm_step s2 s3 → calm_step s1 s3.
Proof.
  intros [H1 L1 (c1 & E1 & F1)] [H2 L2 (c2 & E2 & F2)]. split; [congruence|naive_solver congruence|].
  exists (c1 ++ c2). rewrite E2, E1, app_assoc. split; [done|by apply Forall_app].
Qed.

(** [m] crashes with a fault of [E] or takes a calm step. *)
Definition calm {B A} (E : fault → Prop) (m : M (Session.t B) A) : Prop :=
  ∀ s, wp E m s (λ _ s', calm_step s s').

Section calm.
Context {B : Type} (E : fault → Prop).

Lemma calm_ret {A} (a : A) : calm E (mret a : M (Session.t B) A).
Proof. intros s. apply wp_ret, calm_refl. Qed.

Lemma calm_bind {A A'} (m : M (Session.t B) A) (k : A → M (Session.t B) A') :
  calm E m → (∀ a, calm E (k a)) → calm E (m ≫= k).
Proof.
  intros Hm Hk s. apply wp_bind. eapply wp_mono; [apply Hm|]. intros a s1 H1.
  eapply wp_mono; [apply Hk|]. intros a' s2 H2. by apply (calm_trans s s1 s2).
Qed.

Lemma calm_modify (f : Session.t B → Session.t B) : (∀ s, calm_step s (f s)) → calm E (modify f).
Proof. intros Hf s. apply wp_modify, Hf. Qed.

Lemma calm_gets {A} (f : Session.t B → A) : calm E (gets f).
Proof. intros s. apply wp_gets, calm_refl. Qed.

Lemma calm_get : calm E (get : M (Session.t B) _).
Proof. intros s. apply wp_get, calm_refl. Qed.

Lemma calm_emit c : is_service_call c = false → calm E (@Session.emit B c).
Proof.
  intros Hc. apply calm_modify. intros s. split; [done|by left|]. exists [c]. split; [done|]. by constructor.
Qed.

Lemma calm_when b (m : M (Session.t B) unit) : calm E m → calm E (when b m).
Proof. intros Hm. destruct b; [done|apply calm_ret]. Qed.

Lemma calm_crash {A} f : E f → calm E (crash f : M (Session.t B) A).
Proof. intros Hf s. by apply wp_crash. Qed.

Lemma calm_lift {A} (r : result A) : (∀ f, r = Crash f → E f) → calm E (lift r : M (Session.t B) A).
Proof. intros Hr s. unfold wp, lift. destruct r; [apply calm_refl|by apply Hr]. Qed.
End calm.

(** An update of other members. *)
Ltac calm_upd := intros ?; split; [done|by left|by exists []; rewrite app_nil_r].

Ltac calm_tac :=
  repeat lazymatch goal with
  | |- calm _ (mret _) => apply calm_ret
  | |- calm _ (when _ _) => apply calm_when
  | |- calm _ (gets _) => apply calm_gets
  | |- calm _ get => apply calm_get
  | |- calm _ Session.IsConnected => apply calm_gets
  | |- calm _ (Session.emit _) => apply calm_emit; [done]
  | |- calm _ (_ ≫= _) => apply calm_bind; [|intros ?]
  | |- calm _ (modify _) => apply calm_modify; calm_upd
  | |- calm _ (match ?x with _ => _ end) => destruct x
  end.

Section session.
Context {B : Type} (E : fault → Prop) (o : Session.os).

Lemma calm_Disconnect : calm E (@Session.Disconnect B o).
Proof.
  intros s. unfold Session.Disconnect, Session.IsConnected, Session.RegisterDisconnect, Session.emit.
  wp_run; [destruct (Session.sys_failed _); wp_run|].
  1-2: by split; simpl; [done|right; split; [|done]|eexists [_]; split; [done|by constructor]].
  by split; [done|left; simpl; split; [congruence|done]|exists []; rewrite app_nil_r].
Qed.

Lemma calm_HandleError e : calm E (@Session.HandleError B o e).
Proof. apply calm_when, calm_Disconnect. Qed.

Lemma calm_RegisterRecv : calm E (@Session.RegisterRecv B o).
Proof. unfold Session.RegisterRecv. calm_tac. apply calm_HandleError. Qed.

Lemma calm_RegisterSend : calm E (@Session.RegisterSend B o).
Proof. unfold Session.RegisterSend. calm_tac. apply calm_HandleError. Qed.

Lemma calm_Send (b : B) : calm E (Session.Send o b).
Proof. unfold Session.Send. calm_tac. apply calm_RegisterSend. Qed.

Lemma calm_RegisterConnect ty s :
  wp E (@Session.Connect B o ty) s (λ b s', Session._connected s' = Session._connected s ∧
    Session.disconnect_owner s' = Session.disconnect_owner s ∧
    (Session.connect_owner s' = true → Session.connect_owner s = true ∨ Session._connected s = false) ∧
    ∃ cs, Session.calls s' = Session.calls s ++ cs ∧ Forall (λ c, is_service_call c = false) cs).
Proof.
  assert (∃ cs, Session.calls s = Session.calls s ++ cs ∧ Forall (λ c, is_service_call c = false) cs) as H0.
  { exists []. by rewrite app_nil_r. }
  unfold Session.Connect, Session.RegisterConnect, Session.IsConnected, Session.emit. wp_run; [by eauto|].
  destruct ty; wp_run; [by eauto|by eauto|by eauto|]. destruct (Session.sys_failed _); wp_run; simpl; split_and!; try done; eauto.
  all: eexists [_]; split; [done|by constructor].
Qed.
End session.

(** ** Completion handlers *)

Lemma Clean_no_assert rb f : RecvBuffer.Clean rb = Crash f → f ≠ AssertCrash.
Proof. unfold RecvBuffer.Clean. repeat case_match; naive_solver. Qed.

(** The faults that are not failed assertions. *)
Definition other (f : fault) : Prop := f ≠ AssertCrash.

(** A session that is connected to nobody. *)
Definition idle {B} (s : Session.t B) : Prop := Session._connected s = false ∧ Session.disconnect_owner s = false.

(** After [ProcessConnect] the session was added, and may already be gone again. *)
Lemma wp_ProcessConnect {B} E o (OnConnected : M (Session.t B) unit) s :
  calm E OnConnected → idle s →
  wp E (Session.ProcessConnect OnConnected o) s (λ _ s',
    Session.connect_owner s' = false ∧
    ¬ (Session._connected s' = true ∧ Session.disconnect_owner s' = true) ∧
    ∃ cs, Session.calls s' = Session.calls s ++ Session.AddSession :: cs ∧ Forall (λ c, is_service_call c = false) cs).
Proof.
  intros calm_connected [Hc Hd]. unfold Session.ProcessConnect, Session.emit. wp_run.
  set (s1 := Session.add_call _ _). apply (wp_mono _ _ _ (λ _ s', calm_step s1 s')); [apply calm_connected|].
  intros _ s2 H2. eapply wp_mono; [apply calm_RegisterRecv|]. intros u s3 H3.
  destruct (calm_trans s1 s2 s3 H2 H3) as [Ho Hl (cs & Ec & Hf)]. split_and!.
  - done.
  - intros [? ?]. destruct Hl as [[? ?]|[? ?]]; simpl in *; congruence.
  - exists cs. rewrite Ec. simpl. by rewrite <-app_assoc.
Qed.

Section handlers.
Context {B : Type} (o : Session.os) (E : fault → Prop).
Hypothesis HE : ∀ f, other f → E f.
Context (OnConnected OnDisconnected : M (Session.t B) unit) (OnSend : Z → M (Session.t B) unit)
  (OnRecvPacket : list byte → M (Session.t B) unit).
Hypothesis calm_connected : calm E OnConnected.
Hypothesis calm_disconnected : calm E OnDisconnected.
Hypothesis calm_send : ∀ n, calm E (OnSend n).
Hypothesis calm_packet : ∀ p, calm E (OnRecvPacket p).

Lemma calm_call p : calm E (Session.emit (Session.OnRecvPacketCall p);; OnRecvPacket p).
Proof. apply calm_bind; [by apply calm_emit|intros []; apply calm_packet]. Qed.

Lemma calm_OnRecv buffer len : calm E (Session.OnRecv OnRecvPacket buffer len).
Proof.
  unfold calm, wp, Session.OnRecv, PacketSession.OnRecv.
  generalize (S (Z.to_nat len)) 0. intros fuel. induction fuel as [|fuel IH]; intros pl s; simpl; [by apply HE|].
  case_test; [apply calm_refl|]. unfold PacketSession.header_at.
  destruct (drop _ buffer) as [|b0 [|b1 [|b2 [|b3 rest]]]]; try (by apply HE). simpl.
  case_test; [apply calm_refl|].
  match goal with |- context [OnRecvPacket ?q] => set (m := _;; OnRecvPacket q); pose proof (calm_call q s) as W; fold m in W end.
  unfold wp in W. destruct (m s) as [[[] s1]|f]; [|done]. specialize (IH (pl + le16_val b0 b1) s1).
  destruct (PacketSession.OnRecv_loop _ _ _ _ _ s1) as [[[n s2]|f]|]; [by eapply calm_trans|done|done].
Qed.

Lemma calm_ProcessRecv n : calm E (Session.ProcessRecv OnRecvPacket o n).
Proof.
  unfold Session.ProcessRecv. calm_tac; try apply calm_Disconnect; try apply calm_OnRecv; try apply calm_RegisterRecv.
  apply calm_lift. intros f Hf. by apply HE, (Clean_no_assert _ f Hf).
Qed.

Lemma calm_ProcessSend n : calm E (Session.ProcessSend OnSend o n).
Proof.
  unfold Session.ProcessSend. calm_tac; [apply calm_Disconnect|apply calm_send|apply calm_RegisterSend].
Qed.

Lemma wp_ProcessDisconnect s :
  Session._connected s = false →
  wp E (Session.ProcessDisconnect OnDisconnected) s (λ _ s',
    Session.connect_owner s' = Session.connect_owner s ∧ idle s' ∧
    ∃ cs, Session.calls s' = Session.calls s ++ cs ++ [Session.ReleaseSession] ∧ Forall (λ c, is_service_call c = false) cs).
Proof.
  intros Hc. unfold Session.ProcessDisconnect, Session.emit. wp_run.
  eapply wp_mono; [apply calm_disconnected|]. intros u s2 [Ho Hl (cs & Ec & Hf)]. wp_run. split_and!.
  - done.
  - split; destruct Hl as [[? ?]|[? ?]]; simpl in *; congruence.
  - exists cs. simpl. rewrite Ec. by rewrite <-app_assoc.
Qed.
End handlers.

(** ** The invariant of the service *)

Lemma i32_add z w : i32 (i32 z + w) = i32 (z + w).
Proof.
  unfold i32. f_equal. replace ((z + 2 ^ 31) mod 2 ^ 32 - 2 ^ 31 + w + 2 ^ 31) with ((z + 2 ^ 31) mod 2 ^ 32 + w) by lia.
  rewrite Z.add_mod_idemp_l by lia. f_equal. lia.
Qed.

Section service.
Context {B : Type}.
Implicit Types s : @st B.

(** The accept event [ex] is being registered again. *)
Record inv (ex : option nat) s : Prop := {
  w_next : ∀ p, is_Some (heap s !! p) → (p < next s)%nat;
  w_set : ∀ p, p ∈ _sessions (srv s) → is_Some (heap s !! p);
  w_count : _sessionCount (srv s) = i32 (Z.of_nat (size (_sessions (srv s))));
  w_live : ∀ p x, heap s !! p = Some x → Session._connected (ses x) = true ∨ Session.disconnect_owner (ses x) = true →
           p ∈ _sessions (srv s);
  w_excl : ∀ p x, heap s !! p = Some x → ¬ (Session._connected (ses x) = true ∧ Session.disconnect_owner (ses x) = true);
  w_connect : ∀ p x, heap s !! p = Some x → Session.connect_owner (ses x) = true → idle (ses x) ∧ p ∉ _sessions (srv s);
  w_accept : ∀ l i p, lis s = Some l → _acceptEvents l !! i = Some (Some p) → ex ≠ Some i →
             ∃ x, heap s !! p = Some x ∧ idle (ses x) ∧ Session.connect_owner (ses x) = false ∧ p ∉ _sessions (srv s);
  w_inj : ∀ l i j p, lis s = Some l → _acceptEvents l !! i = Some (Some p) → _acceptEvents l !! j = Some (Some p) → i = j;
  w_events : ∀ l i p, lis s = Some l → _acceptEvents l !! i = Some (Some p) → (p < next s)%nat
}.

Lemma inv_weaken i s : inv None s → inv (Some i) s.
Proof. intros []. split; try done. intros. by eapply w_accept0. Qed.

Lemma inv_net ex s n : inv ex s → inv ex (mk (srv s) (heap s) (next s) (lis s) n).
Proof. intros []. by split. Qed.

(** A session takes a calm step. *)
Lemma inv_calm ex s p x (t : Session.t B) a :
  inv ex s → heap s !! p = Some x → calm_step (ses x) t →
  inv ex (set_heap (<[p := mkSession t (_socket x) a]>) s).
Proof.
  intros [] Hp [Hc Hl _].
  assert (∀ q y, <[p := mkSession t (_socket x) a]> (heap s) !! q = Some y →
    (q = p ∧ y = mkSession t (_socket x) a) ∨ heap s !! q = Some y) as K.
  { intros q y. rewrite lookup_insert. case_decide; naive_solver. }
  split; simpl; try done.
  - intros q [y Hy]. destruct (K q y Hy) as [[-> _]|Hq]; eauto.
  - intros q Hq. rewrite lookup_insert. case_decide; eauto.
  - intros q y Hy Hlive. destruct (K q y Hy) as [[-> ->]|Hq]; [|eauto]. simpl in Hlive. apply (w_live0 p x); [done|].
    destruct Hl as [[<- <-]|[? ?]]; auto.
  - intros q y Hy. destruct (K q y Hy) as [[-> ->]|Hq]; [|eauto]. simpl. specialize (w_excl0 p x Hp).
    destruct Hl as [[-> ->]|[? ->]]; [done|naive_solver].
  - intros q y Hy. destruct (K q y Hy) as [[-> ->]|Hq]; [|eauto]. simpl. rewrite Hc. intros Ho.
    destruct (w_connect0 p x Hp Ho) as [[? ?] ?]. split; [|done]. split; destruct Hl as [[? ?]|[? ?]]; congruence.
  - intros l i q Hlis Hi Hex. destruct (w_accept0 l i q Hlis Hi Hex) as (y & Hy & [? ?] & Hco & Hni).
    rewrite lookup_insert. case_decide as Hpq; [|eauto]. subst q. assert (y = x) as -> by congruence.
    eexists. split; [done|]. simpl. split_and!; [|congruence|done]. split; destruct Hl as [[? ?]|[? ?]]; congruence.
Qed.

(** A session that was idle is connected and added; its accept event, if it
    has one, is being registered again. *)
Lemma inv_connect ex s p x (t : Session.t B) a v :
  inv ex s → heap s !! p = Some x → p ∉ _sessions (srv s) →
  (∀ l i, lis s = Some l → _acceptEvents l !! i = Some (Some p) → ex = Some i) →
  Session.connect_owner t = false → ¬ (Session._connected t = true ∧ Session.disconnect_owner t = true) →
  _sessions v = {[p]} ∪ _sessions (srv s) → _sessionCount v = i32 (_sessionCount (srv s) + 1) →
  inv ex (set_srv (λ _, v) (set_heap (<[p := mkSession t (_socket x) a]>) s)).
Proof.
  intros [] Hp Hn Hev Hc Hex Hv Hcount.
  assert (∀ q y, <[p := mkSession t (_socket x) a]> (heap s) !! q = Some y →
    (q = p ∧ y = mkSession t (_socket x) a) ∨ q ≠ p ∧ heap s !! q = Some y) as K.
  { intros q y. rewrite lookup_insert. case_decide; naive_solver. }
  split; simpl; rewrite ?Hv; try done.
  - intros q [y Hy]. destruct (K q y Hy) as [[-> _]|[_ Hq]]; eauto.
  - intros q Hq. rewrite lookup_insert. case_decide; [eauto|]. apply w_set0. set_solver.
  - rewrite Hcount, w_count0, size_union, size_singleton, i32_add by set_solver. f_equal. lia.
  - intros q y Hy Hlive. destruct (K q y Hy) as [[-> ->]|[_ Hq]]; [set_solver|]. apply elem_of_union_r. eauto.
  - intros q y Hy. destruct (K q y Hy) as [[-> ->]|[_ Hq]]; [done|eauto].
  - intros q y Hy Ho. destruct (K q y Hy) as [[-> ->]|[Hne Hq]]; [simpl in Ho; congruence|].
    destruct (w_connect0 q y Hq Ho). split; [done|set_solver].
  - intros l i q Hlis Hi Hx. destruct (w_accept0 l i q Hlis Hi Hx) as (y & Hy & ? & ? & Hni).
    assert (q ≠ p) by (intros ->; naive_solver). exists y. rewrite lookup_insert_ne by done. split_and!; [done..|set_solver].
Qed.

(** A disconnected session is released. *)
Lemma inv_release ex s p x (t : Session.t B) v :
  inv ex s → heap s !! p = Some x → p ∈ _sessions (srv s) → idle t → Session.connect_owner t = Session.connect_owner (ses x) →
  _sessions v = _sessions (srv s) ∖ {[p]} → _sessionCount v = i32 (_sessionCount (srv s) - 1) →
  inv ex (set_srv (λ _, v) (set_heap (<[p := mkSession t (_socket x) (address x)]>) s)).
Proof.
  intros [] Hp Hin [Hc Hd] Ho Hv Hcount.
  assert (∀ q y, <[p := mkSession t (_socket x) (address x)]> (heap s) !! q = Some y →
    (q = p ∧ y = mkSession t (_socket x) (address x)) ∨ q ≠ p ∧ heap s !! q = Some y) as K.
  { intros q y. rewrite lookup_insert. case_decide; naive_solver. }
  split; simpl; rewrite ?Hv; try done.
  - intros q [y Hy]. destruct (K q y Hy) as [[-> _]|[_ Hq]]; eauto.
  - intros q Hq. rewrite lookup_insert. case_decide; [eauto|]. apply w_set0. set_solver.
  - rewrite Hcount, w_count0, size_difference, size_singleton by set_solver. unfold Z.sub. rewrite i32_add. f_equal.
    assert (size ({[p]} : gset nat) ≤ size (_sessions (srv s)))%nat as Hs by (apply subseteq_size; set_solver).
    rewrite size_singleton in Hs. lia.
  - intros q y Hy Hlive. destruct (K q y Hy) as [[-> ->]|[Hne Hq]]; [simpl in Hlive; naive_solver congruence|].
    apply elem_of_difference. split; [eauto|set_solver].
  - intros q y Hy. destruct (K q y Hy) as [[-> ->]|[_ Hq]]; [simpl; naive_solver congruence|eauto].
  - intros q y Hy Hoq. destruct (K q y Hy) as [[-> ->]|[Hne Hq]].
    + simpl in Hoq. split; [done|]. set_solver.
    + destruct (w_connect0 q y Hq Hoq). split; [done|set_solver].
  - intros l i q Hlis Hi Hx. destruct (w_accept0 l i q Hlis Hi Hx) as (y & Hy & ? & ? & Hni).
    assert (q ≠ p) by (intros ->; done). exists y. rewrite lookup_insert_ne by done. split_and!; [done..|set_solver].
Qed.

(** A session just made. *)
Lemma inv_make ex s sock :
  inv ex s →
  inv ex (mk (srv s) (<[next s := mkSession Session.new sock NetAddress.new]> (heap s)) (S (next s)) (lis s) (os_state s)).
Proof.
  intros []. assert (heap s !! next s = None) as Hf.
  { destruct (heap s !! next s) eqn:E; [|done]. assert (next s < next s)%nat by eauto. lia. }
  assert (∀ q y, <[next s := mkSession Session.new sock NetAddress.new]> (heap s) !! q = Some y →
    (q = next s ∧ y = mkSession Session.new sock NetAddress.new) ∨ heap s !! q = Some y) as K.
  { intros q y. rewrite lookup_insert. case_decide; naive_solver. }
  split; simpl; try done.
  - intros q [y Hy]. destruct (K q y Hy) as [[-> _]|Hq]; [lia|]. assert (q < next s)%nat by eauto. lia.
  - intros q Hq. rewrite lookup_insert. case_decide; eauto.
  - intros q y Hy Hlive. destruct (K q y Hy) as [[-> ->]|Hq]; [simpl in Hlive; naive_solver|eauto].
  - intros q y Hy. destruct (K q y Hy) as [[-> ->]|Hq]; [simpl; naive_solver|eauto].
  - intros q y Hy Ho. destruct (K q y Hy) as [[-> ->]|Hq]; [done|eauto].
  - intros l i q Hlis Hi Hx. destruct (w_accept0 l i q Hlis Hi Hx) as (y & Hy & ?).
    exists y. rewrite lookup_insert_ne; [done|]. intros <-. congruence.
  - intros l i q Hlis Hi. assert (q < next s)%nat by eauto. lia.
Qed.

(** The event gets its new session. *)
Lemma inv_set_event i s o :
  inv (Some i) s →
  (∀ p, o = Some p → ∃ x, heap s !! p = Some x ∧ idle (ses x) ∧ Session.connect_owner (ses x) = false ∧ p ∉ _sessions (srv s) ∧
        ∀ l j, lis s = Some l → _acceptEvents l !! j ≠ Some (Some p)) →
  inv None (set_lis (fmap (λ l, mkListener (listen_socket l) (<[i := o]> (_acceptEvents l)))) s).
Proof.
  intros [] Ho. split; simpl; try done.
  - intros l j q Hl Hj _. destruct (lis s) as [l0|] eqn:El; [|done]. injection Hl as <-. simpl in Hj.
    apply list_lookup_insert_Some in Hj as [(-> & Eo & _)|[Hne Hj]].
    + destruct (Ho q Eo) as (x & ? & ? & ? & ? & _). eauto 6.
    + apply (w_accept0 l0 j); [done|done|congruence].
  - intros l j k q Hl Hj Hk. destruct (lis s) as [l0|] eqn:El; [|done]. injection Hl as <-. simpl in *.
    apply list_lookup_insert_Some in Hj as [(-> & Eo & _)|[Hne Hj]]; apply list_lookup_insert_Some in Hk as [(-> & Eo' & _)|[Hne' Hk]].
    + done.
    + destruct (Ho q Eo) as (? & _ & _ & _ & _ & Hn). by destruct (Hn l0 k).
    + destruct (Ho q Eo') as (? & _ & _ & _ & _ & Hn). by destruct (Hn l0 j).
    + by apply (w_inj0 l0 j k q).
  - intros l j q Hl Hj. destruct (lis s) as [l0|] eqn:El; [|done]. injection Hl as <-. simpl in Hj.
    apply list_lookup_insert_Some in Hj as [(-> & Eo & _)|[Hne Hj]]; [|eauto].
    destruct (Ho q Eo) as (x & ? & _). eauto.
Qed.

(** ** Operations *)

Variable os : nat → option Z.

(** A call of the operating system has any outcome. *)
Definition returns {A} (m : M net A) : Prop := ∀ n, ∃ a n', m n = Ret (a, n').

Lemma returns_ok c : returns (SocketUtils.ok os c).
Proof. intros n. eexists _, _. reflexivity. Qed.

Lemma returns_sys c : returns (SocketUtils.sys os c).
Proof. intros n. eexists _, _. reflexivity. Qed.

Lemma returns_CreateSocket : returns (SocketUtils.CreateSocket os).
Proof.
  intros n. unfold SocketUtils.CreateSocket. autorewrite with run.
  unfold mbind, M_bind. destruct (returns_ok WSASocket n) as ([] & n' & ->); eexists _, _; reflexivity.
Qed.

Lemma wp_on_net {A} E (m : M net A) s Q :
  returns m → (∀ a n, Q a (mk (srv s) (heap s) (next s) (lis s) n)) → wp E (on_net m) s Q.
Proof. intros Hm HQ. unfold wp, on_net. by destruct (Hm (os_state s)) as (a & n & ->). Qed.

Lemma wp_session_at E p x s Q : heap s !! p = Some x → Q x s → wp E (session_at p) s Q.
Proof. intros Hp HQ. unfold wp, session_at. by rewrite Hp. Qed.

Lemma wp_Register h s Q :
  (∀ b n, Q b (mk (srv s) (heap s) (next s) (lis s) n)) → wp other (Register os h) s Q.
Proof.
  intros HQ. unfold Register. wp_step. apply wp_on_net; [apply returns_ok|]. intros b n. wp_step.
  destruct b; unfold when; [apply wp_on_net; [intros n'; by eexists _, _|]; intros _ n'|]; wp_run; apply HQ.
Qed.

Lemma wp_CreateSession ex s Q :
  inv ex s →
  (∀ p x s', inv ex s' → lis s' = lis s → srv s' = srv s → heap s' !! p = Some x → idle (ses x) →
     Session.connect_owner (ses x) = false → p ∉ _sessions (srv s') →
     (∀ l j, lis s' = Some l → _acceptEvents l !! j ≠ Some (Some p)) → Q (Some p) s') →
  (∀ s', inv ex s' → lis s' = lis s → Q None s') →
  wp other (CreateSession os) s Q.
Proof.
  intros Hi Hs Hn. unfold CreateSession, make_session, GetHandle. wp_step. wp_step.
  apply wp_on_net; [apply returns_CreateSocket|]. intros sock n. wp_run.
  assert (next s ∉ _sessions (srv s)) as Hns.
  { intros Hin. destruct (w_set _ _ Hi _ Hin) as [x Hx]. assert (next s < next s)%nat by (apply (w_next _ _ Hi); eauto). lia. }
  assert (∀ l j, lis s = Some l → _acceptEvents l !! j ≠ Some (Some (next s))) as Hev.
  { intros l j Hl Hj. assert (next s < next s)%nat by (by eapply (w_events _ _ Hi)). lia. }
  pose proof (inv_make ex _ sock (inv_net ex s n Hi)) as Hi'. simpl in Hi'.
  eapply wp_session_at; [apply lookup_insert_eq|]. wp_run. apply wp_Register.
  intros b n'. apply (inv_net _ _ n') in Hi'. simpl in *. destruct b; wp_run.
  - eapply Hs; try done; simpl; [by rewrite lookup_insert_eq|done|done].
  - by apply Hn.
Qed.

(** [RegisterAccept] gives the event a session of its own. *)
Lemma wp_RegisterAccept fuel i s :
  inv (Some i) s → wp other (RegisterAccept os fuel i) s (λ _ s', inv None s').
Proof.
  revert s. induction fuel as [|fuel IH]; intros s Hi; cbn [RegisterAccept]; [by apply wp_crash|].
  wp_step. apply (wp_CreateSession (Some i)); [done| |].
  - intros p x s1 H1 El Es Hp Hid Hc Hns Hne. unfold set_event. wp_run.
    set (s2 := set_lis _ s1). assert (inv None s2) as H2.
    { apply inv_set_event; [done|]. intros q [= <-]. exists x. by split_and!. }
    apply (wp_lift _ _ p); [done|]. unfold GetHandle. wp_run. eapply wp_session_at; [exact Hp|]. wp_run.
    unfold listener_socket. unfold wp at 1. destruct (lis s2) as [l|]; [|done]. wp_run.
    case_decide; [wp_run|by apply wp_crash]. apply wp_on_net; [apply returns_sys|]. intros r n.
    apply (inv_net _ _ n) in H2. destruct r as [e|]; [|by wp_run].
    destruct (e =? Session.WSA_IO_PENDING); [by wp_run|]. apply IH. by apply inv_weaken.
  - intros s1 _ _. unfold set_event. wp_run. unfold wp. done.
Qed.

Lemma service_calls_none p cs s :
  Forall (λ c, is_service_call c = false) cs → service_calls p cs s = Ret (tt, s).
Proof.
  intros H. revert s. induction H as [|c cs Hc _ IH]; intros s; [done|]. cbn [service_calls].
  rewrite (M_bind_step _ _ s tt s); [apply IH|]. by destruct c.
Qed.

Lemma service_calls_app p cs ds s :
  service_calls p (cs ++ ds) s = (service_calls p cs;; service_calls p ds) s.
Proof.
  revert s. induction cs as [|c cs IH]; intros s; [done|]. simpl. rewrite bind_assoc.
  unfold mbind, M_bind. destruct (service_call p c s) as [[[] s']|]; [|done]. apply IH.
Qed.

Variable session_os : nat → Session.os.

Lemma wp_on_session {A} E p x (m : Session.os → M (Session.t B) A) s Q :
  heap s !! p = Some x →
  wp E (m (session_os (tick (os_state s)))) (ses x) (λ a t,
    wp E (service_calls p (drop (length (Session.calls (ses x))) (Session.calls t)))
      (set_heap (<[p := mkSession t (_socket x) (address x)]>) s) (λ _ s', Q a s')) →
  wp E (on_session session_os p m) s Q.
Proof.
  intros Hp Hm. unfold on_session. wp_step. eapply wp_session_at; [done|]. wp_run. unfold wp at 1 in Hm. unfold wp at 1, lift.
  destruct (m _ (ses x)) as [[a t]|f]; [|done]. wp_run.
  eapply wp_mono; [exact Hm|]. intros; by wp_run.
Qed.

(** A calm operation of any session. *)
Lemma inv_on_session_calm {A} E ex p x (m : Session.os → M (Session.t B) A) s :
  inv ex s → heap s !! p = Some x → (∀ o, calm E (m o)) → wp E (on_session session_os p m) s (λ _ s', inv ex s').
Proof.
  intros Hi Hp Hm. apply (wp_on_session _ p x); [done|]. eapply wp_mono; [apply Hm|].
  intros a t Ht. pose proof Ht as [_ _ (cs & Ec & Hf)]. rewrite Ec, drop_app_length.
  unfold wp. rewrite service_calls_none by done. by apply inv_calm.
Qed.

(** The handlers of the contents may send on their session and disconnect it, and stop
    the program with a fault of [E]; the library's own faults, failed assertions apart,
    are in [E] too. *)
Section callbacks.
Context (OnConnected OnDisconnected : M (Session.t B) unit) (OnSend : Z → M (Session.t B) unit)
  (OnRecvPacket : list byte → M (Session.t B) unit).

Notation Dispatch := (Dispatch os session_os OnConnected OnDisconnected OnSend OnRecvPacket).
Notation object_Dispatch := (object_Dispatch os session_os OnConnected OnDisconnected OnSend OnRecvPacket).

Context (E : fault → Prop).
Hypothesis HE : ∀ f, other f → E f.
Hypothesis calm_connected : calm E OnConnected.
Hypothesis calm_disconnected : calm E OnDisconnected.
Hypothesis calm_send : ∀ n, calm E (OnSend n).
Hypothesis calm_packet : ∀ p, calm E (OnRecvPacket p).

(** A fault that is no failed assertion. *)
Lemma wp_other {A} (m : M (@st B) A) s Q : wp other m s Q → wp E m s Q.
Proof. unfold wp. destruct (m s) as [[a s']|f]; [done|apply HE]. Qed.

Lemma inv_ProcessConnect ex p x s :
  inv ex s → heap s !! p = Some x → idle (ses x) → p ∉ _sessions (srv s) →
  (∀ l i, lis s = Some l → _acceptEvents l !! i = Some (Some p) → ex = Some i) →
  wp E (on_session session_os p (λ o, Session.ProcessConnect OnConnected o)) s (λ _ s', inv ex s').
Proof.
  intros Hi Hp Hid Hn Hev. apply (wp_on_session _ p x); [done|].
  eapply wp_mono; [by apply wp_ProcessConnect|]. intros a t (Hc & Hex & cs & Ec & Hf).
  rewrite Ec, drop_app_length. cbn [service_calls service_call]. unfold AddSession. wp_run.
  unfold wp. rewrite service_calls_none by done. apply (inv_connect ex s p x t (address x)); done.
Qed.

Lemma inv_ProcessDisconnect p x s :
  inv None s → heap s !! p = Some x → Session.disconnect_owner (ses x) = true →
  wp E (on_session session_os p (λ o, Session.ProcessDisconnect OnDisconnected)) s (λ _ s', inv None s').
Proof.
  intros Hi Hp Hd. apply (wp_on_session _ p x); [done|].
  assert (Session._connected (ses x) = false) as Hc.
  { pose proof (w_excl _ _ Hi p x Hp) as Hx. destruct (Session._connected (ses x)); naive_solver. }
  assert (p ∈ _sessions (srv s)) as Hin by (eapply (w_live _ _ Hi); eauto).
  eapply wp_mono; [by apply (wp_ProcessDisconnect E)|]. intros a t (Ho & Hid & cs & Ec & Hf).
  rewrite Ec, drop_app_length. unfold wp. rewrite service_calls_app.
  rewrite (M_bind_step _ _ _ tt _ (service_calls_none p cs _ Hf)). cbn [service_calls service_call].
  unfold ReleaseSession. autorewrite with run. simpl. rewrite bool_decide_eq_true_2 by done. simpl.
  by apply (inv_release None s p x t).
Qed.

Lemma inv_ProcessAccept fuel i peer s :
  inv None s → (∃ l p, lis s = Some l ∧ _acceptEvents l !! i = Some (Some p)) →
  wp E (ProcessAccept os session_os OnConnected fuel i peer) s (λ _ s', inv None s').
Proof.
  intros Hi (l & p & El & Ei). destruct (w_accept _ _ Hi l i p El Ei) as (x & Hp & Hid & Hco & Hn); [done|].
  pose proof (inv_weaken i s Hi) as Hw. unfold ProcessAccept. wp_run.
  apply (wp_lift _ _ p); [by rewrite El; simpl; rewrite Ei|]. unfold GetHandle. wp_run.
  eapply wp_session_at; [done|]. wp_run. unfold listener_socket. unfold wp at 1. rewrite El. wp_step.
  apply wp_on_net; [apply returns_ok|]. intros b n. apply (inv_net _ _ n) in Hw. destruct b; [|by apply wp_other, wp_RegisterAccept].
  simpl. wp_step. apply wp_on_net; [apply returns_ok|]. intros b n'. apply (inv_net _ _ n') in Hw.
  destruct b; [|by apply wp_other, wp_RegisterAccept]. simpl in *. wp_run.
  apply (inv_calm _ _ p x (ses x) (NetAddress.of_sockaddr peer)) in Hw; [|done|apply calm_refl].
  apply (wp_mono _ _ _ (λ _ s', inv (Some i) s')); [|intros ? s' H'; by apply wp_other, wp_RegisterAccept].
  assert (alter (λ x, mkSession (ses x) (_socket x) (NetAddress.of_sockaddr peer)) p (heap s) =
          <[p := mkSession (ses x) (_socket x) (NetAddress.of_sockaddr peer)]> (heap s)) as Ea.
  { apply map_eq. intros q. rewrite lookup_alter, lookup_insert. case_decide; [subst q; by rewrite Hp|done]. }
  unfold set_heap in *. simpl in *. rewrite Ea.
  eapply (inv_ProcessConnect (Some i)); [exact Hw|simpl; apply lookup_insert_eq|done|done|].
  simpl. intros l' j El' Ej. assert (l' = l) as -> by congruence. f_equal. by apply (w_inj _ _ Hi l i j p).
Qed.

(** What the kernel can deliver: an accept event with its session, or the
    completion of a request a session has made. *)
Definition outstanding (ty : Session.EEventType) (t : Session.t B) : bool :=
  match ty with
  | Session.Connect_ => Session.connect_owner t
  | Session.Disconnect_ => Session.disconnect_owner t
  | Session.Recv_ => Session.recv_owner t
  | Session.Send_ => Session.send_owner t
  | Session.Accept_ => false
  end.

Definition deliverable (c : completion) s : Prop :=
  match c with
  | Completed (AcceptEvent i _) _ | Failed (AcceptEvent i _) _ _ =>
    ∃ l p, lis s = Some l ∧ _acceptEvents l !! i = Some (Some p)
  | Completed (SessionEvent p ty) _ | Failed (SessionEvent p ty) _ _ =>
    ∃ x, heap s !! p = Some x ∧ outstanding ty (ses x) = true
  | NoEvent _ => True
  end.

Lemma inv_session_Dispatch fuel p ty n x s :
  inv None s → heap s !! p = Some x → outstanding ty (ses x) = true →
  wp E (object_Dispatch fuel (SessionEvent p ty) n) s (λ _ s', inv None s').
Proof.
  intros Hi Hp Ho. cbn [Service.object_Dispatch]. destruct ty; simpl in Ho.
  - destruct (w_connect _ _ Hi p x Hp Ho) as [Hid Hn]. apply (inv_ProcessConnect _ p x); try done.
    intros l i El Ei. destruct (w_accept _ _ Hi l i p El Ei) as (y & Hy & _ & Hc & _); [done|]. congruence.
  - by apply (inv_ProcessDisconnect p x).
  - done.
  - apply (inv_on_session_calm _ _ p x); [done..|]. intros o. by apply (calm_ProcessRecv o E).
  - apply (inv_on_session_calm _ _ p x); [done..|]. intros o. by apply (calm_ProcessSend o E).
Qed.

Lemma inv_Dispatch fuel c s :
  inv None s → deliverable c s → wp E (Dispatch fuel c) s (λ _ s', inv None s').
Proof.
  intros Hi Hd. assert (∀ e n, (∃ l p i peer, e = AcceptEvent i peer ∧ lis s = Some l ∧ _acceptEvents l !! i = Some (Some p)) ∨
    (∃ p ty x, e = SessionEvent p ty ∧ heap s !! p = Some x ∧ outstanding ty (ses x) = true) →
    wp E (object_Dispatch fuel e n) s (λ _ s', inv None s')) as K.
  { intros e n [(l & p & i & peer & -> & El & Ei)|(p & ty & x & -> & Hp & Ho)].
    - apply inv_ProcessAccept; eauto.
    - by apply (inv_session_Dispatch fuel p ty n x). }
  destruct c as [e n|e n err|err]; cbn [Service.Dispatch].
  - wp_step. eapply wp_mono; [apply K; destruct e; naive_solver|]. intros; by wp_run.
  - destruct (err =? WAIT_TIMEOUT); wp_run; [done|]. eapply wp_mono; [apply K; destruct e; naive_solver|]. intros; by wp_run.
  - destruct (err =? WAIT_TIMEOUT); [by wp_run|]. by apply wp_crash, HE.
Qed.
End callbacks.

(** ** Starting *)

(** The listener changes, and no event gets a session. *)
Lemma inv_events ex s f :
  inv ex s →
  (∀ l0 l, lis s = Some l0 → fmap f (lis s) = Some l →
     ∀ i p, _acceptEvents l !! i = Some (Some p) → _acceptEvents l0 !! i = Some (Some p)) →
  inv ex (set_lis (fmap f) s).
Proof.
  intros [] K. split; simpl; try done.
  - intros l i p Hl Hi. destruct (lis s) as [l0|] eqn:El; [|done]. eauto.
  - intros l i j p Hl Hi Hj. destruct (lis s) as [l0|] eqn:El; [|done]. eauto.
  - intros l i p Hl Hi. destruct (lis s) as [l0|] eqn:El; [|done]. eauto.
Qed.

Lemma inv_no_event ex s sock :
  inv ex s → inv ex (set_lis (fmap (λ l, mkListener sock (_acceptEvents l))) s).
Proof.
  intros Hi. apply (inv_events _ s); [done|]. intros l0 l El Hl. rewrite El in Hl. by injection Hl as <-.
Qed.

(** A new accept event has no session. *)
Lemma inv_new_event ex s :
  inv ex s → inv ex (set_lis (fmap (λ l, mkListener (listen_socket l) (_acceptEvents l ++ [None]))) s).
Proof.
  intros Hi. apply (inv_events _ s); [done|]. intros l0 l El Hl. rewrite El in Hl. injection Hl as <-. simpl.
  intros i p Hp. apply lookup_app_Some in Hp as [?|[_ Hp]]; [done|].
  apply list_lookup_singleton_Some in Hp as [_ Hp]. done.
Qed.

Lemma inv_accept_loop fuel n s :
  inv None s → wp other (accept_loop os fuel n) s (λ _ s', inv None s').
Proof.
  revert s. induction n as [|n IH]; intros s Hi; cbn [accept_loop]; wp_run; [done|].
  eapply wp_mono; [apply wp_RegisterAccept, inv_weaken, inv_new_event, Hi|]. intros ? s'. apply IH.
Qed.

Lemma returns_bind {A A'} (m : M net A) (k : A → M net A') : returns m → (∀ a, returns (k a)) → returns (m ≫= k).
Proof. intros Hm Hk n. destruct (Hm n) as (a & n' & E). rewrite (M_bind_step _ _ _ _ _ E). apply Hk. Qed.

Lemma returns_Close h : returns (SocketUtils.Close os h).
Proof. intros n. destruct h; eexists _, _; reflexivity. Qed.

Lemma inv_StartAccept fuel s : inv None s → wp other (StartAccept os fuel) s (λ _ s', inv None s').
Proof.
  intros Hi. unfold StartAccept. wp_step. apply wp_on_net; [apply returns_CreateSocket|]. intros sock n. wp_run.
  apply (inv_net _ _ n), (inv_no_event _ _ sock) in Hi. destruct sock; wp_run; [|done].
  apply wp_Register. intros b n1. apply (inv_net _ _ n1) in Hi. destruct b; simpl in *; wp_run; [|done].
  apply wp_on_net; [apply returns_ok|]. intros b n2. apply (inv_net _ _ n2) in Hi. destruct b; simpl in *; wp_run; [|done].
  apply wp_on_net; [apply returns_ok|]. intros b n3. apply (inv_net _ _ n3) in Hi. destruct b; simpl in *; wp_run; [|done].
  apply wp_on_net; [apply returns_ok|]. intros b n4. apply (inv_net _ _ n4) in Hi. destruct b; simpl in *; wp_run; [|done].
  apply wp_on_net; [apply returns_ok|]. intros b n5. apply (inv_net _ _ n5) in Hi. destruct b; simpl in *; wp_run; [|done].
  unfold GetMaxSessionCount. wp_run. eapply wp_mono; [by apply inv_accept_loop|]. intros; by wp_run.
Qed.

(** The state before the service starts. *)
Definition created (v : service) (n : net) : @st B := mk v ∅ 0 None n.

Lemma inv_created type addr factory max n : inv None (created (new type addr factory max) n).
Proof. split; simpl; try done; intros *; rewrite ?lookup_empty; try done; intros []; done. Qed.

Lemma inv_new_listener s : inv None s → inv None (set_lis (λ _, Some (mkListener None [])) s).
Proof. intros []. by split; simpl; try done; intros; simplify_eq. Qed.

Lemma inv_ServerService_Start fuel s : inv None s → wp other (ServerService_Start os fuel) s (λ _ s', inv None s').
Proof.
  intros Hi. unfold ServerService_Start, CanStart. wp_run; [done|]. by apply inv_StartAccept, inv_new_listener.
Qed.

(** A session with no accept event asks to be connected. *)
Lemma inv_Connect p x ty s :
  inv None s → heap s !! p = Some x → idle (ses x) → p ∉ _sessions (srv s) →
  (∀ l j, lis s = Some l → _acceptEvents l !! j ≠ Some (Some p)) →
  wp other (on_session session_os p (λ o, Session.Connect o ty)) s (λ _ s', inv None s').
Proof.
  intros Hi Hp Hid Hn Hev. apply (wp_on_session _ p x); [done|]. eapply wp_mono; [apply calm_RegisterConnect|].
  intros b t (Hc & Hd & _ & cs & Ec & Hf). rewrite Ec, drop_app_length. unfold wp. rewrite service_calls_none by done.
  destruct Hi, Hid as [Hid1 Hid2].
  assert (∀ q y, <[p := mkSession t (_socket x) (address x)]> (heap s) !! q = Some y →
    (q = p ∧ y = mkSession t (_socket x) (address x)) ∨ heap s !! q = Some y) as K.
  { intros q y. rewrite lookup_insert. case_decide; naive_solver. }
  split; simpl; try done.
  - intros q [y Hy]. destruct (K q y Hy) as [[-> _]|Hq]; eauto.
  - intros q Hq. rewrite lookup_insert. case_decide; eauto.
  - intros q y Hy Hl. destruct (K q y Hy) as [[-> ->]|Hq]; [simpl in Hl; naive_solver congruence|eauto].
  - intros q y Hy. destruct (K q y Hy) as [[-> ->]|Hq]; [simpl; naive_solver congruence|eauto].
  - intros q y Hy Ho. destruct (K q y Hy) as [[-> ->]|Hq]; [|eauto]. split; [|done]. split; simpl; congruence.
  - intros l i q El Ei Hx. destruct (w_accept0 l i q El Ei Hx) as (y & ?). exists y.
    rewrite lookup_insert_ne; [done|]. intros <-. by destruct (Hev l i).
Qed.

Lemma inv_connect_sessions n s : inv None s → wp other (connect_sessions os session_os n) s (λ _ s', inv None s').
Proof.
  revert s. induction n as [|n IH]; intros s Hi; cbn [connect_sessions]; wp_run; [done|].
  apply (wp_CreateSession None); [done| |].
  - intros p x s1 H1 _ _ Hp Hid _ Hns Hev. wp_run. apply (wp_lift _ _ p); [done|]. wp_run.
    eapply wp_mono; [by apply (inv_Connect p x)|]. intros b s2 H2. destruct b; [by apply IH|by wp_run].
  - intros s1 _ _. wp_run. unfold wp. done.
Qed.

Lemma inv_ClientService_Start s : inv None s → wp other (ClientService_Start os session_os) s (λ _ s', inv None s').
Proof.
  intros Hi. unfold ClientService_Start, CanStart, GetMaxSessionCount. wp_run; [done|]. by apply inv_connect_sessions.
Qed.

Lemma inv_send_all b l s :
  inv None s → (∀ p, p ∈ l → is_Some (heap s !! p)) → wp other (send_all session_os l b) s (λ _ s', inv None s').
Proof.
  revert s. induction l as [|p l IH]; intros s Hi Hin; cbn [send_all]; wp_run; [done|].
  destruct (Hin p) as [x Hp]; [left|]. apply (wp_on_session _ p x); [done|]. eapply wp_mono; [apply (calm_Send other)|].
  intros a t Ht. pose proof Ht as [_ _ (cs & Ec & Hf)]. rewrite Ec, drop_app_length.
  unfold wp at 1. rewrite service_calls_none by done. apply IH; [by apply inv_calm|].
  intros q Hq. simpl. rewrite lookup_insert. case_decide; [eauto|]. apply Hin. by right.
Qed.

Lemma inv_Broadcast b s : inv None s → wp other (Broadcast session_os b) s (λ _ s', inv None s').
Proof.
  intros Hi. unfold Broadcast. wp_run. apply inv_send_all; [done|].
  intros p. rewrite elem_of_elements. apply (w_set _ _ Hi).
Qed.

(** The manager's broadcast, whatever sessions were added to it. *)
Lemma inv_manager_Broadcast X b s :
  inv None s → (∀ p, p ∈ X → is_Some (heap s !! p)) → wp other (manager_Broadcast session_os X b) s (λ _ s', inv None s').
Proof. intros Hi HX. apply inv_send_all; [done|]. intros p. rewrite elem_of_elements. apply HX. Qed.

(** ** Every run *)

Context (OnConnected OnDisconnected : M (Session.t B) unit) (OnSend : Z → M (Session.t B) unit)
  (OnRecvPacket : list byte → M (Session.t B) unit).

Notation Dispatch := (Dispatch os session_os OnConnected OnDisconnected OnSend OnRecvPacket).
Notation object_Dispatch := (object_Dispatch os session_os OnConnected OnDisconnected OnSend OnRecvPacket).

(** The states a service goes through: it is created and started, completions
    are delivered, and the program sends, disconnects, broadcasts and closes. *)
Inductive reachable : @st B → Prop :=
| at_start type addr factory max n : reachable (created (new type addr factory max) n)
| at_server fuel b s s' : reachable s → ServerService_Start os fuel s = Ret (b, s') → reachable s'
| at_client b s s' : reachable s → ClientService_Start os session_os s = Ret (b, s') → reachable s'
| at_completion fuel c b s s' : reachable s → deliverable c s → Dispatch fuel c s = Ret (b, s') → reachable s'
| at_send p buf u s s' : reachable s → on_session session_os p (λ o, Session.Send o buf) s = Ret (u, s') → reachable s'
| at_disconnect p u s s' : reachable s → on_session session_os p (λ o, Session.Disconnect o) s = Ret (u, s') → reachable s'
| at_broadcast buf u s s' : reachable s → Broadcast session_os buf s = Ret (u, s') → reachable s'
| at_manager X buf u s s' :
    reachable s → (∀ p, p ∈ X → is_Some (heap s !! p)) → manager_Broadcast session_os X buf s = Ret (u, s') → reachable s'
| at_close_listener u s s' : reachable s → CloseSocket os s = Ret (u, s') → reachable s'
| at_close u s s' : reachable s → CloseService s = Ret (u, s') → reachable s'
| at_factory f u s s' : reachable s → SetSessionFactory f s = Ret (u, s') → reachable s'.

Lemma wp_Ret {A} E (m : M (@st B) A) s Q a s' : wp E m s Q → m s = Ret (a, s') → Q a s'.
Proof. unfold wp. intros H Hm. by rewrite Hm in H. Qed.

Lemma inv_call {A} p s (m : Session.os → M (Session.t B) A) a s' :
  inv None s → (∀ o, calm other (m o)) → on_session session_os p m s = Ret (a, s') → inv None s'.
Proof.
  intros Hi Hm E. destruct (heap s !! p) as [x|] eqn:Hp.
  - exact (wp_Ret _ _ _ _ _ _ (inv_on_session_calm other None p x m s Hi Hp Hm) E).
  - unfold on_session, mbind, M_bind, session_at in E. by rewrite Hp in E.
Qed.

(** What the handlers of the contents may do to their session: they send on it and
    disconnect it, if they return at all. *)
Definition any (f : fault) : Prop := True.
Hypothesis calm_connected : calm any OnConnected.
Hypothesis calm_disconnected : calm any OnDisconnected.
Hypothesis calm_send : ∀ n, calm any (OnSend n).
Hypothesis calm_packet : ∀ p, calm any (OnRecvPacket p).

Lemma reachable_inv s : reachable s → inv None s.
Proof.
  induction 1 as [|fuel b s s' _ IH E|b s s' _ IH E|fuel c b s s' _ IH Hd E|p buf u s s' _ IH E|p u s s' _ IH E
    |buf u s s' _ IH E|X buf u s s' _ IH HX E|u s s' _ IH E|u s s' _ IH E|f u s s' _ IH E].
  - apply inv_created.
  - exact (wp_Ret _ _ _ _ _ _ (inv_ServerService_Start fuel s IH) E).
  - exact (wp_Ret _ _ _ _ _ _ (inv_ClientService_Start s IH) E).
  - exact (wp_Ret _ _ _ _ _ _ (inv_Dispatch _ _ _ _ any (λ _ _, I) calm_connected calm_disconnected calm_send calm_packet fuel c s IH Hd) E).
  - exact (inv_call p s _ u s' IH (λ o, calm_Send other o buf) E).
  - exact (inv_call p s _ u s' IH (λ o, calm_Disconnect other o) E).
  - exact (wp_Ret _ _ _ _ _ _ (inv_Broadcast buf s IH) E).
  - exact (wp_Ret _ _ _ _ _ _ (inv_manager_Broadcast X buf s IH HX) E).
  - revert E. unfold CloseSocket, listener_socket, mbind, M_bind. destruct (lis s) as [l|] eqn:El; [|done].
    unfold on_net. destruct (returns_Close (listen_socket l) (os_state s)) as (h & n & ->). intros [= _ <-].
    exact (inv_no_event None _ h (inv_net None s n IH)).
  - injection E as _ <-. destruct IH. by split.
  - injection E as _ <-. destruct IH. by split.
Qed.

(** *** Whose assertion failed *)

(** [m] with its failed assertions reported as the fault [g]. *)
Definition renamed {S A} (g : fault) (m : M S A) : M S A := λ x,
  match m x with Crash AssertCrash => Crash g | r => r end.

Section renamed.
Variable g : fault.

(** Two runs that are the same, except that some failed assertions of the first are the
    fault [g] in the second. *)
Definition renames {S A} (m m' : M S A) : Prop :=
  ∀ x, m' x = m x ∨ m x = Crash AssertCrash ∧ m' x = Crash g.

Lemma renames_refl {S A} (m : M S A) : renames m m.
Proof. by left. Qed.

Lemma renames_renamed {S A} (m : M S A) : renames m (renamed g m).
Proof. intros s. unfold renamed. destruct (m s) as [|[]]; auto. Qed.

Lemma renames_bind {S A A'} (m m' : M S A) (k k' : A → M S A') :
  renames m m' → (∀ a, renames (k a) (k' a)) → renames (m ≫= k) (m' ≫= k').
Proof.
  intros Hm Hk s. unfold mbind, M_bind. destruct (Hm s) as [->|[-> ->]]; [|by right].
  destruct (m s) as [[a s']|f]; [apply Hk|by left].
Qed.

Lemma renames_OnRecv buffer len :
  renames (Session.OnRecv OnRecvPacket buffer len) (Session.OnRecv (λ p, renamed g (OnRecvPacket p)) buffer len).
Proof.
  unfold renames, Session.OnRecv, PacketSession.OnRecv. generalize (S (Z.to_nat len)) 0. intros fuel.
  induction fuel as [|fuel IH]; intros pl s; simpl; [by left|]. case_test; [by left|].
  destruct (PacketSession.header_at buffer pl) as [h|f]; [|by left]. case_test; [by left|].
  match goal with |- context [OnRecvPacket ?q] =>
    destruct (renames_bind (Session.emit (Session.OnRecvPacketCall q)) _ (λ _, OnRecvPacket q) (λ _, renamed g (OnRecvPacket q))
      (renames_refl _) (λ _, renames_renamed _) s) as [->|[-> ->]]; [|by right];
    set (m := _;; OnRecvPacket q) end.
  destruct (m s) as [[[] s']|f]; [apply IH|by left].
Qed.

Lemma renames_on_session {A} p (m m' : Session.os → M (Session.t B) A) :
  (∀ o, renames (m o) (m' o)) → renames (on_session session_os p m) (on_session session_os p m').
Proof.
  intros Hm. unfold on_session. apply renames_bind; [apply renames_refl|]. intros x.
  apply renames_bind; [apply renames_refl|]. intros s.
  apply renames_bind; [|intros []; apply renames_refl]. intros s'. unfold lift.
  destruct (Hm (session_os (tick (os_state s))) (ses x)) as [->|[-> ->]]; auto.
Qed.
End renamed.

#[local] Hint Resolve renames_refl renames_renamed renames_OnRecv renames_on_session : renames.

Ltac renames_tac :=
  repeat lazymatch goal with
  | |- renames _ (_ ≫= _) (_ ≫= _) => apply renames_bind; [|intros ?]
  | |- renames _ (match ?x with _ => _ end) _ => destruct x
  | |- _ => solve [auto with renames]
  end.

(** The dispatch of a completion with callbacks that report their failed assertions as
    [g]. *)
Definition Dispatch_renamed (g : fault) : nat → completion → M st bool :=
  Service.Dispatch os session_os (renamed g OnConnected) (renamed g OnDisconnected) (λ n, renamed g (OnSend n))
    (λ p, renamed g (OnRecvPacket p)).

Lemma renames_session g o ty n :
  renames g (Session.Dispatch OnConnected OnDisconnected OnSend OnRecvPacket o ty n)
    (Session.Dispatch (renamed g OnConnected) (renamed g OnDisconnected) (λ n, renamed g (OnSend n))
       (λ p, renamed g (OnRecvPacket p)) o ty n).
Proof.
  destruct ty; cbn [Session.Dispatch];
    unfold Session.ProcessConnect, Session.ProcessDisconnect, Session.ProcessRecv, Session.ProcessSend; renames_tac.
Qed.

Lemma renames_accept g fuel i peer :
  renames g (ProcessAccept os session_os OnConnected fuel i peer)
    (ProcessAccept os session_os (renamed g OnConnected) fuel i peer).
Proof.
  unfold ProcessAccept. renames_tac. apply renames_on_session. intros o. unfold Session.ProcessConnect. renames_tac.
Qed.

Lemma renames_Dispatch g fuel c : renames g (Dispatch fuel c) (Dispatch_renamed g fuel c).
Proof.
  assert (∀ e n, renames g (object_Dispatch fuel e n) (Service.object_Dispatch os session_os (renamed g OnConnected)
    (renamed g OnDisconnected) (λ n, renamed g (OnSend n)) (λ p, renamed g (OnRecvPacket p)) fuel e n)) as K.
  { intros [i peer|p ty] n; cbn [Service.object_Dispatch]; [apply renames_accept|].
    apply renames_on_session. intros o. apply renames_session. }
  unfold Dispatch_renamed. destruct c as [e n|e n err|err]; cbn [Service.Dispatch];
    try destruct (err =? WAIT_TIMEOUT); try apply renames_refl; apply renames_bind; auto using renames_refl.
Qed.

Lemma calm_renamed {A} g (m : M (Session.t B) A) : g ≠ AssertCrash → calm any m → calm other (renamed g m).
Proof.
  intros Hg Hm s. specialize (Hm s). unfold wp, renamed in *. destruct (m s) as [[a s']|f]; [done|]. by destruct f.
Qed.

(** The assertion that fails in a completion is a callback's own. *)
Lemma assertion_of_callback g fuel c s :
  inv None s → deliverable c s → g ≠ AssertCrash → Dispatch fuel c s = Crash AssertCrash →
  Dispatch_renamed g fuel c s = Crash g.
Proof.
  intros Hi Hd Hg E. destruct (renames_Dispatch g fuel c s) as [H|[_ H]]; [|done]. rewrite E in H.
  assert (wp other (Dispatch_renamed g fuel c) s (λ _ s', inv None s')) as W.
  { apply (inv_Dispatch (renamed g OnConnected) (renamed g OnDisconnected) (λ n, renamed g (OnSend n)) (λ p, renamed g (OnRecvPacket p)) other (λ f Hf, Hf)); try done; intros; by apply calm_renamed. }
  unfold wp in W. by rewrite H in W.
Qed.

(** C20: The service's set of sessions is right in every run: whatever the operating
    system answers, and with callbacks that send on their own session and disconnect it,
    and that may stop the program, in every state the service can reach the session
    counter is the size of the set (modulo its 32 bits), every session that is connected,
    or whose disconnection is under way, is in the set and alive, and a session waiting
    for a connection is not in it.  A completion that can be delivered fails an assertion
    only inside a callback: with callbacks that report their failed assertions as any
    other fault, the same completion stops with that fault instead.  So the library's own
    assertions ([ReleaseSession]'s, that the session was in the set, and
    [Listener::Dispatch]'s, among them) never fail. *)
Theorem service_tracks_sessions s :
  reachable s →
  _sessionCount (srv s) = i32 (Z.of_nat (size (_sessions (srv s)))) ∧
  (∀ p, p ∈ _sessions (srv s) → is_Some (heap s !! p)) ∧
  (∀ p x, heap s !! p = Some x →
     (Session._connected (ses x) = true ∨ Session.disconnect_owner (ses x) = true → p ∈ _sessions (srv s)) ∧
     (Session.connect_owner (ses x) = true → p ∉ _sessions (srv s))) ∧
  (∀ fuel c, deliverable c s → Dispatch fuel c s = Crash AssertCrash →
     ∀ g, g ≠ AssertCrash → Dispatch_renamed g fuel c s = Crash g).
Proof.
  intros Hr. pose proof (reachable_inv s Hr) as Hi. split_and!.
  - apply (w_count _ _ Hi).
  - apply (w_set _ _ Hi).
  - intros p x Hp. split; [by apply (w_live _ _ Hi)|]. intros Ho. apply (w_connect _ _ Hi p x Hp Ho).
  - intros fuel c Hd E g Hg. by apply assertion_of_callback.
Qed.

(** A connection that failed counts as made: [IocpCore::Dispatch] hands the
    event of a failed operation to the session like that of a successful one, so
    when [ConnectEx] completes with an error (the peer refused, say) the
    connection handler runs and the session is added to the service's sessions. *)
Theorem failed_connect_is_connected fuel p x n err s :
  calm (λ _, False) OnConnected →
  reachable s → heap s !! p = Some x → Session.connect_owner (ses x) = true → err ≠ WAIT_TIMEOUT →
  p ∉ _sessions (srv s) ∧
  ∃ s', Dispatch fuel (Failed (SessionEvent p Session.Connect_) n err) s = Ret (true, s') ∧
    p ∈ _sessions (srv s') ∧ _sessionCount (srv s') = i32 (_sessionCount (srv s) + 1).
Proof.
  intros Hcalm Hr Hp Ho Herr. destruct (w_connect _ _ (reachable_inv s Hr) p x Hp Ho) as [Hid Hn]. split; [done|].
  cbn [Service.Dispatch]. destruct (Z.eqb_spec err WAIT_TIMEOUT); [done|].
  assert (wp (λ _, False) (object_Dispatch fuel (SessionEvent p Session.Connect_) n) s (λ _ s',
    p ∈ _sessions (srv s') ∧ _sessionCount (srv s') = i32 (_sessionCount (srv s) + 1))) as W.
  { cbn [Service.object_Dispatch Session.Dispatch]. apply (wp_on_session _ p x); [done|].
    eapply wp_mono; [by apply wp_ProcessConnect|]. intros u t (_ & _ & cs & Ec & Hf).
    rewrite Ec, drop_app_length. cbn [service_calls service_call]. unfold AddSession. wp_run.
    unfold wp. rewrite service_calls_none by done. simpl. split; [set_solver|done]. }
  unfold wp in W. unfold mbind, M_bind. destruct (object_Dispatch _ _ _ s) as [[[] s']|]; [|done]. by exists s'.
Qed.

End service.

(** ** The accept loop *)

Section accept.
Context {B : Type} (os : nat → option Z).
Implicit Types s : @st B.

(** [AcceptEx] took the request: it succeeded or is pending. *)
Definition accepted (r : option Z) : bool :=
  match r with None => true | Some e => e =? Session.WSA_IO_PENDING end.

(** One round of [RegisterAccept] makes three calls: the session's socket, its
    registration with the port, and [AcceptEx]. *)
Lemma RegisterAccept_round fuel i s l :
  lis s = Some l → WSAID_ACCEPTEX ∈ loaded (os_state s) → os (1 + tick (os_state s)) = None →
  ∃ s', next s' = S (next s) ∧ lis s' = Some (mkListener (listen_socket l) (<[i := Some (next s)]> (_acceptEvents l))) ∧
    loaded (os_state s') = loaded (os_state s) ∧ tick (os_state s') = (3 + tick (os_state s))%nat ∧
    RegisterAccept os (S fuel) i s = if accepted (os (2 + tick (os_state s))) then Ret (tt, s') else RegisterAccept os fuel i s'.
Proof.
  intros El Ha Hreg. destruct s as [v h nx li n]. simpl in *. subst li. destruct n as [tk so lo po ca]. simpl in *.
  cbn [RegisterAccept]. unfold CreateSession, make_session, Register, GetHandle, SocketUtils.CreateSocket, SocketUtils.ok.
  destruct (os tk) as [e|] eqn:E0; destruct (os (S (S tk))) as [e'|] eqn:E2; simpl.
  all: repeat (unfold mbind, M_bind, on_net, session_at, listener_socket, SocketUtils.sys, SocketUtils.set_sockets,
    gets, modify, get, mret, M_ret, when, lift, set_event, set_lis; simpl; rewrite ?E0, ?Hreg, ?E2, ?lookup_insert_eq; simpl).
  all: rewrite decide_True by done; simpl; rewrite ?E2.
  all: try (destruct (e' =? Session.WSA_IO_PENDING)).
  all: eexists (mk _ _ _ _ (mkNet _ _ _ _ _)); repeat split; reflexivity.
Qed.

(** Registering an accept event makes a session per attempt until
    [AcceptEx] takes the request: if the [k]-th attempt (from 0) is the first one
    taken, [k + 1] levels of the recursion are enough, [k + 1] sessions are made
    and the event holds the last one; with fewer levels it is still calling
    itself.  So the recursion ends exactly when some attempt is taken. *)
Theorem register_accept_ends fuel i s l k :
  lis s = Some l → (i < length (_acceptEvents l))%nat → WSAID_ACCEPTEX ∈ loaded (os_state s) →
  (∀ j, (j ≤ k)%nat → os (3 * j + 1 + tick (os_state s)) = None) →
  (∀ j, (j < k)%nat → accepted (os (3 * j + 2 + tick (os_state s))) = false) →
  accepted (os (3 * k + 2 + tick (os_state s))) = true →
  if bool_decide (k < fuel)%nat
  then ∃ s', RegisterAccept os fuel i s = Ret (tt, s') ∧ next s' = (next s + k + 1)%nat ∧
    (l ← lis s'; _acceptEvents l !! i) = Some (Some (next s + k)%nat)
  else RegisterAccept os fuel i s = Crash Hang.
Proof.
  revert s l fuel. induction k as [|k IH]; intros s l fuel El Hi Ha Hreg Href Hacc.
  all: destruct fuel as [|fuel]; [done|].
  all: destruct (RegisterAccept_round fuel i s l El Ha (Hreg 0%nat ltac:(lia))) as (s' & En & El' & Elo & Et & E).
  - rewrite bool_decide_eq_true_2 by lia. replace (3 * 0 + 2 + _)%nat with (2 + tick (os_state s))%nat in Hacc by lia.
    rewrite Hacc in E. exists s'. split_and!; [done|lia|]. rewrite El'. simpl. rewrite list_lookup_insert_eq by done. repeat f_equal. lia.
  - specialize (Href 0%nat ltac:(lia)) as Href0.
    replace (3 * 0 + 2 + _)%nat with (2 + tick (os_state s))%nat in Href0 by lia. rewrite Href0 in E.
    specialize (IH s' _ fuel El'). simpl in IH. rewrite length_insert, Elo, Et in IH.
    specialize (IH Hi Ha). rewrite E.
    replace (bool_decide (S k < S fuel)%nat) with (bool_decide (k < fuel)%nat) by (apply bool_decide_ext; lia).
    replace (next s + S k + 1)%nat with (next s' + k + 1)%nat by lia. replace (next s + S k)%nat with (next s' + k)%nat by lia.
    apply IH.
    + intros j Hj. specialize (Hreg (S j) ltac:(lia)). rewrite <-Hreg. f_equal. lia.
    + intros j Hj. specialize (Href (S j) ltac:(lia)). rewrite <-Href. do 2 f_equal. lia.
    + rewrite <-Hacc. do 2 f_equal. lia.
Qed.

End accept.
(** ** Concrete runs *)

Section witnesses.

(** Every call succeeds; requests stay pending. *)
Definition all_ok (n : nat) : option Z := None.
Definition session_ok (n : nat) : Session.os :=
  Session.mkOs true true (Session.SysErr Session.WSA_IO_PENDING) (Session.SysErr Session.WSA_IO_PENDING)
    (Session.SysErr Session.WSA_IO_PENDING) (Session.SysErr Session.WSA_IO_PENDING).

Definition no_op : M (Session.t Z) unit := mret tt.
Definition no_op1 {A} (a : A) : M (Session.t Z) unit := mret tt.

(** The process after [SocketUtils::Init]. *)
Definition started_net : net := mkNet 0 ∅ [WSAID_ACCEPTEX; WSAID_DISCONNECTEX; WSAID_CONNECTEX] [] [].
Definition demo (type : Session.ServiceType) : @st Z := created (new type NetAddress.new true 2) started_net.

Definition state_of {A} (r : result (A * @st Z)) : @st Z :=
  match r with Ret (_, s) => s | Crash _ => created (new Session.Server NetAddress.new false 0) started_net end.

Definition value_of {A} (r : result (A * @st Z)) : option A := match r with Ret (a, _) => Some a | Crash _ => None end.

Lemma state_of_eq {A} (r : result (A * @st Z)) a : value_of r = Some a → r = Ret (a, state_of r).
Proof. destruct r as [[a' s]|]; [|done]. intros H. injection H as ->. done. Qed.

(** A packet handler that fails an assertion on every packet. *)
Definition refusing (p : list byte) : M (Session.t Z) unit := crash AssertCrash.

(** A server with one client, and a client whose connection is under way. *)
Definition serving : @st Z := state_of (ServerService_Start all_ok 1 (demo Session.Server)).
Definition one_client : @st Z :=
  state_of (Dispatch all_ok session_ok no_op no_op no_op1 refusing 1 (Completed (AcceptEvent 0 (mkAddr 2 1 1)) 0) serving).
Definition connecting : @st Z := state_of (ClientService_Start all_ok session_ok (demo Session.Client)).

Lemma serving_ok : ServerService_Start all_ok 1 (demo Session.Server) = Ret (true, serving).
Proof. unfold serving. apply state_of_eq. vm_compute. reflexivity. Qed.

Lemma one_client_ok :
  Dispatch all_ok session_ok no_op no_op no_op1 refusing 1 (Completed (AcceptEvent 0 (mkAddr 2 1 1)) 0) serving = Ret (true, one_client).
Proof. unfold one_client. apply state_of_eq. vm_compute. reflexivity. Qed.

Lemma connecting_ok : ClientService_Start all_ok session_ok (demo Session.Client) = Ret (true, connecting).
Proof. unfold connecting. apply state_of_eq. vm_compute. reflexivity. Qed.

(** The session at address 0. *)
Lemma session0 s (f : Session.t Z → bool) : f ∘ ses <$> heap s !! 0%nat = Some true → ∃ x, heap s !! 0%nat = Some x ∧ f (ses x) = true.
Proof. intros H. apply fmap_Some in H as (x & ? & ?). eauto. Qed.

Lemma serving_event : ∃ l p, lis serving = Some l ∧ _acceptEvents l !! 0%nat = Some (Some p).
Proof.
  assert ((l ← lis serving; _acceptEvents l !! 0%nat) = Some (Some 0%nat)) as H by (vm_compute; reflexivity).
  apply bind_Some in H as (l & ? & ?). eauto.
Qed.

(** The handler's assertion fails on the first packet; the service's books are right. *)
Lemma service_tracks_sessions_witness :
  _sessionCount (srv one_client) = 1 ∧ 0%nat ∈ _sessions (srv one_client) ∧
  Dispatch all_ok session_ok no_op no_op no_op1 refusing 1 (Completed (SessionEvent 0 Session.Recv_) 4) one_client = Crash AssertCrash ∧
  Dispatch_renamed all_ok session_ok no_op no_op no_op1 refusing NullDeref 1 (Completed (SessionEvent 0 Session.Recv_) 4) one_client =
    Crash NullDeref.
Proof.
  assert (reachable all_ok session_ok no_op no_op no_op1 refusing one_client) as Hr.
  { eapply at_completion; [eapply at_server; [apply at_start|apply serving_ok]| |exact one_client_ok]. exact serving_event. }
  destruct (service_tracks_sessions all_ok session_ok no_op no_op no_op1 refusing (calm_ret _ _) (calm_ret _ _)
    (λ _, calm_ret _ _) (λ _, calm_crash _ _ I) one_client Hr) as (Hc & _ & Hp & Hd).
  destruct (session0 one_client Session._connected) as (x & Hx & Hxc); [vm_compute; reflexivity|].
  assert (Dispatch all_ok session_ok no_op no_op no_op1 refusing 1 (Completed (SessionEvent 0 Session.Recv_) 4) one_client =
    Crash AssertCrash) as Hcrash by (vm_compute; reflexivity).
  split_and!.
  - rewrite Hc. vm_compute. reflexivity.
  - apply (Hp 0%nat x Hx). by left.
  - exact Hcrash.
  - apply Hd; [|exact Hcrash|discriminate]. apply session0. vm_compute. reflexivity.
Defined.

Lemma failed_connect_is_connected_witness :
  ∃ s', Dispatch all_ok session_ok no_op no_op no_op1 no_op1 1 (Failed (SessionEvent 0 Session.Connect_) 0 1225) connecting =
    Ret (true, s') ∧ 0%nat ∈ _sessions (srv s').
Proof.
  destruct (session0 connecting Session.connect_owner) as (x & Hx & Hxc); [vm_compute; reflexivity|].
  destruct (failed_connect_is_connected all_ok session_ok no_op no_op no_op1 no_op1 (calm_ret _ _) (calm_ret _ _)
    (λ _, calm_ret _ _) (λ _, calm_ret _ _) 1 0 x 0 1225 connecting) as (_ & s' & E & Hin & _).
  - apply calm_ret.
  - eapply at_client; [apply at_start|apply connecting_ok].
  - exact Hx.
  - exact Hxc.
  - done.
  - exists s'. split; [exact E|exact Hin].
Defined.

(** The first [AcceptEx] is refused, the second taken. *)
Definition refuse_once (n : nat) : option Z := if (n =? 2)%nat then Some 10055 else None.
Definition listening : @st Z := set_lis (λ _, Some (mkListener (Some 0) [None])) (demo Session.Server).

Lemma register_accept_ends_witness :
  RegisterAccept refuse_once 1 0 listening = Crash Hang ∧
  ∃ s', RegisterAccept refuse_once 2 0 listening = Ret (tt, s') ∧ next s' = 2%nat.
Proof.
  split.
  - apply (register_accept_ends refuse_once 1 0 listening (mkListener (Some 0) [None]) 1); try done.
    + simpl. lia.
    + simpl. set_solver.
    + intros j Hj. destruct j as [|[|j]]; [done|done|lia].
    + intros j Hj. destruct j as [|j]; [done|lia].
  - destruct (register_accept_ends refuse_once 2 0 listening (mkListener (Some 0) [None]) 1) as (s' & E & Hn & _).
    + reflexivity.
    + simpl. lia.
    + simpl. set_solver.
    + intros j Hj. destruct j as [|[|j]]; [done|done|lia].
    + intros j Hj. destruct j as [|j]; [done|lia].
    + reflexivity.
    + exists s'. split; [exact E|exact Hn].
Defined.

End witnesses.
End ServiceProps.
