(* ===== verification/Threads.v ===== *)
(** * Threads: the thread manager and the ids of threads
      (ServerCore/ThreadManager.h, ThreadManager.cpp, CoreTLS.cpp)

    Threads are numbered by the order in which they were made; thread 0 runs
    [main].  [LThreadId] is thread-local: absent while a thread has not run
    [InitTLS], when the variable is still 0.  Launching holds [_lock] and the
    counter is atomic, so the steps of the relation are those of the code.
    [Join] reads [_threads] without the lock: no thread launches meanwhile. *)

From S2P Require Import Prelude.
#[local] Open Scope Z_scope.

Module ThreadManager.

Definition THREAD_MAX_COUNT : Z := 32.

Inductive phase : Type := Created | Running | Finished.

#[global] Instance phase_eq_dec : EqDecision phase.
Proof. solve_decision. Defined.

Record st : Type := mk {
  SThreadId : Z;
  LThreadId : gmap nat Z;
  phases : gmap nat phase;
  _threads : list nat;
  next : nat
}.

(** Before [main]. *)
Definition init : st := mk 1 ∅ {[0%nat := Running]} [] 1.

(** [LThreadId = SThreadId.fetch_add(1)] on thread [t]. *)
Definition InitTLS (t : nat) (s : st) : st :=
  mk (u32 (SThreadId s + 1)) (<[t := i32 (SThreadId s)]> (LThreadId s)) (phases s) (_threads s) (next s).

Definition DestroyTLS (s : st) : st := s.

(** The constructor, on thread 0. *)
Definition new (s : st) : st := InitTLS 0 s.

Definition set_phase (t : nat) (p : phase) (s : st) : st :=
  mk (SThreadId s) (LThreadId s) (<[t := p]> (phases s)) (_threads s) (next s).

Definition Launch (s : st) : st :=
  mk (SThreadId s) (LThreadId s) (<[next s := Created]> (phases s)) (_threads s ++ [next s]) (S (next s)).

(** A launched thread: [InitTLS], the callback, [DestroyTLS]. *)
Inductive thread_step : st → st → Prop :=
| thread_start t s :
    phases s !! t = Some Created → thread_step s (set_phase t Running (InitTLS t s))
| thread_end t s :
    phases s !! t = Some Running → t ≠ 0%nat → thread_step s (set_phase t Finished (DestroyTLS s)).

(** [Join]: the loop over the rest of the handles, the other threads going on. *)
Inductive Join_loop : list nat → st → st → Prop :=
| join_end s : Join_loop [] s s
| join_wait l s s1 s' : thread_step s s1 → Join_loop l s1 s' → Join_loop l s s'
| join_next t l s s' : phases s !! t = Some Finished → Join_loop l s s' → Join_loop (t :: l) s s'.

Definition clear (s : st) : st := mk (SThreadId s) (LThreadId s) (phases s) [] (next s).

Definition Join (s s' : st) : Prop := ∃ s1, Join_loop (_threads s) s s1 ∧ s' = clear s1.

Inductive step : st → st → Prop :=
| s_launch s : step s (Launch s)
| s_thread s s' : thread_step s s' → step s s'
| s_join s s' : Join s s' → step s s'.

Inductive reachable : st → Prop :=
| r_init : reachable (new init)
| r_step s s' : reachable s → step s s' → reachable s'.

(** ** The ids *)

(** [LThreadId] is defined for the threads that have started; the counter is
    one more than their number and than every id. *)
Record inv (s : st) : Prop := {
  i_main : (0 < next s)%nat;
  i_started : ∀ t, is_Some (LThreadId s !! t) ↔ ∃ p, phases s !! t = Some p ∧ p ≠ Created;
  i_made : ∀ t, is_Some (phases s !! t) ↔ (t < next s)%nat;
  i_count : SThreadId s = u32 (1 + Z.of_nat (size (LThreadId s)));
  i_listed : ∀ t, t ∈ _threads s → (0 < t < next s)%nat;
  i_unlisted : ∀ t p, phases s !! t = Some p → t ≠ 0%nat → t ∉ _threads s → p = Finished;
  i_ids : (Z.of_nat (size (LThreadId s)) < 2 ^ 31) → ∀ t x, LThreadId s !! t = Some x → 1 ≤ x ≤ Z.of_nat (size (LThreadId s));
  i_distinct : (Z.of_nat (size (LThreadId s)) < 2 ^ 31) → ∀ t u x, LThreadId s !! t = Some x → LThreadId s !! u = Some x → t = u
}.

Lemma size_started s : inv s → (size (LThreadId s) ≤ next s)%nat.
Proof.
  intros Hi. rewrite <-size_dom. transitivity (size (list_to_set (seq 0 (next s)) : gset nat)).
  - apply subseteq_size. intros t Ht. apply elem_of_dom in Ht. apply (i_started _ Hi) in Ht as (p & Hp & _).
    apply elem_of_list_to_set, elem_of_seq. assert (t < next s)%nat; [|lia]. apply (i_made _ Hi). eauto.
  - rewrite size_list_to_set by apply NoDup_seq. by rewrite length_seq.
Qed.

Lemma inv_new : inv (new init).
Proof.
  split; simpl.
  - lia.
  - intros t. rewrite lookup_insert_is_Some, lookup_empty, lookup_singleton. case_decide as Ht; [subst|].
    + split; [by eauto|by left].
    + split; [intros [?|[_ [? ?]]]; congruence|intros (p & Hp & _); done].
  - intros t. rewrite lookup_singleton. case_decide; [subst; split; [lia|eauto]|]. split; [by intros []|lia].
  - by rewrite map_size_insert_None by done.
  - intros t Ht. by apply not_elem_of_nil in Ht.
  - intros t p Hp Hne. rewrite lookup_singleton_ne in Hp by done. done.
  - intros _ t x. rewrite lookup_insert. case_decide; [|by rewrite lookup_empty]. intros [= <-]. done.
  - intros _ t u x. rewrite !lookup_insert, !lookup_empty. repeat case_decide; naive_solver congruence.
Qed.

Lemma inv_start t s : inv s → phases s !! t = Some Created → inv (set_phase t Running (InitTLS t s)).
Proof.
  intros [] Ht. assert (LThreadId s !! t = None) as Hn.
  { apply eq_None_not_Some. intros Hs. apply i_started0 in Hs as (p & Hp & Hc). congruence. }
  assert (size (<[t := i32 (SThreadId s)]> (LThreadId s)) = S (size (LThreadId s))) as Hsz by by apply map_size_insert_None.
  assert (Z.of_nat (S (size (LThreadId s))) < 2 ^ 31 → i32 (SThreadId s) = Z.of_nat (S (size (LThreadId s)))) as Hid.
  { intros Hlt. rewrite i_count0. unfold i32, u32. rewrite (Z.mod_small (1 + _)) by lia. rewrite Z.mod_small by lia. lia. }
  split; simpl; rewrite ?Hsz.
  - done.
  - intros u. rewrite lookup_insert_is_Some', lookup_insert. case_decide as Hu; [subst; split; eauto|].
    rewrite i_started0. naive_solver.
  - intros u. rewrite lookup_insert_is_Some', i_made0. split; [|by right]. intros [<-|]; [|done]. apply i_made0. eauto.
  - rewrite i_count0. unfold u32. rewrite Z.add_mod_idemp_l by lia. f_equal. lia.
  - done.
  - intros u p. rewrite lookup_insert. case_decide as Hu; [|by apply i_unlisted0]. subst u. intros _ H0 Hnin.
    by apply (i_unlisted0 t Created) in Ht.
  - intros Hlt u x. rewrite lookup_insert. case_decide; [intros [= <-]; rewrite Hid by done; lia|].
    intros Hx. apply i_ids0 in Hx; lia.
  - intros Hlt u v x. rewrite !lookup_insert. repeat case_decide; subst; [done|..].
    + intros [= <-] Hx. apply i_ids0 in Hx; [|lia]. rewrite Hid in Hx; lia.
    + intros Hx [= <-]. apply i_ids0 in Hx; [|lia]. rewrite Hid in Hx; lia.
    + apply i_distinct0. lia.
Qed.

Lemma inv_end t s : inv s → phases s !! t = Some Running → t ≠ 0%nat → inv (set_phase t Finished s).
Proof.
  intros [] Ht Hne. split; simpl; try done.
  - intros u. rewrite lookup_insert. case_decide as Hu; [|by apply i_started0]. subst u. rewrite i_started0. naive_solver.
  - intros u. rewrite lookup_insert_is_Some', i_made0. split; [|by right]. intros [<-|]; [|done]. apply i_made0. eauto.
  - intros u p. rewrite lookup_insert. case_decide; [naive_solver|by apply i_unlisted0].
Qed.

Lemma inv_thread s s' : inv s → thread_step s s' → inv s'.
Proof. intros Hi Hs. destruct Hs as [t s Ht|t s Ht Hne]; [by apply inv_start|by apply inv_end]. Qed.

Lemma inv_launch s : inv s → inv (Launch s).
Proof.
  intros []. assert (phases s !! next s = None) as Hn.
  { apply eq_None_not_Some. intros H. apply i_made0 in H. lia. }
  split; simpl; try done.
  - lia.
  - intros t. rewrite i_started0, lookup_insert. case_decide as Ht; [subst t; rewrite Hn; naive_solver|done].
  - intros t. rewrite lookup_insert_is_Some', i_made0. lia.
  - intros t Ht. apply elem_of_app in Ht as [Ht|Ht]; [apply i_listed0 in Ht; lia|]. apply list_elem_of_singleton in Ht.
    subst t. lia.
  - intros t p. rewrite lookup_insert. case_decide as Ht.
    + intros _ _ Hnin. exfalso. apply Hnin, elem_of_app. right. by apply list_elem_of_singleton.
    + intros Hp H0 Hnin. apply (i_unlisted0 t); [done|done|]. intros Hin. apply Hnin, elem_of_app. by left.
Qed.

(** Other threads neither touch the handles nor undo the end of a thread. *)
Lemma thread_step_frame s s' :
  thread_step s s' → _threads s' = _threads s ∧ next s' = next s ∧
  ∀ t, phases s !! t = Some Finished → phases s' !! t = Some Finished.
Proof.
  intros Hs. destruct Hs as [t s Ht|t s Ht Hne]; (split; [done|split; [done|]]); intros u Hu; unfold DestroyTLS; simpl;
    rewrite lookup_insert; case_decide; subst; congruence.
Qed.

Lemma Join_loop_ends l s s' :
  Join_loop l s s' → inv s → inv s' ∧ _threads s' = _threads s ∧ next s' = next s ∧
  (∀ t, phases s !! t = Some Finished → phases s' !! t = Some Finished) ∧ ∀ t, t ∈ l → phases s' !! t = Some Finished.
Proof.
  induction 1 as [s|l s s1 s' Hs _ IH|t l s s' Ht _ IH]; intros Hi.
  - split_and!; try done. intros t Ht. by apply not_elem_of_nil in Ht.
  - destruct (thread_step_frame s s1 Hs) as (E1 & E2 & Hk). destruct (IH (inv_thread s s1 Hi Hs)) as (? & ? & ? & ? & ?).
    split_and!; [done|congruence|congruence|auto|done].
  - destruct (IH Hi) as (? & ? & ? & Hk & Hl). split_and!; [done..|]. intros u Hu. apply elem_of_cons in Hu as [->|]; auto.
Qed.

Lemma threads_clear s : inv s → (∀ t, t ∈ _threads s → phases s !! t = Some Finished) → inv (clear s).
Proof.
  intros [] Hf. split; simpl; try done.
  - intros t Ht. by apply not_elem_of_nil in Ht.
  - intros t p Hp H0 _. destruct (decide (t ∈ _threads s)) as [Hin|Hin]; [|by apply (i_unlisted0 t)].
    rewrite Hf in Hp by done. congruence.
Qed.

Lemma inv_join s s' : inv s → Join s s' → inv s'.
Proof.
  intros Hi (s1 & Hj & ->). destruct (Join_loop_ends _ _ _ Hj Hi) as (H1 & E & _ & _ & Hl).
  apply threads_clear; [done|]. intros t. rewrite E. apply Hl.
Qed.

Lemma threads_inv s : reachable s → inv s.
Proof.
  induction 1 as [|s s' _ IH Hs]; [apply inv_new|]. destruct Hs as [s|s s' Hs|s s' Hs].
  - by apply inv_launch.
  - by apply (inv_thread s).
  - by apply (inv_join s).
Qed.

(** Thread ids identify threads, which the spin lock relies on: however
    threads are launched, scheduled and joined, as long as fewer than 2^31 were
    made, the id of a started thread is positive and at most the number of threads
    made, and no two threads share one; with at most 31 threads every id is below
    [THREAD_MAX_COUNT]. *)
Theorem thread_ids_unique s :
  reachable s → Z.of_nat (next s) < 2 ^ 31 →
  (∀ t p, phases s !! t = Some p → p ≠ Created →
     ∃ x, LThreadId s !! t = Some x ∧ 1 ≤ x ≤ Z.of_nat (next s) ∧ ((next s < 32)%nat → x < THREAD_MAX_COUNT)) ∧
  (∀ t u x, LThreadId s !! t = Some x → LThreadId s !! u = Some x → t = u).
Proof.
  intros Hr Hn. pose proof (threads_inv s Hr) as Hi. pose proof (size_started s Hi). split.
  - intros t p Hp Hc. destruct (proj2 (i_started _ Hi t)) as [x Hx]; [by eauto|]. exists x.
    apply (i_ids _ Hi) in Hx as ?; [|lia]. unfold THREAD_MAX_COUNT. split_and!; [done|lia|lia|lia].
  - intros t u x. apply (i_distinct _ Hi). lia.
Qed.

(** [Join] waits: when it returns, every thread launched since the last
    [Join] has finished, so every launched thread has, and no handle is left. *)
Theorem join_waits s s' :
  reachable s → Join s s' → _threads s' = [] ∧ next s' = next s ∧
  ∀ t, (0 < t < next s)%nat → phases s' !! t = Some Finished.
Proof.
  intros Hr Hj. pose proof (inv_join s s' (threads_inv s Hr) Hj) as Hi. destruct Hj as (s1 & Hl & ->).
  destruct (Join_loop_ends _ _ _ Hl (threads_inv s Hr)) as (_ & _ & En & _).
  split_and!; [done|done|]. intros t Ht. destruct (proj2 (i_made _ Hi t)) as [p Hp]; [simpl; lia|]. rewrite Hp. f_equal.
  apply (i_unlisted _ Hi t p Hp); [lia|]. simpl. apply not_elem_of_nil.
Qed.

(** Two threads, one of them ended. *)
Definition demo1 : st := set_phase 2 Running (InitTLS 2 (Launch (Launch (new init)))).
Definition demo2 : st := set_phase 1 Running (InitTLS 1 demo1).

Lemma demo2_reachable : reachable demo2.
Proof.
  apply (r_step demo1); [|by apply s_thread, thread_start].
  apply (r_step (Launch (Launch (new init)))); [|by apply s_thread, thread_start].
  apply (r_step (Launch (new init))); [|apply s_launch].
  apply (r_step (new init)); [apply r_init|apply s_launch].
Qed.

Lemma thread_ids_unique_witness :
  LThreadId demo2 !! 1%nat = Some 3 ∧ ∀ u, LThreadId demo2 !! u = Some 3 → 1%nat = u.
Proof.
  split; [done|]. intros u Hu. apply (proj2 (thread_ids_unique demo2 demo2_reachable ltac:(done)) 1%nat u 3); done.
Defined.

Lemma join_waits_witness :
  ∃ s', Join demo2 s' ∧ phases s' !! 1%nat = Some Finished ∧ phases s' !! 2%nat = Some Finished ∧ _threads s' = [].
Proof.
  assert (Join demo2 (clear (set_phase 1 Finished (set_phase 2 Finished demo2)))) as Hj.
  { eexists. split; [|reflexivity].
    eapply join_wait; [by apply (thread_end 2)|]. eapply join_wait; [by apply (thread_end 1)|].
    apply join_next; [done|]. apply join_next; [done|]. apply join_end. }
  destruct (join_waits demo2 _ demo2_reachable Hj) as (Ht & _ & Hf).
  eexists. split; [exact Hj|]. split_and!; [apply Hf; simpl; lia|apply Hf; simpl; lia|exact Ht].
Defined.

End ThreadManager.
