(* ===== verification/Shutdown.v ===== *)
(** * Shutdown: the end of the two programs
      (Client/Client.cpp [ExitInstance], Server/Server.cpp [OnClose],
       ServerCore/ThreadManager.cpp [Join], CoreGlobal.cpp)

    Launching the worker threads, their loops, and the clean-up: [CloseService],
    [Join], [delete GCoreGlobal].  One step per test of [_isRunning], per call of
    [Dispatch] or [ExcuteGlobalJobs], and per thread that [Join] has waited for.
    [Dispatch] has a time-out; that its handlers and the jobs return is assumed here (they
    can hang: [Database.DBConnection.failed_statement_hangs], [Dispatch.zero_packet_hangs]).
    A thread that never comes back from them takes no further step, and then [Join] never
    returns: [clean_up_waits].
    The client's main thread shows the dialog and runs [ExitInstance] when it is
    closed; the server's is a worker itself, and [exit] calls [OnClose] when
    [main] has returned. *)

From stdpp Require Import functions.
From S2P Require Import Prelude Threads.
#[local] Open Scope Z_scope.

Module Shutdown.

(** The worker loop, before the named statement. *)
Inductive loop : Type := L_test | L_dispatch | L_jobs | L_exit.

(** The main thread. *)
Inductive main_pc : Type :=
| M_launch (n : nat) | M_dialog | M_loop (l : loop) | M_close | M_join (rest : list nat) | M_delete | M_end.

Record st : Type := mk {
  tm : ThreadManager.st;
  _isRunning : bool;
  loops : nat → loop;
  mpc : main_pc;
  globals : bool           (* the objects of CoreGlobal are alive *)
}.

Section program.
Variable server : bool.

(** The next statement of a worker loop, when the one it is before returns; the client's
    has no jobs. *)
Definition next_loop (running : bool) (l : loop) : option loop :=
  match l with
  | L_test => Some (if running then L_dispatch else L_exit)
  | L_dispatch => Some (if server then L_jobs else L_test)
  | L_jobs => Some L_test
  | L_exit => None
  end.

Inductive worker_step : st → st → Prop :=
| w_start t s r f m g :
    ThreadManager.phases s !! t = Some ThreadManager.Created →
    worker_step (mk s r f m g) (mk (ThreadManager.set_phase t ThreadManager.Running (ThreadManager.InitTLS t s)) r f m g)
| w_loop t l s r f m g :
    ThreadManager.phases s !! t = Some ThreadManager.Running → t ≠ 0%nat → next_loop r (f t) = Some l →
    worker_step (mk s r f m g) (mk s r (<[t := l]> f) m g)
| w_end t s r f m g :
    ThreadManager.phases s !! t = Some ThreadManager.Running → t ≠ 0%nat → f t = L_exit →
    worker_step (mk s r f m g) (mk (ThreadManager.set_phase t ThreadManager.Finished (ThreadManager.DestroyTLS s)) r f m g).

Inductive main_step : st → st → Prop :=
| m_launch n s r f g : main_step (mk s r f (M_launch (S n)) g) (mk (ThreadManager.Launch s) r f (M_launch n) g)
| m_launched s r f g :
    main_step (mk s r f (M_launch 0) g) (mk s r f (if server then M_loop L_test else M_dialog) g)
| m_loop l l' s r f g : next_loop r l = Some l' → main_step (mk s r f (M_loop l) g) (mk s r f (M_loop l') g)
| m_return s r f g : main_step (mk s r f (M_loop L_exit) g) (mk s r f M_close g)
| m_dialog s r f g : main_step (mk s r f M_dialog g) (mk s r f M_close g)
| m_close s r f g : main_step (mk s r f M_close g) (mk s false f (M_join (ThreadManager._threads s)) g)
| m_join t rest s r f g :
    ThreadManager.phases s !! t = Some ThreadManager.Finished →
    main_step (mk s r f (M_join (t :: rest)) g) (mk s r f (M_join rest) g)
| m_joined s r f g : main_step (mk s r f (M_join []) g) (mk (ThreadManager.clear s) r f M_delete g)
| m_delete s r f g : main_step (mk s r f M_delete g) (mk s r f M_end false).

Definition step (s s' : st) : Prop := worker_step s s' ∨ main_step s s'.

(** After the service has started, with [n] threads to launch. *)
Definition start (n : nat) : st :=
  mk (ThreadManager.new ThreadManager.init) true (λ _, L_test) (M_launch n) true.

(** [dlg] is a local variable of [InitInstance], which returns when the dialog has
    been closed. *)
Definition dialog_alive (s : st) : bool := match mpc s with M_dialog => true | _ => false end.

(** ** The invariant *)

Definition all_finished (s : ThreadManager.st) : Prop :=
  ∀ t p, t ≠ 0%nat → ThreadManager.phases s !! t = Some p → p = ThreadManager.Finished.

Definition main_ok (s : st) : Prop :=
  match mpc s with
  | M_launch _ | M_dialog | M_close => _isRunning s = true ∧ globals s = true
  | M_loop l => _isRunning s = true ∧ globals s = true ∧ l ≠ L_exit
  | M_join rest => _isRunning s = false ∧ globals s = true ∧ ∃ joined, ThreadManager._threads (tm s) = joined ++ rest ∧
      ∀ t, t ∈ joined → ThreadManager.phases (tm s) !! t = Some ThreadManager.Finished
  | M_delete => _isRunning s = false ∧ globals s = true ∧ all_finished (tm s)
  | M_end => _isRunning s = false ∧ globals s = false ∧ all_finished (tm s)
  end.

Definition inv (s : st) : Prop := ThreadManager.inv (tm s) ∧ main_ok s.

(** What the other threads do keeps what the main thread knows. *)
Lemma main_ok_thread s s' r f f' m g :
  ThreadManager.thread_step s s' → main_ok (mk s r f m g) → main_ok (mk s' r f' m g).
Proof.
  intros Hs. destruct (ThreadManager.thread_step_frame s s' Hs) as (Et & _ & Hf).
  assert (all_finished s → all_finished s') as Hall.
  { intros Ha. destruct Hs as [t s Ht|t s Ht Hne]; intros u p Hu; simpl; rewrite lookup_insert;
      case_decide as E; try apply (Ha u p Hu); subst u; intros [= <-]; [|done].
    by apply (Ha t ThreadManager.Created Hu) in Ht. }
  unfold main_ok. destruct m as [| | | |rest| |]; simpl; try done.
  - intros (? & ? & joined & E & Hj). split_and!; [done|done|]. exists joined. rewrite Et. auto.
  - intros (? & ? & ?). auto.
  - intros (? & ? & ?). auto.
Qed.

Lemma shutdown_step_inv s s' : step s s' → inv s → inv s'.
Proof.
  intros [Hs|Hs] [Ht Hm].
  - destruct Hs as [t s r f m g H|t l s r f m g H Hne Hl|t s r f m g H Hne Hl]; simpl in *.
    + split; [by apply ThreadManager.inv_start|]. eapply main_ok_thread; [by apply ThreadManager.thread_start|done].
    + done.
    + split; [by apply ThreadManager.inv_end|]. eapply main_ok_thread; [by apply ThreadManager.thread_end|done].
  - destruct Hs as [n s r f g|s r f g|l l' s r f g Hl|s r f g|s r f g|s r f g|t rest s r f g H|s r f g|s r f g];
      unfold inv, main_ok in *; simpl in *.
    + split; [by apply ThreadManager.inv_launch|done].
    + split; [done|]. destruct server; destruct_and!; by split_and!.
    + destruct Hm as (-> & ? & Hne). split; [done|]. split_and!; [done|done|].
      destruct l; simpl in Hl; try (injection Hl as <-); [done|by destruct server|done|done].
    + by destruct Hm as (_ & _ & []).
    + done.
    + destruct Hm as [_ ?]. split; [done|]. split_and!; [done|done|]. exists []. split; [done|]. intros t Hin. by apply not_elem_of_nil in Hin.
    + destruct Hm as (? & ? & joined & E & Hj). split; [done|]. split_and!; [done|done|]. exists (joined ++ [t]).
      split; [by rewrite E, <-app_assoc|]. intros u [Hu|Hu%list_elem_of_singleton]%elem_of_app; [by apply Hj|by subst].
    + destruct Hm as (? & ? & joined & E & Hj). rewrite app_nil_r in E. subst joined.
      pose proof (ThreadManager.threads_clear s Ht Hj) as Hc. split; [done|]. split_and!; [done|done|].
      intros t p Hne Hp. apply (ThreadManager.i_unlisted _ Hc t p Hp Hne). apply not_elem_of_nil.
    + destruct Hm as (? & ? & ?). by split.
Qed.

Lemma shutdown_reachable n s : rtc step (start n) s → inv s.
Proof.
  intros H. eapply rtc_invariant; [apply shutdown_step_inv|done|]. split; [apply ThreadManager.inv_new|done].
Qed.

(** ** The clean-up ends *)

Definition weight (s : st) (t : nat) : nat :=
  match ThreadManager.phases (tm s) !! t with
  | Some ThreadManager.Created => 5
  | Some ThreadManager.Running => match loops s t with L_dispatch => 4 | L_jobs => 3 | L_test => 2 | L_exit => 1 end
  | _ => 0
  end.

Definition main_weight (m : main_pc) : nat :=
  match m with M_join rest => S (S (length rest)) | M_delete => 1 | _ => 0 end.

Definition measure (s : st) : nat :=
  sum_list_with (weight s) (seq 0 (ThreadManager.next (tm s))) + main_weight (mpc s).

Lemma sum_decreases (w w' : nat → nat) l t :
  t ∈ l → (∀ u, w' u ≤ w u)%nat → (w' t < w t)%nat → (sum_list_with w' l < sum_list_with w l)%nat.
Proof.
  intros Hin Hle Hlt. assert (∀ l, sum_list_with w' l ≤ sum_list_with w l)%nat as Hs.
  { induction l0 as [|u l0 IH]; simpl; [lia|]. specialize (Hle u). lia. }
  induction l as [|u l IH]; [by apply not_elem_of_nil in Hin|]. apply elem_of_cons in Hin as [->|Hin]; simpl.
  - specialize (Hs l). lia.
  - specialize (IH Hin). specialize (Hle u). lia.
Qed.

(** A worker's step lowers the weight of its thread only. *)
Lemma worker_measure s s' f f' r m g t :
  ThreadManager.inv s → is_Some (ThreadManager.phases s !! t) → ThreadManager.next s' = ThreadManager.next s →
  (∀ u, u ≠ t → weight (mk s' r f' m g) u = weight (mk s r f m g) u) →
  (weight (mk s' r f' m g) t < weight (mk s r f m g) t)%nat →
  (measure (mk s' r f' m g) < measure (mk s r f m g))%nat.
Proof.
  intros Hi Ht En Hu Hw. unfold measure. simpl. rewrite En. apply Nat.add_lt_mono_r. apply (sum_decreases _ _ _ t); [|intros u|done].
  - apply elem_of_seq. apply (ThreadManager.i_made _ Hi) in Ht. lia.
  - destruct (decide (u = t)) as [->|Hne]; [lia|]. by rewrite Hu.
Qed.

Lemma step_measure s s' : inv s → _isRunning s = false → step s s' → (measure s' < measure s)%nat.
Proof.
  intros [Ht Hm] Hr [Hs|Hs].
  - destruct Hs as [t s r f m g H|t l s r f m g H Hne Hl|t s r f m g H Hne Hl]; simpl in *; subst r;
      (eapply (worker_measure _ _ _ _ _ _ _ t); [done|by eexists|done| |]).
    + intros u Hu. unfold weight. simpl. by rewrite lookup_insert_ne.
    + unfold weight. simpl. rewrite lookup_insert_eq, H. destruct (f t); lia.
    + intros u Hu. unfold weight. simpl. by rewrite fn_lookup_insert_ne.
    + unfold weight. simpl. rewrite H, fn_lookup_insert. destruct (f t); simpl in Hl; try injection Hl as <-; [|destruct server|..]; done || lia.
    + intros u Hu. unfold weight. simpl. by rewrite lookup_insert_ne.
    + unfold weight. simpl. rewrite lookup_insert_eq, H, Hl. lia.
  - destruct Hs as [n s r f g|s r f g|l l' s r f g Hl|s r f g|s r f g|s r f g|t rest s r f g H|s r f g|s r f g];
      unfold main_ok, measure in *; simpl in *; subst; try (by destruct Hm as [Hm _]); unfold weight; simpl; lia.
Qed.

Lemma step_closed s s' : step s s' → _isRunning s = false → _isRunning s' = false.
Proof. intros [[]|[]]; simpl; auto. Qed.

Lemma closed_sn s : inv s → _isRunning s = false → sn step s.
Proof.
  remember (measure s) as n eqn:En. revert s En. induction n as [n IH] using lt_wf_ind. intros s -> Hi Hr.
  constructor. intros s' Hs. unfold flip in Hs. apply (IH (measure s')); [by apply step_measure|done|by eapply shutdown_step_inv|by eapply step_closed].
Qed.

(** While [Join] waits some thread can go on. *)
Lemma closed_progress s : inv s → _isRunning s = false → mpc s ≠ M_end → red step s.
Proof.
  intros [Ht Hm] Hr He. destruct s as [s r f m g]. unfold main_ok in Hm. simpl in *. subst r.
  destruct m as [n| |l| |rest| |]; try (by destruct Hm); [|by eexists; right; constructor].
  destruct rest as [|t rest]; [by eexists; right; constructor|]. destruct Hm as (_ & _ & joined & E & Hj).
  assert (0 < t < ThreadManager.next s)%nat as Hb by (apply (ThreadManager.i_listed _ Ht); rewrite E; set_solver).
  assert (is_Some (ThreadManager.phases s !! t)) as [p Hp] by (apply (ThreadManager.i_made _ Ht); lia).
  assert (t ≠ 0%nat) as H0 by lia.
  destruct p; [by eexists; left; apply (w_start t)| |by eexists; right; apply m_join].
  destruct (f t) eqn:Ef; [..|by eexists; left; apply (w_end t)];
    (eexists; left; eapply (w_loop t); [done|done|rewrite Ef; reflexivity]).
Qed.

End program.

(** C34: the clean-up ends and is safe.  From every state in which the service has
    been closed, every run of the threads ends, and when no step is left [Join]
    has returned, every thread has finished and the globals are deleted.  In every
    reachable state the objects of [CoreGlobal] are alive while a launched thread
    has not finished. *)
Theorem clean_up_ends server n s :
  rtc (step server) (start n) s →
  (_isRunning s = false → sn (step server) s ∧
     ∀ s', rtc (step server) s s' → nf (step server) s' → mpc s' = M_end ∧ all_finished (tm s') ∧ globals s' = false) ∧
  (∀ t p, t ≠ 0%nat → ThreadManager.phases (tm s) !! t = Some p → p ≠ ThreadManager.Finished → globals s = true).
Proof.
  intros Hi%shutdown_reachable. split.
  - intros Hr. split; [by apply (closed_sn server)|]. intros s' Hs Hnf.
    assert (inv s' ∧ _isRunning s' = false) as [Hi' Hr'].
    { clear Hnf. induction Hs as [s|s s1 s' H1 _ IH]; [done|].
      apply IH; [by eapply shutdown_step_inv|by eapply step_closed]. }
    assert (mpc s' = M_end) as E.
    { destruct (mpc s') eqn:E; try done; destruct Hnf; apply (closed_progress server s' Hi' Hr'); by rewrite E. }
    destruct Hi' as [_ Hm]. unfold main_ok in Hm. rewrite E in Hm. by destruct Hm as (_ & ? & ?).
  - intros t p H0 Hp Hn. destruct Hi as [_ Hm]. unfold main_ok in Hm.
    destruct (mpc s); try (by destruct Hm as [_ ?]); try (by destruct Hm as (_ & ? & _)).
    destruct Hm as (_ & _ & Ha). by destruct Hn; eapply Ha.
Qed.

(** [Join] waits: as long as a launched thread has not finished, the main thread has not
    got past it, and the globals are not deleted. *)
Lemma clean_up_waits server n s t p :
  rtc (step server) (start n) s → t ≠ 0%nat → ThreadManager.phases (tm s) !! t = Some p → p ≠ ThreadManager.Finished →
  mpc s ≠ M_delete ∧ mpc s ≠ M_end.
Proof.
  intros [_ Hm]%shutdown_reachable H0 Hp Hn. unfold main_ok in Hm.
  split; intros E; rewrite E in Hm; destruct Hm as (_ & _ & Ha); by destruct Hn; eapply Ha.
Qed.

(** The client: two threads, one of them in [Dispatch] when the dialog is closed. *)
Lemma run_close :
  ∃ s, rtc (step false) (start 2) s ∧ _isRunning s = false ∧ loops s 1%nat = L_dispatch.
Proof.
  eexists. split.
  - eapply rtc_l; [right; apply m_launch|]. eapply rtc_l; [left; by apply (w_start _ 1)|].
    eapply rtc_l; [left; by apply (w_loop _ 1 L_dispatch)|].
    eapply rtc_l; [right; apply m_launch|]. eapply rtc_l; [right; apply m_launched|].
    eapply rtc_l; [right; apply m_dialog|]. eapply rtc_l; [right; apply m_close|]. apply rtc_refl.
  - split; reflexivity.
Qed.

Lemma clean_up_ends_witness :
  ∃ s, rtc (step false) (start 2) s ∧ loops s 1%nat = L_dispatch ∧ sn (step false) s.
Proof.
  destruct run_close as (s & Hs & Hr & Hl). exists s. split_and!; [done|done|].
  by apply (proj1 (clean_up_ends false 2 s Hs)).
Defined.

(** The dialog is not as safe as the globals: it is destroyed before the threads
    have ended, and the handlers that [Dispatch] calls post messages through
    pointers to it. *)
Lemma dialog_outlived :
  ∃ s, rtc (step false) (start 2) s ∧ mpc s = M_close ∧ dialog_alive s = false ∧ loops s 1%nat = L_dispatch ∧ _isRunning s = true.
Proof.
  eexists. split.
  - eapply rtc_l; [right; apply m_launch|]. eapply rtc_l; [right; apply m_launch|]. eapply rtc_l; [right; apply m_launched|].
    eapply rtc_l; [left; by apply (w_start _ 1)|]. eapply rtc_l; [right; apply m_dialog|].
    eapply rtc_l; [left; by apply (w_loop _ 1 L_dispatch)|]. apply rtc_refl.
  - split_and!; reflexivity.
Qed.

(** The server never gets there: only [OnClose] ends the worker loops, and it waits
    for the main thread's own loop to end. *)
Lemma server_never_closes n s :
  rtc (step true) (start n) s → _isRunning s = true ∧ ∃ k l, mpc s = M_launch k ∨ mpc s = M_loop l.
Proof.
  assert (∀ a b, step true a b → (_isRunning a = true ∧ ∃ k l, mpc a = M_launch k ∨ (mpc a = M_loop l ∧ l ≠ L_exit)) →
            _isRunning b = true ∧ ∃ k l, mpc b = M_launch k ∨ (mpc b = M_loop l ∧ l ≠ L_exit)) as K.
  { intros a b [Hs|Hs] (Hr & k & l & Hm); destruct Hs as []; simpl in *; try (split; [done|by exists k, l]);
      destruct Hm as [Hm|[Hm Hne]]; try done; simplify_eq.
    - split; [done|]. eexists _, L_test. by left.
    - split; [done|]. exists 0%nat, L_test. by right.
    - split; [done|]. eexists 0%nat, _. right. split; [done|]. destruct l; simpl in *; by simplify_eq. }
  intros H. apply (rtc_invariant _ _ _ _ K) in H as (? & k & l & [|[]]).
  - split; [done|]. exists k, l. by left.
  - split; [done|]. exists k, l. by right.
  - split; [done|]. exists n, L_test. by left.
Qed.

End Shutdown.
