(* ===== verification/Startup.v ===== *)
(** * Startup: the server's main program
      (Server/Server.cpp, ServerCore/CoreGlobal.cpp)

    [main] up to its worker loop, on the states of the components: the globals,
    the connection pool and the tables, the packet handlers, the service and the
    worker threads; and the worker loop.  The answers of the operating system and
    of the ODBC driver are parameters.  [SendBufferManager] starts with an empty
    pool and is not part of this state. *)

From S2P Require Import Prelude SendBuffer PacketHandler Session Protocol Database ChatDb ChatServer ChatRooms Dispatch Network Service ServiceProps Threads.
#[local] Open Scope Z_scope.

Module Startup.
Import Service.

Section main.
Context {D : Type} `{!Odbc D} `{!InetText} {B : Type}.

(** The process: [GThreadManager], the database and the chat objects, what the
    process has of the network before there is a service, the service, and
    [GPacketHandler]. *)
Record process : Type := mkProcess {
  threads : ThreadManager.st;
  chat : ChatServer.st D;
  network : net;
  server : option (@Service.st B);
  GPacketHandler : gmap Z Dispatch.handler
}.

(** What the environment answers: the socket calls, the environment handle, the
    three calls of each connection, what the stack holds at [IN_ADDR address]. *)
Record answers : Type := mkAnswers {
  os : nat → option Z;
  env : bool;
  connections : nat → DBConnection.connect_answers;
  junk : Z
}.

Definition on_threads (f : ThreadManager.st → ThreadManager.st) : M process unit :=
  modify (λ s, mkProcess (f (threads s)) (chat s) (network s) (server s) (GPacketHandler s)).

Definition on_db {A} (m : M (DBConnection.st D) A) : M process A := λ s,
  match ChatServer.on_db m (chat s) with
  | Ret (a, c) => Ret (a, mkProcess (threads s) c (network s) (server s) (GPacketHandler s))
  | Crash f => Crash f
  end.

Definition on_network {A} (m : M net A) : M process A := λ s,
  match m (network s) with
  | Ret (a, n) => Ret (a, mkProcess (threads s) (chat s) n (server s) (GPacketHandler s))
  | Crash f => Crash f
  end.

(** [service->]. *)
Definition on_service {A} (m : M (@Service.st B) A) : M process A := λ s,
  match server s with
  | None => Crash NullDeref
  | Some v =>
    match m v with
    | Ret (a, v) => Ret (a, mkProcess (threads s) (chat s) (network s) (Some v) (GPacketHandler s))
    | Crash f => Crash f
    end
  end.

(** The constructor of [CoreGlobal]. *)
Definition CoreGlobal (o : answers) : M process unit :=
  on_threads ThreadManager.new;; on_network (SocketUtils.Init (os o)).

Definition connectionString : wstr :=
  wlit "DRIVER={MySQL ODBC 8.0 Unicode Driver};SERVER=localhost;PORT=3306;DATABASE=chat;UID=root;PWD=1234;".

(** The statements, in their order. *)
Definition statements : list string :=
  [Sql.drop_log; Sql.drop_account; Sql.drop_room; Sql.create_room; Sql.create_account; Sql.create_log].

Fixpoint execute_all (dbConn : nat) (queries : list string) : M process unit :=
  match queries with
  | [] => mret tt
  | query :: queries =>
    r ← on_db (DBConnection.Execute dbConn query true);
    assert_crash r;;
    execute_all dbConn queries
  end.

(** [make_shared<IocpCore>()]: [CreateIoCompletionPort] returns null when it
    fails, which the constructor does not test for. *)
Definition new_IocpCore (o : answers) : M process unit := on_network (SocketUtils.sys (os o) (CreateIoCompletionPort None));; mret tt.

Definition make_service (o : answers) : M process unit :=
  modify (λ s, mkProcess (threads s) (chat s) (network s)
    (Some (mk (new Session.Server (NetAddress.of_ip_port (junk o) (wlit "127.0.0.1") 7777) true 100) ∅ 0 None (network s)))
    (GPacketHandler s)).

Fixpoint launch_all (n : nat) : M process unit :=
  match n with
  | O => mret tt
  | S n => on_threads ThreadManager.Launch;; launch_all n
  end.

(** [main] before its last line. *)
Definition main (o : answers) (fuel : nat) : M process unit :=
  CoreGlobal o;;
  r ← on_db (DBConnectionPool.Connect (env o) (connections o) 30 connectionString);
  assert_crash r;;
  dbConn ← on_db DBConnectionPool.Pop;
  dbConn ← lift (deref dbConn);
  execute_all dbConn statements;;
  on_db (DBConnectionPool.Push dbConn);;
  modify (λ s, mkProcess (threads s) (chat s) (network s) (server s) (Dispatch.Init (GPacketHandler s)));;
  new_IocpCore o;;
  make_service o;;
  r ← on_service (ServerService_Start (os o) fuel);
  assert_crash r;;
  launch_all 10.

(** The process as it is loaded; the database is as the last run left it. *)
Definition loaded_process (d : D) : process :=
  mkProcess ThreadManager.init (ChatServer.mk (DBConnection.mkSt d ∅ []) ∅ 0 ∅ ∅ []) net_init None ∅.

(** ** The worker loop *)

(** [WorkerThread]: [next] is the completion the port has for the state it is
    asked in, [jobs] is [ExcuteGlobalJobs]; [rounds] bounds the loop, which runs
    while the service does. *)
Fixpoint WorkerThread (dispatch : completion → M (@Service.st B) bool) (jobs : M (@Service.st B) unit)
    (next : @Service.st B → completion) (rounds : nat) : M (@Service.st B) unit :=
  match rounds with
  | O => mret tt
  | S rounds =>
    r ← IsRunning;
    if negb r then mret tt
    else
      s ← get;
      dispatch (next s);;
      jobs;;
      WorkerThread dispatch jobs next rounds
  end.

End main.
(** ** The service's start *)

Section start.
Context {B : Type}.
Implicit Types s : @Service.st B.

(** The first [AcceptEx] of an event is taken: a round per event. *)
Lemma accept_loop_all n s l :
  lis s = Some l → WSAID_ACCEPTEX ∈ Network.loaded (os_state s) → Forall is_Some (_acceptEvents l) →
  ∃ s' l', accept_loop ServiceProps.all_ok 1 n s = Ret (tt, s') ∧ lis s' = Some l' ∧
    length (_acceptEvents l') = (length (_acceptEvents l) + n)%nat ∧ Forall is_Some (_acceptEvents l').
Proof.
  revert s l. induction n as [|n IH]; intros s l El Ha Hf; cbn [accept_loop].
  - exists s, l. split_and!; [done|done|lia|done].
  - autorewrite with run. rewrite El. set (s1 := set_lis _ s).
    assert (lis s1 = Some (mkListener (listen_socket l) (_acceptEvents l ++ [None]))) as E1 by (unfold s1; simpl; by rewrite El).
    destruct (ServiceProps.RegisterAccept_round ServiceProps.all_ok 0 (length (_acceptEvents l)) s1 _ E1)
      as (s2 & _ & E2 & Elo & _ & E); [done|done|]. simpl in E, E2, Elo.
    rewrite (M_bind_step _ _ _ _ _ E). rewrite insert_app_r_alt, Nat.sub_diag in E2 by lia.
    edestruct (IH s2 _ E2) as (s' & l' & E' & El' & Hl & Hf'); [by rewrite Elo|simpl; apply Forall_app; by repeat constructor|].
    exists s', l'. split_and!; [done|done| |done]. rewrite Hl. simpl. rewrite length_app. simpl. lia.
Qed.

Lemma ServerService_Start_ok (v : service) n :
  _sessionFactory v = true → WSAID_ACCEPTEX ∈ Network.loaded n →
  ∃ s' l', ServerService_Start ServiceProps.all_ok 1 (ServiceProps.created (B := B) v n) = Ret (true, s') ∧ lis s' = Some l' ∧
    length (_acceptEvents l') = Z.to_nat (_maxSessionCount v) ∧ Forall is_Some (_acceptEvents l').
Proof.
  intros Hv Ha. destruct n as [tk so lo po ca]. simpl in Ha.
  unfold ServerService_Start, CanStart, ServiceProps.created. autorewrite with run. simpl. rewrite Hv. simpl.
  autorewrite with run. unfold StartAccept.
  repeat (unfold mbind, M_bind, on_net, SocketUtils.CreateSocket, SocketUtils.ok, SocketUtils.sys, SocketUtils.set_sockets,
    SocketUtils.SetReuseAddress, SocketUtils.SetLinger, SocketUtils.SetSockOpt, SocketUtils.Bind, SocketUtils.Listen, Register,
    gets, modify, get, mret, M_ret, when, set_lis, GetMaxSessionCount, ServiceProps.all_ok; cbn -[accept_loop Z.to_nat]).
  set (s1 := mk _ _ _ _ _).
  destruct (accept_loop_all (Z.to_nat (_maxSessionCount v)) s1 _ eq_refl) as (s' & l' & E & El & Hl & Hf); [done|by constructor|].
  exists s', l'. unfold ServiceProps.all_ok in E. rewrite E. by split_and!.
Qed.

End start.

(** ** The database's start *)

Section database.
Context {D : Type} `{!Odbc D, !ChatDb D, !ChatDdl D} `{!InetText} {B : Type}.
Implicit Types (d : D) (P : @process D B).

(** The process with other connections. *)
Definition with_db (c : DBConnection.st D) P : @process D B :=
  mkProcess (threads P) (ChatServer.mk c (ChatServer.heap (chat P)) (ChatServer.next_room (chat P)) (ChatServer._rooms (chat P))
    (ChatServer.sessions (chat P)) (ChatServer.sent (chat P))) (network P) (server P) (GPacketHandler P).

Lemma process_db_run {A} (m : M (DBConnection.st D) A) P a c :
  m (ChatServer.dbs (chat P)) = Ret (a, c) → on_db m P = Ret (a, with_db c P).
Proof. intros E. unfold on_db, ChatServer.on_db. by rewrite E. Qed.

(** A connection with nothing bound executes a statement. *)
Lemma execute_step c q qs d cs l k P d' :
  cs !! c = Some k → DBConnection.params k = ∅ → SQLExecDirectW q ∅ d = SqlOk [] d' →
  execute_all c (q :: qs) (with_db (DBConnection.mkSt d cs l) P) =
  execute_all c qs (with_db (DBConnection.mkSt d' (<[c := DBConnection.mkConn ∅ (DBConnection.cols k) []]> cs) l) P).
Proof.
  intros Hc Hp Hq. cbn [execute_all].
  erewrite M_bind_step; [|apply process_db_run; unfold DBConnection.Execute, DBConnection.get_conn; simpl;
    autorewrite with run; simpl; rewrite Hc; autorewrite with run; simpl; rewrite Hp, Hq; reflexivity].
  done.
Qed.

(** The six statements in their order leave the three tables, empty. *)
Lemma statements_run c d cs l P :
  cs !! c = Some DBConnection.new →
  ∃ d', execute_all c statements (with_db (DBConnection.mkSt d cs l) P) =
          Ret (tt, with_db (DBConnection.mkSt d' (<[c := DBConnection.new]> cs) l) P) ∧
    accounts d' = ∅ ∧ rooms d' = ∅ ∧ ∀ t, has_table d' t = true.
Proof.
  intros Hc.
  destruct (drop_law Log_ d) as (d1 & Q1 & T1 & _ & _); [by intros []|].
  destruct (drop_law Account_ d1) as (d2 & Q2 & T2 & _ & _); [by intros []; rewrite T1|].
  destruct (drop_law Room_ d2) as (d3 & Q3 & T3 & _ & _); [by intros []; rewrite T2, T1|].
  destruct (create_law Room_ d3) as (d4 & Q4 & T4 & A4 & R4); [by intros []|].
  destruct (create_law Account_ d4) as (d5 & Q5 & T5 & A5 & R5); [by intros []; rewrite T4|].
  destruct (create_law Log_ d5) as (d6 & Q6 & T6 & A6 & R6); [by intros []; rewrite T5, ?T4|].
  exists d6. split_and!.
  - unfold statements.
    erewrite execute_step; [|exact Hc|done|exact Q1]. erewrite execute_step; [|apply lookup_insert_eq|done|exact Q2].
    erewrite execute_step; [|apply lookup_insert_eq|done|exact Q3]. erewrite execute_step; [|apply lookup_insert_eq|done|exact Q4].
    erewrite execute_step; [|apply lookup_insert_eq|done|exact Q5]. erewrite execute_step; [|apply lookup_insert_eq|done|exact Q6].
    cbn [execute_all]. rewrite !insert_insert_eq. done.
  - rewrite A6. simpl. rewrite A5. simpl. by rewrite T4, T3, T2.
  - rewrite R6. simpl. rewrite R5. simpl. rewrite R4. simpl. by rewrite T3.
  - intros []; by rewrite T6, ?T5, ?T4.
Qed.

End database.
(** ** Main *)

Lemma handlers_set t k : k ∈ Dispatch.client_kinds → Dispatch.Init t !! Msg.pkt_id k = Some (Dispatch.HandlePacketOf k).
Proof. apply Dispatch.register_lookup. Qed.

#[local] Opaque Dispatch.Init.

(** Every call of the environment succeeds. *)
Definition good (junk : Z) : answers :=
  mkAnswers ServiceProps.all_ok true (λ _, DBConnection.mkAnswers true true true) junk.

Lemma launch_all_run {D B} n (P : @process D B) :
  launch_all n P = Ret (tt, mkProcess (Nat.iter n ThreadManager.Launch (threads P)) (chat P) (network P) (server P) (GPacketHandler P)).
Proof.
  revert P. induction n as [|n IH]; intros P; [by destruct P|]. cbn [launch_all]. unfold on_threads. autorewrite with run.
  rewrite IH. simpl. by rewrite <-Nat.iter_succ_r, Nat.iter_succ.
Qed.

Lemma launched_reachable n s :
  ThreadManager.reachable s → ThreadManager.reachable (Nat.iter n ThreadManager.Launch s) ∧
  ThreadManager.next (Nat.iter n ThreadManager.Launch s) = (ThreadManager.next s + n)%nat.
Proof.
  intros Hs. induction n as [|n [IH1 IH2]]; [split; [done|simpl; lia]|]. split.
  - apply (ThreadManager.r_step _ _ IH1), ThreadManager.s_launch.
  - simpl. rewrite IH2. lia.
Qed.

Lemma Init_loads : ∃ n, SocketUtils.Init ServiceProps.all_ok net_init = Ret (tt, n) ∧ WSAID_ACCEPTEX ∈ Network.loaded n.
Proof.
  assert (match SocketUtils.Init ServiceProps.all_ok net_init with
          | Ret (_, n) => bool_decide (WSAID_ACCEPTEX ∈ Network.loaded n) = true
          | Crash _ => False
          end) as H by (vm_compute; reflexivity).
  destruct (SocketUtils.Init _ _) as [[[] n]|]; [|done]. exists n. split; [done|]. by apply bool_decide_eq_true_1 in H.
Qed.

Lemma on_service_run {D B A} (m : M (@Service.st B) A) (P : @process D B) v a v' :
  server P = Some v → m v = Ret (a, v') →
  on_service m P = Ret (a, mkProcess (threads P) (chat P) (network P) (Some v') (GPacketHandler P)).
Proof. intros E Em. unfold on_service. by rewrite E, Em. Qed.

Section main_run.
Context {D : Type} `{!Odbc D, !ChatDb D, !ChatDdl D} `{!InetText} {WT : WinText} {B : Type}.

Lemma no_rooms : ChatRooms.lobby_inv ∅ ∅ ∅ ∅ ∅ 0.
Proof. by split; intros *; rewrite ?lookup_empty; try done; intros []. Qed.

(** The chat part of the process before and after the database was set up. *)
Definition chat_with (d : D) (cs : gmap nat DBConnection.conn) (l : list nat) : ChatServer.st D :=
  ChatServer.mk (DBConnection.mkSt d cs l) ∅ 0 ∅ ∅ [].

(** The thirty connections. *)
Definition connected (cs : gmap nat DBConnection.conn) : Prop :=
  ∀ c, cs !! c = if decide (c < 30)%nat then Some DBConnection.new else None.

(** [main] up to the handlers. *)
Lemma database_run junk d n gt th :
  let P l cs d := mkProcess (B := B) th (chat_with d cs l) n None gt in
  ∃ d' cs, connected cs ∧ accounts d' = ∅ ∧ rooms d' = ∅ ∧ (∀ t, has_table d' t = true) ∧
  ∀ A (k : M process A),
    (r ← on_db (DBConnectionPool.Connect (env (good junk)) (connections (good junk)) 30 connectionString);
     assert_crash r;;
     dbConn ← on_db DBConnectionPool.Pop;
     dbConn ← lift (deref dbConn);
     execute_all dbConn statements;;
     on_db (DBConnectionPool.Push dbConn);; k) (P [] ∅ d) = k (P (seq 0 30) cs d').
Proof.
  intros P.
  destruct (DBConnectionPool.Connect_loop_run (λ _, DBConnection.mkAnswers true true true) connectionString 30 0
    (DBConnection.mkSt d ∅ [])) as ([d1 cs l] & E1 & Ed & El & Hc); [by intros; vm_compute|]. simpl in Ed, Hc. subst d1.
  apply (process_db_run (DBConnectionPool.Connect true _ 30 connectionString) (P [] ∅ d)) in E1.
  pose proof (process_db_run _ (P l cs d) _ _ (DBConnectionPool.Pop_nonempty (DBConnection.mkSt d cs l) (seq 0 29) 29 El)) as E2.
  destruct (statements_run 29 d cs (seq 0 29) (P l cs d)) as (d' & E3 & Ha & Hr & Ht); [by rewrite Hc|].
  exists d', (<[29%nat := DBConnection.new]> cs). split_and!; [|done..|].
  - intros c. rewrite lookup_insert, Hc. repeat case_decide; done || lia.
  - intros A k. refine (bind_ok _ _ _ _ _ _ E1 _). eapply bind_ok; [reflexivity|].
    refine (bind_ok _ _ _ _ _ _ E2 _). eapply bind_ok; [reflexivity|]. refine (bind_ok _ _ _ _ _ _ E3 _).
    eapply bind_ok; reflexivity.
Qed.

(** [main] from the handlers on. *)
Lemma service_run junk (c : ChatServer.st D) n th :
  WSAID_ACCEPTEX ∈ loaded n →
  ∃ n' v l, ServiceProps.inv None v ∧ lis v = Some l ∧ length (_acceptEvents l) = 100%nat ∧ Forall is_Some (_acceptEvents l) ∧
  (modify (λ s, mkProcess (threads s) (chat s) (network s) (server s) (Dispatch.Init (GPacketHandler s)));;
   new_IocpCore (good junk);; make_service (good junk);;
   r ← on_service (ServerService_Start (os (good junk)) 1);
   assert_crash r;; launch_all 10) (mkProcess (B := B) th c n None ∅) =
  Ret (tt, mkProcess (Nat.iter 10 ThreadManager.Launch th) c n' (Some v) (Dispatch.Init ∅)).
Proof.
  intros Hn. set (n' := mkNet (S (tick n)) (sockets n) (loaded n) (port n) (calls n ++ [CreateIoCompletionPort None])).
  set (v0 := new Session.Server (NetAddress.of_ip_port junk (wlit "127.0.0.1") 7777) true 100).
  destruct (ServerService_Start_ok (B := B) v0 n') as (v & l & E5 & El & Hlen & Hev); [done|done|].
  exists n', v, l. split_and!; [|done|done|done|].
  - exact (ServiceProps.wp_Ret _ _ _ _ _ _ (ServiceProps.inv_ServerService_Start ServiceProps.all_ok 1 _
      (ServiceProps.inv_created Session.Server _ true 100 n')) E5).
  - set (handlers := Dispatch.Init ∅).
    eapply (bind_ok _ _ _ tt (mkProcess th c n None handlers)); [reflexivity|].
    eapply (bind_ok _ _ _ tt (mkProcess th c n' None handlers)); [reflexivity|].
    eapply (bind_ok _ _ _ tt (mkProcess th c n' (Some (ServiceProps.created v0 n')) handlers)); [reflexivity|].
    refine (bind_ok _ _ _ _ _ _ (on_service_run _ (mkProcess th c n' (Some (ServiceProps.created v0 n')) handlers) _ _ _ eq_refl E5) _).
    eapply bind_ok; [reflexivity|]. apply launch_all_run.
Qed.

Lemma connected_ok d cs (c := chat_with d cs (seq 0 30)) :
  connected cs → ChatServer.pool_ok c ∧ DBConnectionPool.wf (ChatServer.dbs c).
Proof.
  intros Hc. split.
  - exists (seq 0 28), 28%nat, 29%nat, DBConnection.new, DBConnection.new. split_and!; [reflexivity|done| |].
    + exact (Hc 28%nat).
    + exact (Hc 29%nat).
  - split; [apply NoDup_seq|]. intros x Hx. apply elem_of_seq in Hx. change (is_Some (cs !! x)).
    rewrite Hc, decide_True by lia. eauto.
Qed.

(** [main] with the environment that answers well. *)
Lemma main_run junk d :
  ∃ P, main (D := D) (B := B) (good junk) 1 (loaded_process d) = Ret (tt, P) ∧
    (∀ t, has_table (DBConnection.db (ChatServer.dbs (chat P))) t = true) ∧
    ChatServer.accts (chat P) = ∅ ∧ ChatServer.db_rooms (chat P) = ∅ ∧ ChatRooms.server_inv (chat P) ∧
    length (DBConnection._connections (ChatServer.dbs (chat P))) = 30%nat ∧ DBConnectionPool.wf (ChatServer.dbs (chat P)) ∧
    (∀ k, k ∈ Dispatch.client_kinds → GPacketHandler P !! Msg.pkt_id k = Some (Dispatch.HandlePacketOf k)) ∧
    (∃ v l, server P = Some v ∧ ServiceProps.inv None v ∧ lis v = Some l ∧
       length (_acceptEvents l) = 100%nat ∧ Forall is_Some (_acceptEvents l)) ∧
    ThreadManager.reachable (threads P) ∧ ThreadManager.next (threads P) = 11%nat ∧
    GPacketHandler P = Dispatch.Init ∅ ∧ ChatServer.sessions (chat P) = ∅ ∧ ChatServer.sent (chat P) = [].
Proof.
  destruct Init_loads as (n & En & Hn). set (th := ThreadManager.new ThreadManager.init).
  destruct (database_run junk d n ∅ th) as (d' & cs & Hc & Ha & Hr & Ht & E1).
  destruct (service_run junk (chat_with d' cs (seq 0 30)) n th Hn) as (n' & v & l & Hi & El & Hlen & Hev & E2).
  destruct (launched_reachable 10 _ ThreadManager.r_init) as [Hth1 Hth2]. destruct (connected_ok d' cs Hc) as [Hpool Hwf].
  exists (mkProcess (Nat.iter 10 ThreadManager.Launch th) (chat_with d' cs (seq 0 30)) n' (Some v) (Dispatch.Init ∅)). split.
  { unfold main. eapply (bind_ok _ _ _ tt (mkProcess th (chat_with d ∅ []) n None ∅)).
    - unfold CoreGlobal, on_threads. rewrite bind_modify. unfold on_network. cbn [network loaded_process os good]. by rewrite En.
    - rewrite E1. exact E2. }
  cbn [threads chat network server GPacketHandler]. split_and!; [done|done|done| |done|done| | |done|done|reflexivity|reflexivity|reflexivity].
  - split; [done|]. unfold ChatServer.accts, ChatServer.db_rooms. cbn [ChatServer.dbs DBConnection.db chat_with].
    rewrite Ha, Hr. apply no_rooms.
  - intros k Hk. by apply handlers_set.
  - exists v, l. by split_and!.
Qed.

(** C22: The server comes up: when the calls of the operating system and of the
    driver succeed, [main] reaches its worker loop from any state of the
    database: the tables exist and are empty, the chat state satisfies the
    invariant of the rooms, thirty connections are in the pool, every message of
    the client has its handler, the service listens with a hundred accept events
    that each have a session of their own, and eleven threads were made. *)
Theorem server_starts junk d :
  ∃ P, main (D := D) (B := B) (good junk) 1 (loaded_process d) = Ret (tt, P) ∧
    (∀ t, has_table (DBConnection.db (ChatServer.dbs (chat P))) t = true) ∧
    ChatServer.accts (chat P) = ∅ ∧ ChatServer.db_rooms (chat P) = ∅ ∧ ChatRooms.server_inv (chat P) ∧
    length (DBConnection._connections (ChatServer.dbs (chat P))) = 30%nat ∧ DBConnectionPool.wf (ChatServer.dbs (chat P)) ∧
    (∀ k, k ∈ Dispatch.client_kinds → GPacketHandler P !! Msg.pkt_id k = Some (Dispatch.HandlePacketOf k)) ∧
    (∃ v l, server P = Some v ∧ ServiceProps.inv None v ∧ lis v = Some l ∧
       length (_acceptEvents l) = 100%nat ∧ Forall is_Some (_acceptEvents l)) ∧
    ThreadManager.reachable (threads P) ∧ ThreadManager.next (threads P) = 11%nat.
Proof.
  destruct (main_run junk d) as (P & H1 & H2 & H3 & H4 & H5 & H6 & H7 & H8 & H9 & H10 & H11 & _).
  exists P. exact (conj H1 (conj H2 (conj H3 (conj H4 (conj H5 (conj H6 (conj H7 (conj H8 (conj H9 (conj H10 H11)))))))))).
Qed.

End main_run.

(** A database that the last run left with its tables and an account. *)
Definition old_db : mem := mkMem {[wlit "amy" := mkAccount (wlit "amy") (wlit "secret") 1 None]} ∅ 0 [Log_; Account_; Room_] [].

Definition no_inet : InetText := {| InetPtonW := λ _, None; InetNtopW := λ _, [] |}.

Lemma server_starts_witness :
  ∃ P, main (D := mem) (H := no_inet) (B := nat) (good 0) 1 (loaded_process old_db) = Ret (tt, P) ∧
    ChatServer.accts (chat P) = ∅ ∧ length (DBConnection._connections (ChatServer.dbs (chat P))) = 30%nat ∧
    ThreadManager.next (threads P) = 11%nat.
Proof.
  destruct (server_starts (D := mem) (H := no_inet) (WT := ChatServer.ascii_text) (B := nat) 0 old_db)
    as (P & E & _ & Ha & _ & _ & Hl & _ & _ & _ & _ & Hn).
  exists P. split; [exact E|]. split; [exact Ha|]. split; [exact Hl|exact Hn].
Defined.

(** ** Worker threads *)

(** While the port delivers what it can deliver and the jobs keep the service's
    invariant, the worker loop does, and stops only with faults of the callbacks or faults
    that are no failed assertions. *)
Lemma worker_keeps {B} os session_os (OnConnected OnDisconnected : M (Session.t B) unit) OnSend OnRecvPacket fuel jobs pick rounds s (E : fault → Prop) :
  (∀ f, ServiceProps.other f → E f) →
  ServiceProps.calm E OnConnected → ServiceProps.calm E OnDisconnected →
  (∀ n, ServiceProps.calm E (OnSend n)) → (∀ p, ServiceProps.calm E (OnRecvPacket p)) →
  (∀ s, ServiceProps.inv None s → wp E jobs s (λ _ s', ServiceProps.inv None s')) →
  (∀ s, ServiceProps.deliverable (pick s) s) →
  ServiceProps.inv None s →
  wp E
    (WorkerThread (Dispatch os session_os OnConnected OnDisconnected OnSend OnRecvPacket fuel) jobs pick rounds) s
    (λ _ s', ServiceProps.inv None s').
Proof.
  intros HE H1 H2 H3 H4 Hj Hp. revert s. induction rounds as [|rounds IH]; intros s Hi; cbn [WorkerThread]; [by wp_run|].
  unfold IsRunning. wp_run; [done|]. eapply wp_mono; [by apply (ServiceProps.inv_Dispatch _ _ _ _ _ _ E)|]. intros b s1 Hs1.
  wp_run. eapply wp_mono; [by apply Hj|]. intros ? s2 Hs2. by apply IH.
Qed.

End Startup.
