(* ===== verification/ChatService.v ===== *)
(** * ChatService: the server from [main] on implements the chat service
      (Server/Server.cpp, ClientPacketHandler.h, ClientSession.cpp and the respondents)

    [serve] is what the server does when a connection is accepted, a packet
    arrives or a connection is lost: for a packet, the dispatch of its bytes by
    [ClientPacketHandler::HandlePacket].  Runs of [serve] are runs of the service
    of [ChatSpec]. *)

From S2P Require Import Prelude PacketHandler Wire Protocol Database ChatDb ChatServer ChatAuth ChatRooms ChatFlow ChatSpec ChatRefine Dispatch System Network Service Startup.
#[local] Open Scope Z_scope.

Module ChatService.
Import ChatServer ChatRooms ChatFlow ChatSpec ChatRefine.
#[local] Opaque Dispatch.Init.

Section service.
Context {D : Type} `{!Odbc D} {WT : WinText} {WL : WinTextLen} `{!ChatDb D} {P : Msg.Parser}.

Definition serve (GPacketHandler : Dispatch.table) (e : event) : M (Dispatch.world (D := D)) unit :=
  match e with
  | Accepted sid => Dispatch.on_server (new_ClientSession sid)
  | Received sid m => Dispatch.HandlePacket GPacketHandler sid (System.wire m);; mret tt
  | Lost sid => Dispatch.on_server (OnDisconnected sid)
  end.

Fixpoint serve_all (GPacketHandler : Dispatch.table) (es : list event) : M (Dispatch.world (D := D)) unit :=
  match es with
  | [] => mret tt
  | e :: es => serve GPacketHandler e;; serve_all GPacketHandler es
  end.

(** Every event is allowed when it happens. *)
Fixpoint admissible (c : chat) (es : list event) : Prop :=
  match es with
  | [] => True
  | e :: es => allowed collate c e ∧ admissible (next collate e c) es
  end.

(** The respondent of a message does what the service does. *)
Lemma handle_refines s c sid m :
  represents s c → may_ask collate c sid m →
  ∃ job, Dispatch.Handle (D := D) sid m = Some (Dispatch.PacketRespondent job) ∧ refines s c (Received sid m) job.
Proof.
  intros Hr Hm. destruct m; try done; (eexists; split; [reflexivity|]).
  - by apply login_refines.
  - by apply register_refines.
  - by apply lobby_refines.
  - by apply create_refines.
  - by apply join_refines.
  - by apply chat_refines.
  - by apply leave_refines.
Qed.

Lemma may_ask_kind c sid m : may_ask collate c sid m → Msg.kind_of m ∈ Dispatch.client_kinds.
Proof. intros Hm. destruct m; try done; unfold Dispatch.client_kinds; simpl; set_solver. Qed.

Lemma serve_refines (x : Dispatch.world (D := D)) c e :
  represents (Dispatch.server x) c → allowed collate c e →
  ∃ x' out, serve (Dispatch.Init ∅) e x = Ret (tt, x') ∧ represents (Dispatch.server x') (next collate e c) ∧
    answers collate c e out ∧ sent (Dispatch.server x') = sent (Dispatch.server x) ++ out.
Proof.
  intros Hr Ha. destruct e as [sid|sid m|sid]; cbn [serve].
  - destruct (accept_refines _ _ sid Hr Ha) as (s' & out & E & H). exists (Dispatch.mkWorld s' (Dispatch.GJobQueues x)), out.
    split; [|exact H]. unfold Dispatch.on_server. by rewrite E.
  - destruct Ha as (Hm & Hwf & Hsm & Hu). destruct (handle_refines _ _ _ _ Hr Hm) as (job & Ej & s' & out & E & H).
    destruct (Dispatch.dispatch_run (D := D) sid m (may_ask_kind _ _ _ Hm) Hwf Hsm Hu) as (h & Eh & Ed).
    rewrite Ej in Eh. injection Eh as <-. unfold System.wire. rewrite Ed.
    exists (Dispatch.mkWorld s' (Dispatch.GJobQueues x ++ [[]])), out. split; [|exact H].
    unfold Dispatch.PacketRespondent, Dispatch.on_server, mbind, M_bind. by rewrite E.
  - destruct (lost_refines _ _ sid Hr Ha) as (s' & out & E & H). exists (Dispatch.mkWorld s' (Dispatch.GJobQueues x)), out.
    split; [|exact H]. unfold Dispatch.on_server. by rewrite E.
Qed.

Lemma serve_all_refines es (x : Dispatch.world (D := D)) c :
  represents (Dispatch.server x) c → admissible c es →
  ∃ x' tr c', serve_all (Dispatch.Init ∅) es x = Ret (tt, x') ∧ run collate c tr c' ∧ tr.*1 = es ∧
    represents (Dispatch.server x') c' ∧ sent (Dispatch.server x') = sent (Dispatch.server x) ++ concat tr.*2.
Proof.
  revert x c. induction es as [|e es IH]; intros x c Hr Ha.
  - exists x, [], c. split_and!; [done|constructor|done|done|by rewrite app_nil_r].
  - destruct Ha as [Ha Hes]. destruct (serve_refines x c e Hr Ha) as (x1 & out & E1 & Hr1 & Hout & Hs1).
    destruct (IH x1 _ Hr1 Hes) as (x' & tr & c' & E & Hrun & Htr & Hr' & Hs).
    exists x', ((e, out) :: tr), c'. split_and!; [|by constructor|by csimpl; rewrite Htr|done|].
    + cbn [serve_all]. by erewrite M_bind_step by exact E1.
    + rewrite Hs, Hs1. csimpl. by rewrite <-app_assoc.
Qed.

(** A server without accounts, rooms and connections. *)
Lemma fresh_represents (s : st D) :
  server_inv s → accts s = ∅ → db_rooms s = ∅ → sessions s = ∅ → represents s empty_chat.
Proof.
  intros Hsi HA HR HS. split; [done|]. rewrite HA, HR, HS. split; simpl.
  - intros k i (a & Ha & _). by rewrite lookup_empty in Ha.
  - intros sid k p Hk. by rewrite lookup_empty in Hk.
  - by rewrite fmap_empty.
  - intros n rm. rewrite lookup_empty. split; [done|]. intros (i & p & r & row & (_ & _ & Hrow) & _). by rewrite lookup_empty in Hrow.
  - intros sid id H. by rewrite lookup_empty in H.
  - intros i p r row u sid (_ & _ & Hrow). by rewrite lookup_empty in Hrow.
Qed.

End service.

Section from_main.
Context {D : Type} `{!Odbc D} {WT : WinText} {WL : WinTextLen} `{!ChatDb D, !ChatDdl D} {MP : Msg.Parser} `{!InetText} {B : Type}.

(** C1: the server implements the chat service.  Started by [main] on any
    database, with an environment that answers well, the server handles every
    sequence of connections, packets and disconnections the service allows, one
    after the other: all handlers return, the events with what was sent for them
    are a run of the abstract service from its empty state, and memory and tables
    represent the state the service has reached.  In that state no room is empty
    and nobody is in two rooms. *)
Theorem server_implements_service junk d :
  ∃ p, Startup.main (D := D) (B := B) (Startup.good junk) 1 (Startup.loaded_process d) = Ret (tt, p) ∧
  ∀ es, admissible empty_chat es →
  ∃ x tr c, serve_all (Startup.GPacketHandler p) es (Dispatch.mkWorld (Startup.chat p) []) = Ret (tt, x) ∧
    run collate empty_chat tr c ∧ tr.*1 = es ∧ sent (Dispatch.server x) = concat tr.*2 ∧
    represents (Dispatch.server x) c ∧ seated_well collate c.
Proof.
  destruct (Startup.main_run (D := D) (B := B) junk d) as (p & E & _ & HA & HR & Hi & _ & _ & _ & _ & _ & _ & Ht & HS & Hs).
  exists p. split; [exact E|]. intros es Hes. rewrite Ht.
  destruct (serve_all_refines es (Dispatch.mkWorld (Startup.chat p) []) empty_chat) as (x & tr & c & H1 & H2 & H3 & H4 & H5);
    [by apply fresh_represents|done|].
  exists x, tr, c. split_and!; [exact H1|exact H2|exact H3| |exact H4|exact (represents_seated _ _ H4)].
  rewrite H5. cbn [Dispatch.server]. by rewrite Hs.
Qed.

End from_main.

(** ** A conversation: amy registers, logs in and opens a room, bob joins it, amy
    says something and loses her connection, bob leaves. *)

Definition enroll (sid : nat) (u : str) : list event :=
  [Accepted sid;
   Received sid (Msg.C_REGISTER (C_REGISTER.set_pssd secret (C_REGISTER.set_id u C_REGISTER.new)));
   Received sid (Msg.C_LOGIN (C_LOGIN.set_pssd secret (C_LOGIN.set_id u C_LOGIN.new)))].

Definition conversation : list event :=
  enroll 7 amy ++ enroll 8 bob ++
  [Received 7 (Msg.C_CREATE_ROOM (C_CREATE_ROOM.set_roomname talk (C_CREATE_ROOM.set_id amy C_CREATE_ROOM.new)));
   Received 8 Msg.C_REFRESH_LOBBY;
   Received 8 (Msg.C_JOIN_ROOM (C_JOIN_ROOM.set_roomname talk (C_JOIN_ROOM.set_id bob C_JOIN_ROOM.new)));
   Received 7 (Msg.C_CHAT_LOG (C_CHAT_LOG.set_log secret (C_CHAT_LOG.set_id amy C_CHAT_LOG.new)));
   Lost 7%nat;
   Received 8 (Msg.C_ROOM_OUT (C_ROOM_OUT.set_id bob C_ROOM_OUT.new))].

Lemma conversation_admissible : admissible (D := mem) (WT := ascii_text) empty_chat conversation.
Proof.
  unfold conversation, enroll. cbn [admissible app allowed may_ask]. unfold in_the_lobby, ChatAuth.short.
  repeat match goal with |- _ ∧ _ => split end.
  all: try (vm_compute; exact I).
  all: try (vm_compute; reflexivity).
  all: try (vm_compute; discriminate).
  all: try (by split_and!).
  all: try (eexists; vm_compute; reflexivity).
  all: try (eexists _, _; vm_compute; reflexivity).
  eexists _, _. split; [vm_compute; reflexivity|vm_compute; discriminate].
Qed.

Lemma server_implements_service_witness : ∃ p x tr c,
  Startup.main (D := mem) (H := Startup.no_inet) (B := nat) (Startup.good 0) 1 (Startup.loaded_process Startup.old_db) = Ret (tt, p) ∧
  serve_all (WT := ascii_text) (P := Msg.reference_parser) (Startup.GPacketHandler p) conversation
    (Dispatch.mkWorld (Startup.chat p) []) = Ret (tt, x) ∧
  run (WT := ascii_text) collate empty_chat tr c ∧ tr.*1 = conversation.
Proof.
  destruct (server_implements_service (D := mem) (WT := ascii_text) (WL := ascii_text_len) (MP := Msg.reference_parser)
    (H := Startup.no_inet) (B := nat) 0 Startup.old_db) as (p & E & H).
  destruct (H conversation conversation_admissible) as (x & tr & c & H1 & H2 & H3 & _).
  exists p, x, tr, c. exact (conj E (conj H1 (conj H2 H3))).
Defined.

End ChatService.
