(* ===== verification/ClientStartup.v ===== *)
(** * ClientStartup: the client's application object
      (Client/Client.cpp [InitInstance], Client.h)

    [InitInstance] on the states of the components, up to the dialog: the globals,
    the packet handlers, the service with its one session, the two worker threads,
    and [OnInitDialog] of the dialog that [DoModal] shows.  The process is that of
    [Startup]; its connection pool is made and never connected.  The set-up of the
    window library ([InitCommonControlsEx], the shell manager, the registry key) is
    left out.  [ExitInstance] is in [Shutdown]. *)

From S2P Require Import Prelude PacketHandler Session Protocol Database ChatServer Dispatch Client ClientProps ClientDispatch Network Service ServiceProps Threads Startup.
#[local] Open Scope Z_scope.

Module ClientStartup.
Import Service Startup.

Section init.
Context `{!InetText} {B : Type}.

(** The process and the dialog. *)
Notation process := (@Startup.process unit B).

(** [make_shared<ClientService>(NetAddress(L"127.0.0.1", 7777), ..., 1)]. *)
Definition make_service (o : answers) : M process unit :=
  modify (λ s, mkProcess (threads s) (chat s) (network s)
    (Some (mk (new Session.Client (NetAddress.of_ip_port (junk o) (wlit "127.0.0.1") 7777) true 1) ∅ 0 None (network s)))
    (GPacketHandler s)).

(** The region [Iocp Start]. *)
Definition iocp_start (o : answers) (session_os : nat → Session.os) : M process unit :=
  CoreGlobal o;;
  modify (λ s, mkProcess (threads s) (chat s) (network s) (server s) (ClientDispatch.Init (GPacketHandler s)));;
  new_IocpCore o;;
  make_service o;;
  r ← on_service (ClientService_Start (os o) session_os);
  assert_crash r;;
  launch_all 2.

(** [InitInstance] until the dialog waits for its user: the process and the dialog. *)
Definition InitInstance (o : answers) (session_os : nat → Session.os) (P : process) : result (process * Client.st) :=
  match iocp_start o session_os P with
  | Ret (_, P) =>
    match Client.OnInitDialog Client.blank with
    | Ret (_, dlg) => Ret (P, dlg)
    | Crash f => Crash f
    end
  | Crash f => Crash f
  end.

(** The connection attempt that the environment's answers allow. *)
Definition can_connect (o : Session.os) : bool :=
  Session.os_reuse o && Session.os_bind o &&
  match Session.sys_failed (Session.os_connect o) with None => true | Some _ => false end.

(** A session whose [ConnectEx] is outstanding. *)
Definition connecting (x : @session B) : Prop :=
  Session._connected (ses x) = false ∧ Session.connect_owner (ses x) = true.

(** [Connect] of a new session. *)
Lemma Connect_run o :
  ∃ s', Session.Connect o Session.Client (Session.new (B := B)) = Ret (can_connect o, s') ∧
    (Session.calls s' = [] ∨ Session.calls s' = [Session.ConnectEx]) ∧ Session._connected s' = false ∧
    (can_connect o = true → Session.connect_owner s' = true).
Proof.
  destruct o as [[] [] c ? ? ?]; unfold Session.Connect, Session.RegisterConnect, can_connect, Session.IsConnected; autorewrite with run; simpl;
    try (eexists; split_and!; [reflexivity|by left|done|done]).
  destruct (Session.sys_failed c) as [e|]; unfold Session.emit; autorewrite with run; simpl;
    (eexists; split_and!; [reflexivity|by right|done|done]).
Qed.

(** [Start] of a service with one session. *)
Lemma ClientService_Start_run session_os (v : service) n :
  _sessionFactory v = true → _type v = Session.Client → _maxSessionCount v = 1 →
  ∃ s x, ClientService_Start ServiceProps.all_ok session_os (ServiceProps.created (B := B) v n) =
           Ret (can_connect (session_os (S (S (tick n)))), s) ∧
    srv s = v ∧ heap s = {[0%nat := x]} ∧ (can_connect (session_os (S (S (tick n)))) = true → connecting x).
Proof.
  intros Hf Ht Hm. destruct n as [tk so lo po ca]. destruct v as [ty ad ss sc mx fa ru]. cbn [_sessionFactory _type _maxSessionCount tick] in *. subst ty mx fa.
  destruct (Connect_run (session_os (S (S tk)))) as (s' & E & Hc & Hd & Hx). revert E Hx.
  generalize (can_connect (session_os (S (S tk)))). intros b E Hx.
  unfold ClientService_Start, ServiceProps.created.
  repeat (unfold CanStart, GetMaxSessionCount, mbind, M_bind, gets, mret, M_ret; cbn -[connect_sessions Z.to_nat]).
  change (Z.to_nat 1) with 1%nat. cbn [connect_sessions].
  repeat (unfold CreateSession, make_session, Register, GetHandle, SocketUtils.CreateSocket, on_net, session_at,
    on_session, SocketUtils.sys, SocketUtils.ok, SocketUtils.set_sockets, ServiceProps.all_ok,
    mbind, M_bind, gets, modify, get, mret, M_ret, when, lift, deref;
    cbn -[Session.new insert lookup Session.Connect]; rewrite ?lookup_insert_eq).
  rewrite E. cbn -[Session.new insert lookup].
  eexists _, (mkSession s' _ _). split.
  - destruct Hc as [-> | ->]; cbn -[Session.new insert lookup]; destruct b; reflexivity.
  - cbn -[insert]. split_and!; [done|by rewrite insert_insert_eq|]. intros Hb. split; [done|by apply Hx].
Qed.
(** The process as it is loaded. *)
Definition loaded_client : process :=
  mkProcess ThreadManager.init (ChatServer.mk (DBConnection.mkSt tt ∅ []) ∅ 0 ∅ ∅ []) net_init None ∅.

Lemma handlers_registered t k :
  k ∈ ClientDispatch.server_kinds → ClientDispatch.Init t !! Msg.pkt_id k = Some (Dispatch.HandlePacketOf k).
Proof. apply Dispatch.register_lookup. Qed.

#[local] Opaque ClientDispatch.Init.

(** The region from the completion port on. *)
Lemma start_run junk session_os th c n handlers :
  ∃ n' v x, ServiceProps.inv None v ∧ _isRunning (srv v) = true ∧ heap v = {[0%nat := x]} ∧
    (can_connect (session_os (S (S (S (tick n))))) = true → connecting x) ∧
  (new_IocpCore (good junk);; make_service (good junk);;
   r ← on_service (ClientService_Start (os (good junk)) session_os);
   assert_crash r;; launch_all 2) (mkProcess th c n None handlers) =
    if can_connect (session_os (S (S (S (tick n)))))
    then Ret (tt, mkProcess (Nat.iter 2 ThreadManager.Launch th) c n' (Some v) handlers)
    else Crash AssertCrash.
Proof.
  set (n' := mkNet (S (tick n)) (sockets n) (loaded n) (port n) (calls n ++ [CreateIoCompletionPort None])).
  set (v0 := new Session.Client (NetAddress.of_ip_port junk (wlit "127.0.0.1") 7777) true 1).
  destruct (ClientService_Start_run session_os v0 n') as (v & x & E & Ev & Eh & Hx); [done|done|done|]. cbn [tick n'] in E, Hx.
  exists n', v, x. split_and!; [|by rewrite Ev|done|done|].
  - exact (ServiceProps.wp_Ret _ _ _ _ _ _ (ServiceProps.inv_ClientService_Start ServiceProps.all_ok session_os _
      (ServiceProps.inv_created Session.Client _ true 1 n')) E).
  - eapply (bind_ok _ _ _ tt (mkProcess th c n' None handlers)); [reflexivity|].
    eapply (bind_ok _ _ _ tt (mkProcess th c n' (Some (ServiceProps.created v0 n')) handlers)); [reflexivity|].
    refine (bind_ok _ _ _ _ _ _ (on_service_run _ (mkProcess th c n' (Some (ServiceProps.created v0 n')) handlers) _ _ _ eq_refl E) _).
    destruct (can_connect _); [|reflexivity]. eapply bind_ok; [reflexivity|]. apply launch_all_run.
Qed.

Lemma set_handlers_run (P : process) f :
  modify (λ s, mkProcess (threads s) (chat s) (network s) (server s) (f (GPacketHandler s))) P =
  Ret (tt, mkProcess (threads P) (chat P) (network P) (server P) (f (GPacketHandler P))).
Proof. reflexivity. Qed.

(** The region. *)
Lemma iocp_start_run junk session_os n :
  SocketUtils.Init ServiceProps.all_ok net_init = Ret (tt, n) →
  ∃ n' v x, ServiceProps.inv None v ∧ _isRunning (srv v) = true ∧ heap v = {[0%nat := x]} ∧
    (can_connect (session_os (S (S (S (tick n))))) = true → connecting x) ∧
  iocp_start (good junk) session_os loaded_client =
    if can_connect (session_os (S (S (S (tick n)))))
    then Ret (tt, mkProcess (Nat.iter 2 ThreadManager.Launch (ThreadManager.new ThreadManager.init)) (chat loaded_client) n'
           (Some v) (ClientDispatch.Init ∅))
    else Crash AssertCrash.
Proof.
  intros En. destruct (start_run junk session_os (ThreadManager.new ThreadManager.init) (chat loaded_client) n (ClientDispatch.Init ∅))
    as (n' & v & x & Hi & Hr & Hh & Hx & E).
  exists n', v, x. split_and!; [done..|]. rewrite <-E. unfold iocp_start.
  eapply (bind_ok _ _ _ tt (mkProcess (ThreadManager.new ThreadManager.init) (chat loaded_client) n None ∅)).
  { unfold CoreGlobal, on_threads. rewrite bind_modify. unfold on_network. cbn [network loaded_client os good]. by rewrite En. }
  exact (bind_ok _ _ _ _ _ _ (set_handlers_run _ ClientDispatch.Init) eq_refl).
Qed.

End init.

(** C23: the client comes up.  When the process can be set up, [InitInstance] reaches
    its dialog exactly when the one connection attempt can be made, and stops the
    process otherwise: the service runs with one session, whose [ConnectEx] is
    outstanding, and satisfies its invariant; every message of the server has its
    handler; three threads were made; the dialog shows the login page and listens
    for chat lines and user lists. *)
Theorem client_starts `{!InetText} {B} :
  ∃ t, ∀ junk session_os,
    match InitInstance (B := B) (good junk) session_os loaded_client with
    | Ret (P, dlg) => can_connect (session_os t) = true ∧
        (∃ v x, server P = Some v ∧ ServiceProps.inv None v ∧ _isRunning (srv v) = true ∧ heap v = {[0%nat := x]} ∧ connecting x) ∧
        (∀ k, k ∈ ClientDispatch.server_kinds → GPacketHandler P !! Msg.pkt_id k = Some (Dispatch.HandlePacketOf k)) ∧
        ThreadManager.reachable (threads P) ∧ ThreadManager.next (threads P) = 3%nat ∧
        Client.login_shown (Client.loginPg dlg) = true ∧ Client.GServerSession dlg = false ∧
        Client._callback dlg Client.ChatLogModel = Some Client.SendChatCompleted_Room ∧
        Client._callback dlg Client.RefreshRoomModel = Some Client.RefreshRoomCompleted
    | Crash f => f = AssertCrash ∧ can_connect (session_os t) = false
    end.
Proof.
  destruct Init_loads as (n & En & _). exists (S (S (S (tick n)))). intros junk session_os.
  destruct (iocp_start_run (B := B) junk session_os n En) as (n' & v & x & Hi & Hr & Hh & Hx & E).
  unfold InitInstance. rewrite E. clear E. destruct (can_connect _); [|split; reflexivity]. rewrite ClientProps.OnInitDialog_opened.
  destruct (launched_reachable 2 _ ThreadManager.r_init) as [Hth1 Hth2].
  cbn [server GPacketHandler threads]. split; [reflexivity|]. split; [|split].
  - exists v, x. split_and!; auto.
  - intros k Hk. by apply handlers_registered.
  - split_and!; first [exact Hth1|exact Hth2|reflexivity].
Qed.

(** [ConnectEx] is refused. *)
Definition session_refused (n : nat) : Session.os :=
  Session.mkOs true true (Session.SysErr 10061) (Session.SysErr 10061) (Session.SysErr 10061) (Session.SysErr 10061).

Lemma client_starts_witness :
  (∃ P dlg, InitInstance (H := no_inet) (B := nat) (good 0) ServiceProps.session_ok loaded_client = Ret (P, dlg) ∧
     ThreadManager.next (threads P) = 3%nat ∧ Client.login_shown (Client.loginPg dlg) = true) ∧
  InitInstance (H := no_inet) (B := nat) (good 0) session_refused loaded_client = Crash AssertCrash.
Proof.
  destruct (client_starts (H := no_inet) (B := nat)) as [t Ht]. split.
  - specialize (Ht 0 ServiceProps.session_ok). destruct (InitInstance _ _ _) as [[P dlg]|f].
    + exists P, dlg. destruct Ht as (_ & _ & _ & _ & Hn & Hl & _). split; [reflexivity|]. split; [exact Hn|exact Hl].
    + destruct Ht as [_ Hc]. vm_compute in Hc. discriminate Hc.
  - specialize (Ht 0 session_refused). destruct (InitInstance _ _ _) as [[P dlg]|f].
    + destruct Ht as [Hc _]. vm_compute in Hc. discriminate Hc.
    + destruct Ht as [-> _]. reflexivity.
Defined.

End ClientStartup.
