(* ===== verification/DBModel.v ===== *)
(** * DBModel: the description of tables and procedures
      (ServerCore/DBModel.h, DBModel.cpp)

    The columns and indexes of a table, stored procedures, and the texts made of
    and read into them.  The pointers to columns and indexes are never null and
    the operations only read what they point to, so a pointer is the object. *)

From stdpp Require Import pretty.
From S2P Require Import Prelude Database.
#[local] Open Scope Z_scope.

Module DBModel.

(** ** Data *)

Inductive DataType : Type :=
| None_ | TinyInt | SmallInt | Int | Real | DateTime | Float | Bit | Numeric | BigInt | VarBinary | Varchar | Binary | NVarChar.

#[global] Instance DataType_eq_dec : EqDecision DataType.
Proof. solve_decision. Defined.

(** The numbers of the enumeration, those of the system tables. *)
Definition DataType_code (t : DataType) : Z :=
  match t with
  | None_ => 0 | TinyInt => 48 | SmallInt => 52 | Int => 56 | Real => 59 | DateTime => 61 | Float => 62 | Bit => 104
  | Numeric => 108 | BigInt => 127 | VarBinary => 165 | Varchar => 167 | Binary => 173 | NVarChar => 231
  end.

Record Column : Type := mkColumn {
  _name : wstr;
  _columnId : Z;
  _type : DataType;
  _typeText : wstr;
  _maxLength : Z;
  _nullable : bool;
  _identity : bool;
  _seedValue : Z;
  _incrementValue : Z;
  _default : wstr;
  _defaultConstraintName : wstr
}.

Inductive IndexType : Type := Clustered | NonClustered.

#[global] Instance IndexType_eq_dec : EqDecision IndexType.
Proof. solve_decision. Defined.

Record Index : Type := mkIndex {
  index_name : wstr;
  _indexId : Z;
  index_type : IndexType;
  _primaryKey : bool;
  _uniqueConstraint : bool;
  index_columns : list Column
}.

Record Table : Type := mkTable {
  _objectId : Z;
  table_name : wstr;
  table_columns : list Column;
  _indexes : list Index
}.

Record Param : Type := mkParam { param_name : wstr; param_type : wstr }.

Record Procedure : Type := mkProcedure {
  procedure_name : wstr;
  _fullBody : wstr;
  _body : wstr;
  _parameters : list Param
}.

(** ** Helpers *)

(** The arguments of [Format]: a wide string, or an integer in a slot of 64 bits. *)
Inductive arg : Type := WStr (w : wstr) | Slot (z : Z).

(** The text of a format: [%s] takes the string up to its terminator, [%d] the
    low 32 bits of its slot.  An argument of the other kind, or a missing one,
    has no defined result, nor have other conversions; the formats of this file have
    none of these. *)
Fixpoint print (format : wstr) (args : list arg) : option wstr :=
  match format with
  | [] => Some []
  | c :: format =>
    if c =? 37 then
      match format, args with
      | d :: format, WStr w :: args => if d =? 115 then (λ r, c_wstr w ++ r) <$> print format args else None
      | d :: format, Slot z :: args => if d =? 100 then (λ r, wlit (pretty (i32 z)) ++ r) <$> print format args else None
      | _, _ => None
      end
    else (λ r, c :: r) <$> print format args
  end.

Definition BUF_SIZE : Z := 4096.

(** [vswprintf_s] calls the invalid-parameter handler, which ends the process,
    when the text and its terminator do not fit. *)
Definition Format (format : wstr) (args : list arg) : result wstr :=
  match print format args with
  | Some w => if zlen w + 1 <=? BUF_SIZE then Ret w else Crash InvalidParameter
  | None => Crash OutOfBounds
  end.

Definition DataType2String (type : DataType) : wstr :=
  match type with
  | TinyInt => wlit "TinyInt"
  | SmallInt => wlit "SmallInt"
  | Int => wlit "Int"
  | Real => wlit "Real"
  | DateTime => wlit "DateTime"
  | Float => wlit "Float"
  | Bit => wlit "Bit"
  | Numeric => wlit "Numeric"
  | BigInt => wlit "BigInt"
  | VarBinary => wlit "VarBinary"
  | Varchar => wlit "Varchar"
  | Binary => wlit "Binary"
  | NVarChar => wlit "NVarChar"
  | None_ => wlit "None"
  end.

(** [isspace] is defined on 0 .. 255 only. *)
Definition isspace (c : Z) : result bool :=
  if c <? 256 then Ret ((c =? 32) || ((9 <=? c) && (c <=? 13))) else Crash OutOfBounds.

Fixpoint RemoveWhiteSpace (w : wstr) : result wstr :=
  match w with
  | [] => Ret []
  | c :: w =>
    sp ← isspace c;
    r ← RemoveWhiteSpace w;
    Ret (if (sp : bool) then r else c :: r)
  end.

Definition is_lower (c : Z) : bool := (97 <=? c) && (c <=? 122).
Definition is_digit (c : Z) : bool := (48 <=? c) && (c <=? 57).
Definition tolower (c : Z) : Z := if (65 <=? c) && (c <=? 90) then c + 32 else c.

(** [_wcsicmp(a, b) == 0]. *)
Definition wcsicmp (a b : wstr) : bool := bool_decide (tolower <$> a = tolower <$> b).

(** [_wtoi] of digits; it stops at the largest [int]. *)
Definition digits_value (w : wstr) : Z := fold_left (λ v c, v * 10 + (c - 48)) w 0.
Definition wtoi (w : wstr) : Z := Z.min (digits_value w) (2 ^ 31 - 1).

Fixpoint span (p : Z → bool) (w : wstr) : wstr * wstr :=
  match w with
  | [] => ([], [])
  | c :: w' => if p c then let '(a, b) := span p w' in (c :: a, b) else ([], w)
  end.

(** [regex_match] with [([a-z]+)(\((max|\d+)\))?]: the first and the third group. *)
Definition size_text (body : wstr) : bool :=
  bool_decide (body = wlit "max") || (negb (bool_decide (body = [])) && forallb is_digit body).

Definition size_group (rest : wstr) : option (option wstr) :=
  match rest with
  | [] => Some None
  | 40 :: body =>
    match reverse body with
    | 41 :: inner => if size_text (reverse inner) then Some (Some (reverse inner)) else None
    | _ => None
    end
  | _ => None
  end.

Definition regex_match (str : wstr) : option (wstr * option wstr) :=
  match span is_lower str with
  | ([], _) => None
  | (name, rest) => size ← size_group rest; Some (name, size)
  end.

Definition type_named (name : wstr) : DataType :=
  if wcsicmp name (wlit "TinyInt") then TinyInt else
  if wcsicmp name (wlit "SmallInt") then SmallInt else
  if wcsicmp name (wlit "Int") then Int else
  if wcsicmp name (wlit "Real") then Real else
  if wcsicmp name (wlit "DateTime") then DateTime else
  if wcsicmp name (wlit "Float") then Float else
  if wcsicmp name (wlit "Bit") then Bit else
  if wcsicmp name (wlit "Numeric") then Numeric else
  if wcsicmp name (wlit "BigInt") then BigInt else
  if wcsicmp name (wlit "VarBinary") then VarBinary else
  if wcsicmp name (wlit "Varchar") then Varchar else
  if wcsicmp name (wlit "Binary") then Binary else
  if wcsicmp name (wlit "NVarChar") then NVarChar else
  None_.

(** The type and the new value of [maxLen]. *)
Definition String2DataType (str : wstr) (maxLen : Z) : DataType * Z :=
  match regex_match (c_wstr str) with
  | None => (None_, maxLen)
  | Some (name, size) =>
    (type_named name,
     match size with
     | Some w => if wcsicmp w (wlit "max") then -1 else wtoi w
     | None => 0
     end)
  end.

(** ** Column *)

Definition CreateText (c : Column) : result wstr :=
  ident ← (if _identity c then Format (wlit "IDENTITY(%d, %d)") [Slot (_seedValue c); Slot (_incrementValue c)] else Ret []);
  Format (wlit "[%s] %s %s %s")
    [WStr (_name c); WStr (_typeText c); WStr (if _nullable c then wlit "NULL" else wlit "NOT NULL"); WStr ident].

(** ** Index *)

Fixpoint unique_columns (cs : list Column) : wstr :=
  match cs with
  | [] => []
  | c :: cs => wlit "*" ++ _name c ++ wlit " " ++ unique_columns cs
  end.

Definition GetUniqueName (i : Index) : wstr :=
  (if _primaryKey i then wlit "PK " else wlit " ") ++
  (if _uniqueConstraint i then wlit "UK " else wlit " ") ++
  (if decide (index_type i = Clustered) then wlit "C " else wlit "NC ") ++
  unique_columns (index_columns i).

Fixpoint name_columns (cs : list Column) : wstr :=
  match cs with
  | [] => []
  | c :: cs => wlit "_" ++ _name c ++ name_columns cs
  end.

Definition CreateName (i : Index) (tableName : wstr) : wstr := wlit "IX_" ++ tableName ++ name_columns (index_columns i).

Definition GetTypeText (i : Index) : wstr :=
  if decide (index_type i = Clustered) then wlit "CLUSTERED" else wlit "NONCLUSTERED".

Definition GetKeyText (i : Index) : wstr :=
  if _primaryKey i then wlit "PRIMARY KEY" else
  if _uniqueConstraint i then wlit "UNIQUE" else
  [].

(** The loop from the [i]-th column. *)
Fixpoint columns_text (i : nat) (cs : list Column) : result wstr :=
  match cs with
  | [] => Ret []
  | c :: cs =>
    t ← Format (wlit "[%s]") [WStr (_name c)];
    r ← columns_text (S i) cs;
    Ret ((if (0 <? i)%nat then wlit ", " else []) ++ t ++ r)
  end.

Definition CreateColumnsText (i : Index) : result wstr := columns_text 0 (index_columns i).

Definition DependsOn (i : Index) (columnName : wstr) : bool :=
  existsb (λ c, bool_decide (_name c = columnName)) (index_columns i).

(** ** Table *)

(** The null pointer when there is none. *)
Definition FindColumn (t : Table) (columnName : wstr) : option Column :=
  snd <$> list_find (λ c, _name c = columnName) (table_columns t).

(** ** Procedure *)

Definition tab : wstr := [9].
Definition newline : wstr := [10].

(** The loop over the rest of the parameters. *)
Fixpoint param_string (ps : list Param) : result wstr :=
  match ps with
  | [] => Ret []
  | p :: ps =>
    t ← Format (tab ++ wlit "%s %s" ++ match ps with [] => [] | _ => wlit "," ++ newline end)
          [WStr (param_name p); WStr (param_type p)];
    r ← param_string ps;
    Ret (t ++ r)
  end.

Definition GenerateParamString (p : Procedure) : result wstr := param_string (_parameters p).

Definition GenerateCreateQuery (p : Procedure) : result wstr :=
  paramString ← GenerateParamString p;
  Format (wlit "CREATE PROCEDURE [dbo].[%s] %s AS BEGIN %s END") [WStr (procedure_name p); WStr paramString; WStr (_body p)].

Definition GenerateAlterQuery (p : Procedure) : result wstr :=
  paramString ← GenerateParamString p;
  Format (wlit "ALTER PROCEDURE [dbo].[%s] %s AS" ++ tab ++ wlit "BEGIN %s END")
    [WStr (procedure_name p); WStr paramString; WStr (_body p)].

(** ** Texts of types *)

Lemma span_spec p w : w = fst (span p w) ++ snd (span p w) ∧ forallb p (fst (span p w)) = true ∧
  match snd (span p w) with [] => True | c :: _ => p c = false end.
Proof.
  induction w as [|c w IH]; simpl; [done|]. destruct (p c) eqn:E; [|done].
  destruct (span p w) as [a b]. simpl in *. destruct IH as (-> & H & ?). by rewrite E, H.
Qed.

Lemma span_app p a b :
  forallb p a = true → match b with [] => True | c :: _ => p c = false end → span p (a ++ b) = (a, b).
Proof.
  intros Ha Hb. induction a as [|c a IH]; simpl in *.
  - destruct b as [|c b]; [done|]. simpl. by rewrite Hb.
  - apply andb_prop in Ha as [Hc Ha]. by rewrite Hc, IH.
Qed.

(** The sizes a type can have in parentheses, with the length they denote. *)
Inductive size_suffix : wstr → Z → Prop :=
| no_size : size_suffix [] 0
| max_size : size_suffix (wlit "(max)") (-1)
| digit_size ds : ds ≠ [] → forallb is_digit ds = true → size_suffix (wlit "(" ++ ds ++ wlit ")") (wtoi ds).

(** The value [String2DataType] gives to [maxLen]. *)
Definition size_length (size : option wstr) : Z :=
  match size with Some w => if wcsicmp w (wlit "max") then -1 else wtoi w | None => 0 end.

Lemma digits_not_max ds : forallb is_digit ds = true → wcsicmp ds (wlit "max") = false.
Proof.
  intros Hd. apply bool_decide_eq_false_2. intros E.
  change (tolower <$> wlit "max") with [109; 97; 120] in E. destruct ds as [|c ds]; [done|]. simpl in Hd. apply andb_prop in Hd as [Hc _]. injection E as Ec _. unfold is_digit, tolower in *.
  destruct ((65 <=? c) && (c <=? 90)) eqn:?; lia.
Qed.

Lemma size_group_suffix rest n : (∃ size, size_group rest = Some size ∧ size_length size = n) ↔ size_suffix rest n.
Proof.
  split.
  - intros (size & E & <-). unfold size_group in E. destruct rest as [|c body]; [injection E as <-; constructor|].
    destruct (decide (c = 40)) as [->|Hc]; [|repeat case_match; naive_solver].
    destruct (reverse body) as [|d inner] eqn:Er; [done|]. destruct (decide (d = 41)) as [->|]; [|repeat case_match; naive_solver].
    apply (f_equal reverse) in Er. rewrite reverse_involutive, reverse_cons in Er. subst body.
    generalize dependent (reverse inner). intros ds E. unfold size_text in E. case_bool_decide as Hm; simpl in E.
    + injection E as <-. subst ds. apply max_size.
    + case_bool_decide; [done|]. simpl in E. destruct (forallb is_digit ds) eqn:Hd; [|done]. injection E as <-.
      unfold size_length. rewrite digits_not_max by done. by apply digit_size.
  - intros H. destruct H as [| |ds Hne Hd]; [by exists None|by exists (Some (wlit "max"))|]. exists (Some ds). split.
    + change (wlit "(" ++ ds ++ wlit ")") with (40 :: ds ++ [41]). cbn [size_group]. rewrite reverse_snoc, reverse_involutive.
      unfold size_text. by rewrite Hd, (bool_decide_eq_false_2 (ds = [])), orb_true_r.
    + unfold size_length. by rewrite digits_not_max.
Qed.

Lemma lower_tolower w : forallb is_lower w = true → tolower <$> w = w.
Proof.
  induction w as [|c w IH]; [done|]. simpl. intros H. apply andb_prop in H as [Hc Hw]. f_equal; [|by apply IH].
  unfold is_lower, tolower in *. destruct ((65 <=? c) && (c <=? 90)) eqn:?; lia.
Qed.

(** A lower-case name denotes the type whose name it spells. *)
Lemma type_named_iff name t :
  t ≠ None_ → forallb is_lower name = true → type_named name = t ↔ name = tolower <$> DataType2String t.
Proof.
  intros Ht Hl. unfold type_named, wcsicmp. rewrite (lower_tolower name Hl). split.
  - repeat (case_bool_decide; [intros <-; done|]). done.
  - intros ->. destruct t; [done|vm_compute; reflexivity..].
Qed.

Lemma size_suffix_head rest n : size_suffix rest n → match rest with [] => True | c :: _ => is_lower c = false end.
Proof. by intros []. Qed.

Lemma type_name_lower t : forallb is_lower (tolower <$> DataType2String t) = true.
Proof. destruct t; vm_compute; reflexivity. Qed.

Lemma type_name_nonempty t : tolower <$> DataType2String t ≠ [].
Proof. by destruct t. Qed.

(** [String2DataType] recognises exactly the type names in small letters,
    alone or with [(max)] or a number in parentheses, and gives the length -1 for
    [max], the number (cut at the largest [int]) or 0; any other text is no type. *)
Theorem String2DataType_iff str maxLen t n :
  t ≠ None_ →
  String2DataType str maxLen = (t, n) ↔
  ∃ suffix, c_wstr str = (tolower <$> DataType2String t) ++ suffix ∧ size_suffix suffix n.
Proof.
  intros Ht. unfold String2DataType, regex_match. split.
  - destruct (span_spec is_lower (c_wstr str)) as (E & Hl & Hr). destruct (span is_lower (c_wstr str)) as [name rest].
    simpl in *. destruct name as [|c name]; [naive_solver|]. destruct (size_group rest) as [size|] eqn:Es; [|naive_solver].
    simpl. intros [= Etype En]. exists rest. split; [|by apply size_group_suffix; eauto].
    rewrite E. f_equal. by apply type_named_iff.
  - intros (suffix & -> & Hs). rewrite (span_app _ _ _ (type_name_lower t) (size_suffix_head _ _ Hs)).
    apply size_group_suffix in Hs as (size & Es & <-). pose proof (type_name_nonempty t) as Hne.
    pose proof (proj2 (type_named_iff _ t Ht (type_name_lower t)) eq_refl) as Etype.
    destruct (tolower <$> DataType2String t) as [|c name]; [done|]. rewrite Es. simpl. by rewrite Etype.
Qed.

Lemma String2DataType_iff_witness : String2DataType (wlit "nvarchar(50)") 7 = (NVarChar, 50).
Proof.
  apply String2DataType_iff; [done|]. exists (wlit "(50)"). split; [reflexivity|]. apply (digit_size (wlit "50")); done.
Defined.

(** The names [DataType2String] writes begin with a capital letter, which the
    pattern does not allow, though the comparison after it ignores case. *)
Lemma type_names_not_read t maxLen : String2DataType (DataType2String t) maxLen = (None_, maxLen).
Proof. destruct t; vm_compute; reflexivity. Qed.

(** ** Indexes *)

Definition plain_name (w : wstr) : bool := forallb (λ c, negb (c =? 42)) w.

Lemma unique_columns_inj cs ds :
  Forall (λ c, plain_name (_name c) = true) cs → Forall (λ c, plain_name (_name c) = true) ds →
  unique_columns cs = unique_columns ds → _name <$> cs = _name <$> ds.
Proof.
  intros Hc. revert ds. induction Hc as [|c cs Hn Hc IH]; intros ds Hd E; destruct Hd as [|d ds Hm Hd]; [done|done|done|].
  assert (∀ n es, plain_name n = true → span (λ c, negb (c =? 42)) (n ++ wlit " " ++ unique_columns es) = (n ++ wlit " ", unique_columns es)) as K.
  { intros n es Hp. rewrite app_assoc. apply span_app; [|by destruct es].
    rewrite forallb_app. unfold plain_name in Hp. by rewrite Hp. }
  injection E as E. apply (f_equal (span (λ c, negb (c =? 42)))) in E.
  pose proof (K (_name c) cs Hn) as E1. pose proof (K (_name d) ds Hm) as E2. simpl in E1, E2. simpl in E. rewrite E1, E2 in E.
  injection E as E E'. apply app_inj_tail in E as [E _]. rewrite !fmap_cons. f_equal; [done|by apply IH].
Qed.

(** The unique name of an index says all that matters of it: two indexes,
    whose column names contain no asterisk, have the same unique name exactly when
    both are primary keys or neither, both unique or neither, of the same type,
    and over columns of the same names in the same order. *)
Theorem GetUniqueName_iff i j :
  Forall (λ c, plain_name (_name c) = true) (index_columns i) → Forall (λ c, plain_name (_name c) = true) (index_columns j) →
  GetUniqueName i = GetUniqueName j ↔
  _primaryKey i = _primaryKey j ∧ _uniqueConstraint i = _uniqueConstraint j ∧ index_type i = index_type j ∧
  _name <$> index_columns i = _name <$> index_columns j.
Proof.
  intros Hi Hj. split.
  - unfold GetUniqueName. intros E.
    destruct (_primaryKey i), (_primaryKey j), (_uniqueConstraint i), (_uniqueConstraint j), (index_type i), (index_type j);
      try done; repeat rewrite decide_True in E by done; repeat rewrite decide_False in E by done; try done;
      split_and!; try done; apply unique_columns_inj; try done; by injection E.
  - intros (E1 & E2 & E3 & E4). unfold GetUniqueName. rewrite E1, E2, E3. do 3 f_equal.
    clear Hi Hj E1 E2 E3. revert E4. generalize (index_columns j). induction (index_columns i) as [|c cs IH]; intros [|d ds] E; try done.
    rewrite !fmap_cons in E. injection E as E E'. simpl. rewrite E, (IH ds E'). done.
Qed.

Definition demo_column (name : wstr) : Column := mkColumn name 1 Int (wlit "int") 0 false false 0 0 [] [].

Lemma GetUniqueName_iff_witness :
  GetUniqueName (mkIndex [] 0 Clustered true false [demo_column (wlit "id")]) ≠
  GetUniqueName (mkIndex [] 0 Clustered true false [demo_column (wlit "i"); demo_column (wlit "d")]).
Proof.
  intros E. apply GetUniqueName_iff in E as (_ & _ & _ & E); [discriminate E| |].
  - repeat constructor.
  - repeat constructor.
Defined.

(** ** Procedures *)

(** The conversion [%s]. *)
Definition conv : wstr := wlit "%s".

Lemma print_text w format args :
  forallb (λ c, negb (c =? 37)) w = true → print (w ++ format) args = (λ r, w ++ r) <$> print format args.
Proof.
  induction w as [|c w IH]; simpl; [intros _; by destruct (print format args)|].
  intros H. apply andb_prop in H as [Hc Hw]. destruct (c =? 37); [done|]. rewrite IH by done. by destruct (print format args).
Qed.

Lemma print_conv w format args : print (conv ++ format) (WStr w :: args) = (λ r, c_wstr w ++ r) <$> print format args.
Proof. reflexivity. Qed.

(** A generated query is the whole text or the process ends: if the
    parameters' text is [ps], [GenerateCreateQuery] returns the statement with the
    name, [ps] and the body in place exactly when it has fewer than 4096
    characters, and otherwise the invalid-parameter handler is called; it never
    returns a truncated statement. *)
Theorem create_query_whole p ps :
  GenerateParamString p = Ret ps →
  let text := wlit "CREATE PROCEDURE [dbo].[" ++ c_wstr (procedure_name p) ++ wlit "] " ++ c_wstr ps ++
              wlit " AS BEGIN " ++ c_wstr (_body p) ++ wlit " END" in
  GenerateCreateQuery p = if zlen text <? 4096 then Ret text else Crash InvalidParameter.
Proof.
  intros E text. unfold GenerateCreateQuery. rewrite E. cbn [mbind result_bind]. unfold Format.
  change (wlit "CREATE PROCEDURE [dbo].[%s] %s AS BEGIN %s END")
    with (wlit "CREATE PROCEDURE [dbo].[" ++ conv ++ wlit "] " ++ conv ++ wlit " AS BEGIN " ++ conv ++ wlit " END" ++ []).
  repeat first [rewrite print_conv | rewrite print_text by reflexivity].
  cbn [print]. cbn [fmap option_fmap option_map]. rewrite app_nil_r. fold text.
  clearbody text. unfold BUF_SIZE. destruct (Z.leb_spec (zlen text + 1) 4096), (Z.ltb_spec (zlen text) 4096); [done|lia|lia|done].
Qed.

Definition demo_procedure (body : wstr) : Procedure :=
  mkProcedure (wlit "p") [] body [mkParam (wlit "@a") (wlit "int"); mkParam (wlit "@b") (wlit "int")].

Lemma create_query_whole_witness :
  GenerateCreateQuery (demo_procedure (wlit "SELECT 1;")) =
    Ret (wlit "CREATE PROCEDURE [dbo].[p] " ++ tab ++ wlit "@a int," ++ newline ++ tab ++ wlit "@b int AS BEGIN SELECT 1; END") ∧
  GenerateCreateQuery (demo_procedure (replicate 4096 65)) = Crash InvalidParameter.
Proof.
  split.
  - rewrite (create_query_whole _ (tab ++ wlit "@a int," ++ newline ++ tab ++ wlit "@b int")) by (vm_compute; reflexivity).
    vm_compute. reflexivity.
  - rewrite (create_query_whole _ (tab ++ wlit "@a int," ++ newline ++ tab ++ wlit "@b int")) by (vm_compute; reflexivity).
    vm_compute. reflexivity.
Defined.

End DBModel.
