(* ===== verification/RoomRace.v ===== *)
(** * RoomRace: joins, departures and lost connections of one room at the same time
      (Server/LobbyRespondent.h, [C_JOIN_ROOM]; RoomRepondent.h, [C_ROOM_OUT];
       ClientSession.cpp, [OnDisconnected]; RoomHandler.cpp, [AddUser], [RemoveUser],
       [GetRoom], [RemoveRoom])

    One room from its creation on, under any number of users.  A user has two
    threads: [Job u] runs the respondents of its requests, one after the other, and
    [Disc u] handles the loss of its connection, once and at any time.  One step per
    access to shared state: the atomic [roomState], the room's row and the accounts
    in the database, [RoomHandler::_rooms], which [GetRoom] reads without a lock in
    two accesses, and the sections under the room's lock, which [RemoveUser] holds
    from its first to its last statement.  A session's [_room] is set and reset in
    the same sections as [_users], so [OnDisconnected] finds the room exactly when the
    user is in [_users].  A user asks to join when outside and to leave when told that
    the join succeeded.  [seats] and [counted] are history: who has added itself to
    [roomState] and to the row's [user_count]; so is the [who] of a program counter. *)

From stdpp Require Import functions.
From S2P Require Import Prelude ChatServer.
#[local] Open Scope Z_scope.

Module RoomRace.

Notation Destruction := ChatServer.Destruction.
Notation Empty := ChatServer.Empty.

Inductive tid : Type := Job (u : nat) | Disc (u : nat).

#[global] Instance tid_eq_dec : EqDecision tid.
Proof. solve_decision. Defined.

Definition user (t : tid) : nat := match t with Job u | Disc u => u end.

(** What has become of a join: [AddUser] added the user or refused it, or the
    disconnection has taken the user out again. *)
Inductive who : Type := Added | Refused | Removed.

(** Where a thread is, before the named access. *)
Inductive pc : Type :=
| Out
| JQuery | JFind | JIndex | JLoad | JCas (state : Z) | JAccount | JCount | JSelect | JAdd | JCrashed
| In (w : who)
| LQuery (w : who) | LFind (w : who) | LIndex (w : who) | Failed (w : who)
| LLock (w : who) | LAccount (w : who) | LCount (w : who) | LErase (w : who) | Crashed (w : who)
| LSub | LCas | LDelete | LRemove | LRefresh
| Live | Gone.

#[global] Instance who_eq_dec : EqDecision who.
Proof. solve_decision. Defined.
#[global] Instance pc_eq_dec : EqDecision pc.
Proof. solve_decision. Defined.

(** The entry of the room in [_rooms]; [operator[]] leaves a null one. *)
Inductive entry : Type := Present | Absent | Null.

Record st : Type := mk {
  roomState : Z;
  _users : gset nat;
  owner : option tid;
  row : option Z;
  listed : entry;
  members : gset nat;
  pcs : tid → pc;
  seats : gset nat;
  counted : gset nat
}.

(** The room as [C_CREATE_ROOM] leaves it, with its creator, user 0. *)
Definition init : st :=
  mk 1 {[0%nat]} None (Some 1) Present {[0%nat]}
    (λ t, match t with Job u => if decide (u = 0%nat) then In Added else Out | Disc _ => Live end) {[0%nat]} {[0%nat]}.

(** [DELETE ... WHERE user_count <= 0]; the accounts of a deleted room are set to null. *)
Definition delete_row (r : option Z) : option Z :=
  match r with Some n => if n <=? 0 then None else Some n | None => None end.

(** The respondent of [C_JOIN_ROOM]. *)
Inductive join_step (u : nat) : st → st → Prop :=
| j_start S U O R L A f T C :
    f (Job u) = Out → join_step u (mk S U O R L A f T C) (mk S U O R L A (<[Job u := JQuery]> f) T C)
| j_row S U O n L A f T C :
    f (Job u) = JQuery → join_step u (mk S U O (Some n) L A f T C) (mk S U O (Some n) L A (<[Job u := JFind]> f) T C)
| j_no_row S U O L A f T C :
    f (Job u) = JQuery → join_step u (mk S U O None L A f T C) (mk S U O None L A (<[Job u := Out]> f) T C)
| j_find S U O R L A f T C :
    f (Job u) = JFind → L ≠ Absent → join_step u (mk S U O R L A f T C) (mk S U O R L A (<[Job u := JIndex]> f) T C)
| j_find_none S U O R A f T C :
    f (Job u) = JFind → join_step u (mk S U O R Absent A f T C) (mk S U O R Absent A (<[Job u := Out]> f) T C)
| j_index S U O R A f T C :
    f (Job u) = JIndex → join_step u (mk S U O R Present A f T C) (mk S U O R Present A (<[Job u := JLoad]> f) T C)
| j_index_null S U O R L A f T C :
    f (Job u) = JIndex → L ≠ Present → join_step u (mk S U O R L A f T C) (mk S U O R Null A (<[Job u := Out]> f) T C)
| j_load S U O R L A f T C :
    f (Job u) = JLoad → S ≠ Destruction → join_step u (mk S U O R L A f T C) (mk S U O R L A (<[Job u := JCas S]> f) T C)
| j_load_gone U O R L A f T C :
    f (Job u) = JLoad → join_step u (mk Destruction U O R L A f T C) (mk Destruction U O R L A (<[Job u := Out]> f) T C)
| j_cas S U O R L A f T C :
    f (Job u) = JCas S → join_step u (mk S U O R L A f T C) (mk (S + 1) U O R L A (<[Job u := JAccount]> f) ({[u]} ∪ T) C)
| j_cas_again state S U O R L A f T C :
    f (Job u) = JCas state → S ≠ state → S ≠ Destruction →
    join_step u (mk S U O R L A f T C) (mk S U O R L A (<[Job u := JCas S]> f) T C)
| j_cas_gone state U O R L A f T C :
    f (Job u) = JCas state → Destruction ≠ state →
    join_step u (mk Destruction U O R L A f T C) (mk Destruction U O R L A (<[Job u := Out]> f) T C)
| j_account S U O n L A f T C :
    f (Job u) = JAccount →
    join_step u (mk S U O (Some n) L A f T C) (mk S U O (Some n) L ({[u]} ∪ A) (<[Job u := JCount]> f) T C)
| j_account_fails S U O L A f T C :   (* the foreign key refuses the update *)
    f (Job u) = JAccount → join_step u (mk S U O None L A f T C) (mk S U O None L A (<[Job u := JCrashed]> f) T C)
| j_count S U O R L A f T C :
    f (Job u) = JCount →
    join_step u (mk S U O R L A f T C) (mk S U O (Z.add 1 <$> R) L A (<[Job u := JSelect]> f) T ({[u]} ∪ C))
| j_select S U O R L A f T C :
    f (Job u) = JSelect → join_step u (mk S U O R L A f T C) (mk S U O R L A (<[Job u := JAdd]> f) T C)
| j_add S U R L A f T C :
    f (Job u) = JAdd → U ≠ ∅ →
    join_step u (mk S U None R L A f T C) (mk S ({[u]} ∪ U) None R L A (<[Job u := In Added]> f) T C)
| j_add_empty S U R L A f T C :
    f (Job u) = JAdd → U = ∅ → join_step u (mk S U None R L A f T C) (mk S U None R L A (<[Job u := In Refused]> f) T C).

(** The respondent of [C_ROOM_OUT], up to its call of [RemoveUser]. *)
Inductive leave_step (u : nat) : st → st → Prop :=
| l_start w S U O R L A f T C :
    f (Job u) = In w → leave_step u (mk S U O R L A f T C) (mk S U O R L A (<[Job u := LQuery w]> f) T C)
| l_query w S U O R L A f T C :
    f (Job u) = LQuery w → u ∈ A → leave_step u (mk S U O R L A f T C) (mk S U O R L A (<[Job u := LFind w]> f) T C)
| l_query_null w S U O R L A f T C :   (* the assertion on a null room id *)
    f (Job u) = LQuery w → u ∉ A → leave_step u (mk S U O R L A f T C) (mk S U O R L A (<[Job u := Failed w]> f) T C)
| l_find w S U O R L A f T C :
    f (Job u) = LFind w → L ≠ Absent → leave_step u (mk S U O R L A f T C) (mk S U O R L A (<[Job u := LIndex w]> f) T C)
| l_find_none w S U O R A f T C :      (* a call on a null pointer *)
    f (Job u) = LFind w → leave_step u (mk S U O R Absent A f T C) (mk S U O R Absent A (<[Job u := Failed w]> f) T C)
| l_index w S U O R A f T C :
    f (Job u) = LIndex w → leave_step u (mk S U O R Present A f T C) (mk S U O R Present A (<[Job u := LLock w]> f) T C)
| l_index_null w S U O R L A f T C :
    f (Job u) = LIndex w → L ≠ Present → leave_step u (mk S U O R L A f T C) (mk S U O R Null A (<[Job u := Failed w]> f) T C).

(** [OnDisconnected], up to its call of [RemoveUser]. *)
Inductive disconnect_step (u : nat) : st → st → Prop :=
| d_room S U O R L A f T C :
    f (Disc u) = Live → u ∈ U → disconnect_step u (mk S U O R L A f T C) (mk S U O R L A (<[Disc u := LLock Added]> f) T C)
| d_no_room S U O R L A f T C :
    f (Disc u) = Live → u ∉ U → disconnect_step u (mk S U O R L A f T C) (mk S U O R L A (<[Disc u := Gone]> f) T C).

(** History: the disconnection takes the user out under the request. *)
Definition take_out (p : pc) : pc :=
  match p with
  | In Added => In Removed | LQuery Added => LQuery Removed | LFind Added => LFind Removed | LIndex Added => LIndex Removed
  | LLock Added => LLock Removed | Failed Added => Failed Removed | p => p
  end.

Definition taken_out (t : tid) (f : tid → pc) : tid → pc :=
  match t with Job _ => f | Disc u => <[Job u := take_out (f (Job u))]> f end.

Definition back (t : tid) : pc := match t with Job _ => Out | Disc _ => Gone end.

(** [Room::RemoveUser], and in it [RoomHandler::RemoveRoom]. *)
Inductive remove_step (t : tid) : st → st → Prop :=
| r_lock w S U R L A f T C :
    f t = LLock w → remove_step t (mk S U None R L A f T C) (mk S U (Some t) R L A (<[t := LAccount w]> f) T C)
| r_account w S U O R L A f T C :
    f t = LAccount w → remove_step t (mk S U O R L A f T C) (mk S U O R L (A ∖ {[user t]}) (<[t := LCount w]> f) T C)
| r_count w S U O R L A f T C :
    f t = LCount w →
    remove_step t (mk S U O R L A f T C) (mk S U O (Z.add (-1) <$> R) L A (<[t := LErase w]> f) T (C ∖ {[user t]}))
| r_erase w S U O R L A f T C :
    f t = LErase w → user t ∈ U →
    remove_step t (mk S U O R L A f T C) (mk S (U ∖ {[user t]}) O R L A (<[t := LSub]> (taken_out t f)) T C)
| r_erase_fails w S U O R L A f T C :
    f t = LErase w → user t ∉ U → remove_step t (mk S U O R L A f T C) (mk S U O R L A (<[t := Crashed w]> f) T C)
| r_sub S U O R L A f T C :
    f t = LSub → remove_step t (mk S U O R L A f T C) (mk (S - 1) U O R L A (<[t := LCas]> f) (T ∖ {[user t]}) C)
| r_cas U O R L A f T C :
    f t = LCas → remove_step t (mk Empty U O R L A f T C) (mk Destruction U O R L A (<[t := LDelete]> f) T C)
| r_cas_kept S U O R L A f T C :
    f t = LCas → S ≠ Empty → remove_step t (mk S U O R L A f T C) (mk S U O R L A (<[t := LRefresh]> f) T C)
| r_delete S U O R L A f T C :
    f t = LDelete → remove_step t (mk S U O R L A f T C)
      (mk S U O (delete_row R) L (if delete_row R is None then ∅ else A) (<[t := LRemove]> f) T C)
| r_remove S U O R L A f T C :
    f t = LRemove → L ≠ Absent → remove_step t (mk S U O R L A f T C) (mk S U None R Absent A (<[t := back t]> f) T C)
| r_remove_fails S U O R A f T C :
    f t = LRemove → remove_step t (mk S U O R Absent A f T C) (mk S U O R Absent A (<[t := Crashed Added]> f) T C)
| r_refresh S U O R L A f T C :
    f t = LRefresh → remove_step t (mk S U O R L A f T C) (mk S U None R L A (<[t := back t]> f) T C).

Inductive step (s s' : st) : Prop :=
| s_join u : join_step u s s' → step s s'
| s_leave u : leave_step u s s' → step s s'
| s_disconnect u : disconnect_step u s s' → step s s'
| s_remove t : remove_step t s s' → step s s'.

(** ** What a thread has done *)

Definition who_of (p : pc) : option who :=
  match p with
  | In w | LQuery w | LFind w | LIndex w | Failed w | LLock w | LAccount w | LCount w | LErase w | Crashed w => Some w
  | _ => None
  end.

Definition inside (p : pc) : bool := match who_of p with Some Added | Some Refused => true | _ => false end.

Definition has_seat (p : pc) : bool :=
  match p with JAccount | JCount | JSelect | JAdd | JCrashed | LSub => true | p => inside p end.

Definition is_counted (p : pc) : bool :=
  match p with JSelect | JAdd => true | LErase _ | Crashed _ => false | p => inside p end.

Definition is_member (p : pc) : bool :=
  match p with JCount | JSelect | JAdd => true | LCount _ | LErase _ | Crashed _ => false | p => inside p end.

Definition is_added (p : pc) : bool := match who_of p with Some Added => true | _ => false end.
Definition is_removed (p : pc) : bool := match who_of p with Some Removed => true | _ => false end.

Definition holds_lock (p : pc) : bool :=
  match p with
  | LAccount _ | LCount _ | LErase _ | Crashed _ | LSub | LCas | LDelete | LRemove | LRefresh => true
  | _ => false
  end.

Definition destroys (p : pc) : bool := match p with LDelete | LRemove => true | _ => false end.
Definition removing (p : pc) : bool := match p with LAccount _ | LCount _ | LErase _ | Crashed _ => true | _ => false end.
Definition stopped (p : pc) : bool := match p with Crashed _ | Failed _ | JCrashed => true | _ => false end.

(** The program counters of the two kinds of threads. *)
Definition proper (t : tid) (p : pc) : bool :=
  match t, p with
  | Job _, (Live | Gone) => false
  | Job _, Crashed Added => false
  | Job _, _ => true
  | Disc _, (Live | Gone | LSub | LCas | LDelete | LRemove | LRefresh) => true
  | Disc _, (LLock Added | LAccount Added | LCount Added | LErase Added | Crashed Added) => true
  | Disc _, _ => false
  end.

(** A user with the request at [p] and the disconnection at [q]. *)
Definition seated (p q : pc) : bool := has_seat p || match q with LSub => true | _ => false end.
Definition in_row (p q : pc) : bool := is_counted p && match q with LErase _ => false | _ => true end.
Definition in_table (p q : pc) : bool := is_member p && match q with LCount _ | LErase _ => false | _ => true end.

(** [RemoveUser] runs for a user who is not in the room any more: the other thread
    of that user has taken it out. *)
Definition twice (p q : pc) (U : Prop) : Prop :=
  removing p ∧ is_removed p ∨ removing q ∧ ¬ U.

Definition doomed (s : st) (u : nat) : Prop := twice (pcs s (Job u)) (pcs s (Disc u)) (u ∈ _users s).

(** ** The invariant *)

(** What holds of one user: of its two threads and of its place in [seats],
    [_users], [counted] and [members]. *)
Record uok (p q : pc) (T U C A : Prop) : Prop := {
  u_job : proper (Job 0) p;
  u_disc : proper (Disc 0) q;
  u_seat : T ↔ seated p q;
  u_user : U ↔ is_added p;
  u_row : ¬ twice p q U → (C ↔ in_row p q);
  u_table : ¬ twice p q U → (A ↔ in_table p q);
  u_member : A → T;
  u_removed : is_removed p → ¬ match q with Live => True | _ => False end;
  u_sub : match q with LSub => True | _ => False end → is_removed p;
  u_cas : match p with JCas z => z ≠ Destruction | _ => True end
}.

#[global] Instance uok_proper p q : Proper (iff ==> iff ==> iff ==> iff ==> iff) (uok p q).
Proof.
  intros T T' HT U U' HU C C' HC A A' HA.
  assert (∀ T T' U U' C C' A A' : Prop, (T ↔ T') → (U ↔ U') → (C ↔ C') → (A ↔ A') → uok p q T U C A → uok p q T' U' C' A') as K.
  { clear. intros T T' U U' C C' A A' HT HU HC HA []. unfold twice in *.
    split; unfold twice; try assumption; tauto. }
  split; apply K; naive_solver.
Qed.

(** How far the destruction has got. *)
Definition destroyed (s : st) : Prop :=
  (∃ t, pcs s t = LDelete ∧ row s = Some 0 ∧ listed s = Present) ∨
  (∃ t, pcs s t = LRemove ∧ row s = None ∧ listed s = Present) ∨
  ((∀ t, destroys (pcs s t) = false) ∧ row s = None ∧ listed s ≠ Present).

Definition alive (s : st) : Prop :=
  roomState s = Z.of_nat (size (seats s)) ∧
  (∃ n, row s = Some n ∧ ((∀ u, ¬ doomed s u) → n = Z.of_nat (size (counted s)))) ∧
  listed s = Present ∧ ∀ t, destroys (pcs s t) = false.

Definition ustate (s : st) (u : nat) : Prop :=
  uok (pcs s (Job u)) (pcs s (Disc u)) (u ∈ seats s) (u ∈ _users s) (u ∈ counted s) (u ∈ members s).

Record inv (s : st) : Prop := {
  i_user : ∀ u, ustate s u;
  i_owner : ∀ t, owner s = Some t ↔ holds_lock (pcs s t) = true;
  i_state : (roomState s = Destruction ∧ seats s = ∅ ∧ destroyed s) ∨ alive s;
  i_zero : roomState s = Empty → ∃ t, pcs s t = LCas
}.

Lemma lock_unique s t x : inv s → holds_lock (pcs s t) = true → holds_lock (pcs s x) = true → t = x.
Proof. intros Hi Ht Hx. apply (i_owner _ Hi) in Ht, Hx. congruence. Qed.

Lemma lock_free s t : inv s → owner s = None → holds_lock (pcs s t) = false.
Proof. intros Hi HO. destruct (holds_lock (pcs s t)) eqn:E; [|done]. apply (i_owner _ Hi) in E. congruence. Qed.

Lemma removing_locked p : removing p → holds_lock p = true.
Proof. by destruct p. Qed.

(** Only the holder of the lock can be in the way of another departure. *)
Lemma doomed_locked s u : doomed s u → holds_lock (pcs s (Job u)) = true ∨ holds_lock (pcs s (Disc u)) = true.
Proof. intros [[H _]|[H _]]; apply removing_locked in H; auto. Qed.

Lemma no_doom s : inv s → (∀ t, owner s = Some t → removing (pcs s t) = false) → ∀ u, ¬ doomed s u.
Proof.
  intros Hi HO u [[H _]|[H _]]; pose proof (removing_locked _ H) as Hl; apply (i_owner _ Hi) in Hl; apply HO in Hl; by rewrite Hl in H.
Qed.

Lemma seat_alive s u : inv s → u ∈ seats s → alive s.
Proof. intros Hi Hu. destruct (i_state _ Hi) as [(_ & HT & _)|]; [|done]. rewrite HT in Hu. set_solver. Qed.

Lemma destroyer_gone s t : inv s → destroys (pcs s t) = true → roomState s = Destruction ∧ seats s = ∅ ∧ destroyed s.
Proof. intros Hi Ht. destruct (i_state _ Hi) as [|(_ & _ & _ & HD)]; [done|]. congruence. Qed.

(** Only what concerns user [u] changes. *)
Definition only (u : nat) (s s' : st) : Prop :=
  (∀ t, user t ≠ u → pcs s' t = pcs s t) ∧
  ∀ v, v ≠ u → (v ∈ seats s' ↔ v ∈ seats s) ∧ (v ∈ _users s' ↔ v ∈ _users s) ∧ (v ∈ counted s' ↔ v ∈ counted s) ∧ (v ∈ members s' ↔ v ∈ members s).

Lemma only_doomed u v s s' : only u s s' → v ≠ u → doomed s v → doomed s' v.
Proof.
  intros [Hf Hs] Hv. destruct (Hs v Hv) as (_ & HU & _). unfold doomed, twice.
  rewrite (Hf (Job v)), (Hf (Disc v)) by done. naive_solver.
Qed.

Lemma only_users u s s' : only u s s' → ustate s' u → inv s → ∀ v, ustate s' v.
Proof.
  intros [Hf Hs] Hu Hi v. destruct (decide (v = u)) as [->|Hv]; [done|]. destruct (Hs v Hv) as (E1 & E2 & E3 & E4).
  unfold ustate. rewrite (Hf (Job v)), (Hf (Disc v)), E1, E2, E3, E4 by done. apply (i_user _ Hi v).
Qed.

(** The lock stays, is taken by [t], or is given back by [t]. *)
Lemma own_move s (f : tid → pc) O' t :
  inv s → (∀ x, x ≠ t → holds_lock (f x) = holds_lock (pcs s x)) →
  holds_lock (f t) = holds_lock (pcs s t) ∧ O' = owner s ∨
  holds_lock (f t) = true ∧ owner s = None ∧ O' = Some t ∨
  holds_lock (f t) = false ∧ holds_lock (pcs s t) = true ∧ O' = None →
  ∀ x, O' = Some x ↔ holds_lock (f x) = true.
Proof.
  intros Hi Hf Hc x. destruct (decide (x = t)) as [->|Hx].
  - destruct Hc as [[-> ->]|[(-> & _ & ->)|(-> & _ & ->)]]; [apply (i_owner _ Hi)|done|done].
  - rewrite Hf, <-(i_owner _ Hi) by done. destruct Hc as [[_ ->]|[(_ & -> & ->)|(_ & Ht & ->)]]; [done|naive_solver|].
    apply (i_owner _ Hi) in Ht. rewrite Ht. naive_solver.
Qed.

(** ** Steps that leave the state of the room *)

(** [destroyed] and [alive] do not see a thread that has nothing to do with the
    destruction. *)
Lemma destroyed_move s s' :
  (∀ t, destroys (pcs s t) = true → pcs s' t = pcs s t) → (∀ t, destroys (pcs s' t) = true → pcs s' t = pcs s t) →
  row s' = row s → (listed s' = Present ↔ listed s = Present) → destroyed s → destroyed s'.
Proof.
  intros H1 H2 HR HL [(t & Ht & Hr & Hl)|[(t & Ht & Hr & Hl)|(Hn & Hr & Hl)]].
  - left. exists t. rewrite H1 by (by rewrite Ht). rewrite HR, HL. done.
  - right. left. exists t. rewrite H1 by (by rewrite Ht). rewrite HR, HL. done.
  - right. right. rewrite HR, HL. split; [|done]. intros t. destruct (destroys (pcs s' t)) eqn:E; [|done].
    pose proof (H2 t E) as E'. rewrite E' in E. by rewrite Hn in E.
Qed.

(** A step of a user's thread, [n] more seats and [m] more in the row. *)
Lemma inv_shift u t n m s s' :
  inv s → user t = u → only u s s' → ustate s' u → (∀ x, x ≠ t → destroys (pcs s' x) = destroys (pcs s x)) →
  destroys (pcs s t) = false → destroys (pcs s' t) = false →
  (doomed s u → doomed s' u) → (∀ x, owner s' = Some x ↔ holds_lock (pcs s' x) = true) →
  (∀ x, x ≠ t → destroys (pcs s x) = true → pcs s' x = pcs s x) →
  roomState s' = roomState s + n → Z.of_nat (size (seats s')) = Z.of_nat (size (seats s)) + n →
  row s' = Z.add m <$> row s →
  ((∀ v, ¬ doomed s' v) → Z.of_nat (size (counted s')) = Z.of_nat (size (counted s)) + m) →
  (listed s' = Present ↔ listed s = Present) →
  (roomState s = Destruction → n = 0 ∧ (row s = None ∨ m = 0)) →
  (roomState s' = Empty → ∃ x, pcs s' x = LCas) → inv s'.
Proof.
  intros Hi Ht Ho Hu Hd D1 D2 Hdoom HO Hx HS HT HR HC HL Hgone Hz. split.
  - by eapply only_users.
  - done.
  - destruct (i_state _ Hi) as [(ES & ET & ED)|(ES & (k & ER & EC) & EL & ED)]; [left|right].
    + destruct (Hgone ES) as [-> Hm]. assert (row s' = row s) as HR'.
      { rewrite HR. destruct Hm as [->| ->]; [done|]. by destruct (row s). }
      split_and!; [lia| |].
      * apply leibniz_equiv, size_empty_inv. rewrite ET, size_empty in HT. lia.
      * eapply destroyed_move; [| |done|done|done]; intros x E.
        -- apply Hx; [|done]. intros ->. congruence.
        -- assert (x ≠ t) by (intros ->; congruence). apply Hx; [done|]. by rewrite <-Hd.
    + unfold alive. split_and!; [lia| |by apply HL|].
      * exists (m + k). rewrite HR, ER. split; [done|]. intros Hn. rewrite EC, HC; [lia|done|].
        intros v Hv. apply (Hn v). destruct (decide (v = u)) as [->|Hne]; [by apply Hdoom|by eapply only_doomed].
      * intros x. destruct (decide (x = t)) as [->|]; [done|]. by rewrite Hd.
  - done.
Qed.

(** Reads the program counters after a move. *)
Ltac look := repeat first [rewrite fn_lookup_insert|rewrite fn_lookup_insert_ne by done].

Ltac only_tac :=
  split; simpl; [intros [?|?] ?; simpl in *; repeat (rewrite fn_lookup_insert_ne by congruence); done|intros; set_solver].

(** Cases on a program counter, and what they say of one user. *)
Ltac pc_cases q := destruct q as [| | | | |?| | | | | |[]|[]|[]|[]|[]|[]|[]|[]|[]|[]| | | | | | |].

Ltac uok_cases q :=
  intros [];
  pc_cases q; try match goal with H : Is_true (proper _ _) |- _ => by destruct H end;
  split; unfold seated, in_row, in_table, twice, is_added, is_removed in *; simpl in *; first [done|tauto].

(** The moves of a request, for its user. *)
Lemma uok_seat q z T U C A : uok (JCas z) q T U C A → uok JAccount q True U C A.
Proof. uok_cases q. Qed.
Lemma uok_account q T U C A : uok JAccount q T U C A → uok JCount q T U C True.
Proof. uok_cases q. Qed.
Lemma uok_count q T U C A : uok JCount q T U C A → uok JSelect q T U True A.
Proof. uok_cases q. Qed.
Lemma uok_add q T U C A : removing q = false → uok JAdd q T U C A → uok (In Added) q T True C A.
Proof. intros H. uok_cases q. Qed.

(** A request moves outside the lock. *)
Lemma inv_by_request u p' n m S U O R L A f T C S' U' R' L' A' T' C' :
  inv (mk S U O R L A f T C) → holds_lock (f (Job u)) = false → holds_lock p' = false →
  (∀ v, v ≠ u → (v ∈ T' ↔ v ∈ T) ∧ (v ∈ U' ↔ v ∈ U) ∧ (v ∈ C' ↔ v ∈ C) ∧ (v ∈ A' ↔ v ∈ A)) →
  uok p' (f (Disc u)) (u ∈ T') (u ∈ U') (u ∈ C') (u ∈ A') →
  (removing (f (Disc u)) → u ∈ U' → u ∈ U) →
  S' = S + n → Z.of_nat (size T') = Z.of_nat (size T) + n → R' = Z.add m <$> R →
  ((∀ v, ¬ doomed (mk S' U' O R' L' A' (<[Job u := p']> f) T' C') v) → Z.of_nat (size C') = Z.of_nat (size C) + m) →
  (L' = Present ↔ L = Present) → (S = Destruction → n = 0 ∧ m = 0) → (S' = Empty → S = Empty) →
  inv (mk S' U' O R' L' A' (<[Job u := p']> f) T' C').
Proof.
  intros Hi H1 H2 Hv Hu HU HS HT HR HC HL Hg Hz.
  assert (destroys (f (Job u)) = false ∧ removing (f (Job u)) = false ∧ f (Job u) ≠ LCas) as (D1 & D2 & D3) by (by destruct (f (Job u))).
  assert (destroys p' = false) as D4 by (by destruct p').
  apply (inv_shift u (Job u) n m _ _ Hi); simpl; try done.
  - split; simpl; [|done]. intros [v|v] Hne; simpl in *; by rewrite fn_lookup_insert_ne by congruence.
  - unfold ustate. simpl. look. done.
  - intros x Hx. by look.
  - by look.
  - intros [[E _]|[E Hn]]; simpl in *; [by rewrite D2 in E|]. right. simpl. look. naive_solver.
  - eapply own_move; [exact Hi|intros x Hx; by look|]. left. simpl. look. by rewrite H1, H2.
  - intros x Hx _. by look.
  - naive_solver.
  - intros E. destruct (i_zero _ Hi (Hz E)) as [x Hx]. exists x. simpl in Hx. rewrite fn_lookup_insert_ne; [done|]. intros <-. congruence.
Qed.

(** ... and touches nothing but perhaps a null entry. *)
Lemma inv_job u p' S U O R L L' A f T C :
  inv (mk S U O R L A f T C) → holds_lock (f (Job u)) = false → holds_lock p' = false →
  uok p' (f (Disc u)) (u ∈ T) (u ∈ U) (u ∈ C) (u ∈ A) → (L' = Present ↔ L = Present) →
  inv (mk S U O R L' A (<[Job u := p']> f) T C).
Proof. intros Hi H1 H2 Hu HL. apply (inv_by_request u p' 0 0 S U O R L A f T C); try done; try lia. by destruct R. Qed.

Lemma size_add (X : gset nat) u : u ∉ X → Z.of_nat (size ({[u]} ∪ X)) = Z.of_nat (size X) + 1.
Proof. intros Hu. rewrite size_union, size_singleton by set_solver. lia. Qed.

Lemma size_sub (X : gset nat) u : u ∈ X → Z.of_nat (size (X ∖ {[u]})) = Z.of_nat (size X) - 1.
Proof.
  intros Hu. rewrite size_difference, size_singleton by set_solver.
  assert (size X ≠ 0%nat) by (intros E; apply size_empty_inv in E; set_solver). lia.
Qed.

(** What the invariant says of the user whose request is at [p]. *)
Lemma user_at s u p : inv s → pcs s (Job u) = p →
  uok p (pcs s (Disc u)) (u ∈ seats s) (u ∈ _users s) (u ∈ counted s) (u ∈ members s).
Proof. intros Hi <-. apply (i_user _ Hi u). Qed.

Lemma job_alive s u : inv s → has_seat (pcs s (Job u)) = true → alive s.
Proof. intros Hi Hu. apply (seat_alive _ u Hi), (u_seat _ _ _ _ _ _ (i_user _ Hi u)). unfold seated. by rewrite Hu. Qed.

Lemma alive_state s : alive s → roomState s ≠ Destruction.
Proof. intros (-> & _). unfold ChatServer.Destruction. lia. Qed.

(** Membership after an update of the set. *)
Lemma in_add (X : gset nat) u : u ∈ {[u]} ∪ X ↔ True.
Proof. set_solver. Qed.
Lemma in_sub (X : gset nat) u : u ∈ X ∖ {[u]} ↔ False.
Proof. set_solver. Qed.

Lemma inv_j_cas S U O R L A f T C u :
  inv (mk S U O R L A f T C) → f (Job u) = JCas S → inv (mk (S + 1) U O R L A (<[Job u := JAccount]> f) ({[u]} ∪ T) C).
Proof.
  intros Hi Hu. pose proof (user_at _ u _ Hi Hu) as Ho. simpl in Ho. pose proof (u_cas _ _ _ _ _ _ Ho) as HS. simpl in HS.
  destruct (i_state _ Hi) as [(HD & _)|(HS' & _)]; [done|]. simpl in HS'.
  assert (u ∉ T) as HT.
  { rewrite (u_seat _ _ _ _ _ _ Ho). pose proof (u_sub _ _ _ _ _ _ Ho) as Hs. unfold seated. simpl. by destruct (f (Disc u)). }
  apply (inv_by_request u JAccount 1 0 S U O R L A f T C); try done; try lia.
  - by rewrite Hu.
  - set_solver.
  - rewrite in_add. by eapply uok_seat.
  - by rewrite size_add.
  - by destruct R.
  - unfold ChatServer.Empty. lia.
Qed.

Lemma inv_j_account S U O n L A f T C u :
  inv (mk S U O (Some n) L A f T C) → f (Job u) = JAccount → inv (mk S U O (Some n) L ({[u]} ∪ A) (<[Job u := JCount]> f) T C).
Proof.
  intros Hi Hu. pose proof (user_at _ u _ Hi Hu) as Ho. simpl in Ho.
  apply (inv_by_request u JCount 0 0 S U O (Some n) L A f T C); try done; try lia.
  - by rewrite Hu.
  - set_solver.
  - rewrite in_add. by eapply uok_account.
Qed.

Lemma inv_j_count S U O R L A f T C u :
  inv (mk S U O R L A f T C) → f (Job u) = JCount → inv (mk S U O (Z.add 1 <$> R) L A (<[Job u := JSelect]> f) T ({[u]} ∪ C)).
Proof.
  intros Hi Hu. pose proof (user_at _ u _ Hi Hu) as Ho. simpl in Ho.
  apply (inv_by_request u JSelect 0 1 S U O R L A f T C); try done; try lia.
  - by rewrite Hu.
  - set_solver.
  - rewrite in_add. by eapply uok_count.
  - intros Hn. apply size_add. assert (¬ twice JCount (f (Disc u)) (u ∈ U)) as Hd.
    { intros [[? _]|[E1 E2]]; [done|]. apply (Hn u). right. simpl. look. done. }
    intros HC. by apply (u_row _ _ _ _ _ _ Ho Hd) in HC.
  - assert (alive (mk S U O R L A f T C)) as Ha%alive_state by (apply (job_alive _ u Hi); simpl; by rewrite Hu). done.
Qed.

Lemma inv_j_add S U R L A f T C u :
  inv (mk S U None R L A f T C) → f (Job u) = JAdd → inv (mk S ({[u]} ∪ U) None R L A (<[Job u := In Added]> f) T C).
Proof.
  intros Hi Hu. pose proof (user_at _ u _ Hi Hu) as Ho. simpl in Ho. pose proof (lock_free _ (Disc u) Hi eq_refl) as Hl. simpl in Hl.
  assert (removing (f (Disc u)) = false) as Hr by (by destruct (f (Disc u))).
  apply (inv_by_request u (In Added) 0 0 S U None R L A f T C); try done; try lia.
  - by rewrite Hu.
  - set_solver.
  - rewrite in_add. by eapply uok_add.
  - by rewrite Hr.
  - by destruct R.
Qed.

(** The other steps of requests. *)
Lemma uok_request p p' q T U C A :
  uok p q T U C A → proper (Job 0) p' → has_seat p' = has_seat p → is_added p' = is_added p → is_counted p' = is_counted p →
  is_member p' = is_member p → is_removed p' = is_removed p → removing p = false → removing p' = false →
  match p' with JCas z => z ≠ Destruction | _ => True end → uok p' q T U C A.
Proof.
  intros [] Hp E1 E2 E3 E4 E5 E6 E7 Hz. unfold seated, in_row, in_table, twice in *. rewrite E6 in *.
  split; unfold seated, in_row, in_table, twice; rewrite ?E1, ?E2, ?E3, ?E4, ?E5, ?E7; done.
Qed.

Lemma room_join_inv u s s' : inv s → join_step u s s' → inv s'.
Proof.
  intros Hi Hs. destruct Hs as [S U O R L A f T C Hu|S U O n L A f T C Hu|S U O L A f T C Hu|S U O R L A f T C Hu HL
    |S U O R A f T C Hu|S U O R A f T C Hu|S U O R L A f T C Hu HL|S U O R L A f T C Hu HS|U O R L A f T C Hu|S U O R L A f T C Hu|z S U O R L A f T C Hu Hz HS
    |z U O R L A f T C Hu Hz|S U O n L A f T C Hu|S U O L A f T C Hu|S U O R L A f T C Hu|S U O R L A f T C Hu
    |S U R L A f T C Hu HU|S U R L A f T C Hu HU]; pose proof (user_at _ u _ Hi Hu) as Ho; simpl in Ho.
  all: try (by eapply inv_job; [exact Hi|by rewrite Hu|done|by eapply uok_request|done]).
  - by apply inv_j_cas.
  - by apply inv_j_account.
  - by apply inv_j_count.
  - by apply inv_j_add.
Qed.

Lemma room_leave_inv u s s' : inv s → leave_step u s s' → inv s'.
Proof.
  intros Hi Hs. destruct Hs as [w S U O R L A f T C Hu|w S U O R L A f T C Hu HA|w S U O R L A f T C Hu HA|w S U O R L A f T C Hu HL
    |w S U O R A f T C Hu|w S U O R A f T C Hu|w S U O R L A f T C Hu HL]; pose proof (user_at _ u _ Hi Hu) as Ho; simpl in Ho.
  all: eapply inv_job; [exact Hi|by rewrite Hu|done|by eapply uok_request|naive_solver].
Qed.

(** ** Disconnections and departures *)

(** The user of [t] with [t] at [x] and its other thread at [y]. *)
Definition uokt (t : tid) (x y : pc) : Prop → Prop → Prop → Prop → Prop :=
  match t with Job _ => uok x y | Disc _ => uok y x end.

#[global] Instance uokt_proper t x y : Proper (iff ==> iff ==> iff ==> iff ==> iff) (uokt t x y).
Proof. destruct t; simpl; apply _. Qed.

Definition other (t : tid) : tid := match t with Job u => Disc u | Disc u => Job u end.

Lemma ustate_at s t : ustate s (user t) ↔
  uokt t (pcs s t) (pcs s (other t)) (user t ∈ seats s) (user t ∈ _users s) (user t ∈ counted s) (user t ∈ members s).
Proof. by destruct t. Qed.

Lemma other_ne t : other t ≠ t.
Proof. by destruct t. Qed.

Lemma user_other t x : user x = user t → x = t ∨ x = other t.
Proof. destruct t, x; simpl; intros ->; auto. Qed.

Lemma uokt_lock t w y T U C A : holds_lock y = false → uokt t (LLock w) y T U C A → uokt t (LAccount w) y T U C A.
Proof. intros Hl. destruct t; simpl; destruct w; uok_cases y. Qed.
Lemma uokt_account t w y T U C A : holds_lock y = false → uokt t (LAccount w) y T U C A → uokt t (LCount w) y T U C False.
Proof. intros Hl. destruct t; simpl; destruct w; uok_cases y. Qed.
Lemma uokt_count t w y T U C A : holds_lock y = false → uokt t (LCount w) y T U C A → uokt t (LErase w) y T U False A.
Proof. intros Hl. destruct t; simpl; destruct w; uok_cases y. Qed.
Lemma uokt_fails t w y T U C A : holds_lock y = false → ¬ U → uokt t (LErase w) y T U C A → uokt t (Crashed w) y T U C A.
Proof. intros Hl HU. destruct t; simpl; destruct w; uok_cases y. Qed.
Lemma uokt_sub t y T U C A : holds_lock y = false → uokt t LSub y T U C A → uokt t LCas y False U C A.
Proof. intros Hl. destruct t; simpl; uok_cases y. Qed.
Lemma uokt_erase_job w y T U C A : holds_lock y = false → U → uok (LErase w) y T U C A → uok LSub y T False C A.
Proof. intros Hl HU. destruct w; uok_cases y. Qed.
Lemma uokt_erase_disc w y T U C A : holds_lock y = false → U → uok y (LErase w) T U C A → uok (take_out y) LSub T False C A.
Proof. intros Hl HU. destruct w; uok_cases y. Qed.

(** Who does the removals that have gone wrong keeps at it. *)
Definition goes_on (x y : pc) : Prop := removing y = true ∧ is_removed y = is_removed x.

Lemma inv_remove t p' n m S U O R L A f T C O' A' T' C' :
  inv (mk S U O R L A f T C) → destroys (f t) = false → destroys p' = false →
  (∀ v, v ≠ user t → (v ∈ T' ↔ v ∈ T) ∧ (v ∈ U ↔ v ∈ U) ∧ (v ∈ C' ↔ v ∈ C) ∧ (v ∈ A' ↔ v ∈ A)) →
  uokt t p' (f (other t)) (user t ∈ T') (user t ∈ U) (user t ∈ C') (user t ∈ A') →
  goes_on (f t) p' ∨ removing (f t) = false →
  holds_lock p' = holds_lock (f t) ∧ O' = O ∨ holds_lock p' = true ∧ O = None ∧ O' = Some t ∨
    holds_lock p' = false ∧ holds_lock (f t) = true ∧ O' = None →
  Z.of_nat (size T') = Z.of_nat (size T) + n →
  ((∀ v, ¬ doomed (mk (S + n) U O' (Z.add m <$> R) L A' (<[t := p']> f) T' C') v) → Z.of_nat (size C') = Z.of_nat (size C) + m) →
  (S = Destruction → n = 0 ∧ (R = None ∨ m = 0)) → (S + n = Empty → p' = LCas ∨ f t ≠ LCas ∧ S = Empty) →
  inv (mk (S + n) U O' (Z.add m <$> R) L A' (<[t := p']> f) T' C').
Proof.
  intros Hi D1 D2 Hv Hu Hd HO HT HC Hg Hz.
  apply (inv_shift (user t) t n m _ _ Hi); simpl; try done.
  - split; simpl; [|done]. intros x Hx. rewrite fn_lookup_insert_ne; [done|]. by intros ->.
  - apply ustate_at. simpl. rewrite fn_lookup_insert, fn_lookup_insert_ne by (apply not_eq_sym, other_ne). done.
  - intros x Hx. by look.
  - by look.
  - unfold doomed, twice. destruct Hd as [[G1 G2]|Hd]; destruct t as [u|u]; simpl in *; look; intros [[E1 E2]|[E1 E2]];
      rewrite ?G1, ?G2; rewrite ?Hd in E1; auto; done.
  - eapply own_move; [exact Hi|intros x Hx; by look|]. simpl. look. exact HO.
  - intros x Hx _. by look.
  - intros E. destruct (Hz E) as [->|[Hne ES]]; [exists t; by look|]. destruct (i_zero _ Hi ES) as [x Hx]. exists x. simpl in Hx.
    rewrite fn_lookup_insert_ne; [done|]. by intros <-.
Qed.

Lemma other_unlocked s t : inv s → holds_lock (pcs s t) = true → holds_lock (pcs s (other t)) = false.
Proof.
  intros Hi Ht. destruct (holds_lock (pcs s (other t))) eqn:E; [|done]. destruct (other_ne t). by apply (lock_unique s (other t) t Hi).
Qed.

(** The holder of the lock is past the search in [_users]. *)
Lemma holder_no_doom s t : inv s → holds_lock (pcs s t) = true → removing (pcs s t) = false → ∀ v, ¬ doomed s v.
Proof.
  intros Hi Hl Hr. apply no_doom; [done|]. intros x Hx%(i_owner _ Hi). by rewrite (lock_unique s x t Hi Hx Hl).
Qed.

Lemma thread_at s t x : inv s → pcs s t = x →
  uokt t x (pcs s (other t)) (user t ∈ seats s) (user t ∈ _users s) (user t ∈ counted s) (user t ∈ members s).
Proof. intros Hi <-. apply ustate_at, (i_user _ Hi). Qed.

(** The room is unchanged. *)
Lemma inv_still t p' S U O R L A f T C O' :
  inv (mk S U O R L A f T C) → destroys (f t) = false → destroys p' = false →
  uokt t p' (f (other t)) (user t ∈ T) (user t ∈ U) (user t ∈ C) (user t ∈ A) →
  goes_on (f t) p' ∨ removing (f t) = false →
  holds_lock p' = holds_lock (f t) ∧ O' = O ∨ holds_lock p' = true ∧ O = None ∧ O' = Some t ∨
    holds_lock p' = false ∧ holds_lock (f t) = true ∧ O' = None →
  (S = Empty → f t ≠ LCas) → inv (mk S U O' R L A (<[t := p']> f) T C).
Proof.
  intros Hi D1 D2 Hu Hd HO Hz.
  assert (inv (mk (S + 0) U O' (Z.add 0 <$> R) L A (<[t := p']> f) T C)) as H.
  { eapply inv_remove; try exact Hi; try done; try lia. rewrite Z.add_0_r. naive_solver. }
  rewrite Z.add_0_r in H. by destruct R.
Qed.

Lemma inv_r_count t w S U O R L A f T C :
  inv (mk S U O R L A f T C) → f t = LCount w →
  inv (mk S U O (Z.add (-1) <$> R) L A (<[t := LErase w]> f) T (C ∖ {[user t]})).
Proof.
  intros Hi Ht. pose proof (thread_at _ t _ Hi Ht) as Ho. simpl in Ho.
  assert (holds_lock (f (other t)) = false) as Hl by (apply (other_unlocked _ t Hi); simpl; by rewrite Ht).
  rewrite <-(Z.add_0_r S). eapply inv_remove; try exact Hi; try done; try lia.
  - by rewrite Ht.
  - set_solver.
  - rewrite in_sub. by eapply uokt_count.
  - left. by rewrite Ht.
  - left. by rewrite Ht.
  - intros Hn. rewrite size_sub; [lia|]. specialize (Hn (user t)). revert Hn Ho. unfold doomed, twice. simpl.
    destruct t as [u|u]; simpl in *; look; intros Hn []; unfold in_row, twice in *.
    + apply u_row0; [naive_solver|]. simpl in *. by destruct w, (f (Disc u)); try naive_solver.
    + apply u_row0; [naive_solver|]. destruct w; try done. assert (u ∈ U) as HU%u_user0 by (destruct (decide (u ∈ U)); [done|naive_solver]).
      unfold is_added in HU. simpl. generalize dependent (f (Job u)); intros p; by pc_cases p.
  - intros ->. split; [done|]. left. destruct (i_state _ Hi) as [(_ & HT & HD)|Ha]; [|by apply alive_state in Ha]. simpl in *.
    destruct HD as [(x & Hx & _)|[(x & _ & ? & _)|(_ & ? & _)]]; [|done|done].
    assert (x = t) as -> by (apply (lock_unique _ x t Hi); simpl in *; by rewrite ?Hx, ?Ht). simpl in Hx. congruence.
  - intros E. right. rewrite Z.add_0_r in E. split; [by rewrite Ht|done].
Qed.

Lemma inv_r_sub t S U O R L A f T C :
  inv (mk S U O R L A f T C) → f t = LSub → inv (mk (S - 1) U O R L A (<[t := LCas]> f) (T ∖ {[user t]}) C).
Proof.
  intros Hi Ht. pose proof (thread_at _ t _ Hi Ht) as Ho. simpl in Ho.
  assert (holds_lock (f (other t)) = false) as Hl by (apply (other_unlocked _ t Hi); simpl; by rewrite Ht).
  assert (user t ∈ T) as HT.
  { destruct t as [u|u]; simpl in Ho; apply (u_seat _ _ _ _ _ _ Ho); unfold seated; [done|]. simpl. apply Is_true_true, orb_true_r. }
  pose proof (alive_state _ (seat_alive _ _ Hi HT)) as HS. simpl in HS.
  assert (inv (mk (S + -1) U O (Z.add 0 <$> R) L A (<[t := LCas]> f) (T ∖ {[user t]}) C)) as H.
  { eapply inv_remove; try exact Hi; try done; try lia.
    - by rewrite Ht.
    - set_solver.
    - rewrite in_sub. by eapply uokt_sub.
    - right. by rewrite Ht.
    - left. by rewrite Ht.
    - rewrite size_sub by done. lia.
    - by left. }
  by destruct R.
Qed.

(** The user is found and taken out. *)
Lemma inv_r_erase t w S U O R L A f T C :
  inv (mk S U O R L A f T C) → f t = LErase w → user t ∈ U →
  inv (mk S (U ∖ {[user t]}) O R L A (<[t := LSub]> (taken_out t f)) T C).
Proof.
  intros Hi Ht HU. pose proof (thread_at _ t _ Hi Ht) as Ho. simpl in Ho.
  assert (holds_lock (f (other t)) = false) as Hl by (apply (other_unlocked _ t Hi); simpl; by rewrite Ht).
  assert (∀ x, x ≠ t → x ≠ other t → taken_out t f x = f x) as Hx.
  { intros x H1 H2. destruct t as [u|u]; simpl in *; [done|]. rewrite fn_lookup_insert_ne; [done|]. congruence. }
  assert (∀ p, holds_lock p = false → holds_lock (take_out p) = false ∧ destroys (take_out p) = false) as Htake by (intros p; by pc_cases p).
  assert (holds_lock (taken_out t f (other t)) = false ∧ destroys (taken_out t f (other t)) = false) as [K1 K2].
  { destruct t as [u|u]; simpl in *; [|look; by apply Htake]. split; [done|]. by destruct (f (Disc u)). }
  assert (destroys (f (other t)) = false) as K3 by (by destruct (f (other t))).
  apply (inv_shift (user t) t 0 0 _ _ Hi); simpl; try done; try lia.
  - split; simpl; [|set_solver]. intros x Hne. rewrite fn_lookup_insert_ne by (intros E; apply Hne; by rewrite E).
    apply Hx; intros E; apply Hne; rewrite E; by destruct t.
  - apply ustate_at. simpl. rewrite fn_lookup_insert, fn_lookup_insert_ne by (apply not_eq_sym, other_ne). rewrite in_sub.
    destruct t as [u|u]; simpl in *; [eapply uokt_erase_job; [exact Hl|exact HU|exact Ho]|]. look.
    eapply uokt_erase_disc; [exact Hl|exact HU|exact Ho].
  - intros x Hne. look. destruct (decide (x = other t)) as [->|]; [by rewrite K2, K3|by rewrite Hx].
  - by rewrite Ht.
  - by look.
  - intros [[E1 E2]|[E1 E2]]; [|done]. exfalso. destruct t as [u|u]; simpl in *.
    + rewrite Ht in E2. unfold is_removed in E2. simpl in E2. apply (u_user _ _ _ _ _ _ Ho) in HU. unfold is_added in HU. simpl in HU. by destruct w.
    + apply removing_locked in E1. congruence.
  - eapply own_move; [exact Hi| |left; simpl; look; by rewrite Ht]. intros x Hne. simpl. look.
    destruct (decide (x = other t)) as [->|]; [by rewrite K1, Hl|by rewrite Hx].
  - intros x Hne Hd. look. destruct (decide (x = other t)) as [->|]; [congruence|by apply Hx].
  - by destruct R.
  - intros E. destruct (i_zero _ Hi E) as [x Hx']. simpl in Hx'. exists x. rewrite fn_lookup_insert_ne by (intros <-; congruence).
    rewrite Hx; [done|intros ->; congruence|]. intros ->. by rewrite Hx' in Hl.
Qed.

(** The last user finds the room empty. *)
Lemma no_seats_uncounted s v : inv s → (∀ v, ¬ doomed s v) → seats s = ∅ → v ∉ counted s ∧ v ∉ members s.
Proof.
  intros Hi Hd HT. pose proof (i_user _ Hi v) as Hv. unfold ustate in Hv. rewrite HT in Hv.
  assert (seated (pcs s (Job v)) (pcs s (Disc v)) = false) as Hs.
  { destruct (seated _ _) eqn:E; [|done]. apply Is_true_true, (u_seat _ _ _ _ _ _ Hv) in E. set_solver. }
  split; [|intros HA; apply (u_member _ _ _ _ _ _ Hv) in HA; set_solver].
  rewrite (u_row _ _ _ _ _ _ Hv (Hd v)). unfold seated, in_row in *. intros HC. revert Hs HC.
  generalize (pcs s (Job v)); intros p; by pc_cases p.
Qed.

Lemma users_moved t p' S U O R L A f T C S' O' R' L' A' :
  inv (mk S U O R L A f T C) → uokt t p' (f (other t)) (user t ∈ T) (user t ∈ U) (user t ∈ C) (user t ∈ A') →
  (∀ v, v ≠ user t → (v ∈ A' ↔ v ∈ A)) → ∀ v, ustate (mk S' U O' R' L' A' (<[t := p']> f) T C) v.
Proof.
  intros Hi Hu HA. eapply (only_users (user t)); [| |exact Hi].
  - split; simpl; [|naive_solver]. intros x Hx. rewrite fn_lookup_insert_ne; [done|]. by intros ->.
  - apply ustate_at. simpl. by rewrite fn_lookup_insert, fn_lookup_insert_ne by (apply not_eq_sym, other_ne).
Qed.

(** The holder of the lock moves between the stages of the destruction. *)
Lemma uokt_end t x p' y T U C A : holds_lock y = false →
  match x, p' with LCas, (LDelete | LRefresh) | LDelete, LRemove => True | (LRemove | LRefresh), q => q = back t | _, _ => False end →
  uokt t x y T U C A → uokt t p' y T U C A.
Proof. intros Hl. destruct t; simpl; destruct x; try done; destruct p'; try done; intros _; uok_cases y. Qed.

Lemma inv_r_cas t U O R L A f T C :
  inv (mk Empty U O R L A f T C) → f t = LCas → inv (mk Destruction U O R L A (<[t := LDelete]> f) T C).
Proof.
  intros Hi Ht. pose proof (thread_at _ t _ Hi Ht) as Ho. simpl in Ho.
  assert (holds_lock (f (other t)) = false) as Hl by (apply (other_unlocked _ t Hi); simpl; by rewrite Ht).
  assert (∀ v, ¬ doomed (mk Empty U O R L A f T C) v) as Hn by (apply (holder_no_doom _ t Hi); simpl; by rewrite Ht).
  destruct (i_state _ Hi) as [(HS & _)|(HS & (n & HR & HC) & HL & HD)]; [done|]. simpl in *.
  assert (T = ∅) as HT by (apply leibniz_equiv, size_empty_inv; unfold ChatServer.Empty in HS; lia).
  assert (C = ∅) as HC0.
  { apply leibniz_equiv, elem_of_equiv_empty. intros v. by apply (no_seats_uncounted _ v Hi Hn). }
  split; simpl.
  - eapply users_moved; [exact Hi| |done]. by eapply (uokt_end t LCas).
  - eapply own_move; [exact Hi|intros x Hx; simpl; by look|left; simpl; look; by rewrite Ht].
  - left. split_and!; [done|done|]. left. exists t. simpl. look. rewrite HR, (HC Hn), HC0. done.
  - done.
Qed.

Lemma inv_r_delete t S U O R L A f T C :
  inv (mk S U O R L A f T C) → f t = LDelete →
  inv (mk S U O (delete_row R) L (if delete_row R is None then ∅ else A) (<[t := LRemove]> f) T C).
Proof.
  intros Hi Ht. pose proof (thread_at _ t _ Hi Ht) as Ho. simpl in Ho.
  assert (holds_lock (f (other t)) = false) as Hl by (apply (other_unlocked _ t Hi); simpl; by rewrite Ht).
  assert (∀ v, ¬ doomed (mk S U O R L A f T C) v) as Hn by (apply (holder_no_doom _ t Hi); simpl; by rewrite Ht).
  destruct (destroyer_gone _ t Hi) as (HS & HT & HD); [simpl; by rewrite Ht|]. simpl in HS, HT.
  assert (R = Some 0 ∧ L = Present) as [-> ->].
  { destruct HD as [(x & Hx & HR & HL)|[(x & Hx & _)|(Hn' & _)]]; simpl in *; [done| |by specialize (Hn' t); rewrite Ht in Hn'].
    assert (t = x) as -> by (apply (lock_unique _ t x Hi); simpl; by rewrite ?Ht, ?Hx). congruence. }
  assert (A = ∅) as ->.
  { apply leibniz_equiv, elem_of_equiv_empty. intros v. by apply (no_seats_uncounted _ v Hi Hn). }
  split; simpl.
  - eapply users_moved; [exact Hi| |done]. by eapply (uokt_end t LDelete).
  - eapply own_move; [exact Hi|intros x Hx; simpl; by look|left; simpl; look; by rewrite Ht].
  - left. split_and!; [done|done|]. right. left. exists t. simpl. by look.
  - by rewrite HS.
Qed.

Lemma inv_r_remove t S U O R L A f T C :
  inv (mk S U O R L A f T C) → f t = LRemove → inv (mk S U None R Absent A (<[t := back t]> f) T C).
Proof.
  intros Hi Ht. pose proof (thread_at _ t _ Hi Ht) as Ho. simpl in Ho.
  assert (holds_lock (f (other t)) = false) as Hl by (apply (other_unlocked _ t Hi); simpl; by rewrite Ht).
  assert (∀ x, holds_lock (f x) = true → x = t) as Hlk by (intros x Hx; apply (lock_unique _ x t Hi); simpl; by rewrite ?Ht).
  destruct (destroyer_gone _ t Hi) as (HS & HT & HD); [simpl; by rewrite Ht|]. simpl in HS, HT.
  assert (R = None) as ->.
  { destruct HD as [(x & Hx & _)|[(x & _ & ? & _)|(_ & ? & _)]]; simpl in *; [|done|done].
    rewrite (Hlk x) in Hx by (by rewrite Hx). congruence. }
  assert (destroys (back t) = false) as Hb by (by destruct t).
  split; simpl.
  - eapply users_moved; [exact Hi| |done]. by eapply (uokt_end t LRemove).
  - eapply own_move; [exact Hi|intros x Hx; simpl; by look|]. right. right. simpl. look. rewrite Ht. by destruct t.
  - left. split_and!; [done|done|]. right. right. simpl. split; [|done].
    intros x. destruct (decide (x = t)) as [->|Hx]; look; [done|]. destruct (destroys (f x)) eqn:E; [|done]. destruct Hx. apply Hlk. by destruct (f x).
  - by rewrite HS.
Qed.

Lemma room_remove_inv t s s' : inv s → remove_step t s s' → inv s'.
Proof.
  intros Hi Hs. destruct Hs as [w S U R L A f T C Ht|w S U O R L A f T C Ht|w S U O R L A f T C Ht|w S U O R L A f T C Ht HU
    |w S U O R L A f T C Ht HU|S U O R L A f T C Ht|U O R L A f T C Ht|S U O R L A f T C Ht HS|S U O R L A f T C Ht|S U O R L A f T C Ht HL
    |S U O R A f T C Ht|S U O R L A f T C Ht]; pose proof (thread_at _ t _ Hi Ht) as Ho; simpl in Ho.
  - assert (holds_lock (f (other t)) = false) as Hl by (by apply (lock_free _ (other t) Hi)).
    eapply inv_still; [exact Hi|by rewrite Ht|done|by apply uokt_lock|right; by rewrite Ht|by right; left|by rewrite Ht].
  - assert (holds_lock (f (other t)) = false) as Hl by (apply (other_unlocked _ t Hi); simpl; by rewrite Ht).
    assert (inv (mk (S + 0) U O (Z.add 0 <$> R) L (A ∖ {[user t]}) (<[t := LCount w]> f) T C)) as H.
    { eapply inv_remove; try exact Hi; try done; try lia.
      - by rewrite Ht.
      - set_solver.
      - rewrite in_sub. by eapply uokt_account.
      - left. by rewrite Ht.
      - left. by rewrite Ht.
      - rewrite Z.add_0_r, Ht. by right. }
    rewrite Z.add_0_r in H. by destruct R.
  - by apply inv_r_count.
  - by eapply inv_r_erase.
  - assert (holds_lock (f (other t)) = false) as Hl by (apply (other_unlocked _ t Hi); simpl; by rewrite Ht).
    eapply inv_still; [exact Hi|by rewrite Ht|done|by apply uokt_fails|left; by rewrite Ht|left; by rewrite Ht|by rewrite Ht].
  - by apply inv_r_sub.
  - by apply inv_r_cas.
  - assert (holds_lock (f (other t)) = false) as Hl by (apply (other_unlocked _ t Hi); simpl; by rewrite Ht).
    eapply inv_still; [exact Hi|by rewrite Ht|done|by eapply (uokt_end t LCas)|right; by rewrite Ht|left; by rewrite Ht|done].
  - by apply inv_r_delete.
  - by eapply inv_r_remove.
  - exfalso. destruct (destroyer_gone _ t Hi) as (_ & _ & HD); [simpl; by rewrite Ht|].
    destruct HD as [(x & _ & _ & ?)|[(x & _ & _ & ?)|(Hn & _)]]; simpl in *; [done|done|]. specialize (Hn t). by rewrite Ht in Hn.
  - assert (holds_lock (f (other t)) = false) as Hl by (apply (other_unlocked _ t Hi); simpl; by rewrite Ht).
    eapply inv_still; [exact Hi|by rewrite Ht|by destruct t|by eapply (uokt_end t LRefresh)|right; by rewrite Ht| |by rewrite Ht].
    right. right. rewrite Ht. by destruct t.
Qed.

Lemma uok_lost p q' T U C A : uok p Live T U C A → match q' with LLock Added | Gone => True | _ => False end → uok p q' T U C A.
Proof. pc_cases q'; try done; intros [] _; split; unfold seated, in_row, in_table, twice in *; simpl in *; tauto. Qed.

Lemma room_disconnect_inv u s s' : inv s → disconnect_step u s s' → inv s'.
Proof.
  intros Hi Hs. destruct Hs as [S U O R L A f T C Hu HU|S U O R L A f T C Hu HU]; pose proof (thread_at _ (Disc u) _ Hi Hu) as Ho; simpl in Ho.
  all: eapply (inv_still (Disc u)); [exact Hi|by rewrite Hu|done|by eapply uok_lost|right; by rewrite Hu|left; by rewrite Hu|by rewrite Hu].
Qed.

Lemma room_step_inv s s' : inv s → step s s' → inv s'.
Proof.
  intros Hi [u Hs|u Hs|u Hs|t Hs];
    [by eapply room_join_inv|by eapply room_leave_inv|by eapply room_disconnect_inv|by eapply room_remove_inv].
Qed.

Lemma room_init_inv : inv init.
Proof.
  split; simpl.
  - intros u. unfold ustate. simpl. case_decide as Hu; [subst u|]; split; unfold seated, in_row, in_table, twice; simpl; set_solver.
  - intros [u|u]; simpl; [|done]. by case_decide.
  - right. split_and!; [done| |done|intros [u|u]; simpl; [by case_decide|done]]. exists 1. split; [done|]. done.
  - done.
Qed.

Lemma room_reachable s : rtc step init s → inv s.
Proof. intros Hr. eapply (rtc_invariant step inv); [|exact Hr|apply room_init_inv]. intros x y Hs Hi. by eapply room_step_inv. Qed.

(** Nobody is in a room that is being destroyed. *)
Lemma gone_empty s :
  inv s → roomState s = Destruction → _users s = ∅ ∧ members s = ∅ ∧ ∀ u, seated (pcs s (Job u)) (pcs s (Disc u)) = false.
Proof.
  intros Hi HS. destruct (i_state _ Hi) as [(_ & HT & _)|Ha]; [|by apply alive_state in Ha].
  assert (∀ u, seated (pcs s (Job u)) (pcs s (Disc u)) = false) as Hno.
  { intros u. destruct (seated _ _) eqn:E; [|done]. apply Is_true_true, (u_seat _ _ _ _ _ _ (i_user _ Hi u)) in E. rewrite HT in E. set_solver. }
  split_and!; [| |done]; apply leibniz_equiv, elem_of_equiv_empty; intros u Hu; specialize (Hno u); unfold seated in Hno.
  - apply (u_user _ _ _ _ _ _ (i_user _ Hi u)) in Hu. unfold is_added in Hu. destruct (pcs s (Job u)) as [| | | | |?| | | | | |[]|[]|[]|[]|[]|[]|[]|[]|[]|[]| | | | | | |]; done.
  - apply (u_member _ _ _ _ _ _ (i_user _ Hi u)) in Hu. rewrite HT in Hu. set_solver.
Qed.

(** Nobody is inside and no thread is at work. *)
Definition deserted (s : st) : Prop := ∀ u, pcs s (Job u) = Out ∧ (pcs s (Disc u) = Live ∨ pcs s (Disc u) = Gone).

Lemma deserted_gone s : inv s → deserted s → roomState s = Destruction ∧ row s = None ∧ listed s ≠ Present.
Proof.
  intros Hi Ho.
  assert (∀ t, pcs s t = Out ∨ pcs s t = Live ∨ pcs s t = Gone) as Ht by (intros [u|u]; destruct (Ho u) as [? ?]; auto).
  destruct (i_state _ Hi) as [(HS & _ & HD)|(HS & _)].
  - destruct HD as [(t & E & _)|[(t & E & _)|(_ & ? & ?)]]; [destruct (Ht t) as [?|[?|?]]; congruence..|done].
  - assert (seats s = ∅) as HT.
    { apply leibniz_equiv, elem_of_equiv_empty. intros u Hu. apply (u_seat _ _ _ _ _ _ (i_user _ Hi u)) in Hu.
      destruct (Ho u) as [E1 E2]. rewrite E1 in Hu. unfold seated in Hu. simpl in Hu. by destruct E2 as [E2|E2]; rewrite E2 in Hu. }
    rewrite HT in HS. destruct (i_zero _ Hi HS) as [t E]. destruct (Ht t) as [?|[?|?]]; congruence.
Qed.

(** The thread that has moved. *)
Lemma stopped_by (f : tid → pc) (t x : tid) (p : pc) : stopped ((<[x := p]> f) t) = true → stopped (f t) = true ∨ t = x.
Proof. destruct (decide (t = x)) as [->|]; [by right|]. look. by left. Qed.

(** The thread of a user in the room whose connection holds does not stop. *)
Lemma live_inside s u w : inv s → pcs s (Disc u) = Live → who_of (pcs s (Job u)) = Some w → w ≠ Removed ∧ alive s.
Proof.
  intros Hi Hd Hw. pose proof (u_removed _ _ _ _ _ _ (i_user _ Hi u)) as Hr. rewrite Hd in Hr.
  assert (w ≠ Removed) as Hne.
  { intros ->. apply Hr; [|done]. unfold is_removed. by rewrite Hw. }
  split; [done|]. apply (job_alive _ u Hi). unfold has_seat, inside.
  destruct (pcs s (Job u)) as [| | | | |?| | | | | |[]|[]|[]|[]|[]|[]|[]|[]|[]|[]| | | | | | |]; simpl in *; congruence.
Qed.

Lemma stop_reason s s' t :
  inv s → step s s' → stopped (pcs s' t) = true →
  stopped (pcs s t) = true ∨ pcs s t = LErase Refused ∨ pcs s (Disc (user t)) ≠ Live.
Proof.
  intros Hi Hs Hc. destruct (decide (pcs s (Disc (user t)) = Live)) as [Hlive|]; [|by auto].
  destruct Hs as [u Hs|u Hs|u Hs|x Hs]; destruct Hs; simpl in *; try (destruct (stopped_by _ _ _ _ Hc) as [Hc'| ->]; [by left|]); simpl in *.
  all: try (by rewrite fn_lookup_insert in Hc).
  - exfalso. assert (alive (mk S U O None L A f T C)) as (_ & (? & ? & _) & _); [|done]. apply (job_alive _ u Hi). simpl. by rewrite H.
  - exfalso. destruct (live_inside _ u w Hi Hlive) as [Hne _]; [simpl; by rewrite H|]. pose proof (user_at _ u _ Hi H) as Ho. simpl in Ho.
    rewrite Hlive in Ho. apply H0, (u_table _ _ _ _ _ _ Ho); [by intros [[? _]|[? _]]|]. by destruct w.
  - exfalso. destruct (live_inside _ u w Hi Hlive) as [_ (_ & _ & ? & _)]; [simpl; by rewrite H|done].
  - exfalso. destruct (live_inside _ u w Hi Hlive) as [_ (_ & _ & ? & _)]; [simpl; by rewrite H|done].
  - destruct (decide (t = x)) as [->|Hne].
    + by rewrite fn_lookup_insert in Hc.
    + rewrite fn_lookup_insert_ne in Hc by done. left. destruct x as [u|u]; simpl in Hc; [done|].
      destruct (decide (t = Job u)) as [->|]; [rewrite fn_lookup_insert in Hc|by rewrite fn_lookup_insert_ne in Hc].
      by destruct (f (Job u)) as [| | | | |?| | | | | |[]|[]|[]|[]|[]|[]|[]|[]|[]|[]| | | | | | |].
  - destruct x as [u|u]; simpl in *; [|congruence]. destruct (live_inside _ u w Hi Hlive) as [Hne _]; [simpl; by rewrite H|].
    destruct w; [|by right; left|done]. exfalso. pose proof (user_at _ u _ Hi H) as Ho. simpl in Ho. by apply H0, (u_user _ _ _ _ _ _ Ho).
  - by destruct x; rewrite fn_lookup_insert in Hc.
  - exfalso. destruct (destroyer_gone _ x Hi) as (_ & _ & HD); [simpl; by rewrite H|].
    destruct HD as [(v & _ & _ & ?)|[(v & _ & _ & ?)|(Hn & _)]]; simpl in *; [done|done|]. specialize (Hn x). by rewrite H in Hn.
  - by destruct x; rewrite fn_lookup_insert in Hc.
Qed.

(** ** The protocol *)

(** C17: A room is destroyed safely.  However joins, requests to leave and lost
    connections interleave: while the room is not being destroyed, [roomState] is
    the number of users who have claimed a seat and not given it back, the row is
    in the database and [RoomHandler] has the room, and the row counts the users in
    it unless [RemoveUser] is running a second time for one user; once it is being
    destroyed nobody has a seat, is in [_users] or has an account in it; and when no
    thread is at work and nobody is in it, the room is gone from the database and from
    [RoomHandler].  A thread stops on an assertion or a null room only for a user
    whom [AddUser] had refused or whose connection was lost while its request ran.
    Users ask to join when they are outside. *)
Theorem room_destroyed_safely s :
  rtc step init s →
  (roomState s ≠ Destruction →
     roomState s = Z.of_nat (size (seats s)) ∧ is_Some (row s) ∧ listed s = Present ∧
     ((∀ u, ¬ doomed s u) → row s = Some (Z.of_nat (size (counted s))))) ∧
  (roomState s = Destruction → _users s = ∅ ∧ members s = ∅ ∧ ∀ u, seated (pcs s (Job u)) (pcs s (Disc u)) = false) ∧
  (deserted s → roomState s = Destruction ∧ row s = None ∧ listed s ≠ Present) ∧
  (∀ s' t, step s s' → stopped (pcs s' t) = true →
     stopped (pcs s t) = true ∨ pcs s t = LErase Refused ∨ pcs s (Disc (user t)) ≠ Live).
Proof.
  intros Hr. pose proof (room_reachable s Hr) as Hi. split_and!.
  - intros HS. destruct (i_state _ Hi) as [[? _]|(? & (n & E & Hn) & ? & _)]; [done|]. split_and!; [done|by exists n|done|].
    intros Hd. by rewrite E, Hn.
  - intros HS. by apply gone_empty.
  - intros Ho. by apply deserted_gone.
  - intros s' t Hs Hc. by eapply stop_reason.
Qed.

(** ** The races *)

(** Nobody enters a room whose [_users] is empty. *)
Lemma empty_stays s s' : rtc step s s' → _users s = ∅ → _users s' = ∅.
Proof.
  intros Hr. apply (rtc_invariant step (λ s, _users s = ∅)); [|done].
  intros x y Hs Hx. destruct Hs as [u Hs|u Hs|u Hs|t Hs]; destruct Hs; simpl in *; try done. set_solver.
Qed.

Ltac run_step r :=
  eapply rtc_l; [first [eapply s_join; eapply r|eapply s_leave; eapply r|eapply s_disconnect; eapply r|eapply s_remove; eapply r];
    first [reflexivity|apply fn_lookup_insert|eassumption|done|set_solver]|].

Ltac run_removal t := run_step (r_lock t); run_step (r_account t); run_step (r_count t).

(** User 1 claims a seat while user 0, the only user, leaves. *)
Lemma race_run : ∃ s, rtc step init s ∧ pcs s (Job 1) = In Refused ∧ pcs s (Job 0) = Out ∧ _users s = ∅ ∧
  owner s = None ∧ roomState s = 1 ∧ row s = Some 1 ∧ listed s = Present ∧ 1%nat ∈ members s.
Proof.
  eexists. split.
  { run_step (j_start 1%nat). run_step (j_row 1%nat). run_step (j_find 1%nat). run_step (j_index 1%nat). run_step (j_load 1%nat).
    run_step (j_cas 1%nat). run_step (l_start 0%nat). run_step (l_query 0%nat). run_step (l_find 0%nat). run_step (l_index 0%nat).
    run_removal (Job 0). run_step (r_erase (Job 0)).
    run_step (r_sub (Job 0)). run_step (r_cas_kept (Job 0)).
    run_step (r_refresh (Job 0)). run_step (j_account 1%nat). run_step (j_count 1%nat). run_step (j_select 1%nat). run_step (j_add_empty 1%nat).
    apply rtc_refl. }
  split_and!; try reflexivity; simpl; set_solver.
Qed.

(** Such a user's departure. *)
Lemma ghost_leaves s u :
  pcs s (Job u) = In Refused → owner s = None → listed s = Present → u ∉ _users s → u ∈ members s →
  ∃ s', rtc step s s' ∧ pcs s' (Job u) = Crashed Refused.
Proof.
  destruct s as [S U O R L A f T C]. simpl. intros Hu -> -> Hn HA. eexists. split.
  { run_step (l_start u). run_step (l_query u). run_step (l_find u). run_step (l_index u).
    run_removal (Job u). run_step (r_erase_fails (Job u)). apply rtc_refl. }
  apply fn_lookup_insert.
Qed.

(** C38: A join can overtake the last departure.  A user who claims a seat
    while the last user is leaving keeps the room from being destroyed, but
    [AddUser] refuses it because [_users] is already empty, and the respondent
    ignores that: the user is told that the join succeeded, its account and the row
    count it, and it is not in the room.  From then on nobody can be added to the
    room any more, and the user's own departure stops the server. *)
Theorem join_race_strands_user :
  ∃ s u, rtc step init s ∧ pcs s (Job u) = In Refused ∧ u ∈ members s ∧ u ∉ _users s ∧ roomState s = 1 ∧ row s = Some 1 ∧
    (∀ s', rtc step s s' → _users s' = ∅) ∧ ∃ s', rtc step s s' ∧ pcs s' (Job u) = Crashed Refused.
Proof.
  destruct race_run as (s & Hr & Hu & _ & HU & HO & HS & HR & HL & HA). exists s, 1%nat.
  assert (1%nat ∉ _users s) by (rewrite HU; set_solver).
  split_and!; try done; [|by apply ghost_leaves]. intros s' Hs'. by apply (empty_stays s).
Qed.

(** A user who asks to leave and loses the connection at the same time is removed
    twice: the second removal fails its assertion, and the row counts one user less
    than there are. *)
Theorem lost_connection_stops_leaver :
  ∃ s, rtc step init s ∧ pcs s (Job 0) = Crashed Removed ∧ doomed s 0 ∧ row s = Some 0 ∧ roomState s = 1 ∧ counted s = {[1%nat]}.
Proof.
  eexists. split.
  { run_step (j_start 1%nat). run_step (j_row 1%nat). run_step (j_find 1%nat). run_step (j_index 1%nat). run_step (j_load 1%nat).
    run_step (j_cas 1%nat). run_step (j_account 1%nat). run_step (j_count 1%nat). run_step (j_select 1%nat). run_step (j_add 1%nat).
    run_step (l_start 0%nat). run_step (l_query 0%nat). run_step (l_find 0%nat). run_step (l_index 0%nat). run_step (d_room 0%nat).
    run_removal (Disc 0). run_step (r_erase (Disc 0)). run_step (r_sub (Disc 0)). run_step (r_cas_kept (Disc 0)). run_step (r_refresh (Disc 0)).
    run_removal (Job 0). run_step (r_erase_fails (Job 0)). apply rtc_refl. }
  split_and!; try reflexivity. by left.
Qed.

(** The creator loses the connection when alone. *)
Lemma last_leaves : ∃ s, rtc step init s ∧ pcs s (Disc 0) = LDelete ∧ roomState s = Destruction.
Proof.
  eexists. split.
  { run_step (d_room 0%nat). run_removal (Disc 0). run_step (r_erase (Disc 0)). run_step (r_sub (Disc 0)). run_step (r_cas (Disc 0)). apply rtc_refl. }
  done.
Qed.

Lemma room_destroyed_safely_witness :
  ∃ s, rtc step init s ∧ pcs s (Disc 0) = LDelete ∧ _users s = ∅ ∧ members s = ∅ ∧ seated (pcs s (Job 1)) (pcs s (Disc 1)) = false.
Proof.
  destruct last_leaves as (s & Hr & Hp & HS). destruct (room_destroyed_safely s Hr) as (_ & Hd & _).
  destruct (Hd HS) as (HU & HA & Hs). exists s. split_and!; done.
Defined.

End RoomRace.
