(* ===== verification/LoginRace.v ===== *)
(** * LoginRace: logins, registrations and disconnections at the same time
      (Server/AuthRespondent.h, ClientSession.cpp [OnDisconnected])

    The accounts under any number of sessions.  A session's requests are handled
    one after the other, by the thread that received them; its disconnection is
    handled by another thread at any time, once.  One step per access to shared
    state: a statement on the account table, the session's [_id], and the static
    lock of [PacketRespondent<C_LOGIN>], which is held from the [SELECT] to
    [SetId].  Registrations and disconnections do not take that lock.  [owner] is
    the session whose job holds it (its exclusion is the theorem of [Lock]).  The
    sessions are in no room.  Ids and passwords are comparison keys, since the
    statements compare them under the collation; [[]] is the key of the empty
    string, the [_id] of a session that has not logged in. *)

From stdpp Require Import functions.
From S2P Require Import Prelude.
#[local] Open Scope Z_scope.

Module LoginRace.

(** A row of [chat.account]; the map's key is the id. *)
Record account : Type := mkAccount { password : list Z; is_online : bool }.

Notation id_t := (list Z).

(** Where the job of a session is, before the named access. *)
Inductive pc : Type :=
| Idle
| LLock (id pssd : id_t) | LSelect (id pssd : id_t) | LUpdate (id : id_t) | LSetId (id : id_t) | LUnlock (canLogin : bool)
| LSend (canLogin : bool)
| RInsert (id pssd : id_t) | RSend (isSuccess : bool).

(** Where the disconnection of a session is. *)
Inductive dpc : Type := Live | DUpdate (id : id_t) | Gone.

Record st : Type := mk {
  accounts : gmap id_t account;
  owner : option nat;
  _id : nat → id_t;
  pcs : nat → pc;
  dpcs : nat → dpc;
  replies : list (nat * bool)   (* the answers to logins *)
}.

Definition init : st := mk ∅ None (λ _, []) (λ _, Idle) (λ _, Live) [].

Definition set_online (b : bool) (a : account) : account := mkAccount (password a) b.

(** [SELECT id ... WHERE id = ? And password = ? And is_online = ?] with false. *)
Definition select (A : gmap id_t account) (id pssd : id_t) : bool :=
  match A !! id with Some a => bool_decide (password a = pssd ∧ is_online a = false) | None => false end.

(** The respondent of [C_LOGIN]. *)
Inductive login_step (s : nat) : st → st → Prop :=
| l_start id pssd A O I f g r :
    f s = Idle → login_step s (mk A O I f g r) (mk A O I (<[s := LLock id pssd]> f) g r)
| l_lock id pssd A I f g r :
    f s = LLock id pssd → login_step s (mk A None I f g r) (mk A (Some s) I (<[s := LSelect id pssd]> f) g r)
| l_select id pssd A O I f g r :
    f s = LSelect id pssd →
    login_step s (mk A O I f g r) (mk A O I (<[s := if select A id pssd then LUpdate id else LUnlock false]> f) g r)
| l_update id A O I f g r :
    f s = LUpdate id → login_step s (mk A O I f g r) (mk (alter (set_online true) id A) O I (<[s := LSetId id]> f) g r)
| l_setid id A O I f g r :
    f s = LSetId id → login_step s (mk A O I f g r) (mk A O (<[s := id]> I) (<[s := LUnlock true]> f) g r)
| l_unlock b A O I f g r :
    f s = LUnlock b → login_step s (mk A O I f g r) (mk A None I (<[s := LSend b]> f) g r)
| l_send b A O I f g r :
    f s = LSend b → login_step s (mk A O I f g r) (mk A O I (<[s := Idle]> f) g (r ++ [(s, b)])).

(** The respondent of [C_REGISTER]: the primary key refuses a second row. *)
Inductive register_step (s : nat) : st → st → Prop :=
| r_start id pssd A O I f g r :
    f s = Idle → register_step s (mk A O I f g r) (mk A O I (<[s := RInsert id pssd]> f) g r)
| r_insert id pssd A O I f g r :
    f s = RInsert id pssd → A !! id = None →
    register_step s (mk A O I f g r) (mk (<[id := mkAccount pssd false]> A) O I (<[s := RSend true]> f) g r)
| r_duplicate id pssd a A O I f g r :
    f s = RInsert id pssd → A !! id = Some a →
    register_step s (mk A O I f g r) (mk A O I (<[s := RSend false]> f) g r)
| r_send b A O I f g r :
    f s = RSend b → register_step s (mk A O I f g r) (mk A O I (<[s := Idle]> f) g r).

(** [OnDisconnected]: it reads [_id] and sets that account offline. *)
Inductive disconnect_step (s : nat) : st → st → Prop :=
| d_start A O I f g r :
    g s = Live → disconnect_step s (mk A O I f g r) (mk A O I f (<[s := DUpdate (I s)]> g) r)
| d_update id A O I f g r :
    g s = DUpdate id →
    disconnect_step s (mk A O I f g r)
      (mk (alter (set_online false) id A) O I f (<[s := Gone]> g) r).

Inductive step (x y : st) : Prop :=
| step_login s : login_step s x y → step x y
| step_register s : register_step s x y → step x y
| step_disconnect s : disconnect_step s x y → step x y.

(** ** The invariant *)

(** Session [s] counts as a user of account [k]: its id is [k] and the
    disconnection has not set [k] offline, or it is about to. *)
Definition uses (x : st) (s : nat) (k : id_t) : Prop :=
  (_id x s = k ∧ dpcs x s ≠ Gone) ∨ pcs x s = LSetId k ∨ dpcs x s = DUpdate k.

Definition in_lock (p : pc) : bool :=
  match p with LSelect _ _ | LUpdate _ | LSetId _ | LUnlock _ => true | _ => false end.

Definition online (x : st) (k : id_t) : bool :=
  match accounts x !! k with Some a => is_online a | None => false end.

(** Nothing is said of the users of the account of the empty string: every session
    that has not logged in is one of them. *)
Record inv (x : st) : Prop := {
  i_owner : ∀ s, owner x = Some s ↔ in_lock (pcs x s) = true;
  i_online : ∀ s k, k ≠ [] → uses x s k → online x k = true;
  i_one : ∀ s u k, k ≠ [] → uses x s k → uses x u k → s = u;
  i_update : ∀ s k, pcs x s = LUpdate k → online x k = false ∧ is_Some (accounts x !! k);
  i_setid : ∀ s k, k ≠ [] → pcs x s = LSetId k → dpcs x s ≠ DUpdate k ∧ (_id x s = k → dpcs x s = Gone)
}.

(** A step of a job that leaves the accounts, the ids and the disconnections. *)
Lemma login_inv_job A O O' I f g r r' s p :
  (∀ k, p ≠ LSetId k) →
  (∀ k, p = LUpdate k → online (mk A O I f g r) k = false ∧ is_Some (A !! k)) →
  hand_over in_lock s (f s) p O O' →
  inv (mk A O I f g r) → inv (mk A O' I (<[s := p]> f) g r').
Proof.
  intros Hp Hup HO []. simpl in *.
  assert (∀ u k, uses (mk A O' I (<[s := p]> f) g r') u k → uses (mk A O I f g r) u k) as Hu.
  { intros u k [H|[H|H]]; simpl in H; [by left| |by right; right]. destruct (decide (u = s)) as [->|].
    - rewrite fn_lookup_insert in H. by apply Hp in H.
    - rewrite fn_lookup_insert_ne in H by done. by right; left. }
  split; simpl.
  - by eapply owner_move.
  - intros u k Hk H. apply (i_online0 u k); [done|by apply Hu].
  - intros u v k Hk H1 H2. apply (i_one0 u v k); [done|by apply Hu..].
  - intros u k. destruct (decide (u = s)) as [->|]; [rewrite fn_lookup_insert; apply Hup|].
    rewrite fn_lookup_insert_ne by done. apply i_update0.
  - intros u k. destruct (decide (u = s)) as [->|]; [rewrite fn_lookup_insert; intros ? E; by apply Hp in E|].
    rewrite fn_lookup_insert_ne by done. apply i_setid0.
Qed.

Lemma online_alter b k k' A O I f g r :
  online (mk (alter (set_online b) k A) O I f g r) k' =
  if decide (k = k') then match A !! k with Some _ => b | None => false end else online (mk A O I f g r) k'.
Proof.
  unfold online. simpl. case_decide as E.
  - subst. rewrite lookup_alter_eq. by destruct (A !! k').
  - by rewrite lookup_alter_ne.
Qed.

Lemma is_Some_alter (f : account → account) (k k' : id_t) (A : gmap id_t account) :
  is_Some (A !! k') → is_Some (alter f k A !! k').
Proof.
  intros H. destruct (decide (k = k')) as [->|]; [rewrite lookup_alter_eq|by rewrite lookup_alter_ne].
  by apply fmap_is_Some.
Qed.

Lemma login_inv s x y : login_step s x y → inv x → inv y.
Proof.
  intros Hs Hi. destruct Hs as [id pssd A O I f g r H|id pssd A I f g r H|id pssd A O I f g r H|id A O I f g r H
    |id A O I f g r H|b A O I f g r H|b A O I f g r H].
  - eapply login_inv_job; [done|done| |exact Hi]. left. by rewrite H.
  - eapply login_inv_job; [done|done| |exact Hi]. right; left. done.
  - eapply login_inv_job; [| | |exact Hi].
    + intros k. by destruct (select A id pssd).
    + intros k. unfold select, online. simpl. destruct (A !! id) as [a|] eqn:E; [|done].
      case_bool_decide as Hc; [|done]. intros [= <-]. rewrite E. destruct Hc as [_ Hc]. split; [exact Hc|by exists a].
    + left. rewrite H. by destruct (select A id pssd).
  - pose proof Hi as []. simpl in *. destruct (i_update0 s id H) as [Hoff [a Ha]].
    assert (∀ u, id ≠ [] → ¬ uses (mk A O I f g r) u id) as Hnone by (intros u Hid Hu; apply i_online0 in Hu; congruence).
    assert (∀ u k, uses (mk (alter (set_online true) id A) O I (<[s := LSetId id]> f) g r) u k →
              uses (mk A O I f g r) u k ∨ u = s ∧ k = id) as Hu.
    { intros u k [Hk|[Hk|Hk]]; simpl in Hk; [by left; left| |by left; right; right]. destruct (decide (u = s)) as [->|].
      - rewrite fn_lookup_insert in Hk. right. by injection Hk.
      - rewrite fn_lookup_insert_ne in Hk by done. by left; right; left. }
    split; simpl.
    + eapply owner_move; [done|]. left. by rewrite H.
    + intros u k Hne Hk. rewrite online_alter. case_decide as E; [by rewrite Ha|].
      destruct (Hu u k Hk) as [Hk'|[_ ->]]; [by apply (i_online0 u k)|done].
    + intros u v k Hne H1 H2. apply Hu in H1 as [H1|[-> Ek]].
      * apply Hu in H2 as [H2|[-> ->]]; [by apply (i_one0 u v k)|by apply Hnone in H1].
      * apply Hu in H2 as [H2|[-> _]]; [|done]. subst k. by apply Hnone in H2.
    + intros u k. destruct (decide (u = s)) as [->|Hne]; [by rewrite fn_lookup_insert|].
      rewrite fn_lookup_insert_ne by done. intros Hk. destruct Hne.
      assert (O = Some u) as E by (apply i_owner0; by rewrite Hk). assert (O = Some s) as E' by (apply i_owner0; by rewrite H).
      congruence.
    + intros u k. destruct (decide (u = s)) as [->|]; [|rewrite fn_lookup_insert_ne by done; apply i_setid0].
      rewrite fn_lookup_insert. intros Hne [= <-]. split; [intros E; apply (Hnone s Hne); by right; right|].
      intros E. destruct (g s) eqn:Eg; [| |done]; exfalso; apply (Hnone s Hne); left; simpl; by rewrite Eg.
  - pose proof Hi as []. simpl in *.
    assert (∀ u k, uses (mk A O (<[s := id]> I) (<[s := LUnlock true]> f) g r) u k → uses (mk A O I f g r) u k) as Hu.
    { intros u k [Hk|[Hk|Hk]]; simpl in Hk; [| |by right; right].
      - destruct Hk as [Hk Hg]. destruct (decide (u = s)) as [->|].
        + rewrite fn_lookup_insert in Hk. subst k. by right; left.
        + rewrite fn_lookup_insert_ne in Hk by done. by left.
      - destruct (decide (u = s)) as [->|]; [by rewrite fn_lookup_insert in Hk|]. rewrite fn_lookup_insert_ne in Hk by done.
        by right; left. }
    split; simpl.
    + eapply owner_move; [done|]. left. by rewrite H.
    + intros u k Hne Hk. apply (i_online0 u k); [done|by apply Hu].
    + intros u v k Hne H1 H2. apply (i_one0 u v k); [done|by apply Hu..].
    + intros u k. destruct (decide (u = s)) as [->|]; [by rewrite fn_lookup_insert|].
      rewrite fn_lookup_insert_ne by done. apply i_update0.
    + intros u k. destruct (decide (u = s)) as [->|]; [by rewrite fn_lookup_insert|].
      rewrite !fn_lookup_insert_ne by done. apply i_setid0.
  - eapply login_inv_job; [done|done| |exact Hi]. right; right. by rewrite H.
  - eapply login_inv_job; [done|done| |exact Hi]. left. by rewrite H.
Qed.

Lemma register_inv s x y : register_step s x y → inv x → inv y.
Proof.
  intros Hs Hi. destruct Hs as [id pssd A O I f g r H|id pssd A O I f g r H Hn|id pssd a A O I f g r H Ha|b A O I f g r H].
  - eapply login_inv_job; [done|done| |exact Hi]. left. by rewrite H.
  - assert (inv (mk A O I (<[s := RSend true]> f) g r)) as [] by (eapply login_inv_job; [done|done|left; by rewrite H|exact Hi]).
    simpl in *.
    assert (∀ k, online (mk (<[id := mkAccount pssd false]> A) O I (<[s := RSend true]> f) g r) k =
                 online (mk A O I (<[s := RSend true]> f) g r) k) as E.
    { intros k. unfold online. simpl. destruct (decide (id = k)) as [->|]; [by rewrite lookup_insert_eq, Hn|by rewrite lookup_insert_ne]. }
    split; simpl; [done| |done| |done].
    + intros u k Hne Hk. rewrite E. by apply (i_online0 u k).
    + intros u k Hk. rewrite E. destruct (i_update0 u k Hk) as [? ?]. split; [done|].
      destruct (decide (id = k)) as [->|]; [by rewrite lookup_insert_eq|by rewrite lookup_insert_ne].
  - eapply login_inv_job; [done|done| |exact Hi]. left. by rewrite H.
  - eapply login_inv_job; [done|done| |exact Hi]. left. by rewrite H.
Qed.

Lemma disconnect_inv s x y : disconnect_step s x y → inv x → inv y.
Proof.
  intros Hs []. destruct Hs as [A O I f g r H|id A O I f g r H]; simpl in *.
  - assert (∀ u k, uses (mk A O I f (<[s := DUpdate (I s)]> g) r) u k → uses (mk A O I f g r) u k) as Hu.
    { intros u k [[Hk Hg]|[Hk|Hk]]; simpl in *; [|by right; left|].
      - destruct (decide (u = s)) as [->|]; [left; simpl; by rewrite H|]. rewrite fn_lookup_insert_ne in Hg by done. by left.
      - destruct (decide (u = s)) as [->|].
        + rewrite fn_lookup_insert in Hk. left. simpl. rewrite H. split; [congruence|done].
        + rewrite fn_lookup_insert_ne in Hk by done. by right; right. }
    split; simpl; [done| | |done|].
    + intros u k Hne Hk. apply (i_online0 u k); [done|by apply Hu].
    + intros u v k Hne H1 H2. apply (i_one0 u v k); [done|by apply Hu..].
    + intros u k Hne Hk. destruct (i_setid0 u k Hne Hk) as [H1 H2]. destruct (decide (u = s)) as [->|]; [|by rewrite fn_lookup_insert_ne].
      rewrite fn_lookup_insert. split; [intros [= E]; apply H2 in E; congruence|]. intros E%H2. congruence.
  - set (A' := alter (set_online false) id A).
    assert (∀ u k, uses (mk A' O I f (<[s := Gone]> g) r) u k → uses (mk A O I f g r) u k) as Hu.
    { intros u k [[Hk Hg]|[Hk|Hk]]; simpl in *; [|by right; left|].
      - destruct (decide (u = s)) as [->|]; [by rewrite fn_lookup_insert in Hg|]. rewrite fn_lookup_insert_ne in Hg by done. by left.
      - destruct (decide (u = s)) as [->|]; [by rewrite fn_lookup_insert in Hk|].
        rewrite fn_lookup_insert_ne in Hk by done. by right; right. }
    assert (∀ k, online (mk A' O I f (<[s := Gone]> g) r) k =
              if decide (id = k) then false else online (mk A O I f g r) k) as E.
    { intros k. unfold A'. rewrite online_alter. case_decide; [|done]. by destruct (A !! id). }
    split; simpl; [done| | | |].
    + intros u k Hne Hk. rewrite E. pose proof (Hu u k Hk) as Hk'. case_decide as Eid; [|by apply (i_online0 u k)].
      subst id. exfalso. assert (u = s) as -> by (apply (i_one0 u s k); [done|done|by right; right]).
      destruct Hk as [[_ Hg]|[Hk|Hk]]; simpl in *.
      * by rewrite fn_lookup_insert in Hg.
      * by destruct (i_setid0 s k Hne Hk).
      * by rewrite fn_lookup_insert in Hk.
    + intros u v k Hne H1 H2. apply (i_one0 u v k); [done|by apply Hu..].
    + intros u k Hk. rewrite E. destruct (i_update0 u k Hk) as [Hoff Hsome]. split.
      * by case_decide.
      * by apply is_Some_alter.
    + intros u k Hne Hk. destruct (i_setid0 u k Hne Hk) as [H1 H2]. destruct (decide (u = s)) as [->|]; [by rewrite fn_lookup_insert|].
      by rewrite fn_lookup_insert_ne.
Qed.

Lemma race_step_inv x y : step x y → inv x → inv y.
Proof. intros [s H|s H|s H]; [by eapply login_inv|by eapply register_inv|by eapply disconnect_inv]. Qed.

Lemma race_reachable x : rtc step init x → inv x.
Proof.
  intros H. eapply rtc_invariant; [apply race_step_inv|done|]. split; simpl; try done.
  - intros s k Hne [[? _]|[?|?]]; simpl in *; congruence.
  - intros s u k Hne [[? _]|[?|?]]; simpl in *; congruence.
Qed.

(** ** An account that nobody uses but that is online *)

Definition stranded (x : st) (k : id_t) : Prop := online x k = true ∧ ∀ s, ¬ uses x s k.

(** Reads a map of threads at [u] after [s] has moved. *)
Ltac at_thread u s :=
  destruct (decide (u = s)) as [->|];
  [repeat match goal with H : context [(<[s := _]> _) s] |- _ => rewrite fn_lookup_insert in H end
  |repeat match goal with H : context [(<[s := _]> _) u] |- _ => rewrite fn_lookup_insert_ne in H by done end].

Lemma uses_job A O O' A' I f g r r' s p u k :
  uses (mk A' O' I (<[s := p]> f) g r') u k → uses (mk A O I f g r) u k ∨ u = s ∧ p = LSetId k.
Proof.
  unfold uses. simpl. intros [H|[H|H]]; [by left; left| |by left; right; right].
  at_thread u s; [by right|by left; right; left].
Qed.

(** A user after a step was one before, or has just set the account online. *)
Lemma uses_step x y u k : step x y → uses y u k → uses x u k ∨ pcs x u = LUpdate k.
Proof.
  intros [s Hs|s Hs|s Hs].
  - destruct Hs as [id pssd A O I f g r H|id pssd A I f g r H|id pssd A O I f g r H|id A O I f g r H
      |id A O I f g r H|b A O I f g r H|b A O I f g r H]; simpl.
    1,2,6,7: intros Hu; eapply uses_job in Hu as [Hu|[-> E]]; [left; exact Hu|done].
    + intros Hu. eapply uses_job in Hu as [Hu|[-> E]]; [left; exact Hu|]. by destruct (select A id pssd).
    + intros Hu. eapply uses_job in Hu as [Hu|[-> E]]; [left; exact Hu|]. right. congruence.
    + intros [[H1 H2]|[H1|H1]]; simpl in *; left; [| |by right; right].
      * at_thread u s; [right; left; simpl; congruence|by left].
      * at_thread u s; [done|by right; left].
  - destruct Hs as [id pssd A O I f g r H|id pssd A O I f g r H Hn|id pssd a A O I f g r H Ha|b A O I f g r H]; simpl;
      intros Hu; (eapply uses_job in Hu as [Hu|[-> E]]; [left; exact Hu|done]).
  - destruct Hs as [A O I f g r H|id A O I f g r H]; intros [[H1 H2]|[H1|H1]]; simpl in *; left; try by right; left.
    + at_thread u s; [left; simpl; by rewrite H|by left].
    + at_thread u s; [left; simpl; rewrite H; split; [congruence|done]|by right; right].
    + at_thread u s; [done|by left].
    + at_thread u s; [done|by right; right].
Qed.

(** Only the disconnection of a user sets an account offline. *)
Lemma online_step x y k : step x y → online x k = true → (∀ s, ¬ uses x s k) → online y k = true.
Proof.
  intros [s Hs|s Hs|s Hs] Hon Hno.
  - destruct Hs as [| | |id A O I f g r H| | |]; try done. rewrite online_alter. case_decide; [|done].
    subst. unfold online in Hon. simpl in Hon. by destruct (A !! k).
  - destruct Hs as [|id pssd A O I f g r H Hn| |]; try done. unfold online in *. simpl in *.
    destruct (decide (id = k)) as [->|]; [by rewrite Hn in Hon|by rewrite lookup_insert_ne].
  - destruct Hs as [A O I f g r H|id A O I f g r H]; [done|]. rewrite online_alter.
    case_decide; [|done]. subst. exfalso. apply (Hno s). by right; right.
Qed.

Lemma stranded_step x y k : step x y → inv x → stranded x k → stranded y k.
Proof.
  intros Hs Hi [Hon Hno]. split; [by eapply online_step|]. intros u Hu.
  apply (uses_step x y u k Hs) in Hu as [Hu|Hu]; [by apply (Hno u)|].
  apply (i_update x Hi) in Hu as [Hu _]. congruence.
Qed.

Lemma stranded_run x y k : inv x → stranded x k → rtc step x y → stranded y k.
Proof.
  intros Hi Hk Hs. revert Hi Hk. induction Hs as [|x x1 y H1 _ IH]; intros Hi Hk; [done|].
  apply IH; [by eapply race_step_inv|by eapply stranded_step].
Qed.

(** Runs for the witnesses: one step, of session [n] and of session 0. *)
Ltac go_as n c := eapply rtc_l; [first [eapply (step_login _ _ n); eapply c|eapply (step_register _ _ n); eapply c
                                       |eapply (step_disconnect _ _ n); eapply c]; reflexivity|].
Ltac go c := go_as 0%nat c.

Ltac register_first := go (r_start 0 [97] [112]); go r_insert; go r_send.

Lemma run_register : ∃ x, rtc step init x ∧ accounts x !! [97] = Some (mkAccount [112] false) ∧
  pcs x 0%nat = Idle ∧ dpcs x 0%nat = Live ∧ owner x = None ∧ replies x = [].
Proof. eexists. split; [register_first; apply rtc_refl|]. split_and!; reflexivity. Qed.

Lemma run_login : ∃ x, rtc step init x ∧ _id x 0%nat = [97] ∧ dpcs x 0%nat = Live.
Proof.
  eexists. split.
  - register_first. go (l_start 0 [97] [112]). go l_lock. go l_select. go l_update. go l_setid. go l_unlock. go l_send.
    apply rtc_refl.
  - split; reflexivity.
Qed.

(** The disconnection is handled between the [SELECT] and [SetId]. *)
Lemma run_overtaken x s k a :
  inv x → k ≠ [] → accounts x !! k = Some a → is_online a = false → pcs x s = Idle → dpcs x s = Live → owner x = None →
  ∃ y, rtc step x y ∧ stranded y k ∧ replies y = replies x ++ [(s, true)].
Proof.
  intros Hi Hk Ha Hoff Hs Hd Ho.
  assert (∀ u, ¬ uses x u k) as Hno.
  { intros u Hu. apply (i_online x Hi u k Hk) in Hu. unfold online in Hu. rewrite Ha in Hu. congruence. }
  destruct x as [A O I f g r]. cbn [accounts owner _id pcs dpcs replies] in *. subst O.
  assert (I s ≠ k) as Hid by (intros E; apply (Hno s); left; simpl; by rewrite Hd).
  assert (select A k (password a) = true) as Hsel by (unfold select; rewrite Ha; by apply bool_decide_eq_true_2).
  eexists. split.
  - eapply rtc_l; [apply (step_login _ _ s), (l_start s k (password a)), Hs|].
    eapply rtc_l; [apply (step_login _ _ s), l_lock, fn_lookup_insert|].
    eapply rtc_l; [apply (step_login _ _ s), l_select, fn_lookup_insert|]. rewrite Hsel.
    eapply rtc_l; [apply (step_disconnect _ _ s), d_start, Hd|].
    eapply rtc_l; [apply (step_disconnect _ _ s), d_update, fn_lookup_insert|].
    eapply rtc_l; [apply (step_login _ _ s), l_update, fn_lookup_insert|].
    eapply rtc_l; [apply (step_login _ _ s), l_setid, fn_lookup_insert|].
    eapply rtc_l; [apply (step_login _ _ s), l_unlock, fn_lookup_insert|].
    eapply rtc_l; [apply (step_login _ _ s), l_send, fn_lookup_insert|]. apply rtc_refl.
  - split; [split|done].
    + rewrite online_alter, decide_True by done. rewrite lookup_alter_ne by done. by rewrite Ha.
    + intros u Hu. destruct (decide (u = s)) as [->|Hne].
      * unfold uses in Hu. simpl in Hu. rewrite !fn_lookup_insert in Hu. naive_solver.
      * apply (Hno u). unfold uses in *. simpl in *. by rewrite !fn_lookup_insert_ne in Hu.
Qed.

(** The account of the empty string is the exception: a session that disconnects
    without having logged in sets it offline, and a second session logs in. *)
Lemma empty_id_shared :
  ∃ x, rtc step init x ∧ replies x = [(0, true); (2, true)]%nat ∧ dpcs x 0%nat = Live ∧ dpcs x 2%nat = Live.
Proof.
  eexists. split.
  - go_as 0%nat (r_start 0 [] []). go_as 0%nat r_insert. go_as 0%nat r_send.
    go_as 0%nat (l_start 0 [] []). go_as 0%nat l_lock. go_as 0%nat l_select. go_as 0%nat l_update. go_as 0%nat l_setid.
    go_as 0%nat l_unlock. go_as 0%nat l_send.
    go_as 1%nat d_start. go_as 1%nat d_update.
    go_as 2%nat (l_start 2 [] []). go_as 2%nat l_lock. go_as 2%nat l_select. go_as 2%nat l_update. go_as 2%nat l_setid.
    go_as 2%nat l_unlock. go_as 2%nat l_send. apply rtc_refl.
  - split_and!; reflexivity.
Qed.

(** ** The theorems *)

(** C15: at most one connected session is logged in to an account whose id is not
    the empty string, and the account is then online, in every interleaving of logins, registrations and
    disconnections: the lock around the [SELECT] and the [UPDATE] of a login does
    what its comment says. *)
Theorem concurrent_login_exclusive x s u k :
  rtc step init x → k ≠ [] →
  _id x s = k → dpcs x s = Live → _id x u = k → dpcs x u = Live →
  s = u ∧ online x k = true.
Proof.
  intros Hi%race_reachable Hne Hs Ls Hu Lu.
  assert (uses x s k) as Us by (left; by rewrite Ls). assert (uses x u k) as Uu by (left; by rewrite Lu).
  split; [by apply (i_one x Hi s u k)|by apply (i_online x Hi s k)].
Qed.

Lemma concurrent_login_exclusive_witness :
  ∃ x, rtc step init x ∧ _id x 0%nat = [97] ∧ online x [97] = true ∧
       ∀ u, _id x u = [97] → dpcs x u = Live → u = 0%nat.
Proof.
  destruct run_login as (x & Hx & Hid & Hl). exists x. split_and!; [done|done| |].
  - by apply (concurrent_login_exclusive x 0 0 [97]).
  - intros u Hu Lu. symmetry. by apply (concurrent_login_exclusive x 0 u [97]).
Defined.

(** C39: a login that is overtaken by the disconnection of its own session locks
    the account for good.  Whenever a connected session can log in to an offline
    account (of a nonempty id) and nobody holds the lock of logins, its login can be
    overtaken: it is answered with success, and from then on, whatever happens, the
    account is online, every login to it is refused whatever the password, and no
    connected session has its id. *)
Theorem overtaken_login_locks_account x s k a :
  rtc step init x → k ≠ [] → accounts x !! k = Some a → is_online a = false →
  pcs x s = Idle → dpcs x s = Live → owner x = None →
  ∃ y, rtc step x y ∧ replies y = replies x ++ [(s, true)] ∧
    ∀ z, rtc step y z → online z k = true ∧ (∀ pssd, select (accounts z) k pssd = false) ∧ ∀ u, _id z u = k → dpcs z u = Gone.
Proof.
  intros Hi%race_reachable Hk Ha Hoff Hs Hd Ho.
  destruct (run_overtaken x s k a Hi Hk Ha Hoff Hs Hd Ho) as (y & Hy & Hst & Hr). exists y. split_and!; [done|done|]. intros z Hz.
  assert (inv y) as Hiy by (eapply rtc_invariant; [apply race_step_inv|exact Hy|exact Hi]).
  destruct (stranded_run y z k Hiy Hst Hz) as [Hon Hno]. split_and!; [done| |].
  - intros pssd. unfold select, online in *. destruct (accounts z !! k) as [b|]; [|done]. apply bool_decide_eq_false_2. intros [_ E]. congruence.
  - intros u Hu. destruct (dpcs z u) eqn:E; [| |done]; destruct (Hno u); left; by rewrite E.
Qed.

Lemma overtaken_login_locks_account_witness :
  ∃ x y, rtc step init x ∧ online x [97] = false ∧ rtc step x y ∧ replies y = [(0%nat, true)] ∧ ∀ z, rtc step y z → online z [97] = true.
Proof.
  destruct run_register as (x & Hx & Ha & Hs & Hd & Ho & Hr).
  destruct (overtaken_login_locks_account x 0 [97] (mkAccount [112] false) Hx ltac:(done) Ha eq_refl Hs Hd Ho) as (y & Hy & Hry & Hz).
  exists x, y. split_and!; [done|unfold online; by rewrite Ha|done|by rewrite Hry, Hr|]. intros z H. by apply Hz.
Defined.

End LoginRace.
