(* ===== verification/CreateRace.v ===== *)
(** * CreateRace: creations of rooms at the same time
      (Server/LobbyRespondent.h, [C_CREATE_ROOM]; RoomHandler.h, [AddRoom];
       RoomHandler.cpp, the end of [RemoveUser]; ClientSession.cpp, [OnDisconnected])

    The room table and [RoomHandler::_rooms] under any number of sessions that
    create rooms, each from a thread of its own.  One step per access to shared
    state; the respondent's static lock is held around the first [SELECT] and the
    [INSERT] only.  [ends] is how far the removal of a room by its last user has got
    in [RemoveUser]: the row is deleted first, then the entry, whose presence is
    asserted.  One thread at most removes a room (the theorem of [RoomRace]).  The last
    user is one who found the room with [GetRoom], or its creator, whose session knows
    the room from [SetRoom] on: its connection can be lost before [AddRoom].  Names
    are comparison keys under the collation.  [mine] and [overtaken] are history: the
    row a session has inserted and not yet given to [AddRoom], and the rooms whose
    creator's connection was lost before [AddRoom]. *)

From stdpp Require Import functions.
From S2P Require Import Prelude.
#[local] Open Scope Z_scope.

Module CreateRace.

Notation name_t := (list Z).

(** Where the job of a session is, before the named access. *)
Inductive pc : Type :=
| Idle
| CLock (roomName : name_t) | CSelect (roomName : name_t) | CInsert (roomName : name_t)
| CUnlock (roomName : name_t) (canCreate : bool)
| CSelectId (roomName : name_t) | CAccount (outRoomId : Z) | CAddRoom (outRoomId : Z)
| CSend (isSuccess : bool)
| Crashed.

(** The removal of a room. *)
Inductive stage : Type := Standing | Deleting | Removing | Removed | Failed.

Record st : Type := mk {
  rows : gmap Z name_t;         (* chat.room: room_id, room_name *)
  next : Z;                     (* AUTO_INCREMENT *)
  _rooms : gset Z;              (* the keys of RoomHandler::_rooms *)
  owner : option nat;
  pcs : nat → pc;
  mine : nat → option Z;
  ends : Z → stage;
  overtaken : gset Z
}.

Definition init : st := mk ∅ 1 ∅ None (λ _, Idle) (λ _, None) (λ _, Standing) ∅.

(** [SELECT room_id FROM chat.room WHERE room_name = ?] finds the row [id]. *)
Definition named (R : gmap Z name_t) (n : name_t) (id : Z) : Prop := R !! id = Some n.

(** The respondent of [C_CREATE_ROOM]. *)
Inductive create_step (s : nat) : st → st → Prop :=
| c_start n R N L O f m e V : f s = Idle → create_step s (mk R N L O f m e V) (mk R N L O (<[s := CLock n]> f) m e V)
| c_lock n R N L f m e V : f s = CLock n → create_step s (mk R N L None f m e V) (mk R N L (Some s) (<[s := CSelect n]> f) m e V)
| c_select_found n id R N L O f m e V :
    f s = CSelect n → named R n id → create_step s (mk R N L O f m e V) (mk R N L O (<[s := CUnlock n false]> f) m e V)
| c_select_free n R N L O f m e V :
    f s = CSelect n → (∀ id, ¬ named R n id) → create_step s (mk R N L O f m e V) (mk R N L O (<[s := CInsert n]> f) m e V)
| c_insert n R N L O f m e V :
    f s = CInsert n → (∀ id, ¬ named R n id) →
    create_step s (mk R N L O f m e V) (mk (<[N := n]> R) (N + 1) L O (<[s := CUnlock n true]> f) (<[s := Some N]> m) e V)
| c_insert_fails n id R N L O f m e V :      (* uq_room_name refuses the row *)
    f s = CInsert n → named R n id → create_step s (mk R N L O f m e V) (mk R N L O (<[s := Crashed]> f) m e V)
| c_unlock n (b : bool) R N L O f m e V :
    f s = CUnlock n b → create_step s (mk R N L O f m e V) (mk R N L None (<[s := if b then CSelectId n else CSend false]> f) m e V)
| c_select_id n id R N L O f m e V :
    f s = CSelectId n → named R n id → create_step s (mk R N L O f m e V) (mk R N L O (<[s := CAccount id]> f) m e V)
| c_select_id_fails n R N L O f m e V :
    f s = CSelectId n → (∀ id, ¬ named R n id) → create_step s (mk R N L O f m e V) (mk R N L O (<[s := Crashed]> f) m e V)
| c_account id n R N L O f m e V :           (* with [SetRoom] on the session *)
    f s = CAccount id → R !! id = Some n → create_step s (mk R N L O f m e V) (mk R N L O (<[s := CAddRoom id]> f) m e V)
| c_account_fails id R N L O f m e V :       (* the foreign key refuses the update *)
    f s = CAccount id → R !! id = None → create_step s (mk R N L O f m e V) (mk R N L O (<[s := Crashed]> f) m e V)
| c_add id R N L O f m e V :
    f s = CAddRoom id →
    create_step s (mk R N L O f m e V) (mk R N ({[id]} ∪ L) O (<[s := CSend true]> f) (<[s := None]> m) e V)
| c_send b R N L O f m e V : f s = CSend b → create_step s (mk R N L O f m e V) (mk R N L O (<[s := Idle]> f) m e V).

(** [RemoveUser] of the last user of a room, from its successful exchange of
    [roomState] on. *)
Inductive destroy_step : st → st → Prop :=
| x_last id R N L O f m e V :
    id ∈ L → e id = Standing → destroy_step (mk R N L O f m e V) (mk R N L O f m (<[id := Deleting]> e) V)
| x_lost s id R N L O f m e V :     (* OnDisconnected of the creator, after SetRoom *)
    f s = CAddRoom id → e id = Standing →
    destroy_step (mk R N L O f m e V) (mk R N L O f m (<[id := Deleting]> e) ({[id]} ∪ V))
| x_delete id R N L O f m e V :
    e id = Deleting → destroy_step (mk R N L O f m e V) (mk (delete id R) N L O f m (<[id := Removing]> e) V)
| x_remove id R N L O f m e V :
    e id = Removing → id ∈ L → destroy_step (mk R N L O f m e V) (mk R N (L ∖ {[id]}) O f m (<[id := Removed]> e) V)
| x_remove_fails id R N L O f m e V :
    e id = Removing → id ∉ L → destroy_step (mk R N L O f m e V) (mk R N L O f m (<[id := Failed]> e) V).

Inductive step (x y : st) : Prop :=
| step_create s : create_step s x y → step x y
| step_destroy : destroy_step x y → step x y.

(** ** The invariant *)

Definition in_lock (p : pc) : bool :=
  match p with CSelect _ | CInsert _ | CUnlock _ _ => true | _ => false end.

(** What a thread relies on: the name is free, or the row it inserted is there and
    nobody deletes it, but for its own disconnection once its session knows the room. *)
Definition pc_ok (R : gmap Z name_t) (L : gset Z) (e : Z → stage) (mine : option Z) (p : pc) : Prop :=
  match p with
  | CInsert n => mine = None ∧ ∀ id, ¬ named R n id
  | CUnlock n true | CSelectId n => ∃ id, mine = Some id ∧ R !! id = Some n ∧ id ∉ L ∧ e id = Standing
  | CAccount id => mine = Some id ∧ is_Some (R !! id) ∧ id ∉ L ∧ e id = Standing
  | CAddRoom id => mine = Some id ∧ id ∉ L ∧
      match e id with Standing | Deleting => is_Some (R !! id) | Removed => False | _ => True end
  | Crashed => False
  | _ => mine = None
  end.

Record inv (x : st) : Prop := {
  i_owner : ∀ s, owner x = Some s ↔ in_lock (pcs x s) = true;
  i_unique : ∀ id1 id2 n, named (rows x) n id1 → named (rows x) n id2 → id1 = id2;
  i_next : (∀ id, is_Some (rows x !! id) → id < next x) ∧ (∀ id, id ∈ _rooms x → id < next x) ∧
           ∀ id, next x ≤ id → ends x id = Standing;
  i_mine : ∀ s u id, mine x s = Some id → mine x u = Some id → s = u;
  i_fresh : ∀ s id, mine x s = Some id → id < next x;
  i_pc : ∀ s, pc_ok (rows x) (_rooms x) (ends x) (mine x s) (pcs x s);
  i_ends : ∀ id, ends x id ≠ Standing → ends x id ≠ Removed → (id ∈ _rooms x ∧ ends x id ≠ Failed) ∨ id ∈ overtaken x
}.

(** A step that only moves the thread. *)
Lemma create_inv_job R N L O O' f m e V s p :
  pc_ok R L e (m s) p →
  hand_over in_lock s (f s) p O O' →
  inv (mk R N L O f m e V) → inv (mk R N L O' (<[s := p]> f) m e V).
Proof.
  intros Hp HO []. simpl in *. split; simpl; [by eapply owner_move|done..| |done].
  intros u. destruct (decide (u = s)) as [->|]; [by rewrite fn_lookup_insert|by rewrite fn_lookup_insert_ne].
Qed.

(** Other threads keep what they rely on when a new row appears while the lock is
    held, when a room is listed, and when the removal of a room goes on. *)
Lemma pc_ok_insert R L e m p id n :
  (∀ i, is_Some (R !! i) → i < id) → (∀ k, p ≠ CInsert k) → pc_ok R L e m p → pc_ok (<[id := n]> R) L e m p.
Proof.
  intros Hid Hp. assert (∀ i k, R !! i = Some k → <[id := n]> R !! i = Some k) as K.
  { intros i k H. rewrite lookup_insert_ne; [done|]. intros ->. specialize (Hid i ltac:(by exists k)). lia. }
  assert (∀ i, is_Some (R !! i) → is_Some (<[id := n]> R !! i)) as K' by (intros i [k Hk]; eauto).
  destruct p as [| | |k|k []|k|i|i| |]; simpl; try done.
  - by destruct (Hp k).
  - intros (i & ? & ? & ?). exists i. auto.
  - intros (i & ? & ? & ?). exists i. auto.
  - intros (? & ? & ?). auto.
  - intros (? & ? & He). split_and!; [done|done|]. destruct (e i); auto.
Qed.

Lemma pc_ok_list R L e m p id : m ≠ Some id → pc_ok R L e m p → pc_ok R ({[id]} ∪ L) e m p.
Proof. intros Hm. destruct p as [| | | |? []| | | | |]; simpl; set_solver. Qed.

(** The removal of [id] moves to [g]. *)
Lemma pc_ok_ends R R' L L' e m p id g :
  (∀ i, i ≠ id → R' !! i = R !! i) → (∀ n, (∀ i, ¬ named R n i) → ∀ i, ¬ named R' n i) → L' ⊆ L →
  (e id = Standing → m = Some id → p = CAddRoom id) →
  (p = CAddRoom id → id ∉ L → match g with Standing | Deleting => is_Some (R !! id) → is_Some (R' !! id) | Removed => False | _ => True end) →
  (g = Deleting → e id = Standing) → g ≠ Standing →
  pc_ok R L e m p → pc_ok R' L' (<[id := g]> e) m p.
Proof.
  intros HR Hn HL He Hp Hg Hs.
  destruct p as [| | |k|k []|k|i|i| |]; simpl in *; try done.
  - intros [? ?]. auto.
  - intros (i & Hm & Hi & Hl & Hst). exists i. assert (i ≠ id) by (intros ->; by specialize (He Hst Hm)).
    rewrite fn_lookup_insert_ne, HR by done. set_solver.
  - intros (i & Hm & Hi & Hl & Hst). exists i. assert (i ≠ id) by (intros ->; by specialize (He Hst Hm)).
    rewrite fn_lookup_insert_ne, HR by done. set_solver.
  - intros (Hm & Hi & Hl & Hst). assert (i ≠ id) by (intros ->; by specialize (He Hst Hm)).
    rewrite fn_lookup_insert_ne, HR by done. set_solver.
  - intros (Hm & Hl & Hst). split_and!; [done|set_solver|]. destruct (decide (i = id)) as [->|].
    + rewrite fn_lookup_insert. specialize (Hp eq_refl Hl). destruct g; try done. rewrite Hg in Hst by done. auto.
    + rewrite fn_lookup_insert_ne, HR by done. done.
Qed.

Lemma pc_ok_mine R L e id p : pc_ok R L e (Some id) p →
  id ∉ L ∧ e id ≠ Removed ∧ (is_Some (R !! id) ∨ p = CAddRoom id ∧ e id ≠ Standing).
Proof.
  destruct p as [| | |n|n []|n|i|i| |]; simpl; try done.
  - by intros [? _].
  - intros (i & [= <-] & Hr & Hl & He). rewrite He. split_and!; [done|done|left; by exists n].
  - intros (i & [= <-] & Hr & Hl & He). rewrite He. split_and!; [done|done|left; by exists n].
  - intros ([= <-] & ? & ? & He). rewrite He. auto.
  - intros ([= <-] & ? & He). by destruct (e id); auto.
Qed.

Lemma create_step_inv s x y : create_step s x y → inv x → inv y.
Proof.
  intros Hs Hi. pose proof (i_pc x Hi s) as Hp. destruct Hs; simpl in Hp; rewrite H in Hp.
  - eapply create_inv_job; [done|left; by rewrite H|exact Hi].
  - eapply create_inv_job; [done|by right; left|exact Hi].
  - eapply create_inv_job; [done|left; by rewrite H|exact Hi].
  - eapply create_inv_job; [done|left; by rewrite H|exact Hi].
  - destruct Hi as [Ho Hu (Hn & Hl & Hst) Hm Hfr Hf He], Hp as [Hmine Hfree]. simpl in *.
    split; simpl.
    + eapply owner_move; [done|]. left. by rewrite H.
    + intros i1 i2 k. unfold named. rewrite !lookup_insert. repeat case_decide; intros; simplify_eq; try done.
      * by destruct (Hfree i2).
      * by destruct (Hfree i1).
      * by eapply Hu.
    + split_and!; [|intros i Hi; specialize (Hl i Hi); lia|intros i Hi; apply Hst; lia]. intros i. rewrite lookup_insert. case_decide; [lia|].
      intros Hi%Hn. lia.
    + intros u v id. destruct (decide (u = s)) as [->|], (decide (v = s)) as [->|];
        rewrite ?fn_lookup_insert, ?fn_lookup_insert_ne by done; [done| | |apply Hm].
      * intros [= <-] E. apply Hfr in E. lia.
      * intros E [= <-]. apply Hfr in E. lia.
    + intros u id. destruct (decide (u = s)) as [->|]; rewrite ?fn_lookup_insert, ?fn_lookup_insert_ne by done; [intros [= <-]; lia|].
      intros E%Hfr. lia.
    + intros u. destruct (decide (u = s)) as [->|Hne].
      * rewrite !fn_lookup_insert. simpl. exists N. rewrite lookup_insert_eq. split_and!; [done|done| |apply Hst; lia].
        intros Hin%Hl. lia.
      * rewrite !fn_lookup_insert_ne by done. apply pc_ok_insert; [done| |apply Hf]. intros k E. destruct Hne.
        assert (O = Some u) as E1 by (apply Ho; by rewrite E). assert (O = Some s) as E2 by (apply Ho; by rewrite H). congruence.
    + done.
  - destruct Hp as [_ Hp]. by destruct (Hp id).
  - eapply create_inv_job; [|right; right; rewrite H; by destruct b|exact Hi]. by destruct b.
  - destruct Hp as (i & Hm & Hr & Hl & He). assert (i = id) as -> by by eapply (i_unique _ Hi).
    eapply create_inv_job; [|left; by rewrite H|exact Hi]. simpl. split_and!; [done|by exists n|done|done].
  - destruct Hp as (i & _ & Hr & _). by destruct (H0 i).
  - eapply create_inv_job; [|left; by rewrite H|exact Hi]. destruct Hp as (Hm & Hr & Hl & He). simpl. by rewrite He.
  - destruct Hp as (_ & [k Hk] & _). congruence.
  - destruct Hi as [Ho Hu (Hn & Hl & Hst) Hm Hfr Hf He], Hp as (Hmine & Hid & Hrow). simpl in *. split; simpl.
    + eapply owner_move; [done|]. left. by rewrite H.
    + done.
    + split_and!; [done| |done]. intros i [->%elem_of_singleton|Hin]%elem_of_union; [by eapply Hfr|by apply Hl].
    + intros u v i. destruct (decide (u = s)) as [->|], (decide (v = s)) as [->|];
        rewrite ?fn_lookup_insert, ?fn_lookup_insert_ne by done; try done. apply Hm.
    + intros u i. destruct (decide (u = s)) as [->|]; rewrite ?fn_lookup_insert, ?fn_lookup_insert_ne by done; [done|apply Hfr].
    + intros u. destruct (decide (u = s)) as [->|Hne]; [by rewrite !fn_lookup_insert|].
      rewrite !fn_lookup_insert_ne by done. apply pc_ok_list; [|apply Hf]. intros E. by destruct Hne; eapply Hm.
    + intros i H1 H2. destruct (He i H1 H2) as [[? ?]|?]; [left|by right]. set_solver.
  - eapply create_inv_job; [done|left; by rewrite H|exact Hi].
Qed.

(** The removal of a room goes on. *)
Lemma ends_inv id g R R' N L L' O f m e V V' :
  inv (mk R N L O f m e V) → (∀ i, i ≠ id → R' !! i = R !! i) → R' ⊆ R → L' ⊆ L → (∀ i, i ≠ id → i ∈ L → i ∈ L') → V ⊆ V' →
  id < N → g ≠ Standing → (g = Deleting → e id = Standing ∧ R' = R) →
  (∀ s, e id = Standing → m s = Some id → f s = CAddRoom id) → (id ∉ L → g ≠ Removed) →
  (g ≠ Removed → (id ∈ L' ∧ g ≠ Failed) ∨ id ∈ V') →
  inv (mk R' N L' O f m (<[id := g]> e) V').
Proof.
  intros [Ho Hu (Hn & Hl & Hst) Hm Hfr Hf He] HR HRs HL HL' HV HN Hg Hd Hmine Hrem Hend. simpl in *. split; simpl; try done.
  - intros i1 i2 k H1 H2. apply (Hu i1 i2 k); by eapply lookup_weaken.
  - split_and!.
    + intros i [k Hk]. apply Hn. exists k. by eapply lookup_weaken.
    + intros i Hi. apply Hl. by apply HL.
    + intros i Hi. rewrite fn_lookup_insert_ne by lia. by apply Hst.
  - intros u. eapply pc_ok_ends; [exact HR| |exact HL|exact (Hmine u)| |intros E; by destruct (Hd E)|exact Hg|apply Hf].
    + intros n Hfree i Hi. apply (Hfree i). by eapply lookup_weaken.
    + intros _ Hid. specialize (Hrem Hid). destruct g; try done. destruct (Hd eq_refl) as [_ ->]. done.
  - intros i. destruct (decide (i = id)) as [->|Hi].
    + rewrite fn_lookup_insert. intros _ H2. by apply Hend.
    + rewrite fn_lookup_insert_ne by done. intros H1 H2. destruct (He i H1 H2) as [[? ?]|?]; [left|right]; auto.
Qed.

Lemma destroy_inv x y : destroy_step x y → inv x → inv y.
Proof.
  intros Hs Hi. destruct Hs as [id R N L O f m e V Hin He|s id R N L O f m e V Hs He|id R N L O f m e V He|id R N L O f m e V He Hin|id R N L O f m e V He Hin].
  - eapply ends_inv; try exact Hi; try done; [by apply (i_next _ Hi)| |by left]. intros u _ Hm. pose proof (i_pc _ Hi u) as Hp. simpl in Hp, Hm.
    rewrite Hm in Hp. by apply pc_ok_mine in Hp as [? _].
  - pose proof (i_pc _ Hi s) as Hp. simpl in Hp. rewrite Hs in Hp. destruct Hp as (Hm & Hl & _).
    eapply ends_inv; try exact Hi; try done; [set_solver|by apply (i_fresh _ Hi s)| |set_solver].
    intros u _ Hu. by rewrite (i_mine _ Hi u s id Hu Hm).
  - assert (id < N).
    { destruct (decide (id < N)); [done|]. destruct (i_next _ Hi) as (_ & _ & K). simpl in K. rewrite K in He; [done|lia]. }
    eapply ends_inv; try exact Hi; try done.
    + intros i Hne. by rewrite lookup_delete_ne.
    + apply delete_subseteq.
    + intros u E. congruence.
    + intros _. destruct (i_ends _ Hi id) as [[? _]|?]; simpl in *; [congruence|congruence|by left|by right].
  - assert (id < N) by (by apply (i_next _ Hi)). eapply ends_inv; try exact Hi; try done; [set_solver|set_solver|].
    intros u E. congruence.
  - assert (id < N).
    { destruct (decide (id < N)); [done|]. destruct (i_next _ Hi) as (_ & _ & K). simpl in K. rewrite K in He; [done|lia]. }
    eapply ends_inv; try exact Hi; try done; [intros u E; congruence|].
    intros _. right. destruct (i_ends _ Hi id) as [[? _]|?]; simpl in *; [congruence|congruence|done|done].
Qed.

Lemma create_reachable x : rtc step init x → inv x.
Proof.
  intros H. eapply rtc_invariant; [|done|].
  - intros a b [s Hs|Hs]; [by eapply create_step_inv|by apply destroy_inv].
  - split; simpl; try done. split_and!; [intros id [n Hn]; by rewrite lookup_empty in Hn|set_solver|done].
Qed.

(** Session [s] has inserted the row [id] and its room is not yet known. *)
Definition creating (x : st) (s : nat) (id : Z) : Prop := mine x s = Some id.

(** C16: rooms of the same name are never created twice.  In every interleaving of
    creations, removals of rooms and lost connections, no creation stops the server:
    the [INSERT] never meets a row of that name, the second [SELECT] finds the new row
    and the account can refer to it.  No two rooms have the same name; a room that is
    being created belongs to one session and is not yet listed, and its row stays
    until [AddRoom] unless the creator's own connection is lost after [SetRoom]; and
    only in that case can the assertion of [RemoveRoom] fail. *)
Theorem concurrent_create_safe x :
  rtc step init x →
  (∀ s, pcs x s ≠ Crashed) ∧
  (∀ id1 id2 n, named (rows x) n id1 → named (rows x) n id2 → id1 = id2) ∧
  (∀ s u id, creating x s id → creating x u id → s = u) ∧
  (∀ s id, creating x s id → id ∉ _rooms x ∧ ((∃ n, named (rows x) n id) ∨ pcs x s = CAddRoom id ∧ id ∈ overtaken x)) ∧
  ∀ id, ends x id = Failed → id ∈ overtaken x.
Proof.
  intros Hi%create_reachable. split_and!.
  - intros s E. pose proof (i_pc x Hi s) as Hp. by rewrite E in Hp.
  - apply (i_unique x Hi).
  - apply (i_mine x Hi).
  - intros s id E. pose proof (i_pc x Hi s) as Hp. unfold creating in E. rewrite E in Hp.
    apply pc_ok_mine in Hp as (Hl & Hr & [[n Hn]|[Hp Hs]]); (split; [done|]); [left; by exists n|right].
    split; [done|]. by destruct (i_ends x Hi id Hs Hr) as [[? _]|].
  - intros id E. destruct (i_ends x Hi id) as [[_ ?]|?]; rewrite ?E in *; done.
Qed.

(** Two creations of the same name: session 0 has inserted its row and has left the
    lock, session 1 is refused. *)
Lemma run_two_creations :
  ∃ x, rtc step init x ∧ pcs x 0%nat = CSelectId [97] ∧ pcs x 1%nat = CSend false ∧ creating x 0 1.
Proof.
  eexists. split.
  - eapply rtc_l; [eapply (step_create _ _ 0), (c_start _ [97]); reflexivity|].
    eapply rtc_l; [eapply (step_create _ _ 1), (c_start _ [97]); reflexivity|].
    eapply rtc_l; [eapply (step_create _ _ 0), c_lock; reflexivity|].
    eapply rtc_l; [eapply (step_create _ _ 0), c_select_free; [reflexivity|intros id; unfold named; by rewrite lookup_empty]|].
    eapply rtc_l; [eapply (step_create _ _ 0), c_insert; [reflexivity|intros id; unfold named; by rewrite lookup_empty]|].
    eapply rtc_l; [eapply (step_create _ _ 0), c_unlock; reflexivity|].
    eapply rtc_l; [eapply (step_create _ _ 1), c_lock; reflexivity|].
    eapply rtc_l; [eapply (step_create _ _ 1), (c_select_found _ _ 1); reflexivity|].
    eapply rtc_l; [eapply (step_create _ _ 1), c_unlock; reflexivity|]. apply rtc_refl.
  - split_and!; reflexivity.
Qed.

(** A creator whose connection is lost between [SetRoom] and [AddRoom] can fail the
    assertion of [RemoveRoom], from every state in which it is there. *)
Lemma overtaken_creation_crashes x s id :
  rtc step init x → pcs x s = CAddRoom id → ends x id = Standing → ∃ y, rtc step x y ∧ ends y id = Failed.
Proof.
  intros Hi%create_reachable Hs He. pose proof (i_pc x Hi s) as Hp. rewrite Hs in Hp. destruct Hp as (_ & Hl & _).
  destruct x as [R N L O f m e V]. simpl in *. eexists. split.
  - eapply rtc_l; [apply step_destroy, (x_lost s id); [exact Hs|exact He]|].
    eapply rtc_l; [apply step_destroy, (x_delete id), fn_lookup_insert|].
    eapply rtc_l; [apply step_destroy, (x_remove_fails id); [apply fn_lookup_insert|exact Hl]|]. apply rtc_refl.
  - apply fn_lookup_insert.
Qed.

Lemma concurrent_create_safe_witness :
  ∃ x, rtc step init x ∧ pcs x 1%nat = CSend false ∧ creating x 0 1 ∧ 1 ∉ _rooms x ∧ ∃ n, named (rows x) n 1.
Proof.
  destruct run_two_creations as (x & Hx & H0 & H1 & Hc). exists x. destruct (concurrent_create_safe x Hx) as (_ & _ & _ & K & _).
  destruct (K 0%nat 1 Hc) as [Hl [Hn|[Hn _]]]; [|congruence]. split_and!; done.
Defined.

End CreateRace.
