(* ===== verification/CallbackRace.v ===== *)
(** * CallbackRace: requests of the client and their callbacks
      (Client/ContentsService.h [RequestService], Model.h [ResponseQ])

    One [RequestService<T>]: the dialog's thread sets [_callback], without the lock,
    and sends the request; the thread that receives the answer puts its data into
    the queue of the model, calls [_callback], which posts a message to the dialog,
    and then sets [_callback] to null.  The dialog's thread takes one item from the
    queue per message.  One step per access; answers are handled one at a time, as
    the connection delivers them.  Data are counted, not distinguished. *)

From S2P Require Import Prelude.
#[local] Open Scope nat_scope.

Module CallbackRace.

(** The thread of the dialog and the thread that executes an answer. *)
Inductive upc : Type := U_idle | U_send.
Inductive wpc : Type := W_idle | W_call | W_clear.

Record st : Type := mk {
  _callback : bool;
  inflight : nat;
  _lockQueue : nat;
  posted : nat;
  ui : upc;
  worker : wpc
}.

Definition init : st := mk false 0 0 0 U_idle W_idle.

(** [RequestService(pkt, callback)] and the handling of a message. *)
Inductive ui_step : st → st → Prop :=
| u_set c i q p w : ui_step (mk c i q p U_idle w) (mk true i q p U_send w)
| u_send c i q p w : ui_step (mk c i q p U_send w) (mk c (S i) q p U_idle w)
| u_message c i q p w : ui_step (mk c i (S q) (S p) U_idle w) (mk c i q p U_idle w).

(** The handler of an answer: the constructor of the model, then [Execute]. *)
Inductive worker_step : st → st → Prop :=
| w_recv c i q p u : worker_step (mk c (S i) q p u W_idle) (mk c i (S q) p u W_call)
| w_call i q p u : worker_step (mk true i q p u W_call) (mk true i q (S p) u W_clear)
| w_no_call i q p u : worker_step (mk false i q p u W_call) (mk false i q p u W_clear)
| w_clear c i q p u : worker_step (mk c i q p u W_clear) (mk false i q p u W_idle).

Definition step (s s' : st) : Prop := ui_step s s' ∨ worker_step s s'.

(** A user who waits: no request while an answer is on its way or being handled. *)
Definition patient (s s' : st) : Prop :=
  step s s' ∧ (ui s = U_idle → ui s' = U_send → inflight s = 0 ∧ worker s = W_idle).

Definition inv (s : st) : Prop :=
  match worker s, ui s with
  | W_idle, U_send => inflight s = 0 ∧ _callback s = true ∧ _lockQueue s = posted s
  | W_idle, U_idle => inflight s ≤ 1 ∧ (inflight s = 1 → _callback s = true) ∧ _lockQueue s = posted s
  | W_call, U_idle => inflight s = 0 ∧ _callback s = true ∧ _lockQueue s = S (posted s)
  | W_clear, U_idle => inflight s = 0 ∧ _lockQueue s = posted s
  | _, U_send => False
  end.

(** With one request at a time every answer has its message: what is in the queue
    when no answer is being handled are the data of the messages that wait. *)
Lemma patient_answers_notified s :
  rtc patient init s → worker s = W_idle → _lockQueue s = posted s.
Proof.
  intros H Hw. assert (inv s) as Hi.
  { eapply (rtc_invariant _ inv); [|exact H|]; [|split; [simpl; lia|done]].
    intros a b [Hs Hp] Hi. destruct Hs as [Hs|Hs]; destruct Hs; unfold inv in *; simpl in *.
    - destruct (Hp eq_refl eq_refl) as [-> ->]. naive_solver.
    - destruct w; [|done|done]. naive_solver lia.
    - destruct w; naive_solver lia.
    - destruct u; [naive_solver lia|]. by destruct Hi.
    - destruct u; naive_solver lia.
    - destruct u; naive_solver.
    - destruct u; [naive_solver lia|done]. }
  unfold inv in Hi. rewrite Hw in Hi. destruct (ui s); naive_solver.
Qed.

(** An impatient one can lose an answer: a request that is made between the call of
    the callback and its removal loses its own callback.  Its answer arrives, its
    data stay in the queue and no message is posted for them. *)
Lemma callback_lost :
  ∃ s, rtc step init s ∧ inflight s = 0 ∧ worker s = W_idle ∧ ui s = U_idle ∧ posted s = 0 ∧ _lockQueue s = 1.
Proof.
  eexists. split.
  - eapply rtc_l; [left; apply u_set|]. eapply rtc_l; [left; apply u_send|].
    eapply rtc_l; [right; apply w_recv|]. eapply rtc_l; [right; apply w_call|].
    eapply rtc_l; [left; apply u_message|]. eapply rtc_l; [left; apply u_set|]. eapply rtc_l; [left; apply u_send|].
    eapply rtc_l; [right; apply w_clear|]. eapply rtc_l; [right; apply w_recv|].
    eapply rtc_l; [right; apply w_no_call|]. eapply rtc_l; [right; apply w_clear|]. apply rtc_refl.
  - split_and!; reflexivity.
Qed.

End CallbackRace.
